(** * Cardano pooling simulator: the decision and equilibrium engine

    A shallow embedding of [logic/stakeholder.py] and [logic/sim.py].

    Conventions of the embedding.
    - Python floats and ints used as quantities (stake, utility, margin) are
      exact rationals [Q]; equality of quantities is [Qeq].  Counters, ids
      and era indices are [Z].
    - A Python [dict] is an association list in insertion order ([Dict]):
      assignment to a present key keeps its position, a new key goes last.
    - A raised exception is a value of [Exn].  Code that only reads returns
      [Result A]; code that mutates the model runs in [M A], a state monad in
      which the state survives an exception, as the Python heap does.
    - What lives in modules that are not part of the two files (the reward
      helpers of [logic.helper], the desirability queries of [logic.pool], the
      iteration order of a [set]) is a field of [Env], over which everything
      is parametrised. *)

From Stdlib Require Import ZArith QArith Qround Qminmax List String Bool Lia Lqa.
From Stdlib Require Import Permutation Sorted.
Import ListNotations.

Local Open Scope Q_scope.

(** ** Exceptions and results *)

Inductive Exn : Type :=
| KeyError (key : Z)
| KeyErrorName (key : string)
| IndexError
| ValueError (msg : string)
| AttributeError
| ZeroDivisionError
| TypeError
| NameError (name : string)
| PoolNotFoundError (player : Z) (pool : Z).

Definition Result (A : Type) : Type := (Exn + A)%type.

Definition ok {A} (a : A) : Result A := inr a.
Definition raise {A} (e : Exn) : Result A := inl e.

Definition rbind {A B} (r : Result A) (f : A -> Result B) : Result B :=
  match r with
  | inl e => inl e
  | inr a => f a
  end.

Declare Scope result_scope.
Delimit Scope result_scope with result.
Notation "'let?' x ':=' r 'in' k" := (rbind r (fun x => k))
  (at level 10, x pattern, r at level 100, k at level 200) : result_scope.
Local Open Scope result_scope.

(** Left fold of a fallible body: a [for] loop that an exception leaves. *)
Fixpoint rfold {A B} (f : A -> B -> Result A) (l : list B) (a : A) : Result A :=
  match l with
  | [] => ok a
  | b :: l' => let? a' := f a b in rfold f l' a'
  end.

(** ** Numbers *)

Definition Qltb (a b : Q) : bool := negb (Qle_bool b a).

(** [max(a, b)] and [min(a, b)] return the first argument on a tie. *)
Definition py_max (a b : Q) : Q := if Qltb a b then b else a.
Definition py_min (a b : Q) : Q := if Qltb b a then b else a.

(** [a / b] raises [ZeroDivisionError] when [b] is zero. *)
Definition py_div (a b : Q) : Result Q :=
  if Qeq_bool b 0 then raise ZeroDivisionError else ok (a / b).

(** [int(x)] truncates towards zero. *)
Definition py_int (x : Q) : Z := Z.quot (Qnum x) (Zpos (Qden x)).

(** [round(x, 12)]: to twelve decimals, halves to the even neighbour. *)
Definition round_half_even (x : Q) : Z :=
  let f := Qfloor x in
  let r := x - inject_Z f in
  if Qltb r (1 # 2) then f
  else if Qltb (1 # 2) r then (f + 1)%Z
  else if Z.even f then f else (f + 1)%Z.

Definition py_round12 (x : Q) : Q :=
  inject_Z (round_half_even (x * inject_Z (10 ^ 12))) / inject_Z (10 ^ 12).

Definition py_sum (l : list Q) : Q := fold_left Qplus l 0.

(** ** Dictionaries *)

Definition Dict (V : Type) : Type := list (Z * V).

Fixpoint dict_get {V} (k : Z) (d : Dict V) : option V :=
  match d with
  | [] => None
  | (k', v) :: d' => if Z.eqb k k' then Some v else dict_get k d'
  end.

Definition dict_mem {V} (k : Z) (d : Dict V) : bool :=
  match dict_get k d with Some _ => true | None => false end.

(** [d[k] = v] *)
Fixpoint dict_set {V} (k : Z) (v : V) (d : Dict V) : Dict V :=
  match d with
  | [] => [(k, v)]
  | (k', v') :: d' => if Z.eqb k k' then (k, v) :: d' else (k', v') :: dict_set k v d'
  end.

(** [del d[k]] for a key known to be present. *)
Definition dict_remove {V} (k : Z) (d : Dict V) : Dict V :=
  filter (fun kv => negb (Z.eqb k (fst kv))) d.

(** [d[k]] *)
Definition dict_lookup {V} (k : Z) (d : Dict V) : Result V :=
  match dict_get k d with
  | Some v => ok v
  | None => raise (KeyError k)
  end.

(** [d.pop(k)] without a default. *)
Definition dict_pop {V} (k : Z) (d : Dict V) : Result (Dict V) :=
  if dict_mem k d then ok (dict_remove k d) else raise (KeyError k).

Definition dict_keys {V} (d : Dict V) : list Z := map fst d.
Definition dict_values {V} (d : Dict V) : list V := map snd d.

(** [a | b]: the entries of [a], overridden and then extended by those of [b]. *)
Definition dict_union {V} (a b : Dict V) : Dict V :=
  fold_left (fun d kv => dict_set (fst kv) (snd kv) d) b a.

(** The keys of [a] that are not keys of [b] ([set(a) - set(b)]). *)
Definition keys_minus {V W} (a : Dict V) (b : Dict W) : list Z :=
  filter (fun k => negb (dict_mem k b)) (dict_keys a).

(** ** Data model *)

(** [logic.pool.Pool]: the fields the two files read and write. *)
Module Pool.

Record t : Type := make {
  id : Z;
  owner : Z;
  pledge : Q;
  margin : Q;
  stake : Q;
  cost : Q;
  is_private : bool;
  delegators : Dict Q;
  potential_profit : Q
}.

Definition set_margin (m : Q) (p : t) : t :=
  make (id p) (owner p) (pledge p) m (stake p) (cost p) (is_private p)
       (delegators p) (potential_profit p).

Definition set_stake (s : Q) (p : t) : t :=
  make (id p) (owner p) (pledge p) (margin p) s (cost p) (is_private p)
       (delegators p) (potential_profit p).

Definition set_pledge (x : Q) (p : t) : t :=
  make (id p) (owner p) x (margin p) (stake p) (cost p) (is_private p)
       (delegators p) (potential_profit p).

Definition set_cost (c : Q) (p : t) : t :=
  make (id p) (owner p) (pledge p) (margin p) (stake p) c (is_private p)
       (delegators p) (potential_profit p).

Definition set_is_private (b : bool) (p : t) : t :=
  make (id p) (owner p) (pledge p) (margin p) (stake p) (cost p) b
       (delegators p) (potential_profit p).

Definition set_delegators (d : Dict Q) (p : t) : t :=
  make (id p) (owner p) (pledge p) (margin p) (stake p) (cost p) (is_private p)
       d (potential_profit p).

Definition set_potential_profit_value (x : Q) (p : t) : t :=
  make (id p) (owner p) (pledge p) (margin p) (stake p) (cost p) (is_private p)
       (delegators p) x.

(** Modelled from the spec: [Pool.update_delegation(stake, delegator_id)] of
    [logic/pool.py], which "mutates the pool's stake and the delegator's
    entry, removing the entry if it reaches zero, fails if resulting
    delegator stake would go negative". *)
Definition update_delegation (p : t) (dstake : Q) (delegator_id : Z) : Result t :=
  let previous := match dict_get delegator_id (delegators p) with
                  | Some a => a
                  | None => 0
                  end in
  let amount := previous + dstake in
  if Qltb amount 0 then raise (ValueError "Negative delegation.")
  else
    let d := if Qeq_bool amount 0
             then dict_remove delegator_id (delegators p)
             else dict_set delegator_id amount (delegators p) in
    ok (set_delegators d (set_stake (stake p + dstake) p)).

End Pool.

(** [logic.strategy.Strategy] *)
Module Strategy.

Record t : Type := make {
  is_pool_operator : bool;
  pledges : list Q;
  margins : list Q;
  stake_allocations : Dict Q;
  num_pools : Z;
  owned_pools : Dict Pool.t
}.

(** Modelled from the spec: the constructor's defaults in [logic/strategy.py]
    ("a delegator with no allocated stake": no pledges, no margins, no pools). *)
Definition delegator (allocations : Dict Q) : t :=
  make false [] [] allocations 0 [].

Definition set_stake_allocations (a : Dict Q) (s : t) : t :=
  make (is_pool_operator s) (pledges s) (margins s) a (num_pools s) (owned_pools s).

End Strategy.

(** The attributes of a [Stakeholder]. *)
Module Stakeholder.

Record t : Type := make {
  unique_id : Z;
  cost : Q;
  stake : Q;
  isMyopic : bool;
  abstains : bool;
  remaining_min_steps_to_keep_pool : Z;
  new_strategy : option Strategy.t;
  strategy : Strategy.t
}.

Definition set_new_strategy (s : option Strategy.t) (a : t) : t :=
  make (unique_id a) (cost a) (stake a) (isMyopic a) (abstains a)
       (remaining_min_steps_to_keep_pool a) s (strategy a).

Definition set_strategy (s : Strategy.t) (a : t) : t :=
  make (unique_id a) (cost a) (stake a) (isMyopic a) (abstains a)
       (remaining_min_steps_to_keep_pool a) (new_strategy a) s.

(** [Stakeholder(unique_id, model, stake, is_myopic, is_abstainer, cost)] with
    [strategy=None]: a delegator with no allocated stake. *)
Definition create (unique_id : Z) (stake : Q) (is_myopic is_abstainer : bool) (cost : Q) : t :=
  make unique_id cost stake is_myopic is_abstainer 0 None (Strategy.delegator []).

End Stakeholder.

(** The attributes of a [Simulation].  The fourteen [extra_fields] that
    [__init__] installs with [setattr] and [adjust_params] may override are
    [k] and the fields of [attrs]. *)
Module Simulation.

Record attrs : Type := make_attrs {
  n : Z;
  alpha : Q;
  myopic_fraction : Q;
  relative_utility_threshold : Q;
  absolute_utility_threshold : Q;
  min_steps_to_keep_pool : Z;
  pool_splitting : bool;
  max_iterations : Z;
  cost_factor : Q;
  agent_activation_order : string;
  extra_cost_type : string;
  reward_function_option : Z;
  generate_graphs : bool
}.

(** [adjustable_params]: the fields that were given as a list of per-era
    values; [None] for a field that is not a key of the dict.  The dict is
    filled in the order of [extra_fields], which is the order below. *)
Record adjustable : Type := make_adjustable {
  adj_n : option (list Z);
  adj_k : option (list Q);
  adj_alpha : option (list Q);
  adj_myopic_fraction : option (list Q);
  adj_relative_utility_threshold : option (list Q);
  adj_absolute_utility_threshold : option (list Q);
  adj_min_steps_to_keep_pool : option (list Z);
  adj_pool_splitting : option (list bool);
  adj_max_iterations : option (list Z);
  adj_cost_factor : option (list Q);
  adj_agent_activation_order : option (list string);
  adj_extra_cost_type : option (list string);
  adj_reward_function_option : option (list Z);
  adj_generate_graphs : option (list bool)
}.

(** [steps] is [schedule.steps] and [agents] is [schedule.agents] keyed by
    [unique_id] (what [get_agents_dict] returns; [stakeholder.py] calls it
    [get_players_dict], and reads [agent_activation_order] under the name
    [player_activation_order]).  [common_cost] and [pool_owner_id_mapping]
    are attributes that [stakeholder.py] reads and writes on its model. *)
Record t : Type := make {
  attr : attrs;
  k : Z;
  adjustable_params : adjustable;
  current_era : nat;
  total_eras : nat;
  running : bool;
  steps : Z;
  agents : Dict Stakeholder.t;
  total_stake : Q;
  perceived_active_stake : Q;
  beta : Q;
  consecutive_idle_steps : Z;
  current_step_idle : bool;
  min_consecutive_idle_steps_for_convergence : Z;
  pools : Dict Pool.t;
  revision_frequency : Z;
  id_seq : Z;
  equilibrium_steps : list Z;
  pivot_steps : list Z;
  common_cost : Q;
  pool_owner_id_mapping : Dict Z
}.

Definition set_attr (x : attrs) (s : t) : t :=
  make x (k s) (adjustable_params s) (current_era s) (total_eras s) (running s)
       (steps s) (agents s) (total_stake s) (perceived_active_stake s) (beta s)
       (consecutive_idle_steps s) (current_step_idle s)
       (min_consecutive_idle_steps_for_convergence s) (pools s) (revision_frequency s)
       (id_seq s) (equilibrium_steps s) (pivot_steps s) (common_cost s)
       (pool_owner_id_mapping s).

Definition set_k (x : Z) (s : t) : t :=
  make (attr s) x (adjustable_params s) (current_era s) (total_eras s) (running s)
       (steps s) (agents s) (total_stake s) (perceived_active_stake s) (beta s)
       (consecutive_idle_steps s) (current_step_idle s)
       (min_consecutive_idle_steps_for_convergence s) (pools s) (revision_frequency s)
       (id_seq s) (equilibrium_steps s) (pivot_steps s) (common_cost s)
       (pool_owner_id_mapping s).

Definition set_current_era (x : nat) (s : t) : t :=
  make (attr s) (k s) (adjustable_params s) x (total_eras s) (running s)
       (steps s) (agents s) (total_stake s) (perceived_active_stake s) (beta s)
       (consecutive_idle_steps s) (current_step_idle s)
       (min_consecutive_idle_steps_for_convergence s) (pools s) (revision_frequency s)
       (id_seq s) (equilibrium_steps s) (pivot_steps s) (common_cost s)
       (pool_owner_id_mapping s).

Definition set_running (x : bool) (s : t) : t :=
  make (attr s) (k s) (adjustable_params s) (current_era s) (total_eras s) x
       (steps s) (agents s) (total_stake s) (perceived_active_stake s) (beta s)
       (consecutive_idle_steps s) (current_step_idle s)
       (min_consecutive_idle_steps_for_convergence s) (pools s) (revision_frequency s)
       (id_seq s) (equilibrium_steps s) (pivot_steps s) (common_cost s)
       (pool_owner_id_mapping s).

Definition set_steps (x : Z) (s : t) : t :=
  make (attr s) (k s) (adjustable_params s) (current_era s) (total_eras s) (running s)
       x (agents s) (total_stake s) (perceived_active_stake s) (beta s)
       (consecutive_idle_steps s) (current_step_idle s)
       (min_consecutive_idle_steps_for_convergence s) (pools s) (revision_frequency s)
       (id_seq s) (equilibrium_steps s) (pivot_steps s) (common_cost s)
       (pool_owner_id_mapping s).

Definition set_agents (x : Dict Stakeholder.t) (s : t) : t :=
  make (attr s) (k s) (adjustable_params s) (current_era s) (total_eras s) (running s)
       (steps s) x (total_stake s) (perceived_active_stake s) (beta s)
       (consecutive_idle_steps s) (current_step_idle s)
       (min_consecutive_idle_steps_for_convergence s) (pools s) (revision_frequency s)
       (id_seq s) (equilibrium_steps s) (pivot_steps s) (common_cost s)
       (pool_owner_id_mapping s).

Definition set_perceived_active_stake (x : Q) (s : t) : t :=
  make (attr s) (k s) (adjustable_params s) (current_era s) (total_eras s) (running s)
       (steps s) (agents s) (total_stake s) x (beta s)
       (consecutive_idle_steps s) (current_step_idle s)
       (min_consecutive_idle_steps_for_convergence s) (pools s) (revision_frequency s)
       (id_seq s) (equilibrium_steps s) (pivot_steps s) (common_cost s)
       (pool_owner_id_mapping s).

Definition set_beta (x : Q) (s : t) : t :=
  make (attr s) (k s) (adjustable_params s) (current_era s) (total_eras s) (running s)
       (steps s) (agents s) (total_stake s) (perceived_active_stake s) x
       (consecutive_idle_steps s) (current_step_idle s)
       (min_consecutive_idle_steps_for_convergence s) (pools s) (revision_frequency s)
       (id_seq s) (equilibrium_steps s) (pivot_steps s) (common_cost s)
       (pool_owner_id_mapping s).

Definition set_consecutive_idle_steps (x : Z) (s : t) : t :=
  make (attr s) (k s) (adjustable_params s) (current_era s) (total_eras s) (running s)
       (steps s) (agents s) (total_stake s) (perceived_active_stake s) (beta s)
       x (current_step_idle s)
       (min_consecutive_idle_steps_for_convergence s) (pools s) (revision_frequency s)
       (id_seq s) (equilibrium_steps s) (pivot_steps s) (common_cost s)
       (pool_owner_id_mapping s).

Definition set_current_step_idle (x : bool) (s : t) : t :=
  make (attr s) (k s) (adjustable_params s) (current_era s) (total_eras s) (running s)
       (steps s) (agents s) (total_stake s) (perceived_active_stake s) (beta s)
       (consecutive_idle_steps s) x
       (min_consecutive_idle_steps_for_convergence s) (pools s) (revision_frequency s)
       (id_seq s) (equilibrium_steps s) (pivot_steps s) (common_cost s)
       (pool_owner_id_mapping s).

Definition set_pools (x : Dict Pool.t) (s : t) : t :=
  make (attr s) (k s) (adjustable_params s) (current_era s) (total_eras s) (running s)
       (steps s) (agents s) (total_stake s) (perceived_active_stake s) (beta s)
       (consecutive_idle_steps s) (current_step_idle s)
       (min_consecutive_idle_steps_for_convergence s) x (revision_frequency s)
       (id_seq s) (equilibrium_steps s) (pivot_steps s) (common_cost s)
       (pool_owner_id_mapping s).

Definition set_id_seq (x : Z) (s : t) : t :=
  make (attr s) (k s) (adjustable_params s) (current_era s) (total_eras s) (running s)
       (steps s) (agents s) (total_stake s) (perceived_active_stake s) (beta s)
       (consecutive_idle_steps s) (current_step_idle s)
       (min_consecutive_idle_steps_for_convergence s) (pools s) (revision_frequency s)
       x (equilibrium_steps s) (pivot_steps s) (common_cost s)
       (pool_owner_id_mapping s).

Definition set_equilibrium_steps (x : list Z) (s : t) : t :=
  make (attr s) (k s) (adjustable_params s) (current_era s) (total_eras s) (running s)
       (steps s) (agents s) (total_stake s) (perceived_active_stake s) (beta s)
       (consecutive_idle_steps s) (current_step_idle s)
       (min_consecutive_idle_steps_for_convergence s) (pools s) (revision_frequency s)
       (id_seq s) x (pivot_steps s) (common_cost s)
       (pool_owner_id_mapping s).

Definition set_pivot_steps (x : list Z) (s : t) : t :=
  make (attr s) (k s) (adjustable_params s) (current_era s) (total_eras s) (running s)
       (steps s) (agents s) (total_stake s) (perceived_active_stake s) (beta s)
       (consecutive_idle_steps s) (current_step_idle s)
       (min_consecutive_idle_steps_for_convergence s) (pools s) (revision_frequency s)
       (id_seq s) (equilibrium_steps s) x (common_cost s)
       (pool_owner_id_mapping s).

Definition set_pool_owner_id_mapping (x : Dict Z) (s : t) : t :=
  make (attr s) (k s) (adjustable_params s) (current_era s) (total_eras s) (running s)
       (steps s) (agents s) (total_stake s) (perceived_active_stake s) (beta s)
       (consecutive_idle_steps s) (current_step_idle s)
       (min_consecutive_idle_steps_for_convergence s) (pools s) (revision_frequency s)
       (id_seq s) (equilibrium_steps s) (pivot_steps s) (common_cost s)
       x.

End Simulation.

(** ** What the two files import *)

(** The functions of [logic.helper] and the queries of [logic.pool.Pool]
    that the engine calls, and the order in which a [for] loop visits a
    [set] of ints (given its members in insertion order), which the
    language leaves unspecified. *)
Record Env : Type := make_env {
  calculate_potential_profit : Q -> Q -> Q -> Q -> Q;
  calculate_pool_reward : Q -> Q -> Q -> Q -> Q;
  calculate_pool_stake_NM : Z -> Dict Pool.t -> Q -> Z -> Q;
  calculate_ranks : Dict Q -> Dict Z;
  calculate_desirability : Pool.t -> Q;
  calculate_myopic_desirability : Pool.t -> Q -> Q -> Q;
  set_iteration : list Z -> list Z
}.

(** ** The model as mutable state *)

Definition M (A : Type) : Type := Simulation.t -> Result A * Simulation.t.

Definition mret {A} (a : A) : M A := fun s => (ok a, s).

Definition mbind {A B} (c : M A) (f : A -> M B) : M B :=
  fun s => match c s with
           | (inl e, s') => (inl e, s')
           | (inr a, s') => f a s'
           end.

Definition mraise {A} (e : Exn) : M A := fun s => (raise e, s).

(** A computation that reads the model and may raise. *)
Definition reading {A} (f : Simulation.t -> Result A) : M A := fun s => (f s, s).

Definition modify (f : Simulation.t -> Simulation.t) : M unit := fun s => (ok tt, f s).

Declare Scope model_scope.
Delimit Scope model_scope with model.
Notation "'let*' x ':=' c 'in' k" := (mbind c (fun x => k))
  (at level 10, x pattern, c at level 100, k at level 200) : model_scope.

Fixpoint mfold {A B} (f : A -> B -> M A) (l : list B) (a : A) : M A :=
  match l with
  | [] => mret a
  | b :: l' => mbind (f a b) (mfold f l')
  end.

(** ** Python built-ins used by the engine *)

(** [max(d, key=f)] over the keys of a dict: the first entry whose key value
    no later entry strictly exceeds. *)
Fixpoint max_from {A} (lt : A -> A -> bool) (best : A) (l : list A) : A :=
  match l with
  | [] => best
  | x :: l' => max_from lt (if lt best x then x else best) l'
  end.

Definition py_max_by {A} (lt : A -> A -> bool) (l : list A) : Result A :=
  match l with
  | [] => raise (ValueError "max() arg is an empty sequence")
  | x :: l' => ok (max_from lt x l')
  end.

(** Tuples [(desirability, stake)] compare lexicographically. *)
Definition tuple_lt (a b : Q * Q) : bool :=
  if Qeq_bool (fst a) (fst b) then Qltb (snd a) (snd b) else Qltb (fst a) (fst b).

(** [sorted(l, key=..., reverse=True)]: descending, entries with equal keys
    in their original order. *)
Fixpoint insert_desc {A} (lt : A -> A -> bool) (x : A) (l : list A) : list A :=
  match l with
  | [] => [x]
  | y :: l' => if lt x y then y :: insert_desc lt x l' else x :: l
  end.

Definition sorted_desc {A} (lt : A -> A -> bool) (l : list A) : list A :=
  fold_right (insert_desc lt) [] l.

(** A [set] of ints as the list of its members in insertion order. *)
Definition set_add (x : Z) (s : list Z) : list Z :=
  if existsb (Z.eqb x) s then s else s ++ [x].

Definition set_remove (x : Z) (s : list Z) : Result (list Z) :=
  if existsb (Z.eqb x) s then ok (filter (fun y => negb (Z.eqb x y)) s)
  else raise (KeyError x).

(** ** [logic/stakeholder.py] *)

Inductive Move : Type := current | delegator | operator.

Definition Move_eqb (a b : Move) : bool :=
  match a, b with
  | current, current | delegator, delegator | operator, operator => true
  | _, _ => false
  end.

(** [possible_moves]: move name to (utility, strategy), in insertion order. *)
Definition Moves : Type := list (Move * (Q * option Strategy.t)).

Fixpoint moves_get (key : Move) (pm : Moves) : option (Q * option Strategy.t) :=
  match pm with
  | [] => None
  | (key', v) :: pm' => if Move_eqb key key' then Some v else moves_get key pm'
  end.

Section StakeholderMethods.

Variable env : Env.

(** Modelled from the spec: the part of [Pool.__init__] of [logic/pool.py]
    that the engine relies on: a new pool holds its pledge as its only stake,
    has no delegators, and caches its potential profit. *)
Definition new_pool (pool_id : Z) (cost pledge : Q) (owner : Z) (alpha beta : Q)
    (is_private : bool) : Pool.t :=
  Pool.make pool_id owner pledge 0 pledge cost is_private []
            (calculate_potential_profit env pledge cost alpha beta).

(** Modelled from the spec: [Pool.set_potential_profit(alpha, beta)], the
    "cached recompute after pledge/cost change". *)
Definition set_potential_profit (alpha beta : Q) (p : Pool.t) : Pool.t :=
  Pool.set_potential_profit_value
    (calculate_potential_profit env (Pool.pledge p) (Pool.cost p) alpha beta) p.

Definition calculate_operator_utility_by_pool (self : Stakeholder.t) (model : Simulation.t)
    (pool : Pool.t) (all_pools : Dict Pool.t) : Result Q :=
  let alpha := Simulation.alpha (Simulation.attr model) in
  let beta := Simulation.beta model in
  let pledge := Pool.pledge pool in
  let stake_allocation := pledge in
  let m := Pool.margin pool in
  let pool_stake :=
    calculate_pool_stake_NM env (Pool.id pool) all_pools beta (Simulation.k model) in
  let r := calculate_pool_reward env pool_stake pledge alpha beta in
  let? q := py_div stake_allocation pool_stake in
  let u_0 := r - Stakeholder.cost self in
  let m_factor := m + ((1 - m) * q) in
  ok (if Qle_bool u_0 0 then u_0 else u_0 * m_factor).

Definition calculate_operator_utility_by_strategy (self : Stakeholder.t)
    (model : Simulation.t) (strategy : Strategy.t) : Result Q :=
  let potential_pools := Strategy.owned_pools strategy in
  let all_pools := dict_union (Simulation.pools model) potential_pools in
  rfold (fun utility pool =>
           let? u := calculate_operator_utility_by_pool self model pool all_pools in
           ok (utility + u))
        (dict_values potential_pools) 0.

(** [self.strategy.stake_allocations[pool.id] if pool.id in
    self.strategy.stake_allocations else 0] *)
Definition previous_allocation_to_pool (self : Stakeholder.t) (pool : Pool.t) : Q :=
  match dict_get (Pool.id pool) (Strategy.stake_allocations (Stakeholder.strategy self)) with
  | Some a => a
  | None => 0
  end.

Definition calculate_delegator_utility (self : Stakeholder.t) (model : Simulation.t)
    (pool : Pool.t) (stake_allocation : Q) : Result Q :=
  let alpha := Simulation.alpha (Simulation.attr model) in
  let beta := Simulation.beta model in
  let current_stake :=
    Pool.stake pool - previous_allocation_to_pool self pool + stake_allocation in
  let non_myopic_stake :=
    py_max (calculate_pool_stake_NM env (Pool.id pool) (Simulation.pools model)
              (Simulation.beta model) (Simulation.k model))
           current_stake in
  let pool_stake := if Stakeholder.isMyopic self then current_stake else non_myopic_stake in
  let r := calculate_pool_reward env pool_stake (Pool.pledge pool) alpha beta in
  let? q := py_div stake_allocation pool_stake in
  let m_factor := (1 - Pool.margin pool) * q in
  let u_0 := r - Pool.cost pool in
  let u := m_factor * u_0 in
  ok (py_max 0 u).

(** One pass of the loop over [strategy.stake_allocations.items()]. *)
Definition add_delegation_utility (self : Stakeholder.t) (model : Simulation.t)
    (utility : Q) (item : Z * Q) : Result Q :=
  let (pool_id, a) := item in
  if Qle_bool a 0 then ok utility
  else match dict_get pool_id (Simulation.pools model) with
       | Some pool =>
           let? u := calculate_delegator_utility self model pool a in
           ok (utility + u)
       | None => raise (PoolNotFoundError (Stakeholder.unique_id self) pool_id)
       end.

Definition calculate_utility (self : Stakeholder.t) (model : Simulation.t)
    (strategy : Strategy.t) : Result Q :=
  let? utility :=
    if Strategy.is_pool_operator strategy
    then let? u := calculate_operator_utility_by_strategy self model strategy in ok (0 + u)
    else ok 0 in
  rfold (add_delegation_utility self model) (Strategy.stake_allocations strategy) utility.

Definition has_potential_for_pool (self : Stakeholder.t) (model : Simulation.t) : bool :=
  let saturation_point := Simulation.beta model in
  let alpha := Simulation.alpha (Simulation.attr model) in
  let current_pools := dict_values (Simulation.pools model) in
  let potential_profit :=
    calculate_potential_profit env (Stakeholder.stake self) (Stakeholder.cost self)
                               alpha saturation_point in
  if Qltb (inject_Z (Z.of_nat (List.length current_pools)) * saturation_point)
          (Simulation.total_stake model)
  then Qltb 0 potential_profit
  else
    let existing_desirabilities := map (calculate_desirability env) current_pools in
    Qltb 0 potential_profit
    && existsb (fun desirability => Qltb desirability potential_profit) existing_desirabilities.

Definition calculate_pledges (self : Stakeholder.t) (model : Simulation.t) (num_pools : Z)
    : Result (list Q) :=
  if (num_pools <=? 0)%Z
  then raise (ValueError "Player tried to calculate pledge for zero or less pools.")
  else ok (repeat (py_min (Stakeholder.stake self / inject_Z num_pools) (Simulation.beta model))
                  (Z.to_nat num_pools)).

(** The search of [calculate_margin_binary_search].  [utility_at m] is the
    operator utility of [new_pool] with margin [m]; [all_pools] holds
    [new_pool] itself, so it sees every change of the margin. *)
Fixpoint bisect_margin (utility_at : Q -> Result Q) (depth : nat)
    (lower_bound mid upper_bound mid_utility : Q) : Result Q :=
  match depth with
  | O => ok mid
  | S depth' =>
      let new_margin := (lower_bound + mid) / 2 in
      let? new_utility := utility_at new_margin in
      let lower_bound' := if Qle_bool mid_utility new_utility then lower_bound else mid in
      let upper_bound' := if Qle_bool mid_utility new_utility then mid else upper_bound in
      let mid' := (lower_bound' + upper_bound') / 2 in
      let? mid_utility' := utility_at mid' in
      bisect_margin utility_at depth' lower_bound' mid' upper_bound' mid_utility'
  end.

Definition calculate_margin_binary_search (self : Stakeholder.t) (model : Simulation.t)
    (pool : Pool.t) (initial_margin : Q) : Result Q :=
  let utility_at := fun m =>
    let new_pool := Pool.set_margin m pool in
    let all_pools := dict_set (Pool.id new_pool) new_pool (Simulation.pools model) in
    calculate_operator_utility_by_pool self model new_pool all_pools in
  let max_depth := 5%nat in
  let lower_bound := 0 in
  let mid := initial_margin in
  let upper_bound := py_min (2 * mid - lower_bound) 1 in
  let? mid_utility := utility_at mid in
  bisect_margin utility_at max_depth lower_bound mid upper_bound mid_utility.

(** The loop of [determine_current_pools] that retires the worst-ranked pool
    [retiring_pools_num] times. *)
Fixpoint retire_pools (retiring_pools_num : nat) (owned_pools : Dict Pool.t)
    : Result (Dict Pool.t) :=
  match retiring_pools_num with
  | O => ok owned_pools
  | S i =>
      let desirabilities :=
        map (fun item => (fst item, calculate_desirability env (snd item))) owned_pools in
      let ranks := calculate_ranks env desirabilities in
      let? worst := py_max_by (fun a b => Z.ltb (snd a) (snd b)) ranks in
      let? owned_pools' := dict_pop (fst worst) owned_pools in
      retire_pools i owned_pools'
  end.

Definition determine_current_pools (self : Stakeholder.t) (num_pools : Z)
    : Result (Dict Pool.t) :=
  let owned_pools := Strategy.owned_pools (Stakeholder.strategy self) in
  let current := Strategy.num_pools (Stakeholder.strategy self) in
  if (num_pools <? current)%Z
  then retire_pools (Z.to_nat (current - num_pools)) owned_pools
  else ok owned_pools.

(** The first loop of [find_delegation_move_desirability]: a copy of the
    registry with the agent's own positive delegations taken out. *)
Definition without_own_delegations (self : Stakeholder.t) (model : Simulation.t)
    : Result (Dict Pool.t) :=
  rfold (fun pools item =>
           let (pool_id, allocation) := (item : Z * Q) in
           if Qltb 0 allocation then
             let? pool := dict_lookup pool_id pools in
             let? pool' := Pool.update_delegation pool (- allocation)
                                                  (Stakeholder.unique_id self) in
             ok (dict_set pool_id pool' pools)
           else ok pools)
        (Strategy.stake_allocations (Stakeholder.strategy self))
        (Simulation.pools model).

(** The dict comprehension [desirabilities_n_stakes]. *)
Definition desirabilities_n_stakes (self : Stakeholder.t) (model : Simulation.t)
    (pools_list : list Pool.t) : Dict (Q * Q) :=
  let saturation_point := Simulation.beta model in
  fold_left
    (fun d pool =>
       if negb (Z.eqb (Pool.owner pool) (Stakeholder.unique_id self))
          && negb (Pool.is_private pool)
       then dict_set (Pool.id pool)
              (if Stakeholder.isMyopic self
               then calculate_myopic_desirability env pool
                      (Simulation.alpha (Simulation.attr model)) saturation_point
               else calculate_desirability env pool,
               Pool.stake pool) d
       else d)
    pools_list [].

(** The greedy loop over the sorted candidates, with its [break]. *)
Fixpoint fill_pools (saturation_point : Q) (candidates : Dict (Q * Q))
    (stake_to_delegate : Q) (allocations : Dict Q) : Dict Q :=
  match candidates with
  | [] => allocations
  | (pool_id, (desirability, stake)) :: rest =>
      if Qeq_bool stake_to_delegate 0 then allocations
      else if Qltb stake saturation_point then
        let stake_to_saturation := saturation_point - stake in
        let allocation := py_min stake_to_delegate stake_to_saturation in
        if Qltb 0 allocation
        then fill_pools saturation_point rest (stake_to_delegate - allocation)
                        (dict_set pool_id allocation allocations)
        else fill_pools saturation_point rest stake_to_delegate allocations
      else fill_pools saturation_point rest stake_to_delegate allocations
  end.

Definition find_delegation_move_desirability (self : Stakeholder.t) (model : Simulation.t)
    (stake_to_delegate : option Q) : Result Strategy.t :=
  let saturation_point := Simulation.beta model in
  let stake_to_delegate := match stake_to_delegate with
                           | None => Stakeholder.stake self
                           | Some s => s
                           end in
  let? pools := without_own_delegations self model in
  let pools_list := dict_values pools in
  let candidates := desirabilities_n_stakes self model pools_list in
  let allocations :=
    fill_pools saturation_point
               (sorted_desc (fun a b => tuple_lt (snd a) (snd b)) candidates)
               stake_to_delegate [] in
  ok (Strategy.delegator allocations).

Definition find_delegation_move_for_operator (self : Stakeholder.t) (model : Simulation.t)
    (pledges : list Q) : Result (Dict Q) :=
  let remaining_stake := Stakeholder.stake self - py_sum pledges in
  if Qltb 0 remaining_stake then
    let? delegation_strategy :=
      find_delegation_move_desirability self model (Some remaining_stake) in
    ok (Strategy.stake_allocations delegation_strategy)
  else ok [].

Local Open Scope model_scope.

(** [Simulation.get_next_pool_id] and [Simulation.rewind_pool_id_seq]. *)
Definition get_next_pool_id : M Z :=
  fun s => let s' := Simulation.set_id_seq (Simulation.id_seq s + 1) s in
           (ok (Simulation.id_seq s'), s').

Definition rewind_pool_id_seq (step : Z) : M unit :=
  modify (fun s => Simulation.set_id_seq (Simulation.id_seq s - step) s).

(** The first loop of [find_operator_move]: the pools that already exist
    are changed to match the new strategy.  The accumulator is
    [(i, margins, owned_pools)]. *)
Definition adapt_existing_pool (self : Stakeholder.t) (model : Simulation.t)
    (pledges : list Q) (cost_per_pool : Q)
    (acc : nat * list Q * Dict Pool.t) (item : Z * Pool.t)
    : Result (nat * list Q * Dict Pool.t) :=
  let '(i, margins, owned_pools) := acc in
  let (pool_id, pool) := item in
  match nth_error pledges i with
  | None => raise IndexError
  | Some pledge_i =>
      let beta := Simulation.beta model in
      let pool := Pool.set_stake (Pool.stake pool - (Pool.pledge pool - pledge_i)) pool in
      let pool := Pool.set_pledge pledge_i pool in
      let pool := Pool.set_is_private (Qle_bool beta (Pool.pledge pool)) pool in
      let pool := Pool.set_cost cost_per_pool pool in
      let pool := set_potential_profit (Simulation.alpha (Simulation.attr model)) beta pool in
      let? margin :=
        if Pool.is_private pool then ok 0
        else calculate_margin_binary_search self model pool (Pool.margin pool) in
      let pool := Pool.set_margin margin pool in
      ok (S i, margins ++ [margin],
          dict_set (Pool.id pool) pool (dict_set pool_id pool owned_pools))
  end.

(** The second loop of [find_operator_move]: one pass creates the pool
    number [i] under a fresh id.  The accumulator is [(margins, owned_pools)]. *)
Definition open_hypothetical_pool (self : Stakeholder.t) (pledges : list Q)
    (cost_per_pool : Q) (acc : list Q * Dict Pool.t) (i : nat)
    : M (list Q * Dict Pool.t) :=
  let (margins, owned_pools) := acc in
  let* pool_id := get_next_pool_id in
  let* _ := modify (fun s =>
              Simulation.set_pool_owner_id_mapping
                (dict_set pool_id (Stakeholder.unique_id self)
                          (Simulation.pool_owner_id_mapping s)) s) in
  let* pool := reading (fun model =>
      match nth_error pledges i with
      | None => raise IndexError
      | Some pledge_i =>
          let beta := Simulation.beta model in
          let pool := new_pool pool_id cost_per_pool pledge_i (Stakeholder.unique_id self)
                               (Simulation.alpha (Simulation.attr model)) beta
                               (Qle_bool beta pledge_i) in
          let? margin :=
            if Pool.is_private pool then ok 0
            else calculate_margin_binary_search self model pool (1 # 4) in
          ok (Pool.set_margin margin pool)
      end) in
  mret (margins ++ [Pool.margin pool], dict_set (Pool.id pool) pool owned_pools).

Definition find_operator_move (self : Stakeholder.t) (num_pools : Z)
    (owned_pools : Dict Pool.t) : M Strategy.t :=
  let* pledges := reading (fun model => calculate_pledges self model num_pools) in
  let* cost_per_pool := reading (fun model =>
      ok (if (1 <? num_pools)%Z
          then Simulation.common_cost model + Stakeholder.cost self / inject_Z num_pools
          else Stakeholder.cost self)) in
  let* adapted := reading (fun model =>
      rfold (adapt_existing_pool self model pledges cost_per_pool) owned_pools
            (O, [], owned_pools)) in
  let '(_, margins, owned_pools) := adapted in
  let existing_pools_num := List.length owned_pools in
  let* opened :=
    mfold (open_hypothetical_pool self pledges cost_per_pool)
          (seq existing_pools_num (Z.to_nat num_pools - existing_pools_num))
          (margins, owned_pools) in
  let (margins, owned_pools) := opened in
  let* allocations := reading (fun model =>
      find_delegation_move_for_operator self model pledges) in
  mret (Strategy.make true pledges margins allocations num_pools owned_pools).

(** The candidate pool counts of [find_operator_moves], a [set]. *)
Definition num_pools_options (self : Stakeholder.t) (model : Simulation.t)
    : Result (list Z) :=
  let options := [1%Z] in
  if Simulation.pool_splitting (Simulation.attr model) then
    let current_num_pools := Strategy.num_pools (Stakeholder.strategy self) in
    let? options :=
      if (0 <? current_num_pools)%Z then
        let options := set_add current_num_pools options in
        if (1 <? current_num_pools)%Z then
          if (0 <? Stakeholder.remaining_min_steps_to_keep_pool self)%Z
          then set_remove 1 options
          else ok (set_add (current_num_pools - 1) options)
        else ok options
      else ok options in
    ok (set_add (current_num_pools + 1) options)
  else ok options.

Definition find_operator_moves (self : Stakeholder.t) : M (Dict Strategy.t) :=
  let* options := reading (num_pools_options self) in
  mfold (fun moves num_pools =>
           let* owned_pools := reading (fun _ => determine_current_pools self num_pools) in
           let* move := find_operator_move self num_pools owned_pools in
           mret (dict_set num_pools move moves))
        (set_iteration env options) [].

(** The loop of [update_strategy] over the operator strategies.  The
    accumulator is [(max_operator_utility, max_operator_strategy,
    operator_strategy)]; the last component is the loop variable, which
    the code reads again after the loop. *)
Definition best_operator_move (self : Stakeholder.t) (model : Simulation.t)
    (operator_strategies : list Strategy.t)
    : Result (Q * option Strategy.t * option Strategy.t) :=
  rfold (fun acc operator_strategy =>
           let '(max_operator_utility, max_operator_strategy, _) :=
             (acc : Q * option Strategy.t * option Strategy.t) in
           let? operator_utility := calculate_utility self model operator_strategy in
           if Qltb max_operator_utility operator_utility
           then ok (operator_utility, Some operator_strategy, Some operator_strategy)
           else ok (max_operator_utility, max_operator_strategy, Some operator_strategy))
        operator_strategies (0, None, None).

Definition current_utility_with_inertia (model : Simulation.t) (current_utility : Q) : Q :=
  py_max ((1 + Simulation.relative_utility_threshold (Simulation.attr model)) * current_utility)
         (current_utility + Simulation.absolute_utility_threshold (Simulation.attr model)).

(** [possible_moves] as [update_strategy] builds it, with the last operator
    strategy the loop visited. *)
Definition possible_moves (self : Stakeholder.t) : M (Moves * option Strategy.t) :=
  let* current_utility := reading (fun model =>
      calculate_utility self model (Stakeholder.strategy self)) in
  let* inertia := reading (fun model =>
      ok (current_utility_with_inertia model current_utility)) in
  let moves : Moves := [(current, (inertia, Some (Stakeholder.strategy self)))] in
  let* moves :=
    if (Stakeholder.remaining_min_steps_to_keep_pool self =? 0)%Z then
      let* delegator_strategy := reading (fun model =>
          find_delegation_move_desirability self model None) in
      let* delegator_utility := reading (fun model =>
          calculate_utility self model delegator_strategy) in
      mret (moves ++ [(delegator, (delegator_utility, Some delegator_strategy))])
    else mret moves in
  let* consider := reading (fun model =>
      ok (Strategy.is_pool_operator (Stakeholder.strategy self)
          || has_potential_for_pool self model)) in
  if (consider : bool) then
    let* operator_strategies := find_operator_moves self in
    let* best := reading (fun model =>
        best_operator_move self model (dict_values operator_strategies)) in
    let '(max_operator_utility, max_operator_strategy, operator_strategy) := best in
    mret (moves ++ [(operator, (max_operator_utility, max_operator_strategy))],
          operator_strategy)
  else mret (moves, None).

Definition max_utility_option (moves : Moves) : Result Move :=
  let? best := py_max_by (fun a b => Qltb (fst (snd a)) (fst (snd b))) moves in
  ok (fst best).

Definition update_strategy (self : Stakeholder.t) : M Stakeholder.t :=
  let* pm := possible_moves self in
  let (moves, operator_strategy) := pm in
  let* option := reading (fun _ => max_utility_option moves) in
  let* _ :=
    match moves_get operator moves with
    | Some _ =>
        if negb (Move_eqb option operator) then
          match operator_strategy with
          | None => mraise (NameError "operator_strategy")
          | Some operator_strategy =>
              let old_owned_pools := Strategy.owned_pools (Stakeholder.strategy self) in
              let hypothetical_owned_pools := Strategy.owned_pools operator_strategy in
              rewind_pool_id_seq
                (Z.of_nat (List.length (keys_minus hypothetical_owned_pools old_owned_pools)))
          end
        else mret tt
    | None => mret tt
    end in
  let* chosen := reading (fun _ =>
      if Move_eqb option current then ok None
      else match moves_get option moves with
           | Some (_, s) => ok s
           | None => raise (KeyError 0)
           end) in
  mret (Stakeholder.set_new_strategy chosen self).

(** One pass of the loop of [remove_delegations]: the delegator
    [player_id] leaves the pool and the pool leaves the delegator's
    strategies. *)
Definition undelegate (pool_id player_id : Z) : M unit :=
  let* pool := reading (fun model => dict_lookup pool_id (Simulation.pools model)) in
  let* amount := reading (fun _ => dict_lookup player_id (Pool.delegators pool)) in
  let* pool' := reading (fun _ => Pool.update_delegation pool (- amount) player_id) in
  let* _ := modify (fun s =>
              Simulation.set_pools (dict_set pool_id pool' (Simulation.pools s)) s) in
  let* player := reading (fun model => dict_lookup player_id (Simulation.agents model)) in
  let* allocations := reading (fun _ =>
      dict_pop pool_id (Strategy.stake_allocations (Stakeholder.strategy player))) in
  let player :=
    Stakeholder.set_strategy
      (Strategy.set_stake_allocations allocations (Stakeholder.strategy player)) player in
  let* _ := modify (fun s =>
              Simulation.set_agents (dict_set player_id player (Simulation.agents s)) s) in
  let* order := reading (fun model =>
      ok (Simulation.agent_activation_order (Simulation.attr model))) in
  if String.eqb order "Simultaneous" then
    match Stakeholder.new_strategy player with
    | Some new_strategy =>
        let* allocations := reading (fun _ =>
            dict_pop pool_id (Strategy.stake_allocations new_strategy)) in
        let player :=
          Stakeholder.set_new_strategy
            (Some (Strategy.set_stake_allocations allocations new_strategy)) player in
        modify (fun s =>
          Simulation.set_agents (dict_set player_id player (Simulation.agents s)) s)
    | None => mret tt
    end
  else mret tt.

Definition remove_delegations (pool_id : Z) : M unit :=
  let* pool := reading (fun model => dict_lookup pool_id (Simulation.pools model)) in
  let delegators := dict_keys (Pool.delegators pool) in
  mfold (fun _ player_id => undelegate pool_id player_id) delegators tt.

(** [try: body except AttributeError: handler] *)
Definition except_AttributeError {A} (body handler : Result A) : Result A :=
  match body with
  | inl AttributeError => handler
  | other => other
  end.

(** The body of the [try] at the head of [close_pool]: the registry is
    subscripted and the owner of the pool found there is compared. *)
Definition pool_owner_test (self : Stakeholder.t) (pool_id : Z) (model : Simulation.t)
    : Result unit :=
  let? pool := dict_lookup pool_id (Simulation.pools model) in
  if negb (Z.eqb (Pool.owner pool) (Stakeholder.unique_id self))
  then raise (ValueError "Player tried to close pool that belongs to another player.")
  else ok tt.

Definition check_pool_owner (self : Stakeholder.t) (pool_id : Z) (model : Simulation.t)
    : Result unit :=
  except_AttributeError
    (pool_owner_test self pool_id model)
    (raise (ValueError "Given pool id is not valid.")).

Definition close_pool (self : Stakeholder.t) (pool_id : Z) : M unit :=
  let* _ := reading (check_pool_owner self pool_id) in
  let* _ := remove_delegations pool_id in
  let* pools := reading (fun model => dict_pop pool_id (Simulation.pools model)) in
  modify (Simulation.set_pools pools).

End StakeholderMethods.

(** ** [logic/stakeholder.py]: acting on the model *)

(** The methods with which an agent acts: [step], [advance], [make_move],
    [execute_strategy] and [open_pool].

    [open_pool] stores in the registry the very [Pool] object that the
    agent's strategy holds, so what is later written to the pool through the
    registry is also seen through the strategy, until the agent replaces its
    strategy or the pool leaves the registry.  [shared] maps the id of each
    such pool to the agent whose strategy holds it.  The other pools of a
    strategy are copies ([deepcopy] in [determine_current_pools]) or new
    objects, which nothing else refers to.  The methods run in [W], the
    state monad of the model together with [shared]. *)
Module World.

Record t : Type := make {
  model : Simulation.t;
  shared : Dict Z
}.

End World.

Definition W (A : Type) : Type := World.t -> Result A * World.t.

Definition wret {A} (a : A) : W A := fun w => (ok a, w).

Definition wbind {A B} (c : W A) (f : A -> W B) : W B :=
  fun w => match c w with
           | (inl e, w') => (inl e, w')
           | (inr a, w') => f a w'
           end.

Definition wraise {A} (e : Exn) : W A := fun w => (raise e, w).

Definition wreading {A} (f : World.t -> Result A) : W A := fun w => (f w, w).

Definition wmodify (f : World.t -> World.t) : W unit := fun w => (ok tt, f w).

Declare Scope world_scope.
Delimit Scope world_scope with world.
Notation "'let*' x ':=' c 'in' k" := (wbind c (fun x => k))
  (at level 10, x pattern, c at level 100, k at level 200) : world_scope.

Fixpoint wfold {A B} (f : A -> B -> W A) (l : list B) (a : A) : W A :=
  match l with
  | [] => wret a
  | b :: l' => wbind (f a b) (wfold f l')
  end.

(** The pools of [owned_pools] that are shared with the registry, as the
    registry has them. *)
Definition seen_through (pools : Dict Pool.t) (shared : Dict Z) (unique_id : Z)
    (owned_pools : Dict Pool.t) : Dict Pool.t :=
  map (fun item =>
         match dict_get (fst item) shared, dict_get (fst item) pools with
         | Some holder, Some pool =>
             if Z.eqb holder unique_id then (fst item, pool) else item
         | _, _ => item
         end)
      owned_pools.

Definition set_owned_pools (owned_pools : Dict Pool.t) (s : Strategy.t) : Strategy.t :=
  Strategy.make (Strategy.is_pool_operator s) (Strategy.pledges s) (Strategy.margins s)
                (Strategy.stake_allocations s) (Strategy.num_pools s) owned_pools.

(** What a write to the registry means for the rest of the model: a pool
    that has left the registry is shared no longer, and the agents' current
    strategies show the shared pools as they now are. *)
Definition settle (w : World.t) : World.t :=
  let s := World.model w in
  let shared := filter (fun e => dict_mem (fst e) (Simulation.pools s)) (World.shared w) in
  let agents :=
    map (fun item =>
           let a := snd item in
           let strategy := Stakeholder.strategy a in
           (fst item,
            Stakeholder.set_strategy
              (set_owned_pools
                 (seen_through (Simulation.pools s) shared (fst item)
                               (Strategy.owned_pools strategy))
                 strategy)
              a))
        (Simulation.agents s) in
  World.make (Simulation.set_agents agents s) shared.

(** A method that does not write to the pools of the registry. *)
Definition lift {A} (c : M A) : W A :=
  fun w => let (r, s) := c (World.model w) in (r, World.make s (World.shared w)).

(** A method that writes to the registry; whether it returns or raises,
    what it wrote is seen through the strategies that share the pools. *)
Definition lift_registry {A} (c : M A) : W A :=
  fun w => let (r, s) := c (World.model w) in (r, settle (World.make s (World.shared w))).

(** [str.lower()] and [sub in s] on ASCII strings. *)
Definition lower_ascii (c : Ascii.ascii) : Ascii.ascii :=
  let n := Ascii.nat_of_ascii c in
  if (Nat.leb 65 n && Nat.leb n 90)%bool then Ascii.ascii_of_nat (n + 32) else c.

Fixpoint py_lower (s : string) : string :=
  match s with
  | EmptyString => EmptyString
  | String c s' => String (lower_ascii c) (py_lower s')
  end.

Definition py_in (sub s : string) : bool :=
  match String.index 0 sub s with
  | Some _ => true
  | None => false
  end.

(** [a & b] on the keys of two dicts. *)
Definition keys_both {V U} (a : Dict V) (b : Dict U) : list Z :=
  filter (fun k => dict_mem k b) (dict_keys a).

Definition set_remaining_min_steps_to_keep_pool (x : Z) (a : Stakeholder.t) : Stakeholder.t :=
  Stakeholder.make (Stakeholder.unique_id a) (Stakeholder.cost a) (Stakeholder.stake a)
                   (Stakeholder.isMyopic a) (Stakeholder.abstains a) x
                   (Stakeholder.new_strategy a) (Stakeholder.strategy a).

Section Acting.

Variable env : Env.

Local Open Scope world_scope.

(** [self], for the agent that the model holds under [unique_id], and an
    assignment to attributes of [self].  (The methods below are called on
    an agent of the model; for an id that the model does not hold they
    raise [KeyError].) *)
Definition agent (unique_id : Z) : W Stakeholder.t :=
  wreading (fun w => dict_lookup unique_id (Simulation.agents (World.model w))).

Definition set_agent (unique_id : Z) (a : Stakeholder.t) : W unit :=
  wmodify (fun w =>
    let s := World.model w in
    World.make (Simulation.set_agents (dict_set unique_id a (Simulation.agents s)) s)
               (World.shared w)).

Definition registry_pool (pool_id : Z) : W Pool.t :=
  wreading (fun w => dict_lookup pool_id (Simulation.pools (World.model w))).

(** A write to the pool that the registry holds under [pool_id]. *)
Definition set_registry_pool (pool_id : Z) (pool : Pool.t) : W unit :=
  wmodify (fun w =>
    let s := World.model w in
    settle (World.make (Simulation.set_pools (dict_set pool_id pool (Simulation.pools s)) s)
                       (World.shared w))).

Definition open_pool (unique_id pool_id : Z) : W unit :=
  let* self := agent unique_id in
  let* pool := wreading (fun _ =>
      dict_lookup pool_id (Strategy.owned_pools (Stakeholder.strategy self))) in
  let* _ := wmodify (fun w =>
      let s := World.model w in
      World.make (Simulation.set_pools (dict_set pool_id pool (Simulation.pools s)) s)
                 (dict_set pool_id unique_id (World.shared w))) in
  let* min_steps_to_keep_pool := wreading (fun w =>
      ok (Simulation.min_steps_to_keep_pool (Simulation.attr (World.model w)))) in
  set_agent unique_id (set_remaining_min_steps_to_keep_pool min_steps_to_keep_pool self).

(** The dict [allocation_changes] that [execute_strategy] builds. *)
Definition allocation_changes (old_allocations new_allocations : Dict Q)
    : Result (Dict Q) :=
  let? changes :=
    rfold (fun changes pool_id =>
             let? old := dict_lookup pool_id old_allocations in
             ok (dict_set pool_id (- old) changes))
          (set_iteration env (keys_minus old_allocations new_allocations)) [] in
  let? changes :=
    rfold (fun changes pool_id =>
             let? new := dict_lookup pool_id new_allocations in
             let? old := dict_lookup pool_id old_allocations in
             ok (dict_set pool_id (new - old) changes))
          (set_iteration env (keys_both old_allocations new_allocations)) changes in
  rfold (fun changes pool_id =>
           let? new := dict_lookup pool_id new_allocations in
           ok (dict_set pool_id new changes))
        (set_iteration env (keys_minus new_allocations old_allocations)) changes.

(** [self.new_strategy.<attribute>] *)
Definition staged_strategy (self : Stakeholder.t) : Result Strategy.t :=
  match Stakeholder.new_strategy self with
  | Some staged => ok staged
  | None => raise AttributeError
  end.

(** One pass of the loop of [execute_strategy] over the pools that the
    agent keeps.  ([updated_pool] is a [Pool], never [None].) *)
Definition update_kept_pool (unique_id pool_id : Z) : W unit :=
  let* self := agent unique_id in
  let* staged := wreading (fun _ => staged_strategy self) in
  let* updated_pool := wreading (fun _ => dict_lookup pool_id (Strategy.owned_pools staged)) in
  let* pool := registry_pool pool_id in
  let pledge_diff := Pool.pledge pool - Pool.pledge updated_pool in
  let pool :=
    Pool.set_is_private (Pool.is_private updated_pool)
      (Pool.set_cost (Pool.cost updated_pool)
         (Pool.set_pledge (Pool.pledge updated_pool)
            (Pool.set_stake (Pool.stake pool - pledge_diff)
               (Pool.set_margin (Pool.margin updated_pool) pool)))) in
  let* _ := set_registry_pool pool_id pool in
  let* _ := if Pool.is_private pool
            then lift_registry (remove_delegations pool_id)
            else wret tt in
  let* pool := registry_pool pool_id in
  let* alpha_beta := wreading (fun w =>
      ok (Simulation.alpha (Simulation.attr (World.model w)),
          Simulation.beta (World.model w))) in
  set_registry_pool pool_id (set_potential_profit env (fst alpha_beta) (snd alpha_beta) pool).

(** One pass of the last loop of [execute_strategy]. *)
Definition apply_allocation_change (unique_id : Z) (change : Z * Q) : W unit :=
  let (pool_id, allocation_change) := change in
  let* pool := registry_pool pool_id in
  if negb (Qeq_bool allocation_change 0) then
    let* pool := wreading (fun _ => Pool.update_delegation pool allocation_change unique_id) in
    set_registry_pool pool_id pool
  else wret tt.

Definition execute_strategy (unique_id : Z) : W unit :=
  let* self := agent unique_id in
  let old_allocations := Strategy.stake_allocations (Stakeholder.strategy self) in
  let* staged := wreading (fun _ => staged_strategy self) in
  let new_allocations := Strategy.stake_allocations staged in
  let* allocation_changes := wreading (fun _ =>
      allocation_changes old_allocations new_allocations) in
  let old_owned_pools := Strategy.owned_pools (Stakeholder.strategy self) in
  let new_owned_pools := Strategy.owned_pools staged in
  let* _ := wfold (fun _ pool_id => lift_registry (close_pool self pool_id))
                  (set_iteration env (keys_minus old_owned_pools new_owned_pools)) tt in
  let* _ := wfold (fun _ pool_id => update_kept_pool unique_id pool_id)
                  (set_iteration env (keys_both new_owned_pools old_owned_pools)) tt in
  let* self := agent unique_id in
  let* staged := wreading (fun _ => staged_strategy self) in
  let* _ := wmodify (fun w =>
      World.make (World.model w)
                 (filter (fun e => negb (Z.eqb (snd e) unique_id)) (World.shared w))) in
  let* _ := set_agent unique_id (Stakeholder.set_new_strategy None
                                   (Stakeholder.set_strategy staged self)) in
  let* _ := wfold (fun _ pool_id => open_pool unique_id pool_id)
                  (set_iteration env (keys_minus new_owned_pools old_owned_pools)) tt in
  wfold (fun _ change => apply_allocation_change unique_id change) allocation_changes tt.

Definition advance (unique_id : Z) : W unit :=
  let* self := agent unique_id in
  match Stakeholder.new_strategy self with
  | Some _ =>
      let* _ := execute_strategy unique_id in
      wmodify (fun w =>
        World.make (Simulation.set_current_step_idle false (World.model w)) (World.shared w))
  | None => wret tt
  end.

Definition make_move (unique_id : Z) : W unit :=
  let* self := agent unique_id in
  let* self := lift (update_strategy env self) in
  set_agent unique_id self.

(** [Stakeholder.step] *)
Definition agent_step (unique_id : Z) : W unit :=
  let* self := agent unique_id in
  if negb (Stakeholder.abstains self) then
    let* _ := make_move unique_id in
    let* order := wreading (fun w =>
        ok (Simulation.agent_activation_order (Simulation.attr (World.model w)))) in
    let* _ := if negb (py_in "simultaneous" (py_lower order))
              then advance unique_id else wret tt in
    let* self := agent unique_id in
    if (0 <? Stakeholder.remaining_min_steps_to_keep_pool self)%Z then
      set_agent unique_id
                (set_remaining_min_steps_to_keep_pool
                   (Stakeholder.remaining_min_steps_to_keep_pool self - 1) self)
    else wret tt
  else wret tt.

End Acting.

(** ** [logic/sim.py] *)

(** A constructor argument that may be one value or a list of per-era
    values ([isinstance(value, list)]). *)
Inductive Setting (A : Type) : Type :=
| Fixed (a : A)
| PerEra (l : list A).

Arguments Fixed {A} a.
Arguments PerEra {A} l.

(** The arguments of [Simulation.__init__] that the engine reads; those
    that name files, seeds and sampling distributions are left to the
    initializer. *)
Module Args.

Record t : Type := make {
  n : Setting Z;
  k : Setting Q;
  alpha : Setting Q;
  myopic_fraction : Setting Q;
  abstention_rate : Q;
  abstention_known : bool;
  relative_utility_threshold : Setting Q;
  absolute_utility_threshold : Setting Q;
  min_steps_to_keep_pool : Setting Z;
  pool_splitting : Setting bool;
  max_iterations : Setting Z;
  cost_factor : Setting Q;
  agent_activation_order : Setting string;
  steps_for_convergence : Z;
  extra_cost_type : Setting string;
  reward_function_option : Setting Z;
  generate_graphs : Setting bool
}.

End Args.

(** What [initialize_agents] obtains from the sampling helpers: the stake
    and cost of each agent and the shuffled ids. *)
Record Sampled : Type := make_sampled {
  stake_distribution : list Q;
  cost_distribution : list Q;
  unique_ids : list Z
}.

(** [setattr(self, field, value[self.current_era])] at era 0, or
    [setattr(self, field, value)]. *)
Definition initial_value {A} (v : Setting A) : Result A :=
  match v with
  | Fixed a => ok a
  | PerEra l => match l with
                | [] => raise IndexError
                | a :: _ => ok a
                end
  end.

Definition adjustable_values {A} (v : Setting A) : option (list A) :=
  match v with
  | Fixed _ => None
  | PerEra l => Some l
  end.

Definition eras_of {A} (v : Setting A) (total_eras : nat) : nat :=
  match v with
  | Fixed _ => total_eras
  | PerEra l => if Nat.ltb total_eras (List.length l) then List.length l else total_eras
  end.

Definition agent_activation_orders : list string :=
  ["Random"; "Sequential"; "Simultaneous"; "Semisimultaneous"]%string.

(** [initialize_agents], given what the sampling helpers returned. *)
Definition initialize_agents (myopic_fraction : Q) (n : Z) (sampled : Sampled)
    : Result (Dict Stakeholder.t * Q) :=
  let total_stake := py_sum (stake_distribution sampled) in
  let num_myopic_agents := py_int (myopic_fraction * inject_Z n) in
  let? agents :=
    rfold (fun acc unique_id =>
             let '(i, agents) := (acc : nat * Dict Stakeholder.t) in
             match nth_error (cost_distribution sampled) i,
                   nth_error (stake_distribution sampled) i with
             | Some cost, Some stake =>
                 let agent := Stakeholder.create unique_id stake
                                (Z.ltb (Z.of_nat i) num_myopic_agents) false cost in
                 ok (S i, dict_set unique_id agent agents)
             | _, _ => raise IndexError
             end)
          (unique_ids sampled) (O, []) in
  ok (snd agents, total_stake).

(** [Simulation.__init__].  [call] holds the arguments of the call and
    [file_args] what [read_args_from_file] returns; [args] is one or the
    other.  [common_cost] is the value of the attribute of that name. *)
Definition init (call : Args.t) (input_from_file : bool) (file_args : Args.t)
    (sampled : Sampled) (common_cost : Q) : Result Simulation.t :=
  let args := if input_from_file then file_args else call in
  let current_era := O in
  let total_eras := 1%nat in
  let? n := initial_value (Args.n args) in
  let total_eras := eras_of (Args.n args) total_eras in
  let? k := initial_value (Args.k args) in
  let total_eras := eras_of (Args.k args) total_eras in
  let? alpha := initial_value (Args.alpha args) in
  let total_eras := eras_of (Args.alpha args) total_eras in
  let? myopic_fraction := initial_value (Args.myopic_fraction args) in
  let total_eras := eras_of (Args.myopic_fraction args) total_eras in
  let? relative_utility_threshold := initial_value (Args.relative_utility_threshold args) in
  let total_eras := eras_of (Args.relative_utility_threshold args) total_eras in
  let? absolute_utility_threshold := initial_value (Args.absolute_utility_threshold args) in
  let total_eras := eras_of (Args.absolute_utility_threshold args) total_eras in
  let? min_steps_to_keep_pool := initial_value (Args.min_steps_to_keep_pool args) in
  let total_eras := eras_of (Args.min_steps_to_keep_pool args) total_eras in
  let? pool_splitting := initial_value (Args.pool_splitting args) in
  let total_eras := eras_of (Args.pool_splitting args) total_eras in
  let? max_iterations := initial_value (Args.max_iterations args) in
  let total_eras := eras_of (Args.max_iterations args) total_eras in
  let? cost_factor := initial_value (Args.cost_factor args) in
  let total_eras := eras_of (Args.cost_factor args) total_eras in
  let? agent_activation_order := initial_value (Args.agent_activation_order args) in
  let total_eras := eras_of (Args.agent_activation_order args) total_eras in
  let? extra_cost_type := initial_value (Args.extra_cost_type args) in
  let total_eras := eras_of (Args.extra_cost_type args) total_eras in
  let? reward_function_option := initial_value (Args.reward_function_option args) in
  let total_eras := eras_of (Args.reward_function_option args) total_eras in
  let? generate_graphs := initial_value (Args.generate_graphs args) in
  let total_eras := eras_of (Args.generate_graphs args) total_eras in
  let adjustable_params :=
    Simulation.make_adjustable
      (adjustable_values (Args.n args)) (adjustable_values (Args.k args))
      (adjustable_values (Args.alpha args)) (adjustable_values (Args.myopic_fraction args))
      (adjustable_values (Args.relative_utility_threshold args))
      (adjustable_values (Args.absolute_utility_threshold args))
      (adjustable_values (Args.min_steps_to_keep_pool args))
      (adjustable_values (Args.pool_splitting args))
      (adjustable_values (Args.max_iterations args))
      (adjustable_values (Args.cost_factor args))
      (adjustable_values (Args.agent_activation_order args))
      (adjustable_values (Args.extra_cost_type args))
      (adjustable_values (Args.reward_function_option args))
      (adjustable_values (Args.generate_graphs args)) in
  let k := py_int k in
  let? k := if Args.abstention_known args
            then let? x := py_div (inject_Z k) (1 - Args.abstention_rate args) in ok (py_int x)
            else ok k in
  let running := true in
  let? _ := if existsb (String.eqb agent_activation_order) agent_activation_orders
            then ok tt else raise (KeyErrorName agent_activation_order) in
  let? initialized := initialize_agents myopic_fraction n sampled in
  let (agents, total_stake) := initialized in
  let? total_stake := py_div total_stake (1 - Args.abstention_rate args) in
  if Qle_bool total_stake 0 then raise (ValueError "Total stake must be > 0")
  else
    let perceived_active_stake := total_stake in
    let? beta := py_div total_stake (inject_Z k) in
    let consecutive_idle_steps := 0%Z in
    let current_step_idle := true in
    let? min_consecutive_idle_steps_for_convergence :=
      match Args.min_steps_to_keep_pool call with
      | Fixed min_steps_to_keep_pool =>
          ok (Z.max (min_steps_to_keep_pool + 1) (Args.steps_for_convergence args))
      | PerEra _ => raise TypeError
      end in
    ok (Simulation.make
          (Simulation.make_attrs n alpha myopic_fraction relative_utility_threshold
             absolute_utility_threshold min_steps_to_keep_pool pool_splitting
             max_iterations cost_factor agent_activation_order extra_cost_type
             reward_function_option generate_graphs)
          k adjustable_params current_era total_eras running 0%Z agents total_stake
          perceived_active_stake beta consecutive_idle_steps current_step_idle
          min_consecutive_idle_steps_for_convergence [] 10%Z 0%Z [] [] common_cost []).

(** Modelled from the spec: [reporters.get_active_stake_pools] of
    [logic/model_reporters.py], the "currently delegated stake": the stake
    held by the pools of the registry. *)
Definition get_active_stake_pools (s : Simulation.t) : Q :=
  py_sum (map Pool.stake (dict_values (Simulation.pools s))).

Definition revise_beliefs (s : Simulation.t) : Result Simulation.t :=
  let active_stake := get_active_stake_pools s in
  let s := Simulation.set_perceived_active_stake active_stake s in
  let? ratio := py_div active_stake (Simulation.beta s) in
  ok (Simulation.set_k (Qceiling (py_round12 ratio)) s).

(** [value[self.current_era]] when [key] is in [adjustable_params] and
    [len(value) > self.current_era]. *)
Definition era_value {A} (values : option (list A)) (era : nat) : option A :=
  match values with
  | Some value => nth_error value era
  | None => None
  end.

Definition overridden {A} (values : option (list A)) (era : nat) : bool :=
  match era_value values era with
  | Some _ => true
  | None => false
  end.

Definition override {A} (values : option (list A)) (era : nat) (old : A) : A :=
  match era_value values era with
  | Some v => v
  | None => old
  end.

(** The body of the loop of [adjust_params] for the key ['k']. *)
Definition adjust_k (s : Simulation.t) : Result Simulation.t :=
  match era_value (Simulation.adj_k (Simulation.adjustable_params s))
                  (Simulation.current_era s) with
  | Some v =>
      let s := Simulation.set_k (py_int v) s in
      let? beta := py_div (Simulation.total_stake s) (inject_Z (Simulation.k s)) in
      ok (Simulation.set_beta beta s)
  | None => ok s
  end.

Definition adjust_params (s : Simulation.t) : Result Simulation.t :=
  let s := Simulation.set_current_era (S (Simulation.current_era s)) s in
  let era := Simulation.current_era s in
  let adj := Simulation.adjustable_params s in
  let a := Simulation.attr s in
  let? s := adjust_k s in
  let s :=
    Simulation.set_attr
      (Simulation.make_attrs
         (override (Simulation.adj_n adj) era (Simulation.n a))
         (override (Simulation.adj_alpha adj) era (Simulation.alpha a))
         (override (Simulation.adj_myopic_fraction adj) era (Simulation.myopic_fraction a))
         (override (Simulation.adj_relative_utility_threshold adj) era
                   (Simulation.relative_utility_threshold a))
         (override (Simulation.adj_absolute_utility_threshold adj) era
                   (Simulation.absolute_utility_threshold a))
         (override (Simulation.adj_min_steps_to_keep_pool adj) era
                   (Simulation.min_steps_to_keep_pool a))
         (override (Simulation.adj_pool_splitting adj) era (Simulation.pool_splitting a))
         (override (Simulation.adj_max_iterations adj) era (Simulation.max_iterations a))
         (override (Simulation.adj_cost_factor adj) era (Simulation.cost_factor a))
         (override (Simulation.adj_agent_activation_order adj) era
                   (Simulation.agent_activation_order a))
         (override (Simulation.adj_extra_cost_type adj) era (Simulation.extra_cost_type a))
         (override (Simulation.adj_reward_function_option adj) era
                   (Simulation.reward_function_option a))
         (override (Simulation.adj_generate_graphs adj) era (Simulation.generate_graphs a)))
      s in
  let change_occured :=
    overridden (Simulation.adj_n adj) era
    || overridden (Simulation.adj_k adj) era
    || overridden (Simulation.adj_alpha adj) era
    || overridden (Simulation.adj_myopic_fraction adj) era
    || overridden (Simulation.adj_relative_utility_threshold adj) era
    || overridden (Simulation.adj_absolute_utility_threshold adj) era
    || overridden (Simulation.adj_min_steps_to_keep_pool adj) era
    || overridden (Simulation.adj_pool_splitting adj) era
    || overridden (Simulation.adj_max_iterations adj) era
    || overridden (Simulation.adj_cost_factor adj) era
    || overridden (Simulation.adj_agent_activation_order adj) era
    || overridden (Simulation.adj_extra_cost_type adj) era
    || overridden (Simulation.adj_reward_function_option adj) era
    || overridden (Simulation.adj_generate_graphs adj) era in
  ok (if change_occured
      then Simulation.set_pivot_steps (Simulation.pivot_steps s ++ [Simulation.steps s]) s
      else s).

(** The invariant of the data model: [beta = total_stake / k]. *)
Definition beta_follows_k (s : Simulation.t) : Prop :=
  Simulation.beta s == Simulation.total_stake s / inject_Z (Simulation.k s).

Definition has_converged (s : Simulation.t) : bool :=
  (Simulation.min_consecutive_idle_steps_for_convergence s
   <=? Simulation.consecutive_idle_steps s)%Z.

(** [wrap_up_execution]: the run stops; the exports are the reporters'. *)
Definition wrap_up_execution (s : Simulation.t) : Simulation.t :=
  Simulation.set_running false s.

(** What one round of agent activation may change in the model: the
    registry, the agents, the id allocator, and whether some agent committed
    a changed strategy ([advance] then clears [current_step_idle]). *)
Record Activation : Type := make_activation {
  act_pools : Dict Pool.t;
  act_agents : Dict Stakeholder.t;
  act_id_seq : Z;
  act_pool_owner_id_mapping : Dict Z;
  act_changed : bool
}.

(** The periodic revision at the head of a round:
    [if current_step % self.revision_frequency == 0 and current_step > 0]. *)
Definition revise_if_due (s : Simulation.t) : Result Simulation.t :=
  let current_step := Simulation.steps s in
  if (Simulation.revision_frequency s =? 0)%Z then raise ZeroDivisionError
  else if (current_step mod Simulation.revision_frequency s =? 0)%Z && (0 <? current_step)%Z
       then revise_beliefs s
       else ok s.

Section SimulationMethods.

(** [self.schedule.step()]: the scheduler of [mesa] or [logic.activations]
    running [Stakeholder.step] for every agent. *)
Variable schedule_step : Simulation.t -> Result Activation.

(** The scheduler also counts the round in [schedule.steps]. *)
Definition activate (s : Simulation.t) : Result Simulation.t :=
  let? a := schedule_step s in
  let s := Simulation.set_pools (act_pools a) s in
  let s := Simulation.set_agents (act_agents a) s in
  let s := Simulation.set_id_seq (act_id_seq a) s in
  let s := Simulation.set_pool_owner_id_mapping (act_pool_owner_id_mapping a) s in
  let s := if act_changed a then Simulation.set_current_step_idle false s else s in
  ok (Simulation.set_steps (Simulation.steps s + 1) s).

Definition step (s : Simulation.t) : Result Simulation.t :=
  let current_step := Simulation.steps s in
  if (Simulation.max_iterations (Simulation.attr s) <=? current_step)%Z
  then ok (wrap_up_execution s)
  else
    let? s := revise_if_due s in
    let? s := activate s in
    if Simulation.current_step_idle s then
      let s := Simulation.set_consecutive_idle_steps
                 (Simulation.consecutive_idle_steps s + 1) s in
      if has_converged s then
        let s := Simulation.set_equilibrium_steps
                   (Simulation.equilibrium_steps s
                    ++ [(current_step
                         - Simulation.min_consecutive_idle_steps_for_convergence s + 1)%Z]) s in
        if Nat.ltb (Simulation.current_era s) (Simulation.total_eras s - 1)
        then
          let? s := adjust_params s in
          ok (Simulation.set_current_step_idle true s)
        else ok (wrap_up_execution s)
      else ok (Simulation.set_current_step_idle true s)
    else
      let s := Simulation.set_consecutive_idle_steps 0 s in
      ok (Simulation.set_current_step_idle true s).

(** [run_model] after [initialise_pool_id_seq]: [step] while the run is on and
    the iteration cap allows; [fuel] bounds the rounds. *)
Fixpoint run_steps (fuel : nat) (s : Simulation.t) : Result Simulation.t :=
  match fuel with
  | O => ok s
  | S fuel' =>
      if (Simulation.steps s <=? Simulation.max_iterations (Simulation.attr s))%Z
         && Simulation.running s
      then let? s' := step s in run_steps fuel' s'
      else ok s
  end.

Definition run_model (fuel : nat) (s : Simulation.t) : Result Simulation.t :=
  run_steps fuel (Simulation.set_id_seq 0 s).

(** A round that is played (the run is on and below the iteration cap) and
    in which no agent commits a changed strategy. *)
Definition idle_round (s s' : Simulation.t) : Prop :=
  Simulation.running s = true
  /\ (Simulation.steps s < Simulation.max_iterations (Simulation.attr s))%Z
  /\ Simulation.current_step_idle s = true
  /\ (exists s0 a, revise_if_due s = ok s0 /\ schedule_step s0 = ok a
                   /\ act_changed a = false)
  /\ step s = ok s'.

(** A contiguous streak of idle rounds from [s], with the states it visits. *)
Inductive idle_streak : Simulation.t -> list Simulation.t -> Prop :=
| streak_end (s : Simulation.t) : idle_streak s []
| streak_round (s s' : Simulation.t) (rest : list Simulation.t) :
    idle_round s s' -> idle_streak s' rest -> idle_streak s (s' :: rest).

(** The round from [s] to [s'] handled a convergence: it recorded an
    equilibrium and left the running state, for the next era or for good. *)
Definition left_running (s s' : Simulation.t) : Prop :=
  exists x, Simulation.equilibrium_steps s' = Simulation.equilibrium_steps s ++ [x].

End SimulationMethods.

(** ** A concrete environment and model *)

(** The reward scheme of the delegation game with a total reward of one:
    stake and pledge count up to [beta], and the pledge is rewarded by the
    factor [alpha]. *)
Definition pool_reward (stake pledge alpha beta : Q) : Q :=
  let pledge_ := py_min pledge beta in
  let stake_ := py_min stake beta in
  (1 / (1 + alpha))
  * (stake_ + pledge_ * alpha * ((stake_ - pledge_ * (1 - stake_ / beta)) / beta)).

Definition potential_profit_of (stake cost alpha beta : Q) : Q :=
  pool_reward stake stake alpha beta - cost.

Definition desirability_of (p : Pool.t) : Q :=
  py_max ((1 - Pool.margin p) * Pool.potential_profit p) 0.

Definition myopic_desirability_of (p : Pool.t) (alpha beta : Q) : Q :=
  py_max ((1 - Pool.margin p)
          * (pool_reward (Pool.stake p) (Pool.pledge p) alpha beta - Pool.cost p)) 0.

(** Dense ranks 1..N, descending by score; equal scores rank in the order
    of the dict. *)
Fixpoint ranks_from (all before rest : Dict Q) : Dict Z :=
  match rest with
  | [] => []
  | (key, x) :: rest' =>
      let above := List.length (filter (fun e => Qltb x (snd e)) all) in
      let tied := List.length (filter (fun e => Qeq_bool x (snd e)) before) in
      (key, Z.of_nat (1 + above + tied)) :: ranks_from all (before ++ [(key, x)]) rest'
  end.

Definition ranks_of (scores : Dict Q) : Dict Z := ranks_from scores [] scores.

(** The stake a pool is expected to end with: saturation for the [k] most
    desirable pools, the bare pledge for the others. *)
Definition pool_stake_NM_of (pool_id : Z) (pools : Dict Pool.t) (beta : Q) (k : Z) : Q :=
  match dict_get pool_id pools,
        dict_get pool_id (ranks_of (map (fun e => (fst e, desirability_of (snd e))) pools)) with
  | Some pool, Some rank =>
      if (rank <=? k)%Z then py_max beta (Pool.stake pool) else Pool.pledge pool
  | _, _ => 0
  end.

(** The order in which CPython visits a set of at most four small
    non-negative ints: an int hashes to itself, the table has eight slots,
    a member goes to slot [hash mod 8] or, when that is taken, along the
    probe sequence [i := (5 i + 1 + perturb) mod 8] with [perturb] shifted
    right by five before each probe, and iteration runs over the slots in
    index order. *)
Fixpoint place (fuel : nat) (table : list (option Z)) (i perturb x : Z)
    : list (option Z) :=
  match fuel with
  | O => table
  | S fuel' =>
      match nth_error table (Z.to_nat i) with
      | Some None => firstn (Z.to_nat i) table ++ Some x :: skipn (S (Z.to_nat i)) table
      | Some (Some y) =>
          if Z.eqb x y then table
          else let perturb' := Z.shiftr perturb 5 in
               place fuel' table ((i * 5 + 1 + perturb') mod 8)%Z perturb' x
      | None => table
      end
  end.

Definition hash_slot_order (members : list Z) : list Z :=
  flat_map (fun slot => match slot with Some x => [x] | None => [] end)
           (fold_left (fun table x => place 32 table (x mod 8)%Z x x) members
                      (repeat None 8)).

Definition reference_env : Env :=
  make_env potential_profit_of pool_reward pool_stake_NM_of ranks_of
           desirability_of myopic_desirability_of hash_slot_order.

(** The same environment with sets visited in ascending order, which is
    what CPython does for members below eight. *)
Fixpoint insert_ascending (x : Z) (l : list Z) : list Z :=
  match l with
  | [] => [x]
  | y :: l' => if (x <=? y)%Z then x :: l else y :: insert_ascending x l'
  end.

Definition ascending_order (members : list Z) : list Z :=
  fold_right insert_ascending [] members.

Definition ascending_env : Env :=
  make_env potential_profit_of pool_reward pool_stake_NM_of ranks_of
           desirability_of myopic_desirability_of ascending_order.

(** A model of three agents after the first has opened pool 1 and the
    second has delegated to it. *)
Definition example_attrs : Simulation.attrs :=
  Simulation.make_attrs 3 (3 # 10) 0 0 (1 # 1000000000) 5 true 1000 (7 # 10)
                        "Sequential" "fixed_fraction" 0 false.

Definition example_pool : Pool.t :=
  Pool.make 1 0 (1 # 5) (1 # 10) (2 # 5) (1 # 100) false [(1%Z, 1 # 5)]
            (potential_profit_of (1 # 5) (1 # 100) (3 # 10) (1 # 2)).

Definition example_operator : Stakeholder.t :=
  Stakeholder.make 0 (1 # 100) (1 # 5) false false 0 None
    (Strategy.make true [1 # 5] [1 # 10] [] 1 [(1%Z, example_pool)]).

Definition example_delegator : Stakeholder.t :=
  Stakeholder.make 1 (2 # 100) (1 # 5) false false 0 None
    (Strategy.delegator [(1%Z, 1 # 5)]).

Definition example_newcomer : Stakeholder.t :=
  Stakeholder.make 2 (1 # 100) (3 # 5) false false 0 None (Strategy.delegator []).

Definition no_adjustable_params : Simulation.adjustable :=
  Simulation.make_adjustable None None None None None None None None None None None None
                             None None.

Definition example_model : Simulation.t :=
  Simulation.make example_attrs 2 no_adjustable_params 0 1 true 3
    [(0%Z, example_operator); (1%Z, example_delegator); (2%Z, example_newcomer)]
    1 1 (1 # 2) 0 true 6 [(1%Z, example_pool)] 10 1 [] [] 0 [(1%Z, 0%Z)].

(** The arguments of a run with two agents of equal stake and [k = 2], and
    a scheduler for it: in the first round agent 0 pledges its whole stake
    to a pool of its own, which saturates it and makes it private; agent 1
    stays as it is, and later rounds change nothing. *)
Definition example_args : Args.t :=
  Args.make (Fixed 2%Z) (Fixed 2) (Fixed (3 # 10)) (Fixed 0) 0 false (Fixed 0)
            (Fixed (1 # 1000000000)) (Fixed 5%Z) (Fixed true) (Fixed 1000%Z)
            (Fixed (7 # 10)) (Fixed "Sequential"%string) 10
            (Fixed "fixed_fraction"%string) (Fixed 0%Z) (Fixed false).

Definition example_sampled : Sampled :=
  make_sampled [1 # 2; 1 # 2] [1 # 100; 1] [0%Z; 1%Z].

Definition private_pool : Pool.t :=
  Pool.make 1 0 (1 # 2) 0 (1 # 2) (1 # 100) true []
            (potential_profit_of (1 # 2) (1 # 100) (3 # 10) (1 # 2)).

Definition unchanged (s : Simulation.t) : Activation :=
  make_activation (Simulation.pools s) (Simulation.agents s) (Simulation.id_seq s)
                  (Simulation.pool_owner_id_mapping s) false.

Definition idle_schedule (s : Simulation.t) : Result Activation := ok (unchanged s).

Definition opening_schedule (s : Simulation.t) : Result Activation :=
  if (Simulation.steps s =? 0)%Z then
    let owner :=
      Stakeholder.make 0 (1 # 100) (1 # 2) false false 5 None
        (Strategy.make true [1 # 2] [0] [] 1 [(1%Z, private_pool)]) in
    ok (make_activation [(1%Z, private_pool)]
                        (dict_set 0 owner (Simulation.agents s)) 1 [(1%Z, 0%Z)] true)
  else idle_schedule s.

(** The same run with a second era that sets [k] to 4. *)
Definition two_era_args : Args.t :=
  Args.make (Fixed 2%Z) (PerEra [2; 4]) (Fixed (3 # 10)) (Fixed 0) 0 false (Fixed 0)
            (Fixed (1 # 1000000000)) (Fixed 5%Z) (Fixed true) (Fixed 1000%Z)
            (Fixed (7 # 10)) (Fixed "Sequential"%string) 10
            (Fixed "fixed_fraction"%string) (Fixed 0%Z) (Fixed false).

(** A run of three eras: [k] is overridden in the second, [alpha] in the
    third. *)
Definition three_era_args : Args.t :=
  Args.make (Fixed 2%Z) (PerEra [2; 4]) (PerEra [3 # 10; 3 # 10; 1 # 5]) (Fixed 0) 0 false
            (Fixed 0) (Fixed (1 # 1000000000)) (Fixed 5%Z) (Fixed true) (Fixed 1000%Z)
            (Fixed (7 # 10)) (Fixed "Sequential"%string) 10
            (Fixed "fixed_fraction"%string) (Fixed 0%Z) (Fixed false).

(** The states that successive rounds visit. *)
Fixpoint run_trace (schedule_step : Simulation.t -> Result Activation) (fuel : nat)
    (s : Simulation.t) : list Simulation.t :=
  match fuel with
  | O => []
  | S fuel' =>
      match step schedule_step s with
      | inr s' => s' :: run_trace schedule_step fuel' s'
      | inl _ => []
      end
  end.

(** A model with [k = 10] in which one agent holds seven tenths of the
    stake and operates seven saturated pools, ids 1 to 7. *)
Definition whale_pool (pool_id : Z) : Pool.t :=
  Pool.make pool_id 0 (1 # 10) 0 (1 # 10) (1 # 1000) true []
            (potential_profit_of (1 # 10) (1 # 1000) (3 # 10) (1 # 10)).

Definition whale_pools : Dict Pool.t :=
  map (fun pool_id => (pool_id, whale_pool pool_id)) [1; 2; 3; 4; 5; 6; 7]%Z.

Definition whale : Stakeholder.t :=
  Stakeholder.make 0 (1 # 1000) (7 # 10) false false 0 None
    (Strategy.make true (repeat (1 # 10) 7) (repeat 0 7) [] 7 whale_pools).

Definition whale_model : Simulation.t :=
  Simulation.make
    (Simulation.make_attrs 4 (3 # 10) 0 0 (1 # 1000000000) 5 true 1000 (7 # 10)
                           "Sequential" "fixed_fraction" 0 false)
    10 no_adjustable_params 0 1 true 20
    [(0%Z, whale);
     (1%Z, Stakeholder.create 1 (1 # 10) false false (1 # 1000));
     (2%Z, Stakeholder.create 2 (1 # 10) false false (1 # 1000));
     (3%Z, Stakeholder.create 3 (1 # 10) false false (1 # 1000))]
    1 1 (1 # 10) 3 true 10 whale_pools 10 7 [] [] (1 # 1000)
    (map (fun pool_id => (pool_id, 0%Z)) [1; 2; 3; 4; 5; 6; 7]%Z).

(** The arguments that a configuration file supplies when it asks for a
    cooldown of twenty rounds. *)
Definition long_cooldown_args : Args.t :=
  Args.make (Fixed 2%Z) (Fixed 2) (Fixed (3 # 10)) (Fixed 0) 0 false (Fixed 0)
            (Fixed (1 # 1000000000)) (Fixed 20%Z) (Fixed true) (Fixed 1000%Z)
            (Fixed (7 # 10)) (Fixed "Sequential"%string) 10
            (Fixed "fixed_fraction"%string) (Fixed 0%Z) (Fixed false).

(** The world of [example_model]: pool 1 is the object that the strategy
    of its operator holds. *)
Definition example_world : World.t := World.make example_model [(1%Z, 0%Z)].

(** A model in which moves are simultaneous: the delegator of pool 1 has
    staged a strategy that leaves the pool. *)
Definition leaving_delegator : Stakeholder.t :=
  Stakeholder.set_new_strategy (Some (Strategy.delegator [])) example_delegator.

Definition simultaneous_model : Simulation.t :=
  Simulation.set_agents
    [(0%Z, example_operator); (1%Z, leaving_delegator); (2%Z, example_newcomer)]
    (Simulation.set_attr
       (Simulation.make_attrs 3 (3 # 10) 0 0 (1 # 1000000000) 5 true 1000 (7 # 10)
                              "Simultaneous" "fixed_fraction" 0 false)
       example_model).


(** ** The vocabulary of the statements *)

(** *** Exceptions *)

(** The exceptions a computation can leave with. *)
Definition raises_only {A} (P : Exn -> Prop) (c : M A) : Prop :=
  forall s e s', c s = (inl e, s') -> P e.

Definition not_the_validation_error (e : Exn) : Prop :=
  e <> ValueError "Given pool id is not valid.".

(** *** Delegations and the registry *)

(** What [remove_delegations] needs of a delegator of the pool: it is an
    agent whose committed strategy (and, under simultaneous activation,
    whose staged strategy) allocates to the pool. *)
Definition delegator_known (pool_id : Z) (s : Simulation.t) (d : Z) : Prop :=
  exists a,
    dict_get d (Simulation.agents s) = Some a
    /\ dict_mem pool_id (Strategy.stake_allocations (Stakeholder.strategy a)) = true
    /\ (String.eqb (Simulation.agent_activation_order (Simulation.attr s)) "Simultaneous" = true ->
        forall ns, Stakeholder.new_strategy a = Some ns ->
                   dict_mem pool_id (Strategy.stake_allocations ns) = true).

Definition allocates_to (pool_id : Z) (a : Stakeholder.t) : bool :=
  dict_mem pool_id (Strategy.stake_allocations (Stakeholder.strategy a)).

(** The pools the agent is about to delegate to hold at least what the
    agent has delegated to them so far. *)
Definition stakes_cover_own_delegations (self : Stakeholder.t) (model : Simulation.t)
    (allocations : Dict Q) : Prop :=
  forall pool_id a pool,
    In (pool_id, a) allocations ->
    dict_get pool_id (Simulation.pools model) = Some pool ->
    previous_allocation_to_pool self pool <= Pool.stake pool.

(** A dict whose pools are registered under their own ids, once each. *)
Definition registry_wf (pools : Dict Pool.t) : Prop :=
  NoDup (dict_keys pools) /\ forall k p, In (k, p) pools -> Pool.id p = k.

(** What the agent's strategy delegates to a pool, counting positive
    amounts only. *)
Definition positive_allocation (allocations : Dict Q) (pool_id : Z) : Q :=
  match dict_get pool_id allocations with
  | Some a => if Qltb 0 a then a else 0
  | None => 0
  end.

(** The agent's positive delegations are to registered pools that record
    at least that much for the agent. *)
Definition own_delegations_recorded (uid : Z) (allocations : Dict Q) (pools : Dict Pool.t)
    : Prop :=
  forall pool_id a,
    In (pool_id, a) allocations -> 0 < a ->
    exists p x, dict_get pool_id pools = Some p
                /\ dict_get uid (Pool.delegators p) = Some x /\ a <= x.

(** A pool of the copy is the registered pool less the agent's delegation. *)
Definition pool_less_delegation (allocations : Dict Q) (pool_id : Z) (p p' : Pool.t) : Prop :=
  Pool.id p' = Pool.id p
  /\ Pool.owner p' = Pool.owner p
  /\ Pool.is_private p' = Pool.is_private p
  /\ Pool.stake p' == Pool.stake p - positive_allocation allocations pool_id.

(** *** Moves and their utilities *)

Definition utility_of (e : Move * (Q * option Strategy.t)) : Q := fst (snd e).

(** The order in which the branches are listed: current, delegator, operator. *)
Definition listed_order (m : Move) : nat :=
  match m with
  | current => 0
  | delegator => 1
  | operator => 2
  end.

Definition utility_lt (a b : Move * (Q * option Strategy.t)) : bool :=
  Qltb (fst (snd a)) (fst (snd b)).

(** *** The greedy delegation move *)

(** The pools the agent may delegate to: public and owned by someone else. *)
Definition eligible (self : Stakeholder.t) (pool : Pool.t) : bool :=
  negb (Z.eqb (Pool.owner pool) (Stakeholder.unique_id self))
  && negb (Pool.is_private pool).

(** The pair [(desirability, stake)] by which the candidates are sorted. *)
Definition ranking_key (env : Env) (self : Stakeholder.t) (model : Simulation.t)
    (pool : Pool.t) : Q * Q :=
  (if Stakeholder.isMyopic self
   then calculate_myopic_desirability env pool (Simulation.alpha (Simulation.attr model))
                                      (Simulation.beta model)
   else calculate_desirability env pool,
   Pool.stake pool).

(** No entry is strictly below a later one. *)
Definition descending {A} (lt : A -> A -> bool) (l : list A) : Prop :=
  StronglySorted (fun a b => lt a b = false) l.

(** The allocations that the loop adds, in the order it adds them. *)
Fixpoint fill_list (saturation_point : Q) (candidates : Dict (Q * Q))
    (stake_to_delegate : Q) : Dict Q :=
  match candidates with
  | [] => []
  | (pool_id, (desirability, stake)) :: rest =>
      if Qeq_bool stake_to_delegate 0 then []
      else if Qltb stake saturation_point then
        let allocation := py_min stake_to_delegate (saturation_point - stake) in
        if Qltb 0 allocation
        then (pool_id, allocation)
             :: fill_list saturation_point rest (stake_to_delegate - allocation)
        else fill_list saturation_point rest stake_to_delegate
      else fill_list saturation_point rest stake_to_delegate
  end.

(** *** Eras *)

(** The attributes after the overrides of [era] are applied. *)
Definition attrs_in_era (adj : Simulation.adjustable) (era : nat) (a : Simulation.attrs)
    : Simulation.attrs :=
  Simulation.make_attrs
    (override (Simulation.adj_n adj) era (Simulation.n a))
    (override (Simulation.adj_alpha adj) era (Simulation.alpha a))
    (override (Simulation.adj_myopic_fraction adj) era (Simulation.myopic_fraction a))
    (override (Simulation.adj_relative_utility_threshold adj) era
              (Simulation.relative_utility_threshold a))
    (override (Simulation.adj_absolute_utility_threshold adj) era
              (Simulation.absolute_utility_threshold a))
    (override (Simulation.adj_min_steps_to_keep_pool adj) era
              (Simulation.min_steps_to_keep_pool a))
    (override (Simulation.adj_pool_splitting adj) era (Simulation.pool_splitting a))
    (override (Simulation.adj_max_iterations adj) era (Simulation.max_iterations a))
    (override (Simulation.adj_cost_factor adj) era (Simulation.cost_factor a))
    (override (Simulation.adj_agent_activation_order adj) era
              (Simulation.agent_activation_order a))
    (override (Simulation.adj_extra_cost_type adj) era (Simulation.extra_cost_type a))
    (override (Simulation.adj_reward_function_option adj) era
              (Simulation.reward_function_option a))
    (override (Simulation.adj_generate_graphs adj) era (Simulation.generate_graphs a)).

(** What [adjust_params] leaves alone. *)
Definition same_round_state (s s' : Simulation.t) : Prop :=
  Simulation.running s' = Simulation.running s
  /\ Simulation.total_eras s' = Simulation.total_eras s
  /\ Simulation.total_stake s' = Simulation.total_stake s
  /\ Simulation.consecutive_idle_steps s' = Simulation.consecutive_idle_steps s
  /\ Simulation.current_step_idle s' = Simulation.current_step_idle s
  /\ Simulation.min_consecutive_idle_steps_for_convergence s'
     = Simulation.min_consecutive_idle_steps_for_convergence s
  /\ Simulation.equilibrium_steps s' = Simulation.equilibrium_steps s
  /\ Simulation.adjustable_params s' = Simulation.adjustable_params s.

(** What the periodic revision leaves alone. *)
Definition same_engine_state (s s' : Simulation.t) : Prop :=
  same_round_state s s'
  /\ Simulation.attr s' = Simulation.attr s
  /\ Simulation.current_era s' = Simulation.current_era s
  /\ Simulation.steps s' = Simulation.steps s.

(** *** Operator moves *)

(** The owned pools less those whose ids are in [retired]. *)
Definition without_pools (retired : list Z) (owned_pools : Dict Pool.t) : Dict Pool.t :=
  filter (fun kv => negb (existsb (fun r => Z.eqb r (fst kv)) retired)) owned_pools.

(** The desirabilities that the loop of [determine_current_pools] ranks. *)
Definition owned_desirabilities (env : Env) (owned_pools : Dict Pool.t) : Dict Q :=
  map (fun item => (fst item, calculate_desirability env (snd item))) owned_pools.

(** What the engine needs of [hlp.calculate_ranks]: it ranks the keys it is
    given, and only those. *)
Definition ranks_its_keys (env : Env) : Prop :=
  forall (scores : Dict Q) (key : Z),
    In key (dict_keys (calculate_ranks env scores)) <-> In key (dict_keys scores).

(** The pool that the first loop of [find_operator_move] makes of an
    existing pool [p], for the pledge and cost of the new strategy. *)
Definition adapted_pool (env : Env) (model : Simulation.t) (pledge cost_per_pool : Q)
    (p p' : Pool.t) : Prop :=
  Pool.id p' = Pool.id p
  /\ Pool.owner p' = Pool.owner p
  /\ Pool.delegators p' = Pool.delegators p
  /\ Pool.pledge p' = pledge
  /\ Pool.stake p' = Pool.stake p - (Pool.pledge p - pledge)
  /\ Pool.cost p' = cost_per_pool
  /\ Pool.is_private p' = Qle_bool (Simulation.beta model) pledge
  /\ Pool.potential_profit p'
     = calculate_potential_profit env pledge cost_per_pool
         (Simulation.alpha (Simulation.attr model)) (Simulation.beta model)
  /\ (Pool.is_private p' = true -> Pool.margin p' = 0)
  /\ (0 <= Pool.margin p -> Pool.margin p <= 1 ->
      0 <= Pool.margin p' /\ Pool.margin p' <= 2 * Pool.margin p /\ Pool.margin p' <= 1).

(** The pool that the second loop creates under the id [pool_id]. *)
Definition opened_pool (env : Env) (self : Stakeholder.t) (model : Simulation.t)
    (pledge cost_per_pool : Q) (pool_id : Z) (p : Pool.t) : Prop :=
  Pool.id p = pool_id
  /\ Pool.owner p = Stakeholder.unique_id self
  /\ Pool.delegators p = []
  /\ Pool.pledge p = pledge
  /\ Pool.stake p = pledge
  /\ Pool.cost p = cost_per_pool
  /\ Pool.is_private p = Qle_bool (Simulation.beta model) pledge
  /\ Pool.potential_profit p
     = calculate_potential_profit env pledge cost_per_pool
         (Simulation.alpha (Simulation.attr model)) (Simulation.beta model)
  /\ (Pool.is_private p = true -> Pool.margin p = 0)
  /\ 0 <= Pool.margin p /\ Pool.margin p <= 1 # 2.

(** The agent's strategy counts the pools it holds, registers them under
    their own ids, and none of these ids is ahead of the allocator. *)
Definition consistent_operator (self : Stakeholder.t) (s : Simulation.t) : Prop :=
  let owned_pools := Strategy.owned_pools (Stakeholder.strategy self) in
  registry_wf owned_pools
  /\ Z.of_nat (List.length owned_pools) = Strategy.num_pools (Stakeholder.strategy self)
  /\ forall k, In k (dict_keys owned_pools) -> (k <= Simulation.id_seq s)%Z.

(** What one pass of the loop of [find_operator_moves] adds to [moves]. *)
Definition candidate_entry (self : Stakeholder.t) (entry : Z * Strategy.t) : Prop :=
  Z.of_nat (List.length (keys_minus (Strategy.owned_pools (snd entry))
                                    (Strategy.owned_pools (Stakeholder.strategy self))))
  = Z.max 0 (fst entry - Strategy.num_pools (Stakeholder.strategy self)).

(** The ids that a move with [c] pools takes from the allocator when the
    agent has [n]. *)
Definition ids_taken (n : Z) (candidates : list Z) : Z :=
  fold_right (fun c total => (Z.max 0 (c - n) + total)%Z) 0%Z candidates.

(** The invariant of the loop over the operator strategies. *)
Definition best_so_far (env : Env) (self : Stakeholder.t) (model : Simulation.t)
    (seen : list Strategy.t) (acc : Q * option Strategy.t * option Strategy.t) : Prop :=
  let '(max_operator_utility, max_operator_strategy, _) := acc in
  0 <= max_operator_utility
  /\ (forall st, In st seen ->
        exists u, calculate_utility env self model st = ok u /\ u <= max_operator_utility)
  /\ match max_operator_strategy with
     | None => max_operator_utility = 0
     | Some st => In st seen /\ 0 < max_operator_utility
                  /\ calculate_utility env self model st = ok max_operator_utility
     end.

(** *** What a decision leaves alone *)

(** The two states agree on everything but the pool id allocator and the
    record of who was handed which id. *)
Definition allocator_only (s s' : Simulation.t) : Prop :=
  s' = Simulation.set_pool_owner_id_mapping (Simulation.pool_owner_id_mapping s')
         (Simulation.set_id_seq (Simulation.id_seq s') s).

(** Every run of [c], returning or raising, relates the states by [R]. *)
Definition changes_only {A} (R : Simulation.t -> Simulation.t -> Prop) (c : M A) : Prop :=
  forall s r s', c s = (r, s') -> R s s'.

(** *** The constructor and the rounds *)

(** The agent that [initialize_agents] creates at position [i]. *)
Definition initial_agent (myopic_fraction : Q) (n : Z) (sampled : Sampled) (i : nat)
    (unique_id : Z) : option Stakeholder.t :=
  match nth_error (cost_distribution sampled) i, nth_error (stake_distribution sampled) i with
  | Some cost, Some stake =>
      Some (Stakeholder.create unique_id stake
              (Z.ltb (Z.of_nat i) (py_int (myopic_fraction * inject_Z n))) false cost)
  | _, _ => None
  end.

(** The number of per-era values of a setting; none for a single value. *)
Definition era_count {A} (v : Setting A) : nat :=
  match v with
  | Fixed _ => 0
  | PerEra l => List.length l
  end.

(** The counts for the fourteen [extra_fields], in their order. *)
Definition per_era_counts (args : Args.t) : list nat :=
  [era_count (Args.n args); era_count (Args.k args); era_count (Args.alpha args);
   era_count (Args.myopic_fraction args); era_count (Args.relative_utility_threshold args);
   era_count (Args.absolute_utility_threshold args);
   era_count (Args.min_steps_to_keep_pool args); era_count (Args.pool_splitting args);
   era_count (Args.max_iterations args); era_count (Args.cost_factor args);
   era_count (Args.agent_activation_order args); era_count (Args.extra_cost_type args);
   era_count (Args.reward_function_option args); era_count (Args.generate_graphs args)].

(** No adjustable parameter has a value for [era]. *)
Definition quiet_era (adj : Simulation.adjustable) (era : nat) : Prop :=
  era_value (Simulation.adj_n adj) era = None
  /\ era_value (Simulation.adj_k adj) era = None
  /\ era_value (Simulation.adj_alpha adj) era = None
  /\ era_value (Simulation.adj_myopic_fraction adj) era = None
  /\ era_value (Simulation.adj_relative_utility_threshold adj) era = None
  /\ era_value (Simulation.adj_absolute_utility_threshold adj) era = None
  /\ era_value (Simulation.adj_min_steps_to_keep_pool adj) era = None
  /\ era_value (Simulation.adj_pool_splitting adj) era = None
  /\ era_value (Simulation.adj_max_iterations adj) era = None
  /\ era_value (Simulation.adj_cost_factor adj) era = None
  /\ era_value (Simulation.adj_agent_activation_order adj) era = None
  /\ era_value (Simulation.adj_extra_cost_type adj) era = None
  /\ era_value (Simulation.adj_reward_function_option adj) era = None
  /\ era_value (Simulation.adj_generate_graphs adj) era = None.

(** The guard of the loop of [run_model]. *)
Definition keeps_running (s : Simulation.t) : bool :=
  (Simulation.steps s <=? Simulation.max_iterations (Simulation.attr s))%Z
  && Simulation.running s.

(** What no round changes. *)
Definition same_setup (s s' : Simulation.t) : Prop :=
  Simulation.total_stake s' = Simulation.total_stake s
  /\ Simulation.adjustable_params s' = Simulation.adjustable_params s
  /\ Simulation.total_eras s' = Simulation.total_eras s
  /\ Simulation.min_consecutive_idle_steps_for_convergence s'
     = Simulation.min_consecutive_idle_steps_for_convergence s
  /\ Simulation.revision_frequency s' = Simulation.revision_frequency s
  /\ Simulation.common_cost s' = Simulation.common_cost s.

(** What a round does to the era: nothing, or the step to the next era with
    its overrides. *)
Definition era_kept_or_advanced (s s' : Simulation.t) : Prop :=
  (Simulation.current_era s' = Simulation.current_era s
   /\ Simulation.attr s' = Simulation.attr s
   /\ Simulation.beta s' = Simulation.beta s)
  \/ (Simulation.current_era s' = S (Simulation.current_era s)
      /\ Simulation.attr s'
         = attrs_in_era (Simulation.adjustable_params s) (S (Simulation.current_era s))
                        (Simulation.attr s)
      /\ match era_value (Simulation.adj_k (Simulation.adjustable_params s))
                         (S (Simulation.current_era s)) with
         | Some v => Simulation.k s' = py_int v
                     /\ Simulation.beta s'
                        = Simulation.total_stake s / inject_Z (py_int v)
         | None => Simulation.beta s' = Simulation.beta s
         end).

(** *** Agents acting on the model *)

(** What the engine needs of the order in which a set is visited: the
    members of the set are visited, and nothing else. *)
Definition visits_its_members (env : Env) : Prop :=
  forall (members : list Z) (x : Z), In x (set_iteration env members) <-> In x members.

(** The change of the allocation to the pool [pool_id] between two dicts
    of allocations; [None] when neither allocates to the pool. *)
Definition allocation_change (old_allocations new_allocations : Dict Q) (pool_id : Z)
    : option Q :=
  match dict_get pool_id old_allocations, dict_get pool_id new_allocations with
  | Some old, Some new => Some (new - old)
  | Some old, None => Some (- old)
  | None, Some new => Some new
  | None, None => None
  end.

(** The two models agree on everything but the registry and the agents. *)
Definition acts_only (s s' : Simulation.t) : Prop :=
  s' = Simulation.set_pools (Simulation.pools s')
         (Simulation.set_agents (Simulation.agents s') s).

(** The two strategies agree on everything but the allocations and the
    contents of the owned pools. *)
Definition same_shape (st st' : Strategy.t) : Prop :=
  Strategy.is_pool_operator st' = Strategy.is_pool_operator st
  /\ Strategy.pledges st' = Strategy.pledges st
  /\ Strategy.margins st' = Strategy.margins st
  /\ Strategy.num_pools st' = Strategy.num_pools st
  /\ dict_keys (Strategy.owned_pools st') = dict_keys (Strategy.owned_pools st).

(** The staged strategy is as it was but for its allocations. *)
Definition staged_kept (staged staged' : option Strategy.t) : Prop :=
  match staged, staged' with
  | Some st, Some st' => st' = Strategy.set_stake_allocations (Strategy.stake_allocations st') st
  | None, None => True
  | _, _ => False
  end.

(** The agent is as it was but for the allocations of its strategies and
    the contents of its pools; unless moves are simultaneous, the staged
    strategy has its allocations, too. *)
Definition agent_kept (simultaneous : bool) (a a' : Stakeholder.t) : Prop :=
  Stakeholder.unique_id a' = Stakeholder.unique_id a
  /\ Stakeholder.cost a' = Stakeholder.cost a
  /\ Stakeholder.stake a' = Stakeholder.stake a
  /\ Stakeholder.isMyopic a' = Stakeholder.isMyopic a
  /\ Stakeholder.abstains a' = Stakeholder.abstains a
  /\ Stakeholder.remaining_min_steps_to_keep_pool a'
     = Stakeholder.remaining_min_steps_to_keep_pool a
  /\ staged_kept (Stakeholder.new_strategy a) (Stakeholder.new_strategy a')
  /\ (simultaneous = false -> Stakeholder.new_strategy a' = Stakeholder.new_strategy a)
  /\ same_shape (Stakeholder.strategy a) (Stakeholder.strategy a').

(** The agent is as it was but for the contents of its pools. *)
Definition agent_pools_only (a a' : Stakeholder.t) : Prop :=
  a' = Stakeholder.set_strategy
         (set_owned_pools (Strategy.owned_pools (Stakeholder.strategy a'))
                          (Stakeholder.strategy a))
         a
  /\ dict_keys (Strategy.owned_pools (Stakeholder.strategy a'))
     = dict_keys (Strategy.owned_pools (Stakeholder.strategy a)).

(** The same agents are registered, each related to what it was. *)
Definition agents_related (P : Stakeholder.t -> Stakeholder.t -> Prop)
    (s s' : Simulation.t) : Prop :=
  forall unique_id,
    match dict_get unique_id (Simulation.agents s),
          dict_get unique_id (Simulation.agents s') with
    | Some a, Some a' => P a a'
    | None, None => True
    | _, _ => False
    end.

Definition simultaneous (s : Simulation.t) : bool :=
  String.eqb (Simulation.agent_activation_order (Simulation.attr s)) "Simultaneous".

(** What the registry methods leave alone: the rest of the model, and the
    agents but for their allocations and the contents of their pools. *)
Definition registry_write (s s' : Simulation.t) : Prop :=
  acts_only s s'
  /\ dict_keys (Simulation.agents s') = dict_keys (Simulation.agents s)
  /\ agents_related (agent_kept (simultaneous s)) s s'.

Definition registry_written (w w' : World.t) : Prop :=
  registry_write (World.model w) (World.model w').

(** The two worlds agree on everything but the registry, what is shared
    with it, and the agents, which are related by [P]. *)
Definition acts_within (P : Stakeholder.t -> Stakeholder.t -> Prop) (w w' : World.t) : Prop :=
  acts_only (World.model w) (World.model w')
  /\ dict_keys (Simulation.agents (World.model w'))
     = dict_keys (Simulation.agents (World.model w))
  /\ agents_related P (World.model w) (World.model w').

(** A registered pool [pool_id] may have been written to; the other pools
    of the registry are as they were, and no pool has come or gone. *)
Definition pool_written (pool_id : Z) (s s' : Simulation.t) : Prop :=
  In pool_id (dict_keys (Simulation.pools s)) ->
  dict_keys (Simulation.pools s') = dict_keys (Simulation.pools s)
  /\ forall x, x <> pool_id ->
       dict_get x (Simulation.pools s') = dict_get x (Simulation.pools s).

Definition pool_written_in (pool_id : Z) (w w' : World.t) : Prop :=
  pool_written pool_id (World.model w) (World.model w').

(** Every run of [c], returning or raising, relates the worlds by [R]. *)
Definition wchanges_only {A} (R : World.t -> World.t -> Prop) (c : W A) : Prop :=
  forall w r w', c w = (r, w') -> R w w'.

(** What [execute_strategy] makes of the agent [self] that has staged the
    strategy [staged]: the staged strategy is the current one, with the
    pools [owned_pools], and nothing is staged. *)
Definition committed (self : Stakeholder.t) (staged : Strategy.t) (cooldown : Z)
    (owned_pools : Dict Pool.t) : Stakeholder.t :=
  Stakeholder.make (Stakeholder.unique_id self) (Stakeholder.cost self)
                   (Stakeholder.stake self) (Stakeholder.isMyopic self)
                   (Stakeholder.abstains self) cooldown None
                   (set_owned_pools owned_pools staged).

(** Of the pools that the strategy of the agent [unique_id] holds, those
    with an id in [opened] are registered, and shared with the registry;
    the others are as [staged_pools] has them, and not shared. *)
Definition opened_are_shared (unique_id : Z) (opened : list Z) (staged_pools : Dict Pool.t)
    (w : World.t) : Prop :=
  exists a,
    dict_get unique_id (Simulation.agents (World.model w)) = Some a
    /\ forall x,
         (In x opened ->
          dict_get x (World.shared w) = Some unique_id
          /\ In x (dict_keys (Simulation.pools (World.model w)))
          /\ dict_get x (Strategy.owned_pools (Stakeholder.strategy a))
             = dict_get x (Simulation.pools (World.model w)))
         /\ (~ In x opened ->
             dict_get x (World.shared w) <> Some unique_id
             /\ dict_get x (Strategy.owned_pools (Stakeholder.strategy a))
                = dict_get x staged_pools).

(** [remaining_min_steps_to_keep_pool] after the countdown at the end of
    [Stakeholder.step]. *)
Definition counted_down (cooldown : Z) : Z :=
  if (0 <? cooldown)%Z then (cooldown - 1)%Z else cooldown.


(** * Properties *)

(** ** Comparisons *)

Lemma Qltb_lt (a b : Q) : Qltb a b = true <-> a < b.
Proof.
  unfold Qltb. rewrite negb_true_iff. split; intro H.
  - apply Qnot_le_lt. intro Hle. apply Qle_bool_iff in Hle. congruence.
  - destruct (Qle_bool b a) eqn:E; [|reflexivity].
    apply Qle_bool_iff in E. exfalso. apply (Qlt_not_le _ _ H E).
Qed.

Lemma Qltb_ge (a b : Q) : Qltb a b = false <-> b <= a.
Proof.
  unfold Qltb. rewrite negb_false_iff. apply Qle_bool_iff.
Qed.

Lemma py_max_spec (a b : Q) : a <= py_max a b /\ b <= py_max a b.
Proof.
  unfold py_max. destruct (Qltb a b) eqn:E.
  - apply Qltb_lt in E. split; [apply Qlt_le_weak; exact E | apply Qle_refl].
  - apply Qltb_ge in E. split; [apply Qle_refl | exact E].
Qed.

Lemma py_min_spec (a b : Q) : py_min a b <= a /\ py_min a b <= b.
Proof.
  unfold py_min. destruct (Qltb b a) eqn:E.
  - apply Qltb_lt in E. split; [apply Qlt_le_weak; exact E | apply Qle_refl].
  - apply Qltb_ge in E. split; [apply Qle_refl | exact E].
Qed.

Lemma py_min_cases (a b : Q) :
  (py_min a b = b /\ b < a) \/ (py_min a b = a /\ a <= b).
Proof.
  unfold py_min. destruct (Qltb b a) eqn:E.
  - left. split; [reflexivity | apply Qltb_lt; exact E].
  - right. split; [reflexivity | apply Qltb_ge; exact E].
Qed.

(** ** [has_potential_for_pool] *)

(** C5. [has_potential_for_pool] answers true exactly when the potential
    profit of the agent is strictly positive and either the existing pools,
    each filled to [beta], hold less than the total stake, or some existing
    pool has a desirability strictly below that potential profit. *)
Theorem has_potential_for_pool_iff (env : Env) (self : Stakeholder.t) (model : Simulation.t) :
  let potential_profit :=
    calculate_potential_profit env (Stakeholder.stake self) (Stakeholder.cost self)
      (Simulation.alpha (Simulation.attr model)) (Simulation.beta model) in
  let current_pools := dict_values (Simulation.pools model) in
  has_potential_for_pool env self model = true <->
  0 < potential_profit /\
  (inject_Z (Z.of_nat (List.length current_pools)) * Simulation.beta model
     < Simulation.total_stake model
   \/ exists pool, In pool current_pools
                   /\ calculate_desirability env pool < potential_profit).
Proof.
  intros pp pools. unfold has_potential_for_pool. fold pp. fold pools.
  destruct (Qltb (inject_Z (Z.of_nat (List.length pools)) * Simulation.beta model)
                 (Simulation.total_stake model)) eqn:Hcap.
  - apply Qltb_lt in Hcap. rewrite Qltb_lt. split.
    + intro Hpp. split; [exact Hpp | left; exact Hcap].
    + intros [Hpp _]. exact Hpp.
  - apply Qltb_ge in Hcap. rewrite andb_true_iff, Qltb_lt, existsb_exists. split.
    + intros [Hpp [d [Hin Hd]]]. split; [exact Hpp|]. right.
      apply in_map_iff in Hin. destruct Hin as [pool [Heq Hin]].
      exists pool. split; [exact Hin|]. rewrite Heq. apply Qltb_lt. exact Hd.
    + intros [Hpp [Hlt | [pool [Hin Hd]]]].
      * exfalso. apply (Qlt_not_le _ _ Hlt Hcap).
      * split; [exact Hpp|]. exists (calculate_desirability env pool).
        split; [apply in_map; exact Hin | apply Qltb_lt; exact Hd].
Qed.

(** ** Dictionaries *)

Lemma dict_get_set_same {V} (k : Z) (v : V) (d : Dict V) :
  dict_get k (dict_set k v d) = Some v.
Proof.
  induction d as [|[k' v'] d IH]; simpl.
  - rewrite Z.eqb_refl. reflexivity.
  - destruct (Z.eqb k k') eqn:E; simpl.
    + rewrite Z.eqb_refl. reflexivity.
    + rewrite E. exact IH.
Qed.

Lemma dict_get_set_other {V} (k k' : Z) (v : V) (d : Dict V) :
  k <> k' -> dict_get k' (dict_set k v d) = dict_get k' d.
Proof.
  intro Hne. induction d as [|[k0 v0] d IH]; simpl.
  - destruct (Z.eqb k' k) eqn:E; [apply Z.eqb_eq in E; congruence | reflexivity].
  - destruct (Z.eqb k k0) eqn:E; simpl.
    + apply Z.eqb_eq in E. subst k0.
      destruct (Z.eqb k' k) eqn:E'; [apply Z.eqb_eq in E'; congruence | reflexivity].
    + destruct (Z.eqb k' k0); [reflexivity | exact IH].
Qed.

Lemma dict_get_remove_same {V} (k : Z) (d : Dict V) :
  dict_get k (dict_remove k d) = None.
Proof.
  induction d as [|[k' v'] d IH]; simpl; [reflexivity|].
  destruct (Z.eqb k k') eqn:E; simpl; [exact IH | rewrite E; exact IH].
Qed.

Lemma dict_get_remove_other {V} (k k' : Z) (d : Dict V) :
  k <> k' -> dict_get k' (dict_remove k d) = dict_get k' d.
Proof.
  intro Hne. induction d as [|[k0 v0] d IH]; simpl; [reflexivity|].
  destruct (Z.eqb k k0) eqn:E; simpl.
  - apply Z.eqb_eq in E. subst k0.
    destruct (Z.eqb k' k) eqn:E'; [apply Z.eqb_eq in E'; congruence | exact IH].
  - destruct (Z.eqb k' k0); [reflexivity | exact IH].
Qed.

Lemma dict_get_in_keys {V} (k : Z) (d : Dict V) :
  In k (dict_keys d) <-> exists v, dict_get k d = Some v.
Proof.
  induction d as [|[k' v'] d IH]; simpl.
  - split; [intros [] | intros [v Hv]; discriminate].
  - destruct (Z.eqb k k') eqn:E.
    + apply Z.eqb_eq in E. subst k'. split; [intros _; eexists; reflexivity | intros _; left; reflexivity].
    + apply Z.eqb_neq in E. rewrite <- IH. split.
      * intros [Heq | Hin]; [congruence | exact Hin].
      * intro Hin. right. exact Hin.
Qed.

Lemma dict_mem_in_keys {V} (k : Z) (d : Dict V) :
  dict_mem k d = true <-> In k (dict_keys d).
Proof.
  rewrite dict_get_in_keys. unfold dict_mem.
  destruct (dict_get k d) as [v|]; split; intro H; try discriminate.
  - exists v. reflexivity.
  - reflexivity.
  - destruct H as [v Hv]. discriminate.
Qed.

Lemma dict_remove_fresh {V} (k : Z) (d : Dict V) :
  ~ In k (dict_keys d) -> dict_remove k d = d.
Proof.
  induction d as [|[k' v'] d IH]; simpl; intro Hnin; [reflexivity|].
  destruct (Z.eqb k k') eqn:E; simpl.
  - apply Z.eqb_eq in E. exfalso. apply Hnin. left. symmetry. exact E.
  - f_equal. apply IH. intro Hin. apply Hnin. right. exact Hin.
Qed.

Lemma dict_get_in {V} (k : Z) (v : V) (d : Dict V) :
  dict_get k d = Some v -> In (k, v) d.
Proof.
  induction d as [|[k' v'] d IH]; simpl; [discriminate|].
  destruct (Z.eqb k k') eqn:E.
  - apply Z.eqb_eq in E. intro H. injection H as <-. left. congruence.
  - intro H. right. apply IH. exact H.
Qed.

Lemma dict_in_get {V} (k : Z) (v : V) (d : Dict V) :
  NoDup (dict_keys d) -> In (k, v) d -> dict_get k d = Some v.
Proof.
  induction d as [|[k' v'] d IH]; simpl; intros Hnd Hin; [contradiction|].
  inversion Hnd as [|? ? Hnin Hnd']; subst.
  destruct Hin as [Heq | Hin].
  - injection Heq as -> ->. rewrite Z.eqb_refl. reflexivity.
  - destruct (Z.eqb k k') eqn:E.
    + apply Z.eqb_eq in E. subst k'. exfalso. apply Hnin.
      apply in_map_iff. exists (k, v). split; [reflexivity | exact Hin].
    + apply IH; assumption.
Qed.

(** ** The state monad *)

Lemma raises_only_bind {A B} (P : Exn -> Prop) (c : M A) (f : A -> M B) :
  raises_only P c -> (forall a, raises_only P (f a)) -> raises_only P (mbind c f).
Proof.
  intros Hc Hf s e s'. unfold mbind.
  destruct (c s) as [[e0 | a] s0] eqn:Ec.
  - intro H. injection H as <- <-. apply (Hc _ _ _ Ec).
  - apply Hf.
Qed.

Lemma raises_only_reading {A} (P : Exn -> Prop) (f : Simulation.t -> Result A) :
  (forall s e, f s = inl e -> P e) -> raises_only P (reading f).
Proof.
  intros Hf s e s'. unfold reading. intro H. injection H as H _. apply (Hf _ _ H).
Qed.

Lemma raises_only_modify (P : Exn -> Prop) (f : Simulation.t -> Simulation.t) :
  raises_only P (modify f).
Proof.
  intros s e s'. unfold modify, ok. intro H. discriminate.
Qed.

Lemma raises_only_mret {A} (P : Exn -> Prop) (a : A) : raises_only P (mret a).
Proof.
  intros s e s'. unfold mret, ok. intro H. discriminate.
Qed.

Lemma raises_only_mfold {A B} (P : Exn -> Prop) (f : A -> B -> M A) (l : list B) :
  (forall a b, raises_only P (f a b)) -> forall a, raises_only P (mfold f l a).
Proof.
  intro Hf. induction l as [|b l IH]; intro a; simpl.
  - apply raises_only_mret.
  - apply raises_only_bind; [apply Hf | exact IH].
Qed.

Lemma mbind_returns {A B} (c : M A) (f : A -> M B) (s s' : Simulation.t) (b : B) :
  mbind c f s = (ok b, s') ->
  exists a s1, c s = (ok a, s1) /\ f a s1 = (ok b, s').
Proof.
  unfold mbind. destruct (c s) as [[e|a] s1]; [discriminate|].
  intro H. exists a, s1. split; [reflexivity | exact H].
Qed.

Lemma reading_returns {A} (f : Simulation.t -> Result A) (s s' : Simulation.t) (a : A) :
  reading f s = (ok a, s') -> f s = ok a /\ s' = s.
Proof.
  unfold reading. intro H. injection H as H1 H2. split; [exact H1 | symmetry; exact H2].
Qed.

Lemma dict_lookup_raises {V} (k : Z) (d : Dict V) (e : Exn) :
  dict_lookup k d = inl e -> e = KeyError k.
Proof.
  unfold dict_lookup. destruct (dict_get k d); unfold ok, raise; congruence.
Qed.

Lemma dict_pop_raises {V} (k : Z) (d : Dict V) (e : Exn) :
  dict_pop k d = inl e -> e = KeyError k.
Proof.
  unfold dict_pop. destruct (dict_mem k d); unfold ok, raise; congruence.
Qed.

Lemma update_delegation_raises (p : Pool.t) (x : Q) (d : Z) (e : Exn) :
  Pool.update_delegation p x d = inl e -> e = ValueError "Negative delegation.".
Proof.
  unfold Pool.update_delegation.
  destruct (Qltb _ 0); unfold ok, raise; congruence.
Qed.

(** ** [close_pool] on an id that is not in the registry *)

Lemma remove_delegations_raises (pool_id : Z) :
  raises_only not_the_validation_error (remove_delegations pool_id).
Proof.
  unfold remove_delegations.
  apply raises_only_bind.
  - apply raises_only_reading. intros s e H. apply dict_lookup_raises in H.
    subst e. discriminate.
  - intro pool. apply raises_only_mfold. intros [] player_id. unfold undelegate.
    repeat first
      [ apply raises_only_bind; [| intro]
      | apply raises_only_modify
      | apply raises_only_mret
      | apply raises_only_reading; intros s0 e0 H0 ].
    all: try (apply dict_lookup_raises in H0; subst e0; discriminate).
    all: try (apply dict_pop_raises in H0; subst e0; discriminate).
    all: try (apply update_delegation_raises in H0; subst e0; discriminate).
    all: try discriminate.
    destruct (String.eqb _ _); [|apply raises_only_mret].
    destruct (Stakeholder.new_strategy _); [|apply raises_only_mret].
    apply raises_only_bind; [| intro; apply raises_only_modify].
    apply raises_only_reading. intros s0 e0 H0.
    apply dict_pop_raises in H0; subst e0; discriminate.
Qed.

(** The guarded body leaves with [KeyError] or with the [ValueError] of the
    owner comparison, never with [AttributeError]. *)
Lemma pool_owner_test_raises (self : Stakeholder.t) (pool_id : Z) (model : Simulation.t)
    (e : Exn) :
  pool_owner_test self pool_id model = inl e ->
  e <> AttributeError /\ not_the_validation_error e.
Proof.
  unfold pool_owner_test, dict_lookup, rbind.
  destruct (dict_get pool_id (Simulation.pools model)) as [pool|]; simpl.
  - destruct (negb (Z.eqb (Pool.owner pool) (Stakeholder.unique_id self)));
      unfold raise, ok; intro H; [|discriminate].
    injection H as <-. split; discriminate.
  - unfold raise. intro H. injection H as <-. split; discriminate.
Qed.

(** C10. For a pool id that is not in the registry [close_pool] leaves with
    the [KeyError] of the subscript [pools[pool_id]] and changes nothing; the
    guarded body never raises [AttributeError], so for no input does
    [close_pool] leave with the [ValueError] "Given pool id is not valid.". *)
Theorem close_pool_invalid_id_is_KeyError (self : Stakeholder.t) (pool_id : Z)
    (model : Simulation.t) :
  (dict_get pool_id (Simulation.pools model) = None ->
   close_pool self pool_id model = (raise (KeyError pool_id), model))
  /\ pool_owner_test self pool_id model <> raise AttributeError
  /\ fst (close_pool self pool_id model) <> raise (ValueError "Given pool id is not valid.").
Proof.
  split; [|split].
  - intro Hnone. unfold close_pool, mbind, reading, check_pool_owner, pool_owner_test,
      dict_lookup. rewrite Hnone. reflexivity.
  - intro H. destruct (pool_owner_test_raises _ _ _ _ H) as [Hne _]. apply Hne. reflexivity.
  - assert (Hall : raises_only not_the_validation_error (close_pool self pool_id)).
    { unfold close_pool. apply raises_only_bind.
      - apply raises_only_reading. intros s e. unfold check_pool_owner.
        destruct (pool_owner_test self pool_id s) as [e0|[]] eqn:E; simpl.
        + destruct (pool_owner_test_raises _ _ _ _ E) as [Hattr Hval].
          destruct e0; try (intro H; injection H as <-; exact Hval).
          exfalso. apply Hattr. reflexivity.
        + discriminate.
      - intros _. apply raises_only_bind; [apply remove_delegations_raises|].
        intros _. apply raises_only_bind; [|intro; apply raises_only_modify].
        apply raises_only_reading. intros s e H.
        apply dict_pop_raises in H. subst e. discriminate. }
    destruct (close_pool self pool_id model) as [[e|[]] s'] eqn:E; simpl.
    + intro H. injection H as H. apply (Hall _ _ _ E). exact H.
    + discriminate.
Qed.

(** ** [close_pool] on a registered pool *)

Lemma undelegate_spec (pool_id d : Z) (amount : Q) (rest : Dict Q)
    (s : Simulation.t) (p : Pool.t) :
  dict_get pool_id (Simulation.pools s) = Some p ->
  Pool.delegators p = (d, amount) :: rest ->
  ~ In d (dict_keys rest) ->
  delegator_known pool_id s d ->
  exists s',
    undelegate pool_id d s = (ok tt, s')
    /\ (exists p', dict_get pool_id (Simulation.pools s') = Some p'
                   /\ Pool.delegators p' = rest)
    /\ (exists a', dict_get d (Simulation.agents s') = Some a'
                   /\ allocates_to pool_id a' = false)
    /\ (forall id, id <> d ->
          dict_get id (Simulation.agents s') = dict_get id (Simulation.agents s))
    /\ Simulation.attr s' = Simulation.attr s.
Proof.
  intros Hp Hdel Hfresh [a [Ha [Hmem Hsim]]].
  unfold undelegate, mbind, reading, modify, dict_lookup. rewrite Hp. simpl.
  rewrite Hdel. simpl. rewrite Z.eqb_refl. simpl.
  unfold Pool.update_delegation. rewrite Hdel. simpl. rewrite Z.eqb_refl.
  assert (Hnn : Qltb (amount + - amount) 0 = false) by (apply Qltb_ge; lra).
  assert (Hz : Qeq_bool (amount + - amount) 0 = true) by (apply Qeq_bool_iff; ring).
  rewrite Hnn, Hz. simpl. rewrite Ha. simpl.
  unfold dict_pop. rewrite Hmem. simpl.
  assert (Hrest : dict_remove d ((d, amount) :: rest) = rest).
  { unfold dict_remove. simpl. rewrite Z.eqb_refl. simpl.
    apply (dict_remove_fresh d rest Hfresh). }
  destruct (String.eqb (Simulation.agent_activation_order (Simulation.attr s)) "Simultaneous")
    eqn:Horder.
  - destruct (Stakeholder.new_strategy a) as [ns|] eqn:Hns; simpl.
    + rewrite (Hsim eq_refl ns eq_refl). simpl.
      eexists. split; [reflexivity|]. simpl. repeat split.
      * eexists. split; [apply dict_get_set_same|]. simpl. first [exact Hrest | apply dict_remove_fresh; exact Hfresh].
      * eexists. split; [apply dict_get_set_same|].
        unfold allocates_to, dict_mem. simpl. rewrite dict_get_remove_same. reflexivity.
      * intros id Hne. rewrite !dict_get_set_other by congruence. reflexivity.
    + eexists. unfold mret. split; [reflexivity|]. simpl. repeat split.
      * eexists. split; [apply dict_get_set_same|]. simpl. first [exact Hrest | apply dict_remove_fresh; exact Hfresh].
      * eexists. split; [apply dict_get_set_same|].
        unfold allocates_to, dict_mem. simpl. rewrite dict_get_remove_same. reflexivity.
      * intros id Hne. rewrite dict_get_set_other by congruence. reflexivity.
  - eexists. unfold mret. split; [reflexivity|]. simpl. repeat split.
    + eexists. split; [apply dict_get_set_same|]. simpl. first [exact Hrest | apply dict_remove_fresh; exact Hfresh].
    + eexists. split; [apply dict_get_set_same|].
      unfold allocates_to, dict_mem. simpl. rewrite dict_get_remove_same. reflexivity.
    + intros id Hne. rewrite dict_get_set_other by congruence. reflexivity.
Qed.

Lemma undelegate_all (pool_id : Z) (del : Dict Q) :
  forall (s : Simulation.t) (p : Pool.t),
    dict_get pool_id (Simulation.pools s) = Some p ->
    Pool.delegators p = del ->
    NoDup (dict_keys del) ->
    (forall d, In d (dict_keys del) -> delegator_known pool_id s d) ->
    exists s',
      mfold (fun _ player_id => undelegate pool_id player_id) (dict_keys del) tt s = (ok tt, s')
      /\ (exists p', dict_get pool_id (Simulation.pools s') = Some p'
                     /\ Pool.delegators p' = [])
      /\ (forall id, In id (dict_keys del) ->
            exists a', dict_get id (Simulation.agents s') = Some a'
                       /\ allocates_to pool_id a' = false)
      /\ (forall id, ~ In id (dict_keys del) ->
            dict_get id (Simulation.agents s') = dict_get id (Simulation.agents s)).
Proof.
  induction del as [|[d amount] rest IH]; intros s p Hp Hdel Hnd Hknown.
  - exists s. simpl. unfold mret. repeat split.
    + exists p. split; assumption.
    + intros id [].
  - simpl in Hnd. inversion Hnd as [|? ? Hfresh Hnd']; subst.
    destruct (undelegate_spec pool_id d amount rest s p Hp Hdel Hfresh
                (Hknown d (or_introl eq_refl)))
      as [s1 [Hrun [[p1 [Hp1 Hdel1]] [[a1 [Ha1 Hout1]] [Hothers Hattr]]]]].
    destruct (IH s1 p1 Hp1 Hdel1 Hnd') as [s' [Hfold [Hempty [Hgone Hkept]]]].
    { intros d' Hin. assert (Hne : d' <> d) by (intro; subst; contradiction).
      destruct (Hknown d' (or_intror Hin)) as [a [Ha [Hmem Hsim]]].
      exists a. rewrite (Hothers d' Hne), Hattr. repeat split; assumption. }
    exists s'. simpl. unfold mbind. rewrite Hrun. repeat split.
    + exact Hfold.
    + exact Hempty.
    + intros id [Heq | Hin].
      * subst id. destruct (in_dec Z.eq_dec d (dict_keys rest)) as [Hin | Hnin];
          [contradiction|].
        exists a1. rewrite (Hkept d Hnin). split; assumption.
      * apply Hgone. exact Hin.
    + intros id Hnin. rewrite Hkept by (intro; apply Hnin; right; assumption).
      apply Hothers. intro; subst. apply Hnin. left. reflexivity.
Qed.


(** ** [calculate_utility] and allocations to pools that do not exist *)

Lemma calculate_delegator_utility_returns (env : Env) (self : Stakeholder.t)
    (model : Simulation.t) (pool : Pool.t) (a : Q) :
  0 < a ->
  previous_allocation_to_pool self pool <= Pool.stake pool ->
  exists u, calculate_delegator_utility env self model pool a = ok u.
Proof.
  intros Ha Hprev. unfold calculate_delegator_utility.
  set (current_stake := Pool.stake pool - previous_allocation_to_pool self pool + a).
  assert (Hcur : 0 < current_stake) by (unfold current_stake; lra).
  set (pool_stake := if Stakeholder.isMyopic self then current_stake else _).
  assert (Hpos : 0 < pool_stake).
  { unfold pool_stake. destruct (Stakeholder.isMyopic self); [exact Hcur|].
    eapply Qlt_le_trans; [exact Hcur | apply py_max_spec]. }
  unfold py_div. destruct (Qeq_bool pool_stake 0) eqn:E.
  - apply Qeq_bool_iff in E. rewrite E in Hpos. exfalso. apply (Qlt_irrefl 0 Hpos).
  - simpl. eexists. reflexivity.
Qed.

Lemma delegation_loop_returns (env : Env) (self : Stakeholder.t) (model : Simulation.t)
    (allocations : Dict Q) :
  stakes_cover_own_delegations self model allocations ->
  (forall pool_id a, In (pool_id, a) allocations -> 0 < a ->
                     dict_get pool_id (Simulation.pools model) <> None) ->
  forall utility,
    exists u, rfold (add_delegation_utility env self model) allocations utility = ok u.
Proof.
  induction allocations as [|[pool_id a] rest IH]; intros Hcover Hreg utility; simpl.
  - eexists. reflexivity.
  - assert (Hcover' : stakes_cover_own_delegations self model rest).
    { intros pid x pool Hin. apply (Hcover pid x pool). right. exact Hin. }
    assert (Hreg' : forall pid x, In (pid, x) rest -> 0 < x ->
                                  dict_get pid (Simulation.pools model) <> None).
    { intros pid x Hin. apply Hreg. right. exact Hin. }
    destruct (Qle_bool a 0) eqn:Ea; simpl.
    + apply (IH Hcover' Hreg').
    + assert (Hpos : 0 < a).
      { apply Qnot_le_lt. intro Hle. apply Qle_bool_iff in Hle. congruence. }
      destruct (dict_get pool_id (Simulation.pools model)) as [pool|] eqn:Hget.
      * destruct (calculate_delegator_utility_returns env self model pool a Hpos) as [u Hu].
        { apply (Hcover pool_id a pool); [left; reflexivity | exact Hget]. }
        rewrite Hu. simpl. apply (IH Hcover' Hreg').
      * exfalso. apply (Hreg pool_id a (or_introl eq_refl) Hpos). exact Hget.
Qed.

Lemma delegation_loop_raises (env : Env) (self : Stakeholder.t) (model : Simulation.t)
    (allocations : Dict Q) :
  stakes_cover_own_delegations self model allocations ->
  (exists pool_id a, In (pool_id, a) allocations /\ 0 < a
                     /\ dict_get pool_id (Simulation.pools model) = None) ->
  exists pool_id,
    dict_get pool_id (Simulation.pools model) = None
    /\ In pool_id (dict_keys allocations)
    /\ forall utility,
         rfold (add_delegation_utility env self model) allocations utility
         = raise (PoolNotFoundError (Stakeholder.unique_id self) pool_id).
Proof.
  induction allocations as [|[pool_id a] rest IH];
    intros Hcover [bad [x [Hin [Hx Hbad]]]].
  - contradiction.
  - assert (Hcover' : stakes_cover_own_delegations self model rest).
    { intros pid y pool Hin'. apply (Hcover pid y pool). right. exact Hin'. }
    assert (Hrest : In (bad, x) rest ->
              exists pid, dict_get pid (Simulation.pools model) = None
                          /\ In pid (dict_keys rest)
                          /\ forall u, rfold (add_delegation_utility env self model) rest u
                                       = raise (PoolNotFoundError (Stakeholder.unique_id self) pid)).
    { intro Hin'. apply (IH Hcover'). exists bad, x. auto. }
    destruct (Qle_bool a 0) eqn:Ea.
    + destruct Hin as [Heq | Hin].
      * injection Heq as -> ->. apply Qle_bool_iff in Ea.
        exfalso. apply (Qlt_not_le _ _ Hx Ea).
      * destruct (Hrest Hin) as [pid [Hnone [Hkey Hrun]]].
        exists pid. split; [exact Hnone|]. split; [right; exact Hkey|].
        intro utility. simpl. rewrite Ea. simpl. apply Hrun.
    + assert (Hpos : 0 < a).
      { apply Qnot_le_lt. intro Hle. apply Qle_bool_iff in Hle. congruence. }
      destruct (dict_get pool_id (Simulation.pools model)) as [pool|] eqn:Hget.
      * destruct (calculate_delegator_utility_returns env self model pool a Hpos) as [u Hu].
        { apply (Hcover pool_id a pool); [left; reflexivity | exact Hget]. }
        destruct Hin as [Heq | Hin].
        { injection Heq as -> ->. congruence. }
        destruct (Hrest Hin) as [pid [Hnone [Hkey Hrun]]].
        exists pid. split; [exact Hnone|]. split; [right; exact Hkey|].
        intro utility. simpl. rewrite Ea, Hget, Hu. simpl. apply Hrun.
      * exists pool_id. split; [exact Hget|]. split; [left; reflexivity|].
        intro utility. simpl. rewrite Ea, Hget. reflexivity.
Qed.

(** C8. Let the operator part of the utility be defined (for an operator
    strategy) and let every pool hold at least what the agent has delegated
    to it.  If the strategy allocates a positive amount to a pool id that the
    registry does not hold, [calculate_utility] raises [PoolNotFoundError]
    for such a pool id; if every positive allocation targets a registered
    pool, it returns a utility. *)
Theorem calculate_utility_invalid_reference (env : Env) (self : Stakeholder.t)
    (model : Simulation.t) (strategy : Strategy.t) :
  (Strategy.is_pool_operator strategy = true ->
   exists u, calculate_operator_utility_by_strategy env self model strategy = ok u) ->
  stakes_cover_own_delegations self model (Strategy.stake_allocations strategy) ->
  ((exists pool_id a,
       In (pool_id, a) (Strategy.stake_allocations strategy) /\ 0 < a
       /\ dict_get pool_id (Simulation.pools model) = None) ->
   exists pool_id,
     dict_get pool_id (Simulation.pools model) = None
     /\ In pool_id (dict_keys (Strategy.stake_allocations strategy))
     /\ calculate_utility env self model strategy
        = raise (PoolNotFoundError (Stakeholder.unique_id self) pool_id))
  /\ ((forall pool_id a,
         In (pool_id, a) (Strategy.stake_allocations strategy) -> 0 < a ->
         dict_get pool_id (Simulation.pools model) <> None) ->
      exists u, calculate_utility env self model strategy = ok u).
Proof.
  intros Hop Hcover.
  assert (Hstart : exists u0,
            (if Strategy.is_pool_operator strategy
             then let? u := calculate_operator_utility_by_strategy env self model strategy
                  in ok (0 + u)
             else ok 0) = ok u0).
  { destruct (Strategy.is_pool_operator strategy).
    - destruct (Hop eq_refl) as [u Hu]. rewrite Hu. eexists. reflexivity.
    - eexists. reflexivity. }
  destruct Hstart as [u0 Hu0]. unfold calculate_utility. rewrite Hu0. simpl. split.
  - intro Hbad. destruct (delegation_loop_raises env self model _ Hcover Hbad)
      as [pid [Hnone [Hkey Hrun]]].
    exists pid. split; [exact Hnone|]. split; [exact Hkey | apply Hrun].
  - intro Hreg. apply (delegation_loop_returns env self model _ Hcover Hreg).
Qed.

(** ** [update_strategy]: inertia and the order of the three branches *)

(** [possible_moves] starts with the current strategy at the inflated
    utility, then the delegator branch if it was computed, then the operator
    branch if it was computed. *)
Lemma possible_moves_shape (env : Env) (self : Stakeholder.t) (s s1 : Simulation.t)
    (moves : Moves) (operator_strategy : option Strategy.t) :
  possible_moves env self s = (ok (moves, operator_strategy), s1) ->
  exists current_utility tail,
    calculate_utility env self s (Stakeholder.strategy self) = ok current_utility
    /\ moves = (current, (current_utility_with_inertia s current_utility,
                          Some (Stakeholder.strategy self))) :: tail
    /\ (tail = []
        \/ (exists d, tail = [(delegator, d)])
        \/ (exists o, tail = [(operator, o)])
        \/ (exists d o, tail = [(delegator, d); (operator, o)])).
Proof.
  unfold possible_moves, mbind, reading, mret.
  destruct (calculate_utility env self s (Stakeholder.strategy self)) as [e|cu] eqn:Hcu;
    [discriminate|].
  simpl.
  destruct (Stakeholder.remaining_min_steps_to_keep_pool self =? 0)%Z.
  - destruct (find_delegation_move_desirability env self s None) as [e|ds]; [discriminate|].
    destruct (calculate_utility env self s ds) as [e|du]; [discriminate|].
    simpl.
    destruct (Strategy.is_pool_operator (Stakeholder.strategy self)
              || has_potential_for_pool env self s).
    + destruct (find_operator_moves env self s) as [[e|ops] s2]; [discriminate|].
      destruct (best_operator_move env self s2 (dict_values ops)) as [e|[[mu ms] last]];
        [discriminate|].
      intro H. injection H as <- <- <-.
      exists cu. eexists. split; [reflexivity|]. split; [reflexivity|].
      right. right. right. eexists. eexists. reflexivity.
    + intro H. injection H as <- <- <-.
      exists cu. eexists. split; [reflexivity|]. split; [reflexivity|].
      right. left. eexists. reflexivity.
  - destruct (Strategy.is_pool_operator (Stakeholder.strategy self)
              || has_potential_for_pool env self s).
    + destruct (find_operator_moves env self s) as [[e|ops] s2]; [discriminate|].
      destruct (best_operator_move env self s2 (dict_values ops)) as [e|[[mu ms] last]];
        [discriminate|].
      intro H. injection H as <- <- <-.
      exists cu. eexists. split; [reflexivity|]. split; [reflexivity|].
      right. right. left. eexists. reflexivity.
    + intro H. injection H as <- <- <-.
      exists cu. eexists. split; [reflexivity|]. split; [reflexivity|].
      left. reflexivity.
Qed.

Ltac reflect_comparisons :=
  repeat match goal with
         | H : Qltb _ _ = true |- _ => apply Qltb_lt in H
         | H : Qltb _ _ = false |- _ => apply Qltb_ge in H
         end.

(** [max] over moves listed in the order current, delegator, operator picks
    a move of greatest utility, and the first of those. *)
Lemma first_of_the_best (c : Q * option Strategy.t) (tail : Moves) :
  (tail = []
   \/ (exists d, tail = [(delegator, d)])
   \/ (exists o, tail = [(operator, o)])
   \/ (exists d o, tail = [(delegator, d); (operator, o)])) ->
  let moves := (current, c) :: tail in
  let chosen := max_from utility_lt (current, c) tail in
  In chosen moves
  /\ moves_get (fst chosen) moves = Some (snd chosen)
  /\ forall e, In e moves ->
       utility_of e <= utility_of chosen
       /\ ((listed_order (fst e) < listed_order (fst chosen))%nat ->
           utility_of e < utility_of chosen).
Proof.
  intros [-> | [[d ->] | [[o ->] | [d [o ->]]]]]; simpl;
    unfold utility_lt, utility_of; simpl.
  - split; [left; reflexivity|]. split; [reflexivity|].
    intros e [<- | []]. simpl. split; [apply Qle_refl | lia].
  - destruct (Qltb (fst c) (fst d)) eqn:E1; reflect_comparisons; simpl.
    + split; [right; left; reflexivity|]. split; [reflexivity|].
      intros e [<- | [<- | []]]; simpl; split; try lia; try lra.
    + split; [left; reflexivity|]. split; [reflexivity|].
      intros e [<- | [<- | []]]; simpl; split; try lia; try lra.
  - destruct (Qltb (fst c) (fst o)) eqn:E1; reflect_comparisons; simpl.
    + split; [right; left; reflexivity|]. split; [reflexivity|].
      intros e [<- | [<- | []]]; simpl; split; try lia; try lra.
    + split; [left; reflexivity|]. split; [reflexivity|].
      intros e [<- | [<- | []]]; simpl; split; try lia; try lra.
  - destruct (Qltb (fst c) (fst d)) eqn:E1; simpl.
    + destruct (Qltb (fst d) (fst o)) eqn:E2; reflect_comparisons; simpl.
      * split; [right; right; left; reflexivity|]. split; [reflexivity|].
        intros e [<- | [<- | [<- | []]]]; simpl; split; try lia; try lra.
      * split; [right; left; reflexivity|]. split; [reflexivity|].
        intros e [<- | [<- | [<- | []]]]; simpl; split; try lia; try lra.
    + destruct (Qltb (fst c) (fst o)) eqn:E2; reflect_comparisons; simpl.
      * split; [right; right; left; reflexivity|]. split; [reflexivity|].
        intros e [<- | [<- | [<- | []]]]; simpl; split; try lia; try lra.
      * split; [left; reflexivity|]. split; [reflexivity|].
        intros e [<- | [<- | [<- | []]]]; simpl; split; try lia; try lra.
Qed.

Lemma Move_eqb_eq (a b : Move) : Move_eqb a b = true <-> a = b.
Proof. destruct a, b; simpl; split; congruence. Qed.

(** C1. When [update_strategy] returns, it has compared the moves it
    computed, listed as current, delegator, operator, the current one at the
    utility inflated by the inertia threshold.  The move it chose has the
    greatest utility, and every move listed before it has a strictly smaller
    one: of two moves that tie for the best the earlier is taken, and a tie
    with the baseline stages nothing.  A strategy is staged only when the
    chosen move is not the current one, and then its utility strictly
    exceeds the inflated baseline. *)
Theorem update_strategy_inertia_and_ties (env : Env) (self self' : Stakeholder.t)
    (s s' : Simulation.t) :
  update_strategy env self s = (ok self', s') ->
  exists current_utility moves operator_strategy s1 chosen,
    calculate_utility env self s (Stakeholder.strategy self) = ok current_utility
    /\ possible_moves env self s = (ok (moves, operator_strategy), s1)
    /\ moves_get current moves
       = Some (py_max ((1 + Simulation.relative_utility_threshold (Simulation.attr s))
                       * current_utility)
                      (current_utility
                       + Simulation.absolute_utility_threshold (Simulation.attr s)),
               Some (Stakeholder.strategy self))
    /\ In chosen moves
    /\ max_utility_option moves = ok (fst chosen)
    /\ Stakeholder.new_strategy self'
       = (if Move_eqb (fst chosen) current then None else snd (snd chosen))
    /\ (forall e, In e moves ->
          utility_of e <= utility_of chosen
          /\ ((listed_order (fst e) < listed_order (fst chosen))%nat ->
              utility_of e < utility_of chosen))
    /\ (forall strategy, Stakeholder.new_strategy self' = Some strategy ->
          fst chosen <> current
          /\ py_max ((1 + Simulation.relative_utility_threshold (Simulation.attr s))
                     * current_utility)
                    (current_utility
                     + Simulation.absolute_utility_threshold (Simulation.attr s))
             < utility_of chosen).
Proof.
  intro Hrun. unfold update_strategy in Hrun.
  apply mbind_returns in Hrun. destruct Hrun as [[moves last] [s1 [Hpm Hrun]]].
  destruct (possible_moves_shape env self s s1 moves last Hpm)
    as [cu [tail [Hcu [Hmoves Hshape]]]].
  set (c := (current_utility_with_inertia s cu, Some (Stakeholder.strategy self))) in *.
  destruct (first_of_the_best c tail Hshape) as [Hin [Hget Hbest]].
  rewrite <- Hmoves in Hin, Hget, Hbest.
  set (chosen := max_from utility_lt (current, c) tail) in *.
  assert (Hopt : max_utility_option moves = ok (fst chosen)).
  { rewrite Hmoves. reflexivity. }
  assert (Hnew : Stakeholder.new_strategy self'
                 = (if Move_eqb (fst chosen) current then None else snd (snd chosen))).
  { apply mbind_returns in Hrun. destruct Hrun as [option [s2 [Hoption Hrun]]].
    apply reading_returns in Hoption. destruct Hoption as [Hoption ->].
    rewrite Hopt in Hoption. injection Hoption as <-.
    apply mbind_returns in Hrun. destruct Hrun as [[] [s3 [_ Hrun]]].
    apply mbind_returns in Hrun. destruct Hrun as [staged [s4 [Hstaged Hrun]]].
    apply reading_returns in Hstaged. destruct Hstaged as [Hstaged ->].
    unfold mret in Hrun. injection Hrun as <- _. simpl.
    destruct (Move_eqb (fst chosen) current).
    - injection Hstaged as <-. reflexivity.
    - rewrite Hget in Hstaged. destruct (snd chosen) as [u st].
      injection Hstaged as <-. reflexivity. }
  exists cu, moves, last, s1, chosen.
  split; [exact Hcu|]. split; [exact Hpm|].
  split; [rewrite Hmoves; reflexivity|].
  split; [exact Hin|]. split; [exact Hopt|]. split; [exact Hnew|].
  split; [exact Hbest|].
  intros strategy Hstaged. rewrite Hnew in Hstaged.
  destruct (Move_eqb (fst chosen) current) eqn:Ecur; [discriminate|].
  assert (Hne : fst chosen <> current).
  { intro Heq. apply Move_eqb_eq in Heq. congruence. }
  split; [exact Hne|].
  assert (Hfirst : In (current, c) moves) by (rewrite Hmoves; left; reflexivity).
  destruct (Hbest _ Hfirst) as [_ Hstrict]. apply Hstrict. simpl.
  destruct (fst chosen); simpl; [congruence | lia | lia].
Qed.

(** ** [beta] and [k] *)

Lemma py_div_returns (a b q : Q) : py_div a b = ok q -> q = a / b /\ ~ b == 0.
Proof.
  unfold py_div. destruct (Qeq_bool b 0) eqn:E; [discriminate|].
  intro H. injection H as <-. split; [reflexivity|].
  intro Hz. apply Qeq_bool_iff in Hz. congruence.
Qed.

Ltac step_binds H :=
  repeat match type of H with
         | rbind ?r _ = ok _ =>
             destruct r eqn:?; simpl in H; [discriminate|]
         | (let (_, _) := ?p in _) = ok _ => destruct p; simpl in H
         | (if ?c then _ else _) = ok _ => destruct c eqn:?; simpl in H; try discriminate
         | match ?x with Fixed _ => _ | PerEra _ => _ end = ok _ =>
             destruct x eqn:?; simpl in H; try discriminate
         end.

Lemma init_beta_follows_k (call file_args : Args.t) (input_from_file : bool)
    (sampled : Sampled) (common_cost : Q) (s : Simulation.t) :
  init call input_from_file file_args sampled common_cost = ok s -> beta_follows_k s.
Proof.
  intro H. unfold init in H. step_binds H.
  injection H as <-. unfold beta_follows_k. simpl.
  match goal with
  | E : py_div ?a (inject_Z ?k) = inr ?b |- ?b == _ =>
      apply py_div_returns in E; destruct E as [-> _]; reflexivity
  end.
Qed.

Lemma adjust_params_spec (s s' : Simulation.t) :
  adjust_params s = ok s' ->
  let era := S (Simulation.current_era s) in
  Simulation.current_era s' = era
  /\ same_round_state s s'
  /\ Simulation.attr s' = attrs_in_era (Simulation.adjustable_params s) era (Simulation.attr s)
  /\ match era_value (Simulation.adj_k (Simulation.adjustable_params s)) era with
     | Some v => Simulation.k s' = py_int v
                 /\ Simulation.beta s' = Simulation.total_stake s / inject_Z (py_int v)
     | None => Simulation.k s' = Simulation.k s /\ Simulation.beta s' = Simulation.beta s
     end.
Proof.
  unfold adjust_params, adjust_k. simpl.
  destruct (era_value (Simulation.adj_k (Simulation.adjustable_params s))
                      (S (Simulation.current_era s))) as [v|] eqn:Ek; simpl.
  - destruct (py_div (Simulation.total_stake s) (inject_Z (py_int v))) as [e|b] eqn:Ediv;
      simpl; [discriminate|].
    apply py_div_returns in Ediv. destruct Ediv as [-> _].
    intro H. injection H as <-.
    match goal with
    | |- context [if ?c then _ else _] => destruct c
    end; simpl; unfold same_round_state; simpl; repeat split; reflexivity.
  - intro H. injection H as <-.
    match goal with
    | |- context [if ?c then _ else _] => destruct c
    end; simpl; unfold same_round_state; simpl; repeat split; reflexivity.
Qed.

Lemma adjust_params_returns (s : Simulation.t) :
  (forall v, era_value (Simulation.adj_k (Simulation.adjustable_params s))
                       (S (Simulation.current_era s)) = Some v ->
             py_int v <> 0%Z) ->
  exists s', adjust_params s = ok s'.
Proof.
  intro Hk. unfold adjust_params, adjust_k. simpl.
  destruct (era_value (Simulation.adj_k (Simulation.adjustable_params s))
                      (S (Simulation.current_era s))) as [v|] eqn:Ek; simpl.
  - unfold py_div.
    destruct (Qeq_bool (inject_Z (py_int v)) 0) eqn:Ez.
    + apply Qeq_bool_iff in Ez. exfalso. apply (Hk v eq_refl).
      unfold Qeq in Ez. simpl in Ez. lia.
    + simpl. eexists. reflexivity.
  - eexists. reflexivity.
Qed.

Lemma revise_beliefs_spec (s s' : Simulation.t) :
  revise_beliefs s = ok s' ->
  Simulation.beta s' = Simulation.beta s
  /\ Simulation.total_stake s' = Simulation.total_stake s
  /\ Simulation.perceived_active_stake s' = get_active_stake_pools s
  /\ Simulation.k s'
     = Qceiling (py_round12 (get_active_stake_pools s / Simulation.beta s)).
Proof.
  unfold revise_beliefs. simpl.
  destruct (py_div (get_active_stake_pools s) (Simulation.beta s)) as [e|q] eqn:Ediv;
    simpl; [discriminate|].
  apply py_div_returns in Ediv. destruct Ediv as [-> _].
  intro H. injection H as <-. simpl. repeat split; reflexivity.
Qed.

(** C2, as amended.  Immediately after construction, and after an era
    transition whose overrides set [k], [beta = total_stake / k] holds.  The
    periodic revision [revise_beliefs] sets [k] to
    [ceil(round(active_stake / beta, 12))] and leaves [beta] and the total
    stake as they were. *)
Theorem beta_follows_k_where_recomputed :
  (forall call input_from_file file_args sampled common_cost s,
      init call input_from_file file_args sampled common_cost = ok s ->
      beta_follows_k s)
  /\ (forall s s' v,
         adjust_params s = ok s' ->
         era_value (Simulation.adj_k (Simulation.adjustable_params s))
                   (S (Simulation.current_era s)) = Some v ->
         Simulation.k s' = py_int v /\ beta_follows_k s')
  /\ (forall s s',
         revise_beliefs s = ok s' ->
         Simulation.beta s' = Simulation.beta s
         /\ Simulation.total_stake s' = Simulation.total_stake s
         /\ Simulation.k s'
            = Qceiling (py_round12 (get_active_stake_pools s / Simulation.beta s))).
Proof.
  split; [|split].
  - intros call input_from_file file_args sampled common_cost s.
    apply init_beta_follows_k.
  - intros s s' v Hrun Hk. apply adjust_params_spec in Hrun. simpl in Hrun.
    destruct Hrun as [_ [Hsame [_ Hkb]]]. rewrite Hk in Hkb.
    destruct Hkb as [Hk' Hb]. split; [exact Hk'|].
    unfold beta_follows_k. rewrite Hb, Hk'.
    destruct Hsame as [_ [_ [-> _]]]. reflexivity.
  - intros s s' Hrun. apply revise_beliefs_spec in Hrun.
    destruct Hrun as [Hb [Ht [_ Hk]]]. repeat split; assumption.
Qed.


(** C2 fails for [revise_beliefs].  In the run of [example_args] under
    [opening_schedule] the invariant holds at the start of round 10; the
    revision due in that round finds one pool holding half of the stake,
    sets [k] to 1 and keeps [beta] at one half, which is not
    [total_stake / k]. *)
Lemma revise_beliefs_breaks_beta_k :
  exists s0 s s',
    init example_args false example_args example_sampled 0 = ok s0
    /\ run_steps opening_schedule 10 s0 = ok s
    /\ beta_follows_k s
    /\ revise_beliefs s = ok s'
    /\ Simulation.k s = 2%Z
    /\ Simulation.k s' = 1%Z
    /\ ~ beta_follows_k s'.
Proof.
  eexists. eexists. eexists.
  split; [vm_compute; reflexivity|].
  split; [vm_compute; reflexivity|].
  split; [unfold beta_follows_k, Qeq; vm_compute; reflexivity|].
  split; [vm_compute; reflexivity|].
  split; [reflexivity|].
  split; [reflexivity|].
  unfold beta_follows_k, Qeq. vm_compute. discriminate.
Qed.

Lemma beta_follows_k_where_recomputed_witness :
  exists s s',
    init two_era_args false two_era_args example_sampled 0 = ok s
    /\ adjust_params s = ok s'
    /\ beta_follows_k s
    /\ Simulation.k s' = 4%Z
    /\ beta_follows_k s'.
Proof.
  destruct beta_follows_k_where_recomputed as [Hinit [Hadjust _]].
  eexists. eexists.
  split; [vm_compute; reflexivity|].
  split; [vm_compute; reflexivity|].
  match goal with
  | |- beta_follows_k ?s /\ _ /\ beta_follows_k ?s' =>
      split;
      [ apply (Hinit two_era_args false two_era_args example_sampled 0 s);
        vm_compute; reflexivity
      | split;
        [ reflexivity
        | apply (Hadjust s s' 4); [vm_compute; reflexivity | reflexivity] ] ]
  end.
Defined.

(** ** The theorems at concrete inputs *)

Lemma update_strategy_inertia_and_ties_witness :
  exists self' s',
    update_strategy reference_env example_newcomer example_model = (ok self', s')
    /\ exists current_utility chosen,
         calculate_utility reference_env example_newcomer example_model
                           (Stakeholder.strategy example_newcomer) = ok current_utility
         /\ Stakeholder.new_strategy self'
            = (if Move_eqb (fst chosen) current then None else snd (snd chosen))
         /\ forall strategy, Stakeholder.new_strategy self' = Some strategy ->
              fst chosen <> current
              /\ py_max ((1 + 0) * current_utility) (current_utility + (1 # 1000000000))
                 < utility_of chosen.
Proof.
  let v := eval vm_compute in (update_strategy reference_env example_newcomer example_model) in
  match v with
  | (inr ?a, ?s) =>
      assert (E : update_strategy reference_env example_newcomer example_model = (ok a, s))
        by (vm_compute; reflexivity);
      exists a, s; split; [exact E|];
      destruct (update_strategy_inertia_and_ties _ _ _ _ _ E)
        as [cu [moves [last [s1 [chosen [Hcu [_ [_ [_ [_ [Hnew [_ Hstaged]]]]]]]]]]]];
      exists cu, chosen; split; [exact Hcu|]; split; [exact Hnew | exact Hstaged]
  end.
Defined.


Lemma calculate_utility_invalid_reference_witness :
  (exists pool_id,
      calculate_utility reference_env example_newcomer example_model
                        (Strategy.delegator [(1%Z, 1 # 10); (7%Z, 1 # 10)])
      = raise (PoolNotFoundError 2 pool_id))
  /\ (exists u,
         calculate_utility reference_env example_newcomer example_model
                           (Strategy.delegator [(1%Z, 1 # 10)]) = ok u).
Proof.
  assert (Hpool : forall pool_id pool,
             dict_get pool_id (Simulation.pools example_model) = Some pool ->
             previous_allocation_to_pool example_newcomer pool <= Pool.stake pool).
  { intros pool_id pool. simpl.
    destruct (pool_id =? 1)%Z; [|discriminate].
    intro H. injection H as <-. unfold previous_allocation_to_pool. simpl. lra. }
  split.
  - destruct (calculate_utility_invalid_reference reference_env example_newcomer
                example_model (Strategy.delegator [(1%Z, 1 # 10); (7%Z, 1 # 10)]))
      as [Hraise _].
    + intro H. discriminate.
    + intros pool_id a pool _. apply Hpool.
    + destruct Hraise as [pool_id [_ [_ Hrun]]].
      * exists 7%Z, (1 # 10). split; [right; left; reflexivity|].
        split; [lra | reflexivity].
      * exists pool_id. exact Hrun.
  - destruct (calculate_utility_invalid_reference reference_env example_newcomer
                example_model (Strategy.delegator [(1%Z, 1 # 10)]))
      as [_ Hreturn].
    + intro H. discriminate.
    + intros pool_id a pool _. apply Hpool.
    + apply Hreturn. intros pool_id a [H | []] _. injection H as <- _. discriminate.
Defined.

(** ** Convergence and era transitions *)

Lemma revise_if_due_frame (s s' : Simulation.t) :
  revise_if_due s = ok s' -> same_engine_state s s'.
Proof.
  unfold revise_if_due.
  destruct (Simulation.revision_frequency s =? 0)%Z; [discriminate|].
  destruct ((Simulation.steps s mod Simulation.revision_frequency s =? 0)%Z
            && (0 <? Simulation.steps s)%Z).
  - unfold revise_beliefs. simpl.
    destruct (py_div (get_active_stake_pools s) (Simulation.beta s)); simpl; [discriminate|].
    intro H. injection H as <-.
    unfold same_engine_state, same_round_state. simpl. repeat split; reflexivity.
  - intro H. injection H as <-.
    unfold same_engine_state, same_round_state. repeat split; reflexivity.
Qed.

Section Convergence.

Variable schedule_step : Simulation.t -> Result Activation.

Lemma activate_idle (s : Simulation.t) (a : Activation) :
  schedule_step s = ok a -> act_changed a = false ->
  exists s', activate schedule_step s = ok s'
             /\ same_round_state s s'
             /\ Simulation.attr s' = Simulation.attr s
             /\ Simulation.current_era s' = Simulation.current_era s
             /\ Simulation.steps s' = (Simulation.steps s + 1)%Z.
Proof.
  intros Hsched Hidle. unfold activate. rewrite Hsched. simpl. rewrite Hidle.
  eexists. split; [reflexivity|].
  unfold same_round_state. simpl. repeat split; reflexivity.
Qed.

(** The state after the agents of an idle round have acted and the round
    has been counted. *)
Lemma idle_round_counted (s s0 : Simulation.t) (a : Activation) :
  (Simulation.steps s < Simulation.max_iterations (Simulation.attr s))%Z ->
  Simulation.current_step_idle s = true ->
  revise_if_due s = ok s0 ->
  schedule_step s0 = ok a ->
  act_changed a = false ->
  exists s2,
    same_round_state s s2 /\ Simulation.attr s2 = Simulation.attr s
    /\ Simulation.current_era s2 = Simulation.current_era s
    /\ step schedule_step s =
       (let s3 := Simulation.set_consecutive_idle_steps
                    (Simulation.consecutive_idle_steps s + 1) s2 in
        if has_converged s3 then
          let s4 := Simulation.set_equilibrium_steps
                      (Simulation.equilibrium_steps s
                       ++ [(Simulation.steps s
                            - Simulation.min_consecutive_idle_steps_for_convergence s + 1)%Z])
                      s3 in
          if Nat.ltb (Simulation.current_era s) (Simulation.total_eras s - 1)
          then let? s5 := adjust_params s4 in ok (Simulation.set_current_step_idle true s5)
          else ok (wrap_up_execution s4)
        else ok (Simulation.set_current_step_idle true s3)).
Proof.
  intros Hplayed Hflag Hrevise Hsched Hidle.
  destruct (revise_if_due_frame s s0 Hrevise) as [Hround0 [Hattr0 [Hera0 Hsteps0]]].
  destruct (activate_idle s0 a Hsched Hidle) as [s2 [Hact [Hround2 [Hattr2 [Hera2 Hsteps2]]]]].
  unfold same_round_state in Hround0, Hround2.
  destruct Hround0 as [Hr0 [Ht0 [Hts0 [Hc0 [Hf0 [Hm0 [He0 Ha0]]]]]]].
  destruct Hround2 as [Hr2 [Ht2 [Hts2 [Hc2 [Hf2 [Hm2 [He2 Ha2]]]]]]].
  exists s2. split.
  { unfold same_round_state. repeat split; congruence. }
  split; [congruence|]. split; [congruence|].
  unfold step.
  destruct (Simulation.max_iterations (Simulation.attr s) <=? Simulation.steps s)%Z eqn:Ecap;
    [apply Z.leb_le in Ecap; lia|].
  rewrite Hrevise. simpl. rewrite Hact. simpl.
  replace (Simulation.current_step_idle s2) with true by congruence.
  replace (Simulation.consecutive_idle_steps s2)
    with (Simulation.consecutive_idle_steps s) by congruence.
  unfold has_converged. simpl.
  replace (Simulation.min_consecutive_idle_steps_for_convergence s2)
    with (Simulation.min_consecutive_idle_steps_for_convergence s) by congruence.
  replace (Simulation.equilibrium_steps s2) with (Simulation.equilibrium_steps s) by congruence.
  replace (Simulation.current_era s2) with (Simulation.current_era s) by congruence.
  replace (Simulation.total_eras s2) with (Simulation.total_eras s) by congruence.
  reflexivity.
Qed.

(** One idle round: the counter goes up by one; below the threshold
    nothing else happens; at the threshold an equilibrium is recorded and
    the run enters the next era, or stops when there is none. *)
Lemma idle_round_spec (s s' : Simulation.t) :
  idle_round schedule_step s s' ->
  let T := Simulation.min_consecutive_idle_steps_for_convergence s in
  let era := Simulation.current_era s in
  Simulation.min_consecutive_idle_steps_for_convergence s' = T
  /\ Simulation.consecutive_idle_steps s' = (Simulation.consecutive_idle_steps s + 1)%Z
  /\ Simulation.current_step_idle s' = true
  /\ Simulation.total_eras s' = Simulation.total_eras s
  /\ ((Simulation.consecutive_idle_steps s + 1 < T)%Z ->
      Simulation.equilibrium_steps s' = Simulation.equilibrium_steps s
      /\ Simulation.current_era s' = era
      /\ Simulation.running s' = true)
  /\ ((T <= Simulation.consecutive_idle_steps s + 1)%Z ->
      Simulation.equilibrium_steps s'
      = Simulation.equilibrium_steps s ++ [(Simulation.steps s - T + 1)%Z]
      /\ ((S era < Simulation.total_eras s)%nat ->
          Simulation.current_era s' = S era
          /\ Simulation.running s' = true
          /\ Simulation.attr s'
             = attrs_in_era (Simulation.adjustable_params s) (S era) (Simulation.attr s)
          /\ forall v,
               era_value (Simulation.adj_k (Simulation.adjustable_params s)) (S era) = Some v ->
               Simulation.k s' = py_int v /\ beta_follows_k s')
      /\ (~ (S era < Simulation.total_eras s)%nat ->
          Simulation.current_era s' = era /\ Simulation.running s' = false)).
Proof.
  intros [Hrunning [Hplayed [Hflag [[s0 [a [Hrevise [Hsched Hidle]]]] Hstep]]]] T era.
  subst T era.
  destruct (idle_round_counted s s0 a Hplayed Hflag Hrevise Hsched Hidle)
    as [s2 [Hround [Hattr [Hera Hrun]]]].
  rewrite Hrun in Hstep. clear Hrun.
  destruct Hround as [Hr [Ht [Hts [Hc [Hf [Hm [He Ha]]]]]]].
  unfold has_converged in Hstep. simpl in Hstep. rewrite Hm in Hstep.
  destruct (Simulation.min_consecutive_idle_steps_for_convergence s
            <=? Simulation.consecutive_idle_steps s + 1)%Z eqn:Econv.
  - apply Z.leb_le in Econv.
    destruct (Nat.ltb (Simulation.current_era s) (Simulation.total_eras s - 1)) eqn:Eera.
    + apply Nat.ltb_lt in Eera.
      match type of Hstep with
      | rbind (adjust_params ?x) _ = _ =>
          destruct (adjust_params x) as [e|s5] eqn:Hadj; simpl in Hstep; [discriminate|];
          apply adjust_params_spec in Hadj; simpl in Hadj;
          destruct Hadj as [Hera5 [Hround5 [Hattr5 Hk5]]]
      end.
      destruct Hround5 as [Hr5 [Ht5 [Hts5 [Hc5 [Hf5 [Hm5 [He5 Ha5]]]]]]].
      simpl in *. injection Hstep as <-. simpl.
      rewrite Ha, Hera in Hk5. rewrite Ha, Hera, Hattr in Hattr5. rewrite Hera in Hera5.
      split; [congruence|]. split; [congruence|]. split; [reflexivity|].
      split; [congruence|]. split; [intro; lia|]. intros _.
      split; [congruence|]. split.
      * intros _. split; [exact Hera5|]. split; [congruence|]. split; [exact Hattr5|].
        intros v Hv. rewrite Hv in Hk5. destruct Hk5 as [Hk Hb].
        split; [exact Hk|]. unfold beta_follows_k. simpl. rewrite Hb, Hk, Hts5. reflexivity.
      * intro Hno. exfalso. apply Hno. lia.
    + apply Nat.ltb_ge in Eera. injection Hstep as <-. simpl.
      split; [exact Hm|]. split; [reflexivity|]. split; [congruence|].
      split; [exact Ht|]. split; [intro; lia|]. intros _.
      split; [reflexivity|]. split.
      * intro Hyes. exfalso. lia.
      * intros _. split; [exact Hera | reflexivity].
  - apply Z.leb_gt in Econv. injection Hstep as <-. simpl.
    split; [exact Hm|]. split; [reflexivity|]. split; [reflexivity|].
    split; [exact Ht|]. split.
    + intros _. split; [exact He|]. split; [exact Hera | congruence].
    + intro; lia.
Qed.

Lemma played_idle_round_returns (s s0 : Simulation.t) (a : Activation) :
  (Simulation.steps s < Simulation.max_iterations (Simulation.attr s))%Z ->
  Simulation.current_step_idle s = true ->
  revise_if_due s = ok s0 ->
  schedule_step s0 = ok a ->
  act_changed a = false ->
  (forall v, era_value (Simulation.adj_k (Simulation.adjustable_params s))
                       (S (Simulation.current_era s)) = Some v ->
             py_int v <> 0%Z) ->
  exists s', step schedule_step s = ok s'.
Proof.
  intros Hplayed Hflag Hrevise Hsched Hidle Hk.
  destruct (idle_round_counted s s0 a Hplayed Hflag Hrevise Hsched Hidle)
    as [s2 [Hround [Hattr [Hera Hrun]]]].
  rewrite Hrun. clear Hrun. destruct Hround as [_ [_ [_ [_ [_ [_ [_ Ha]]]]]]].
  cbv zeta.
  destruct (has_converged _); [|eexists; reflexivity].
  destruct (Nat.ltb _ _); [|eexists; reflexivity].
  match goal with
  | |- exists s', rbind (adjust_params ?x) _ = _ =>
      destruct (adjust_params_returns x) as [s5 Hadj]
  end.
  - simpl. rewrite Ha, Hera. exact Hk.
  - rewrite Hadj. simpl. eexists. reflexivity.
Qed.

Lemma streak_rounds (s : Simulation.t) (rest : list Simulation.t) :
  idle_streak schedule_step s rest ->
  forall i s_i s_i',
    nth_error (s :: rest) i = Some s_i ->
    nth_error rest i = Some s_i' ->
    idle_round schedule_step s_i s_i'
    /\ Simulation.consecutive_idle_steps s_i
       = (Simulation.consecutive_idle_steps s + Z.of_nat i)%Z
    /\ Simulation.min_consecutive_idle_steps_for_convergence s_i
       = Simulation.min_consecutive_idle_steps_for_convergence s
    /\ Z.of_nat (Simulation.current_era s_i)
       = (Z.of_nat (Simulation.current_era s)
          + Z.max 0 (Z.of_nat i
                     - Z.max 0 (Simulation.min_consecutive_idle_steps_for_convergence s
                                - Simulation.consecutive_idle_steps s - 1)))%Z.
Proof.
  induction 1 as [s | s s' rest Hround Hstreak IH]; intros i s_i s_i' Hi Hi'.
  - destruct i; discriminate.
  - destruct i as [|i]; simpl in Hi, Hi'.
    + injection Hi as <-. injection Hi' as <-.
      split; [exact Hround|]. split; [lia|]. split; [reflexivity | lia].
    + destruct (IH i s_i s_i' Hi Hi') as [Hround_i [Hc [HT Hera]]].
      assert (Hrunning' : Simulation.running s' = true).
      { inversion Hstreak as [|? s'' rest' Hround' _]; subst.
        - destruct i; discriminate.
        - destruct Hround' as [Hr _]. exact Hr. }
      destruct (idle_round_spec s s' Hround) as [HT' [Hc' [_ [_ [Hbelow Hreached]]]]].
      split; [exact Hround_i|]. split; [lia|]. split; [congruence|].
      rewrite Hera, HT', Hc'.
      destruct (Z_lt_le_dec (Simulation.consecutive_idle_steps s + 1)
                            (Simulation.min_consecutive_idle_steps_for_convergence s))
        as [Hlt | Hge].
      * destruct (Hbelow Hlt) as [_ [Hera' _]]. rewrite Hera'. lia.
      * destruct (Hreached Hge) as [_ [Hmore Hlast]].
        destruct (Nat.lt_ge_cases (S (Simulation.current_era s)) (Simulation.total_eras s))
          as [Hyes | Hno].
        -- destruct (Hmore Hyes) as [Hera' _]. rewrite Hera'. lia.
        -- assert (Hstop : ~ (S (Simulation.current_era s) < Simulation.total_eras s)%nat)
             by lia.
           destruct (Hlast Hstop) as [_ Hfalse]. congruence.
Qed.


End Convergence.


(** ** The convergence threshold and the idle counter *)

(** X1. When the arguments are those of the call, the threshold is
    [max(min_steps_to_keep_pool + 1, steps_for_convergence)] for the cooldown
    that the model uses, hence at least one more than that cooldown. *)
Theorem threshold_from_call_arguments (call file_args : Args.t) (sampled : Sampled)
    (common_cost : Q) (s : Simulation.t) :
  init call false file_args sampled common_cost = ok s ->
  Simulation.min_consecutive_idle_steps_for_convergence s
  = Z.max (Simulation.min_steps_to_keep_pool (Simulation.attr s) + 1)
          (Args.steps_for_convergence call)
  /\ (Simulation.min_steps_to_keep_pool (Simulation.attr s) + 1
      <= Simulation.min_consecutive_idle_steps_for_convergence s)%Z
  /\ Simulation.consecutive_idle_steps s = 0%Z.
Proof.
  intro H. unfold init in H. step_binds H.
  injection H as <-. simpl.
  match goal with
  | E : match Args.min_steps_to_keep_pool call with Fixed _ => _ | PerEra _ => _ end = inr _,
    E' : initial_value (Args.min_steps_to_keep_pool call) = inr _ |- _ =>
      destruct (Args.min_steps_to_keep_pool call); [|discriminate];
      simpl in E'; injection E' as <-; injection E as <-
  end.
  split; [reflexivity|]. split; [lia | reflexivity].
Qed.

Lemma threshold_from_call_arguments_witness :
  exists s,
    init example_args false example_args example_sampled 0 = ok s
    /\ Simulation.min_consecutive_idle_steps_for_convergence s = 10%Z
    /\ (5 + 1 <= Simulation.min_consecutive_idle_steps_for_convergence s)%Z.
Proof.
  let r := eval vm_compute in (init example_args false example_args example_sampled 0) in
  match r with
  | inr ?s =>
      assert (E : init example_args false example_args example_sampled 0 = ok s)
        by (vm_compute; reflexivity);
      exists s; split; [exact E|];
      destruct (threshold_from_call_arguments _ _ _ _ _ E) as [Heq [Hle _]];
      split; [exact Heq | exact Hle]
  end.
Defined.

(** C7 fails when the arguments come from a file.  The call leaves
    [min_steps_to_keep_pool] at its default of 5 and the file asks for 20 with
    [steps_for_convergence = 10]: the model's cooldown is 20 and the
    threshold is [max(5 + 1, 10) = 10], less than the cooldown plus one. *)
Lemma threshold_ignores_configured_cooldown :
  exists s,
    init example_args true long_cooldown_args example_sampled 0 = ok s
    /\ Simulation.min_steps_to_keep_pool (Simulation.attr s) = 20%Z
    /\ Simulation.min_consecutive_idle_steps_for_convergence s = 10%Z
    /\ ~ (Simulation.min_steps_to_keep_pool (Simulation.attr s) + 1
          <= Simulation.min_consecutive_idle_steps_for_convergence s)%Z.
Proof.
  eexists. split; [vm_compute; reflexivity|].
  split; [reflexivity|]. split; [reflexivity|]. simpl. lia.
Qed.

Section IdleCounter.

Variable schedule_step : Simulation.t -> Result Activation.

(** X2. In a played round the idle counter goes up by one when no agent
    committed a changed strategy and back to zero when one did, and
    [has_converged()] holds exactly when the counter has reached the
    threshold. *)
Theorem idle_counter (s s0 s' : Simulation.t) (a : Activation) :
  (Simulation.steps s < Simulation.max_iterations (Simulation.attr s))%Z ->
  Simulation.current_step_idle s = true ->
  revise_if_due s = ok s0 ->
  schedule_step s0 = ok a ->
  step schedule_step s = ok s' ->
  Simulation.consecutive_idle_steps s'
  = (if act_changed a then 0 else Simulation.consecutive_idle_steps s + 1)%Z
  /\ (has_converged s' = true <->
      (Simulation.min_consecutive_idle_steps_for_convergence s'
       <= Simulation.consecutive_idle_steps s')%Z).
Proof.
  intros Hplayed Hflag Hrevise Hsched Hstep.
  split; [|unfold has_converged; apply Z.leb_le].
  destruct (act_changed a) eqn:Hchanged.
  - unfold step in Hstep.
    destruct (Simulation.max_iterations (Simulation.attr s) <=? Simulation.steps s)%Z eqn:Ecap;
      [apply Z.leb_le in Ecap; lia|].
    rewrite Hrevise in Hstep. simpl in Hstep.
    unfold activate in Hstep. rewrite Hsched in Hstep. simpl in Hstep.
    rewrite Hchanged in Hstep. simpl in Hstep. injection Hstep as <-. reflexivity.
  - destruct (idle_round_counted schedule_step s s0 a Hplayed Hflag Hrevise Hsched Hchanged)
      as [s2 [_ [_ [_ Hrun]]]].
    rewrite Hrun in Hstep. clear Hrun. cbv zeta in Hstep.
    destruct (has_converged _) in Hstep.
    + destruct (Nat.ltb _ _) in Hstep.
      * match type of Hstep with
        | rbind (adjust_params ?x) _ = _ =>
            destruct (adjust_params x) as [e|s5] eqn:Hadj; simpl in Hstep; [discriminate|];
            apply adjust_params_spec in Hadj; simpl in Hadj;
            destruct Hadj as [_ [[_ [_ [_ [Hc _]]]] _]]
        end.
        injection Hstep as <-. simpl. exact Hc.
      * injection Hstep as <-. reflexivity.
    + injection Hstep as <-. reflexivity.
Qed.

End IdleCounter.

(** ** The pool id allocator after a rejected operator move *)


(** The same call when the candidates are visited in ascending order: the
    move with eight pools comes last and its id is given back. *)
Lemma update_strategy_restores_pool_id_ascending :
  set_iteration ascending_env [1; 7; 6; 8]%Z = [1; 6; 7; 8]%Z
  /\ exists self' s' moves operator_strategy s1,
       update_strategy ascending_env whale whale_model = (ok self', s')
       /\ possible_moves ascending_env whale whale_model
          = (ok (moves, Some operator_strategy), s1)
       /\ Stakeholder.new_strategy self' = None
       /\ Strategy.num_pools operator_strategy = 8%Z
       /\ Simulation.id_seq s1 = 8%Z
       /\ Simulation.id_seq s' = 7%Z.
Proof.
  split; [reflexivity|].
  eexists. eexists. eexists. eexists. eexists.
  split; [vm_compute; reflexivity|].
  split; [vm_compute; reflexivity|].
  repeat split; vm_compute; reflexivity.
Qed.

(** ** The greedy delegation move *)

(** *** Sorting *)

Lemma insert_desc_perm {A} (lt : A -> A -> bool) (x : A) (l : list A) :
  Permutation (insert_desc lt x l) (x :: l).
Proof.
  induction l as [|y l IH]; simpl.
  - apply Permutation_refl.
  - destruct (lt x y).
    + eapply Permutation_trans; [apply perm_skip; exact IH | apply perm_swap].
    + apply Permutation_refl.
Qed.

Lemma sorted_desc_perm {A} (lt : A -> A -> bool) (l : list A) :
  Permutation (sorted_desc lt l) l.
Proof.
  induction l as [|x l IH]; simpl.
  - apply Permutation_refl.
  - eapply Permutation_trans; [apply insert_desc_perm | apply perm_skip; exact IH].
Qed.

Section Descending.

Context {A : Type} (lt : A -> A -> bool).
Hypothesis lt_asym : forall x y, lt x y = true -> lt y x = false.
Hypothesis ge_trans : forall x y z, lt x y = false -> lt y z = false -> lt x z = false.

Lemma insert_desc_descending (x : A) (l : list A) :
  descending lt l -> descending lt (insert_desc lt x l).
Proof.
  induction l as [|y l IH]; simpl; intro Hl.
  - constructor; [constructor | constructor].
  - inversion Hl as [|? ? Hl' Hy]; subst.
    destruct (lt x y) eqn:E.
    + constructor; [apply IH; exact Hl'|].
      apply Forall_forall. intros z Hz.
      apply (Permutation_in _ (insert_desc_perm lt x l)) in Hz.
      destruct Hz as [<- | Hz]; [apply lt_asym; exact E|].
      rewrite Forall_forall in Hy. apply Hy. exact Hz.
    + constructor; [exact Hl|].
      constructor; [exact E|].
      apply Forall_forall. intros z Hz. rewrite Forall_forall in Hy.
      apply (ge_trans x y z E). apply Hy. exact Hz.
Qed.

Lemma sorted_desc_descending (l : list A) : descending lt (sorted_desc lt l).
Proof.
  induction l as [|x l IH]; simpl.
  - constructor.
  - apply insert_desc_descending. exact IH.
Qed.

Lemma descending_later (l1 l2 : list A) (x y : A) :
  descending lt (l1 ++ x :: l2) -> In y l2 -> lt x y = false.
Proof.
  induction l1 as [|z l1 IH]; simpl; intros Hl Hy.
  - inversion Hl as [|? ? _ Hx]; subst. rewrite Forall_forall in Hx. apply Hx. exact Hy.
  - inversion Hl as [|? ? Hl' _]; subst. apply IH; assumption.
Qed.

End Descending.

Ltac reflect_equalities :=
  repeat match goal with
         | H : Qeq_bool _ _ = true |- _ => apply Qeq_bool_iff in H
         | H : Qeq_bool _ _ = false |- _ => apply Qeq_bool_neq in H
         end.

Ltac order_cases :=
  reflect_comparisons; reflect_equalities;
  solve [ apply Qltb_ge; lra
        | exfalso; match goal with H : ~ _ == _ |- _ => apply H; lra end ].

Lemma tuple_lt_asym (x y : Q * Q) : tuple_lt x y = true -> tuple_lt y x = false.
Proof.
  unfold tuple_lt.
  destruct (Qeq_bool (fst x) (fst y)) eqn:E1; destruct (Qeq_bool (fst y) (fst x)) eqn:E2;
    intro H; order_cases.
Qed.

Lemma tuple_ge_trans (x y z : Q * Q) :
  tuple_lt x y = false -> tuple_lt y z = false -> tuple_lt x z = false.
Proof.
  unfold tuple_lt.
  destruct (Qeq_bool (fst x) (fst y)) eqn:E1; destruct (Qeq_bool (fst y) (fst z)) eqn:E2;
    destruct (Qeq_bool (fst x) (fst z)) eqn:E3;
    intros H1 H2; order_cases.
Qed.

(** *** Sums *)

Lemma fold_left_Qplus (l : list Q) (a : Q) :
  fold_left Qplus l a == a + fold_left Qplus l 0.
Proof.
  revert a. induction l as [|x l IH]; intro a; simpl.
  - ring.
  - rewrite (IH (a + x)), (IH (0 + x)). ring.
Qed.

Lemma py_sum_cons (x : Q) (l : list Q) : py_sum (x :: l) == x + py_sum l.
Proof.
  unfold py_sum. simpl. rewrite fold_left_Qplus. ring.
Qed.

(** *** The loop over the sorted candidates *)

Lemma dict_set_fresh {V} (k : Z) (v : V) (d : Dict V) :
  ~ In k (dict_keys d) -> dict_set k v d = d ++ [(k, v)].
Proof.
  induction d as [|[k' v'] d IH]; simpl; intro Hnin; [reflexivity|].
  destruct (Z.eqb k k') eqn:E.
  - apply Z.eqb_eq in E. exfalso. apply Hnin. left. symmetry. exact E.
  - f_equal. apply IH. intro Hin. apply Hnin. right. exact Hin.
Qed.

Lemma dict_keys_app {V} (a b : Dict V) : dict_keys (a ++ b) = dict_keys a ++ dict_keys b.
Proof. unfold dict_keys. apply map_app. Qed.

Lemma fill_pools_fill_list (sat : Q) (candidates : Dict (Q * Q)) :
  forall (std : Q) (allocations : Dict Q),
    NoDup (dict_keys candidates) ->
    (forall k, In k (dict_keys candidates) -> ~ In k (dict_keys allocations)) ->
    fill_pools sat candidates std allocations = allocations ++ fill_list sat candidates std.
Proof.
  induction candidates as [|[pool_id [d s]] rest IH]; intros std allocations Hnd Hfresh; simpl.
  - rewrite app_nil_r. reflexivity.
  - simpl in Hnd. inversion Hnd as [|? ? Hhead Hnd']; subst.
    assert (Hfresh' : forall k, In k (dict_keys rest) -> ~ In k (dict_keys allocations)).
    { intros k Hk. apply Hfresh. right. exact Hk. }
    destruct (Qeq_bool std 0); [rewrite app_nil_r; reflexivity|].
    destruct (Qltb s sat); [|apply IH; assumption].
    destruct (Qltb 0 (py_min std (sat - s))); [|apply IH; assumption].
    rewrite dict_set_fresh by (apply Hfresh; left; reflexivity).
    rewrite IH.
    + rewrite <- app_assoc. reflexivity.
    + exact Hnd'.
    + intros k Hk. rewrite dict_keys_app. simpl. intro Hin.
      apply in_app_or in Hin. destruct Hin as [Hin | [<- | []]].
      * apply (Hfresh' k Hk Hin).
      * contradiction.
Qed.

Lemma fill_list_exhausted (sat : Q) (candidates : Dict (Q * Q)) (std : Q) :
  std == 0 -> fill_list sat candidates std = [].
Proof.
  intro Hz. destruct candidates as [|[pool_id [d s]] rest]; simpl; [reflexivity|].
  apply Qeq_bool_iff in Hz. rewrite Hz. reflexivity.
Qed.

(** Every allocation goes to a candidate with room, is positive and fits
    both the room and the stake that is left. *)
Lemma fill_list_entries (sat : Q) (candidates : Dict (Q * Q)) :
  forall std pool_id a,
    In (pool_id, a) (fill_list sat candidates std) ->
    exists d s, In (pool_id, (d, s)) candidates
                /\ s < sat /\ 0 < a /\ a <= sat - s /\ a <= std.
Proof.
  induction candidates as [|[pid [d s]] rest IH]; intros std pool_id a; simpl.
  - intros [].
  - destruct (Qeq_bool std 0); [intros []|].
    destruct (Qltb s sat) eqn:Eroom.
    + destruct (Qltb 0 (py_min std (sat - s))) eqn:Epos.
      * intros [Heq | Hin].
        -- injection Heq as <- <-. reflect_comparisons.
           exists d, s. split; [left; reflexivity|]. split; [exact Eroom|].
           split; [exact Epos|]. destruct (py_min_spec std (sat - s)) as [H1 H2].
           split; assumption.
        -- destruct (IH _ _ _ Hin) as [d' [s' [Hc [Hs [Ha [Hr Hstd]]]]]].
           exists d', s'. split; [right; exact Hc|]. repeat split; try assumption.
           reflect_comparisons. lra.
      * intro Hin. destruct (IH _ _ _ Hin) as [d' [s' [Hc Hrest]]].
        exists d', s'. split; [right; exact Hc | exact Hrest].
    + intro Hin. destruct (IH _ _ _ Hin) as [d' [s' [Hc Hrest]]].
      exists d', s'. split; [right; exact Hc | exact Hrest].
Qed.

Lemma fill_list_keys (sat : Q) (candidates : Dict (Q * Q)) (std : Q) (k : Z) :
  In k (dict_keys (fill_list sat candidates std)) -> In k (dict_keys candidates).
Proof.
  intro Hin. apply in_map_iff in Hin. destruct Hin as [[pid a] [Hk Hin]]. simpl in Hk. subst.
  destruct (fill_list_entries sat candidates std k a Hin) as [d [s [Hc _]]].
  apply in_map_iff. exists (k, (d, s)). split; [reflexivity | exact Hc].
Qed.

Lemma fill_list_NoDup (sat : Q) (candidates : Dict (Q * Q)) :
  forall std, NoDup (dict_keys candidates) ->
              NoDup (dict_keys (fill_list sat candidates std)).
Proof.
  induction candidates as [|[pid [d s]] rest IH]; intros std Hnd; simpl.
  - constructor.
  - simpl in Hnd. inversion Hnd as [|? ? Hhead Hnd']; subst.
    destruct (Qeq_bool std 0); [constructor|].
    destruct (Qltb s sat); [|apply IH; exact Hnd'].
    destruct (Qltb 0 (py_min std (sat - s))); [|apply IH; exact Hnd'].
    simpl. constructor; [|apply IH; exact Hnd'].
    intro Hin. apply Hhead. apply (fill_list_keys _ _ _ _ Hin).
Qed.

Lemma fill_list_sum (sat : Q) (candidates : Dict (Q * Q)) :
  forall std, 0 <= std -> py_sum (dict_values (fill_list sat candidates std)) <= std.
Proof.
  induction candidates as [|[pid [d s]] rest IH]; intros std Hstd; simpl.
  - exact Hstd.
  - destruct (Qeq_bool std 0); [exact Hstd|].
    destruct (Qltb s sat); [|apply IH; exact Hstd].
    destruct (Qltb 0 (py_min std (sat - s))) eqn:Epos; [|apply IH; exact Hstd].
    simpl. rewrite py_sum_cons.
    destruct (py_min_spec std (sat - s)) as [Hle _].
    assert (Hrest := IH (std - py_min std (sat - s))).
    lra.
Qed.

(** When a later candidate receives stake, an earlier candidate with room
    has been filled to saturation. *)
Lemma fill_list_in_order (sat : Q) (l1 l2 : Dict (Q * Q)) (pool_id : Z) (d s : Q) :
  forall std,
    0 <= std ->
    NoDup (dict_keys (l1 ++ (pool_id, (d, s)) :: l2)) ->
    (exists later a, In later (dict_keys l2)
                     /\ In (later, a) (fill_list sat (l1 ++ (pool_id, (d, s)) :: l2) std)) ->
    s < sat ->
    In (pool_id, sat - s) (fill_list sat (l1 ++ (pool_id, (d, s)) :: l2) std).
Proof.
  induction l1 as [|[pid [d1 s1]] l1 IH]; intros std Hstd Hnd [later [a [Hl2 Hin]]] Hroom.
  - simpl in *. inversion Hnd as [|? ? Hhead _]; subst.
    destruct (Qeq_bool std 0) eqn:Ez; [contradiction|].
    apply Qeq_bool_neq in Ez.
    apply Qltb_lt in Hroom. rewrite Hroom in *. apply Qltb_lt in Hroom.
    destruct (py_min_cases std (sat - s)) as [[Hmin Hlt] | [Hmin Hle]]; rewrite Hmin in *.
    + assert (Hpos : Qltb 0 (sat - s) = true) by (apply Qltb_lt; lra).
      rewrite Hpos in *. left. reflexivity.
    + assert (Hpos : Qltb 0 std = true) by (apply Qltb_lt; lra).
      rewrite Hpos in *. rewrite fill_list_exhausted in Hin by ring.
      destruct Hin as [Heq | []]. injection Heq as -> _. contradiction.
  - simpl in Hnd. inversion Hnd as [|? ? Hhead Hnd']; subst.
    assert (Hnotlater : pid <> later).
    { intro; subst. apply Hhead. rewrite dict_keys_app. apply in_or_app. right. right.
      exact Hl2. }
    simpl in *.
    destruct (Qeq_bool std 0); [contradiction|].
    destruct (Qltb s1 sat).
    + destruct (Qltb 0 (py_min std (sat - s1))) eqn:Epos.
      * destruct Hin as [Heq | Hin]; [injection Heq as -> _; congruence|].
        right. apply IH; try assumption.
        -- destruct (py_min_spec std (sat - s1)) as [Hle _]. lra.
        -- exists later, a. split; assumption.
      * apply IH; try assumption. exists later, a. split; assumption.
    + apply IH; try assumption. exists later, a. split; assumption.
Qed.

(** The loop ends with the stake used up, or with every candidate that had
    room filled to saturation. *)
Lemma fill_list_until (sat : Q) (candidates : Dict (Q * Q)) :
  forall std,
    0 <= std ->
    py_sum (dict_values (fill_list sat candidates std)) == std
    \/ forall pool_id d s, In (pool_id, (d, s)) candidates -> s < sat ->
                           In (pool_id, sat - s) (fill_list sat candidates std).
Proof.
  induction candidates as [|[pid [d1 s1]] rest IH]; intros std Hstd.
  - right. intros pool_id d s [].
  - simpl. destruct (Qeq_bool std 0) eqn:Ez.
    + left. apply Qeq_bool_iff in Ez. simpl. rewrite Ez. reflexivity.
    + apply Qeq_bool_neq in Ez.
      destruct (Qltb s1 sat) eqn:Eroom.
      * apply Qltb_lt in Eroom.
        destruct (py_min_cases std (sat - s1)) as [[Hmin Hlt] | [Hmin Hle]]; rewrite Hmin.
        -- assert (Hpos : Qltb 0 (sat - s1) = true) by (apply Qltb_lt; lra).
           rewrite Hpos.
           destruct (IH (std - (sat - s1))) as [Hsum | Hall]; [lra | |].
           ++ left. simpl. rewrite py_sum_cons, Hsum. ring.
           ++ right. intros pool_id d s [Heq | Hin] Hs.
              ** injection Heq as <- <- <-. left. reflexivity.
              ** right. apply (Hall pool_id d s Hin Hs).
        -- assert (Hpos : Qltb 0 std = true) by (apply Qltb_lt; lra).
           rewrite Hpos. left. simpl. rewrite py_sum_cons.
           rewrite fill_list_exhausted by ring. simpl. unfold py_sum. simpl. ring.
      * apply Qltb_ge in Eroom.
        destruct (IH std Hstd) as [Hsum | Hall]; [left; exact Hsum|].
        right. intros pool_id d s [Heq | Hin] Hs.
        -- injection Heq as <- <- <-. exfalso. lra.
        -- apply (Hall pool_id d s Hin Hs).
Qed.

(** *** The registry without the agent's own delegations *)

Lemma dict_keys_set_present {V} (k : Z) (v : V) (d : Dict V) :
  In k (dict_keys d) -> dict_keys (dict_set k v d) = dict_keys d.
Proof.
  induction d as [|[k' v'] d IH]; simpl; intro Hin; [contradiction|].
  destruct (Z.eqb k k') eqn:E; simpl.
  - apply Z.eqb_eq in E. subst. reflexivity.
  - f_equal. apply IH. destruct Hin as [Heq | Hin]; [|exact Hin].
    apply Z.eqb_neq in E. congruence.
Qed.

Lemma dict_get_not_in {V} (k : Z) (d : Dict V) :
  ~ In k (dict_keys d) -> dict_get k d = None.
Proof.
  intro Hnin. destruct (dict_get k d) as [v|] eqn:E; [|reflexivity].
  exfalso. apply Hnin. apply dict_get_in_keys. exists v. exact E.
Qed.

Lemma remove_own_delegations_spec (uid : Z) (allocations : Dict Q) :
  forall pools,
    NoDup (dict_keys allocations) ->
    own_delegations_recorded uid allocations pools ->
    exists pools',
      rfold (fun pools item =>
               let (pool_id, allocation) := (item : Z * Q) in
               if Qltb 0 allocation then
                 let? pool := dict_lookup pool_id pools in
                 let? pool' := Pool.update_delegation pool (- allocation) uid in
                 ok (dict_set pool_id pool' pools)
               else ok pools)
            allocations pools = ok pools'
      /\ dict_keys pools' = dict_keys pools
      /\ forall pool_id,
           match dict_get pool_id pools with
           | Some p => exists p', dict_get pool_id pools' = Some p'
                                  /\ pool_less_delegation allocations pool_id p p'
           | None => dict_get pool_id pools' = None
           end.
Proof.
  induction allocations as [|[pid a] rest IH]; intros pools Hnd Hrec.
  - exists pools. simpl. split; [reflexivity|]. split; [reflexivity|].
    intro pool_id. destruct (dict_get pool_id pools) as [p|]; [|reflexivity].
    exists p. split; [reflexivity|]. unfold pool_less_delegation, positive_allocation.
    simpl. repeat split; try reflexivity. ring.
  - simpl in Hnd. inversion Hnd as [|? ? Hhead Hnd']; subst.
    assert (Hnone : dict_get pid rest = None) by (apply dict_get_not_in; exact Hhead).
    simpl. destruct (Qltb 0 a) eqn:Epos.
    + apply Qltb_lt in Epos.
      destruct (Hrec pid a (or_introl eq_refl) Epos) as [p [x [Hp [Hx Hle]]]].
      unfold dict_lookup. rewrite Hp. simpl.
      unfold Pool.update_delegation. rewrite Hx.
      assert (Hnn : Qltb (x + - a) 0 = false) by (apply Qltb_ge; lra).
      rewrite Hnn. simpl.
      set (p1 := Pool.set_delegators _ _).
      destruct (IH (dict_set pid p1 pools) Hnd') as [pools' [Hrun [Hkeys Hpools]]].
      { intros pool_id b Hin Hb.
        assert (Hne : pid <> pool_id).
        { intro; subst. apply Hhead. apply in_map_iff. exists (pool_id, b). auto. }
        destruct (Hrec pool_id b (or_intror Hin) Hb) as [p0 [x0 [Hp0 Hrest]]].
        exists p0, x0. rewrite dict_get_set_other by exact Hne. auto. }
      exists pools'. split; [exact Hrun|]. split.
      { rewrite Hkeys. apply dict_keys_set_present. apply dict_get_in_keys. eauto. }
      intro pool_id. specialize (Hpools pool_id).
      destruct (Z.eq_dec pid pool_id) as [<- | Hne].
      * rewrite dict_get_set_same in Hpools. rewrite Hp.
        destruct Hpools as [p' [Hp' [Hid [Hown [Hpriv Hstake]]]]].
        exists p'. split; [exact Hp'|].
        unfold pool_less_delegation, positive_allocation in *. simpl.
        rewrite Z.eqb_refl. rewrite Hnone in Hstake.
        assert (Hpos : Qltb 0 a = true) by (apply Qltb_lt; exact Epos). rewrite Hpos.
        subst p1. simpl in *. repeat split; try assumption.
        rewrite Hstake. ring.
      * rewrite dict_get_set_other in Hpools by exact Hne.
        destruct (dict_get pool_id pools) as [p0|]; [|exact Hpools].
        destruct Hpools as [p' [Hp' [Hid [Hown [Hpriv Hstake]]]]].
        exists p'. split; [exact Hp'|].
        unfold pool_less_delegation, positive_allocation in *. simpl.
        destruct (Z.eqb pool_id pid) eqn:E; [apply Z.eqb_eq in E; congruence|].
        repeat split; assumption.
    + destruct (IH pools Hnd') as [pools' [Hrun [Hkeys Hpools]]].
      { intros pool_id b Hin Hb. apply (Hrec pool_id b (or_intror Hin) Hb). }
      exists pools'. split; [exact Hrun|]. split; [exact Hkeys|].
      intro pool_id. specialize (Hpools pool_id).
      destruct (dict_get pool_id pools) as [p0|]; [|exact Hpools].
      destruct Hpools as [p' [Hp' [Hid [Hown [Hpriv Hstake]]]]].
      exists p'. split; [exact Hp'|].
      unfold pool_less_delegation, positive_allocation in *. simpl.
      destruct (Z.eqb pool_id pid) eqn:E.
      * apply Z.eqb_eq in E. subst pool_id. rewrite Epos. rewrite Hnone in Hstake.
        repeat split; assumption.
      * repeat split; assumption.
Qed.

(** *** The candidates *)

Lemma registry_ids (pools : Dict Pool.t) :
  (forall k p, In (k, p) pools -> Pool.id p = k) ->
  map Pool.id (dict_values pools) = dict_keys pools.
Proof.
  induction pools as [|[k p] pools IH]; simpl; intro Hid; [reflexivity|].
  f_equal.
  - apply Hid. left. reflexivity.
  - apply IH. intros k' p' Hin. apply Hid. right. exact Hin.
Qed.

Lemma NoDup_map_filter {A B} (f : A -> B) (keep : A -> bool) (l : list A) :
  NoDup (map f l) -> NoDup (map f (filter keep l)).
Proof.
  induction l as [|x l IH]; simpl; intro Hnd; [constructor|].
  inversion Hnd as [|? ? Hhead Hnd']; subst.
  destruct (keep x); simpl; [|apply IH; exact Hnd'].
  constructor; [|apply IH; exact Hnd'].
  intro Hin. apply Hhead. apply in_map_iff in Hin. destruct Hin as [y [Hy Hin]].
  apply in_map_iff. exists y. split; [exact Hy|].
  apply filter_In in Hin. destruct Hin as [Hin _]. exact Hin.
Qed.

Lemma desirabilities_n_stakes_spec (env : Env) (self : Stakeholder.t) (model : Simulation.t)
    (pools_list : list Pool.t) :
  NoDup (map Pool.id pools_list) ->
  desirabilities_n_stakes env self model pools_list
  = map (fun pool => (Pool.id pool, ranking_key env self model pool))
        (filter (eligible self) pools_list).
Proof.
  unfold desirabilities_n_stakes.
  set (f := fun (d : Dict (Q * Q)) (pool : Pool.t) => _).
  assert (Hgen : forall l acc,
             NoDup (map Pool.id l) ->
             (forall p, In p l -> ~ In (Pool.id p) (dict_keys acc)) ->
             fold_left f l acc
             = acc ++ map (fun pool => (Pool.id pool, ranking_key env self model pool))
                          (filter (eligible self) l)).
  { induction l as [|p l IH]; intros acc Hnd Hfresh; simpl.
    - rewrite app_nil_r. reflexivity.
    - simpl in Hnd. inversion Hnd as [|? ? Hhead Hnd']; subst.
      unfold f at 2. unfold eligible at 1.
      destruct (negb (Z.eqb (Pool.owner p) (Stakeholder.unique_id self))
                && negb (Pool.is_private p)) eqn:Eel.
      + rewrite dict_set_fresh by (apply Hfresh; left; reflexivity).
        rewrite IH; [|exact Hnd'|].
        * rewrite <- app_assoc. reflexivity.
        * intros q Hq. rewrite dict_keys_app. simpl. intro Hin.
          apply in_app_or in Hin. destruct Hin as [Hin | [Heq | []]].
          -- apply (Hfresh q (or_intror Hq) Hin).
          -- apply Hhead. rewrite Heq. apply in_map. exact Hq.
      + apply IH; [exact Hnd'|]. intros q Hq. apply Hfresh. right. exact Hq. }
  intro Hnd. rewrite Hgen; [reflexivity | exact Hnd | intros p _ []].
Qed.



Lemma idle_counter_witness :
  exists s s',
    init example_args false example_args example_sampled 0 = ok s
    /\ step opening_schedule s = ok s'
    /\ Simulation.consecutive_idle_steps s' = 0%Z
    /\ exists s'',
         step opening_schedule s' = ok s''
         /\ Simulation.consecutive_idle_steps s'' = 1%Z.
Proof.
  let r := eval vm_compute in (init example_args false example_args example_sampled 0) in
  match r with
  | inr ?s =>
      let r' := eval vm_compute in (step opening_schedule s) in
      match r' with
      | inr ?s' =>
          let r'' := eval vm_compute in (step opening_schedule s') in
          match r'' with
          | inr ?s'' =>
              let a := eval vm_compute in (opening_schedule s) in
              let a' := eval vm_compute in (opening_schedule s') in
              match a with
              | inr ?act =>
                  match a' with
                  | inr ?act' =>
                      assert (E : step opening_schedule s = ok s') by (vm_compute; reflexivity);
                      assert (E' : step opening_schedule s' = ok s'')
                        by (vm_compute; reflexivity);
                      exists s, s'; split; [vm_compute; reflexivity|]; split; [exact E|];
                      split;
                      [ exact (proj1 (idle_counter opening_schedule s s s' act
                                        eq_refl eq_refl eq_refl eq_refl E))
                      | exists s''; split; [exact E'|];
                        exact (proj1 (idle_counter opening_schedule s' s' s'' act'
                                        eq_refl eq_refl eq_refl eq_refl E')) ]
                  end
              end
          end
      end
  end.
Defined.

(** ** [calculate_pledges] *)

Lemma py_sum_repeat (x : Q) (n : nat) :
  py_sum (repeat x n) == inject_Z (Z.of_nat n) * x.
Proof.
  induction n as [|n IH].
  - unfold py_sum. simpl. ring.
  - change (repeat x (S n)) with (x :: repeat x n).
    rewrite py_sum_cons, IH, Nat2Z.inj_succ. unfold Z.succ.
    rewrite inject_Z_plus. ring.
Qed.

(** X3. [calculate_pledges] raises [ValueError] for zero or fewer pools.  Otherwise
    it returns [num_pools] equal pledges, each the smaller of an equal share
    of the stake and [beta]; they never add up to more than the stake, and
    to exactly the stake when the stake fits in [num_pools] saturated pools. *)
Theorem calculate_pledges_split (self : Stakeholder.t) (model : Simulation.t)
    (num_pools : Z) :
  ((num_pools <= 0)%Z ->
   calculate_pledges self model num_pools
   = raise (ValueError "Player tried to calculate pledge for zero or less pools."))
  /\ ((0 < num_pools)%Z ->
      exists pledges,
        calculate_pledges self model num_pools = ok pledges
        /\ Z.of_nat (List.length pledges) = num_pools
        /\ (forall x, In x pledges ->
              x = py_min (Stakeholder.stake self / inject_Z num_pools)
                         (Simulation.beta model)
              /\ x <= Simulation.beta model)
        /\ py_sum pledges <= Stakeholder.stake self
        /\ (Stakeholder.stake self <= inject_Z num_pools * Simulation.beta model ->
            py_sum pledges == Stakeholder.stake self)).
Proof.
  unfold calculate_pledges. split; intro Hn.
  - apply Z.leb_le in Hn. rewrite Hn. reflexivity.
  - assert (Hleb : (num_pools <=? 0)%Z = false) by (apply Z.leb_gt; exact Hn).
    rewrite Hleb. eexists. split; [reflexivity|].
    assert (Hpos : 0 < inject_Z num_pools).
    { change 0 with (inject_Z 0). rewrite <- Zlt_Qlt. exact Hn. }
    set (x := py_min (Stakeholder.stake self / inject_Z num_pools) (Simulation.beta model)).
    destruct (py_min_spec (Stakeholder.stake self / inject_Z num_pools)
                          (Simulation.beta model)) as [Hshare Hbeta].
    fold x in Hshare, Hbeta.
    assert (Hsum : py_sum (repeat x (Z.to_nat num_pools)) == inject_Z num_pools * x).
    { rewrite py_sum_repeat, Z2Nat.id by lia. reflexivity. }
    split; [rewrite repeat_length; lia|].
    split; [|split].
    + intros y Hy. apply repeat_spec in Hy. subst y. split; [reflexivity | exact Hbeta].
    + rewrite Hsum.
      assert (H : inject_Z num_pools * x
                  <= inject_Z num_pools * (Stakeholder.stake self / inject_Z num_pools)).
      { apply Qmult_le_l; assumption. }
      assert (E : inject_Z num_pools * (Stakeholder.stake self / inject_Z num_pools)
                  == Stakeholder.stake self).
      { field. intro Hz. rewrite Hz in Hpos. apply (Qlt_irrefl 0). exact Hpos. }
      rewrite E in H. exact H.
    + intro Hroom. rewrite Hsum.
      assert (Hle : Stakeholder.stake self / inject_Z num_pools <= Simulation.beta model).
      { apply Qle_shift_div_r; [exact Hpos|]. rewrite Qmult_comm. exact Hroom. }
      destruct (py_min_cases (Stakeholder.stake self / inject_Z num_pools)
                             (Simulation.beta model)) as [[He Hlt] | [He _]].
      * exfalso. apply (Qlt_not_le _ _ Hlt). exact Hle.
      * fold x in He. rewrite He. field.
        intro Hz. rewrite Hz in Hpos. apply (Qlt_irrefl 0). exact Hpos.
Qed.

(** ** The candidate pool counts *)

Ltac split_eqb :=
  repeat match goal with
         | |- context [Z.eqb ?a ?b] =>
             let E := fresh "E" in
             destruct (Z.eqb a b) eqn:E;
             [apply Z.eqb_eq in E | apply Z.eqb_neq in E]; try lia
         end.

(** X4. The candidate pool counts of [find_operator_moves] are always defined and
    distinct.  Without pool splitting the only candidate is one pool; with
    it the candidates are one more than the current count, the current
    count when positive, one less when the agent has more than one pool and
    is out of its cooldown, and one pool unless the agent has more than one
    pool and is in its cooldown.  In the cooldown no candidate is below the
    current count. *)
Theorem num_pools_options_candidates (self : Stakeholder.t) (model : Simulation.t) :
  let current_num_pools := Strategy.num_pools (Stakeholder.strategy self) in
  let cooldown := Stakeholder.remaining_min_steps_to_keep_pool self in
  exists options,
    num_pools_options self model = ok options
    /\ NoDup options
    /\ (Simulation.pool_splitting (Simulation.attr model) = false -> options = [1%Z])
    /\ (Simulation.pool_splitting (Simulation.attr model) = true ->
        (forall c, In c options <->
                   (c = current_num_pools + 1
                    \/ (0 < current_num_pools /\ c = current_num_pools)
                    \/ (1 < current_num_pools /\ cooldown <= 0 /\ c = current_num_pools - 1)
                    \/ (c = 1 /\ ~ (1 < current_num_pools /\ 0 < cooldown)))%Z)
        /\ ((0 < cooldown)%Z -> forall c, In c options -> (current_num_pools <= c)%Z)).
Proof.
  intros n cooldown. unfold num_pools_options. fold n. fold cooldown.
  destruct (Simulation.pool_splitting (Simulation.attr model)).
  2:{ exists [1%Z]. split; [reflexivity|]. split.
      - constructor; [intros []|constructor].
      - split; [reflexivity | discriminate]. }
  assert (Hchar : exists options,
    (let? options :=
       if (0 <? n)%Z
       then if (1 <? n)%Z
            then if (0 <? cooldown)%Z
                 then set_remove 1 (set_add n [1%Z])
                 else ok (set_add (n - 1) (set_add n [1%Z]))
            else ok (set_add n [1%Z])
       else ok [1%Z] in
     ok (set_add (n + 1) options)) = ok options
    /\ NoDup options
    /\ (forall c, In c options <->
                   (c = n + 1
                    \/ (0 < n /\ c = n)
                    \/ (1 < n /\ cooldown <= 0 /\ c = n - 1)
                    \/ (c = 1 /\ ~ (1 < n /\ 0 < cooldown)))%Z)).
  { clearbody n cooldown. unfold set_add, set_remove.
    destruct (0 <? n)%Z eqn:E0; [apply Z.ltb_lt in E0 | apply Z.ltb_ge in E0];
      [destruct (1 <? n)%Z eqn:E1; [apply Z.ltb_lt in E1 | apply Z.ltb_ge in E1];
       [destruct (0 <? cooldown)%Z eqn:Ec; [apply Z.ltb_lt in Ec | apply Z.ltb_ge in Ec]|]|];
      cbn -[Z.eqb Z.add Z.sub]; split_eqb;
      cbn -[Z.eqb Z.add Z.sub]; split_eqb;
      cbn -[Z.eqb Z.add Z.sub]; split_eqb;
      (eexists; split; [reflexivity|]; split;
       [repeat constructor; simpl; intuition lia | intro c; simpl; intuition lia]). }
  destruct Hchar as [options [Heq [Hnd Hin]]].
  exists options. split.
  - rewrite <- Heq.
    destruct (0 <? n)%Z; [|reflexivity].
    destruct (1 <? n)%Z; [|reflexivity].
    destruct (0 <? cooldown)%Z; reflexivity.
  - split; [exact Hnd|]. split; [discriminate|]. intros _. split; [exact Hin|].
    intros Hc c Hc_in. apply Hin in Hc_in. lia.
Qed.

(** ** The margin search *)

Lemma py_div_raises (a b : Q) (e : Exn) : py_div a b = inl e -> e = ZeroDivisionError.
Proof.
  unfold py_div. destruct (Qeq_bool b 0); unfold raise, ok; congruence.
Qed.

Lemma calculate_operator_utility_by_pool_raises (env : Env) (self : Stakeholder.t)
    (model : Simulation.t) (pool : Pool.t) (all_pools : Dict Pool.t) (e : Exn) :
  calculate_operator_utility_by_pool env self model pool all_pools = inl e ->
  e = ZeroDivisionError.
Proof.
  unfold calculate_operator_utility_by_pool, rbind.
  destruct (py_div _ _) as [e0|q] eqn:E; [|discriminate].
  intro H. injection H as <-. apply (py_div_raises _ _ _ E).
Qed.

Lemma midpoint_between (a b : Q) : a <= b -> a <= (a + b) / 2 /\ (a + b) / 2 <= b.
Proof.
  intro H. split.
  - apply Qle_shift_div_l; [reflexivity | lra].
  - apply Qle_shift_div_r; [reflexivity | lra].
Qed.

(** The search keeps [mid] between the bounds, and the bounds only move
    towards each other. *)
Lemma bisect_margin_between (utility_at : Q -> Result Q) (depth : nat) :
  forall lower_bound mid upper_bound mid_utility,
    lower_bound <= mid -> mid <= upper_bound ->
    match bisect_margin utility_at depth lower_bound mid upper_bound mid_utility with
    | inr m => lower_bound <= m /\ m <= upper_bound
    | inl e => exists x, utility_at x = inl e
    end.
Proof.
  induction depth as [|depth IH]; intros lo mid hi mu Hlo Hhi; simpl.
  - split; assumption.
  - unfold rbind.
    destruct (utility_at ((lo + mid) / 2)) as [e|new_utility] eqn:E1; [eexists; exact E1|].
    set (lo' := if Qle_bool mu new_utility then lo else mid).
    set (hi' := if Qle_bool mu new_utility then mid else hi).
    destruct (utility_at ((lo' + hi') / 2)) as [e|mu'] eqn:E2; [eexists; exact E2|].
    assert (Hb : lo <= lo' /\ lo' <= hi' /\ hi' <= hi).
    { unfold lo', hi'. destruct (Qle_bool mu new_utility); (split; [|split]); lra. }
    destruct Hb as [H1 [H2 H3]]. clearbody lo' hi'.
    specialize (IH lo' ((lo' + hi') / 2) hi' mu').
    destruct (midpoint_between lo' hi' H2) as [Hm1 Hm2].
    specialize (IH Hm1 Hm2).
    destruct (bisect_margin utility_at depth lo' ((lo' + hi') / 2) hi' mu') as [e|m].
    + exact IH.
    + destruct IH as [Ha Hb]. split; lra.
Qed.

Lemma margin_search_range (env : Env) (self : Stakeholder.t)
    (model : Simulation.t) (pool : Pool.t) (initial_margin : Q) :
  0 <= initial_margin -> initial_margin <= 1 ->
  match calculate_margin_binary_search env self model pool initial_margin with
  | inr m => 0 <= m /\ m <= 2 * initial_margin /\ m <= 1
  | inl e => e = ZeroDivisionError
  end.
Proof.
  intros H0 H1. unfold calculate_margin_binary_search.
  set (utility_at := fun m : Q =>
         calculate_operator_utility_by_pool env self model (Pool.set_margin m pool)
           (dict_set (Pool.id (Pool.set_margin m pool)) (Pool.set_margin m pool)
                     (Simulation.pools model))).
  unfold rbind.
  destruct (calculate_operator_utility_by_pool env self model
              (Pool.set_margin initial_margin pool) _) as [e|mid_utility] eqn:E.
  - apply (calculate_operator_utility_by_pool_raises _ _ _ _ _ _ E).
  - destruct (py_min_spec (2 * initial_margin - 0) 1) as [Ha Hb].
    assert (Hup : initial_margin <= py_min (2 * initial_margin - 0) 1).
    { destruct (py_min_cases (2 * initial_margin - 0) 1) as [[-> _] | [-> _]]; lra. }
    pose proof (bisect_margin_between utility_at 5 0 initial_margin
                  (py_min (2 * initial_margin - 0) 1) mid_utility H0 Hup) as Hb5.
    destruct (bisect_margin utility_at 5 0 initial_margin
                (py_min (2 * initial_margin - 0) 1) mid_utility) as [e|m].
    + destruct Hb5 as [x Hx]. apply (calculate_operator_utility_by_pool_raises _ _ _ _ _ _ Hx).
    + destruct Hb5 as [Hm0 Hm1]. (split; [|split]); lra.
Qed.

(** X5. For an initial margin between 0 and 1 the margin search returns a margin
    between 0 and the smaller of 1 and twice the initial margin (so 0 for an
    initial margin of 0), and it fails only with a division by zero in the
    operator utility. *)
Theorem calculate_margin_binary_search_range (env : Env) (self : Stakeholder.t)
    (model : Simulation.t) (pool : Pool.t) (initial_margin : Q) :
  0 <= initial_margin -> initial_margin <= 1 ->
  match calculate_margin_binary_search env self model pool initial_margin with
  | inr m => 0 <= m /\ m <= 2 * initial_margin /\ m <= 1
             /\ (initial_margin == 0 -> m == 0)
  | inl e => e = ZeroDivisionError
  end.
Proof.
  intros H0 H1.
  pose proof (margin_search_range env self model pool initial_margin H0 H1) as H.
  destruct (calculate_margin_binary_search env self model pool initial_margin) as [e|m];
    [exact H|].
  destruct H as [Ha [Hb Hc]]. split; [exact Ha|]. split; [exact Hb|]. split; [exact Hc|].
  intro Hz. rewrite Hz in Hb. apply Qle_antisym; lra.
Qed.

(** ** [calculate_delegator_utility] and delegation strategies *)

Lemma py_max_ge_l (a b : Q) : a <= py_max a b.
Proof. destruct (py_max_spec a b) as [H _]. exact H. Qed.

Lemma calculate_delegator_utility_outcome (env : Env) (self : Stakeholder.t)
    (model : Simulation.t) (pool : Pool.t) (a : Q) :
  match calculate_delegator_utility env self model pool a with
  | inr u => 0 <= u
  | inl e => e = ZeroDivisionError
  end.
Proof.
  unfold calculate_delegator_utility, rbind.
  destruct (py_div _ _) as [e|q] eqn:E.
  - apply (py_div_raises _ _ _ E).
  - apply py_max_ge_l.
Qed.

Lemma delegation_loop_outcome (env : Env) (self : Stakeholder.t) (model : Simulation.t)
    (allocations : Dict Q) :
  forall utility, 0 <= utility ->
    match rfold (add_delegation_utility env self model) allocations utility with
    | inr u => 0 <= u
    | inl e => e = ZeroDivisionError
               \/ exists pool_id a,
                    In (pool_id, a) allocations /\ 0 < a
                    /\ dict_get pool_id (Simulation.pools model) = None
                    /\ e = PoolNotFoundError (Stakeholder.unique_id self) pool_id
    end.
Proof.
  induction allocations as [|[pool_id a] rest IH]; intros utility Hu; simpl.
  - exact Hu.
  - unfold rbind.
    destruct (Qle_bool a 0) eqn:Ea.
    + simpl. specialize (IH utility Hu).
      destruct (rfold _ rest utility) as [e|u]; [|exact IH].
      destruct IH as [IH | [p [x [Hin H]]]]; [left; exact IH|].
      right. exists p, x. split; [right; exact Hin | exact H].
    + assert (Hpos : 0 < a).
      { apply Qnot_le_lt. intro Hle. apply Qle_bool_iff in Hle. congruence. }
      destruct (dict_get pool_id (Simulation.pools model)) as [pool|] eqn:Eg; simpl.
      * pose proof (calculate_delegator_utility_outcome env self model pool a) as Hd.
        destruct (calculate_delegator_utility env self model pool a) as [e|u]; simpl.
        -- left. exact Hd.
        -- assert (Hu' : 0 <= utility + u) by lra.
           specialize (IH (utility + u) Hu').
           destruct (rfold _ rest (utility + u)) as [e|u']; [|exact IH].
           destruct IH as [IH | [p [x [Hin H]]]]; [left; exact IH|].
           right. exists p, x. split; [right; exact Hin | exact H].
      * right. exists pool_id, a. split; [left; reflexivity|].
        split; [exact Hpos|]. split; [exact Eg | reflexivity].
Qed.

Lemma delegation_utility_outcome (env : Env) (self : Stakeholder.t)
    (model : Simulation.t) (strategy : Strategy.t) :
  Strategy.is_pool_operator strategy = false ->
  match calculate_utility env self model strategy with
  | inr u => 0 <= u
  | inl e => e = ZeroDivisionError
             \/ exists pool_id a,
                  In (pool_id, a) (Strategy.stake_allocations strategy) /\ 0 < a
                  /\ dict_get pool_id (Simulation.pools model) = None
                  /\ e = PoolNotFoundError (Stakeholder.unique_id self) pool_id
  end.
Proof.
  intro Hop. unfold calculate_utility. rewrite Hop. simpl.
  apply delegation_loop_outcome. lra.
Qed.

(** X6. The utility of a strategy that operates no pool is never negative.  Its
    computation fails only with a division by zero in a delegator utility or
    with [PoolNotFoundError] for a positive allocation to a pool that is not
    in the registry. *)
Theorem delegation_utility_not_negative (env : Env) (self : Stakeholder.t)
    (model : Simulation.t) (strategy : Strategy.t) :
  Strategy.is_pool_operator strategy = false ->
  match calculate_utility env self model strategy with
  | inr u => 0 <= u
  | inl e => e = ZeroDivisionError
             \/ exists pool_id a,
                  In (pool_id, a) (Strategy.stake_allocations strategy) /\ 0 < a
                  /\ dict_get pool_id (Simulation.pools model) = None
                  /\ e = PoolNotFoundError (Stakeholder.unique_id self) pool_id
  end.
Proof.
  intro Hop. unfold calculate_utility. rewrite Hop. simpl.
  apply delegation_loop_outcome. lra.
Qed.

(** ** [determine_current_pools] *)

Lemma max_from_in {A} (lt : A -> A -> bool) (l : list A) :
  forall best, In (max_from lt best l) (best :: l).
Proof.
  induction l as [|x l IH]; intro best; simpl.
  - left. reflexivity.
  - destruct (IH (if lt best x then x else best)) as [H | H].
    + destruct (lt best x); [right; left | left]; exact H.
    + right. right. exact H.
Qed.

Lemma dict_remove_length {V} (k : Z) (d : Dict V) :
  NoDup (dict_keys d) -> In k (dict_keys d) ->
  S (List.length (dict_remove k d)) = List.length d.
Proof.
  induction d as [|[k' v] d IH]; simpl; intros Hnd Hin; [contradiction|].
  inversion Hnd as [|? ? Hnin Hnd']; subst.
  destruct (Z.eqb k k') eqn:E; simpl.
  - apply Z.eqb_eq in E. subst k'. f_equal.
    rewrite dict_remove_fresh; [reflexivity | exact Hnin].
  - apply Z.eqb_neq in E. f_equal. apply IH; [exact Hnd'|].
    destruct Hin as [Hin | Hin]; [congruence | exact Hin].
Qed.

Lemma dict_remove_keys {V} (k : Z) (d : Dict V) (x : Z) :
  In x (dict_keys (dict_remove k d)) <-> In x (dict_keys d) /\ x <> k.
Proof.
  unfold dict_remove, dict_keys. rewrite in_map_iff. split.
  - intros [[k' v] [Hx Hin]]. simpl in Hx. subst k'.
    apply filter_In in Hin. destruct Hin as [Hin Hneq]. simpl in Hneq.
    split.
    + apply in_map_iff. exists (x, v). split; [reflexivity | exact Hin].
    + intro Heq. subst x. rewrite Z.eqb_refl in Hneq. discriminate.
  - intros [Hin Hneq]. apply in_map_iff in Hin. destruct Hin as [[k' v] [Hx Hin]].
    simpl in Hx. subst k'. exists (x, v). split; [reflexivity|].
    apply filter_In. split; [exact Hin|]. simpl.
    destruct (Z.eqb k x) eqn:E; [apply Z.eqb_eq in E; congruence | reflexivity].
Qed.

Lemma dict_remove_NoDup {V} (k : Z) (d : Dict V) :
  NoDup (dict_keys d) -> NoDup (dict_keys (dict_remove k d)).
Proof.
  induction d as [|[k' v] d IH]; simpl; intro Hnd; [constructor|].
  inversion Hnd as [|? ? Hnin Hnd']; subst.
  destruct (Z.eqb k k'); simpl.
  - apply IH. exact Hnd'.
  - constructor; [|apply IH; exact Hnd'].
    intro Hin. apply dict_remove_keys in Hin. apply Hnin. apply Hin.
Qed.

Section Retiring.

Variable env : Env.
Hypothesis ranked : ranks_its_keys env.

Lemma owned_desirabilities_keys (owned_pools : Dict Pool.t) :
  dict_keys (owned_desirabilities env owned_pools) = dict_keys owned_pools.
Proof.
  unfold owned_desirabilities, dict_keys. rewrite map_map. reflexivity.
Qed.

(** One pass of the loop retires a pool that the agent owns. *)
Lemma worst_ranked_owned (owned_pools : Dict Pool.t) :
  match py_max_by (fun a b => Z.ltb (snd a) (snd b))
                  (calculate_ranks env (owned_desirabilities env owned_pools)) with
  | inr worst => In (fst worst) (dict_keys owned_pools)
  | inl e => owned_pools = [] /\ e = ValueError "max() arg is an empty sequence"
  end.
Proof.
  pose proof (ranked (owned_desirabilities env owned_pools)) as Hk.
  rewrite owned_desirabilities_keys in Hk.
  destruct (calculate_ranks env (owned_desirabilities env owned_pools)) as [|x ranks] eqn:E; simpl.
  - split; [|reflexivity].
    destruct owned_pools as [|[k p] rest]; [reflexivity|].
    exfalso. apply (proj2 (Hk k)). left. reflexivity.
  - apply Hk. unfold dict_keys. apply in_map. apply max_from_in.
Qed.

Lemma without_pools_cons (k : Z) (retired : list Z) (owned_pools : Dict Pool.t) :
  without_pools retired (dict_remove k owned_pools) = without_pools (k :: retired) owned_pools.
Proof.
  unfold without_pools, dict_remove.
  induction owned_pools as [|kv owned IH]; simpl; [reflexivity|].
  destruct (Z.eqb k (fst kv)); simpl.
  - exact IH.
  - destruct (existsb _ retired); simpl; [exact IH | f_equal; exact IH].
Qed.

Lemma without_pools_nil (owned_pools : Dict Pool.t) : without_pools [] owned_pools = owned_pools.
Proof.
  unfold without_pools. simpl.
  induction owned_pools as [|kv owned IH]; simpl; [reflexivity | f_equal; exact IH].
Qed.

Lemma retire_pools_enough (retiring_pools_num : nat) :
  forall owned_pools,
    NoDup (dict_keys owned_pools) ->
    (retiring_pools_num <= List.length owned_pools)%nat ->
    exists retired,
      retire_pools env retiring_pools_num owned_pools = ok (without_pools retired owned_pools)
      /\ List.length retired = retiring_pools_num
      /\ NoDup retired
      /\ incl retired (dict_keys owned_pools)
      /\ (List.length (without_pools retired owned_pools) + retiring_pools_num
          = List.length owned_pools)%nat.
Proof.
  induction retiring_pools_num as [|i IH]; intros owned Hnd Hlen; simpl.
  - exists []. rewrite without_pools_nil.
    split; [reflexivity|]. split; [reflexivity|]. split; [constructor|].
    split; [intros x [] | lia].
  - pose proof (worst_ranked_owned owned) as Hw. fold (owned_desirabilities env owned).
    destruct (py_max_by _ (calculate_ranks env (owned_desirabilities env owned))) as [e|worst]; simpl.
    + destruct Hw as [Hnil _]. subst owned. simpl in Hlen. lia.
    + unfold dict_pop, dict_mem.
      destruct (dict_get (fst worst) owned) as [p|] eqn:Eg.
      2:{ exfalso. apply dict_get_in_keys in Hw. destruct Hw as [v Hv]. congruence. }
      simpl.
      pose proof (dict_remove_length (fst worst) owned Hnd Hw) as Hrem.
      assert (Hlen' : (i <= List.length (dict_remove (fst worst) owned))%nat) by lia.
      destruct (IH (dict_remove (fst worst) owned) (dict_remove_NoDup _ _ Hnd) Hlen')
        as [retired [Heq [Hl [Hndr [Hincl Hcount]]]]].
      rewrite without_pools_cons in Heq, Hcount.
      exists (fst worst :: retired). split; [exact Heq|]. split; [simpl; f_equal; exact Hl|].
      split; [|split].
      * constructor; [|exact Hndr]. intro Hin. apply Hincl in Hin.
        apply dict_remove_keys in Hin. destruct Hin as [_ Hneq]. apply Hneq. reflexivity.
      * intros x [Hx | Hx]; [subst x; exact Hw|].
        apply Hincl in Hx. apply dict_remove_keys in Hx. apply Hx.
      * lia.
Qed.

Lemma retire_pools_too_many (retiring_pools_num : nat) :
  forall owned_pools,
    NoDup (dict_keys owned_pools) ->
    (List.length owned_pools < retiring_pools_num)%nat ->
    retire_pools env retiring_pools_num owned_pools
    = raise (ValueError "max() arg is an empty sequence").
Proof.
  induction retiring_pools_num as [|i IH]; intros owned Hnd Hlen; simpl; [lia|].
  pose proof (worst_ranked_owned owned) as Hw. fold (owned_desirabilities env owned).
  destruct (py_max_by _ (calculate_ranks env (owned_desirabilities env owned))) as [e|worst]; simpl.
  - destruct Hw as [_ ->]. reflexivity.
  - unfold dict_pop, dict_mem.
    destruct (dict_get (fst worst) owned) as [p|] eqn:Eg.
    2:{ exfalso. apply dict_get_in_keys in Hw. destruct Hw as [v Hv]. congruence. }
    simpl. apply IH; [apply dict_remove_NoDup; exact Hnd|].
    pose proof (dict_remove_length (fst worst) owned Hnd Hw). lia.
Qed.

End Retiring.

(** X7. [determine_current_pools] returns the owned pools as they are when the
    candidate count is not below the current one.  When [retiring] pools
    have to go and the agent owns at least that many, it removes exactly
    [retiring] distinct owned pools and keeps the others in their order;
    when it owns fewer, [max] of an empty dict raises [ValueError]. *)
Theorem determine_current_pools_retires (env : Env) (self : Stakeholder.t) (num_pools : Z) :
  let owned_pools := Strategy.owned_pools (Stakeholder.strategy self) in
  let retiring := (Strategy.num_pools (Stakeholder.strategy self) - num_pools)%Z in
  ranks_its_keys env ->
  NoDup (dict_keys owned_pools) ->
  ((retiring <= 0)%Z -> determine_current_pools env self num_pools = ok owned_pools)
  /\ ((0 < retiring <= Z.of_nat (List.length owned_pools))%Z ->
      exists retired,
        determine_current_pools env self num_pools = ok (without_pools retired owned_pools)
        /\ Z.of_nat (List.length retired) = retiring
        /\ NoDup retired
        /\ incl retired (dict_keys owned_pools)
        /\ (Z.of_nat (List.length (without_pools retired owned_pools))
            = Z.of_nat (List.length owned_pools) - retiring)%Z)
  /\ ((Z.of_nat (List.length owned_pools) < retiring)%Z ->
      determine_current_pools env self num_pools
      = raise (ValueError "max() arg is an empty sequence")).
Proof.
  intros owned retiring Hranked Hnd. unfold determine_current_pools.
  fold owned. split; [|split]; intro Hr.
  - assert (E : (num_pools <? Strategy.num_pools (Stakeholder.strategy self))%Z = false).
    { apply Z.ltb_ge. unfold retiring in Hr. lia. }
    rewrite E. reflexivity.
  - assert (E : (num_pools <? Strategy.num_pools (Stakeholder.strategy self))%Z = true).
    { apply Z.ltb_lt. unfold retiring in Hr. lia. }
    rewrite E. fold retiring.
    destruct (retire_pools_enough env Hranked (Z.to_nat retiring) owned Hnd)
      as [retired [Heq [Hl [Hndr [Hincl Hcount]]]]]; [lia|].
    exists retired. split; [exact Heq|]. split; [lia|]. split; [exact Hndr|].
    split; [exact Hincl | lia].
  - assert (E : (num_pools <? Strategy.num_pools (Stakeholder.strategy self))%Z = true).
    { apply Z.ltb_lt. unfold retiring in Hr. lia. }
    rewrite E. fold retiring. apply retire_pools_too_many; [exact Hranked | exact Hnd | lia].
Qed.

(** ** What a decision leaves alone *)

Lemma allocator_only_refl (s : Simulation.t) : allocator_only s s.
Proof. unfold allocator_only. destruct s. reflexivity. Qed.

Lemma allocator_only_trans (s1 s2 s3 : Simulation.t) :
  allocator_only s1 s2 -> allocator_only s2 s3 -> allocator_only s1 s3.
Proof.
  unfold allocator_only. intros H12 H23. rewrite H23 at 1. rewrite H12 at 1.
  destruct s1. reflexivity.
Qed.

Section ChangesOnly.

Variable R : Simulation.t -> Simulation.t -> Prop.
Hypothesis R_refl : forall s, R s s.
Hypothesis R_trans : forall s1 s2 s3, R s1 s2 -> R s2 s3 -> R s1 s3.

Lemma changes_only_mret {A} (a : A) : changes_only R (mret a).
Proof. intros s r s' H. unfold mret in H. injection H as _ <-. apply R_refl. Qed.

Lemma changes_only_mraise {A} (e : Exn) : changes_only R (@mraise A e).
Proof. intros s r s' H. unfold mraise in H. injection H as _ <-. apply R_refl. Qed.

Lemma changes_only_reading {A} (f : Simulation.t -> Result A) : changes_only R (reading f).
Proof. intros s r s' H. unfold reading in H. injection H as _ <-. apply R_refl. Qed.

Lemma changes_only_modify (f : Simulation.t -> Simulation.t) :
  (forall s, R s (f s)) -> changes_only R (modify f).
Proof. intros Hf s r s' H. unfold modify in H. injection H as _ <-. apply Hf. Qed.

Lemma changes_only_mbind {A B} (c : M A) (f : A -> M B) :
  changes_only R c -> (forall a, changes_only R (f a)) -> changes_only R (mbind c f).
Proof.
  intros Hc Hf s r s' H. unfold mbind in H.
  destruct (c s) as [[e|a] s1] eqn:E.
  - injection H as _ <-. apply (Hc _ _ _ E).
  - apply (R_trans _ s1); [apply (Hc _ _ _ E) | apply (Hf _ _ _ _ H)].
Qed.

Lemma changes_only_mfold {A B} (f : A -> B -> M A) (l : list B) :
  (forall a b, changes_only R (f a b)) -> forall a, changes_only R (mfold f l a).
Proof.
  intro Hf. induction l as [|b l IH]; intro a; simpl.
  - apply changes_only_mret.
  - apply changes_only_mbind; [apply Hf | exact IH].
Qed.

End ChangesOnly.

Lemma get_next_pool_id_frame : changes_only allocator_only get_next_pool_id.
Proof.
  intros s r s' H. unfold get_next_pool_id in H. injection H as _ <-.
  unfold allocator_only. destruct s. reflexivity.
Qed.

Lemma rewind_pool_id_seq_frame (step : Z) : changes_only allocator_only (rewind_pool_id_seq step).
Proof.
  apply changes_only_modify. intro s. unfold allocator_only. destruct s. reflexivity.
Qed.

Lemma record_owner_frame (f : Simulation.t -> Dict Z) :
  changes_only allocator_only (modify (fun s => Simulation.set_pool_owner_id_mapping (f s) s)).
Proof.
  apply changes_only_modify. intro s. unfold allocator_only. destruct s. reflexivity.
Qed.

Ltac allocator_frame :=
  repeat first
    [ apply (changes_only_mret allocator_only allocator_only_refl)
    | apply (changes_only_mraise allocator_only allocator_only_refl)
    | apply (changes_only_reading allocator_only allocator_only_refl)
    | apply get_next_pool_id_frame
    | apply rewind_pool_id_seq_frame
    | apply record_owner_frame
    | apply (changes_only_mbind allocator_only allocator_only_trans); [| intro]
    | apply (changes_only_mfold allocator_only allocator_only_refl allocator_only_trans);
      intros ? ?
    | match goal with
      | |- changes_only _ (let (_, _) := ?x in _) => destruct x
      | |- changes_only _ (match ?x with _ => _ end) => destruct x
      | |- changes_only _ (if ?x then _ else _) => destruct x
      | |- changes_only _ (open_hypothetical_pool _ _ _ _ _ _) =>
          unfold open_hypothetical_pool
      end ].

Lemma update_strategy_frame (env : Env) (self : Stakeholder.t) :
  changes_only allocator_only (update_strategy env self).
Proof.
  unfold update_strategy. allocator_frame.
Qed.

Lemma update_strategy_stages (env : Env) (self self' : Stakeholder.t) (s s' : Simulation.t) :
  update_strategy env self s = (ok self', s') ->
  self' = Stakeholder.set_new_strategy (Stakeholder.new_strategy self') self.
Proof.
  unfold update_strategy. intro H.
  apply mbind_returns in H. destruct H as [[moves last] [s1 [_ H]]].
  apply mbind_returns in H. destruct H as [option [s2 [_ H]]].
  apply mbind_returns in H. destruct H as [[] [s3 [_ H]]].
  apply mbind_returns in H. destruct H as [chosen [s4 [_ H]]].
  unfold mret, ok in H. injection H as <- _. destruct self. reflexivity.
Qed.

(** X8. [update_strategy] only decides: whether it returns or raises, the model
    differs from the one before in nothing but the pool id allocator and the
    record of who was handed which id, so the registry, the agents and the
    idle flag are untouched; and the agent it returns differs from the one
    before only in the strategy it has staged. *)
Theorem update_strategy_decides_only (env : Env) (self : Stakeholder.t) (s : Simulation.t) :
  let s' := snd (update_strategy env self s) in
  allocator_only s s'
  /\ Simulation.pools s' = Simulation.pools s
  /\ Simulation.agents s' = Simulation.agents s
  /\ Simulation.current_step_idle s' = Simulation.current_step_idle s
  /\ match fst (update_strategy env self s) with
     | inr self' =>
         self' = Stakeholder.set_new_strategy (Stakeholder.new_strategy self') self
     | inl _ => True
     end.
Proof.
  destruct (update_strategy env self s) as [r s'] eqn:E. simpl.
  pose proof (update_strategy_frame env self s r s' E) as Hframe.
  split; [exact Hframe|].
  unfold allocator_only in Hframe.
  split; [rewrite Hframe; destruct s; reflexivity|].
  split; [rewrite Hframe; destruct s; reflexivity|].
  split; [rewrite Hframe; destruct s; reflexivity|].
  destruct r as [e|self']; [exact I|].
  apply (update_strategy_stages env self self' s s' E).
Qed.

(** ** [initialize_agents] *)

Section CreateAgents.

Variables (myopic_fraction : Q) (n : Z) (sampled : Sampled).
Variable body : nat * Dict Stakeholder.t -> Z -> Result (nat * Dict Stakeholder.t).
Hypothesis body_eq : forall i agents unique_id,
  body (i, agents) unique_id
  = match initial_agent myopic_fraction n sampled i unique_id with
    | Some agent => ok (S i, dict_set unique_id agent agents)
    | None => raise IndexError
    end.

Lemma create_agents_loop (ids : list Z) :
  forall (i : nat) (agents : Dict Stakeholder.t),
    NoDup (dict_keys agents ++ ids) ->
    (i + List.length ids <= List.length (cost_distribution sampled))%nat ->
    (i + List.length ids <= List.length (stake_distribution sampled))%nat ->
    exists created,
      rfold body ids (i, agents) = ok ((i + List.length ids)%nat, agents ++ created)
      /\ dict_keys created = ids
      /\ forall j unique_id,
           nth_error ids j = Some unique_id ->
           exists agent,
             initial_agent myopic_fraction n sampled (i + j) unique_id = Some agent
             /\ nth_error created j = Some (unique_id, agent).
Proof.
  induction ids as [|uid ids IH]; intros i agents Hnd Hc Hs.
  - exists []. simpl. rewrite app_nil_r, Nat.add_0_r. split; [reflexivity|].
    split; [reflexivity|]. intros [|j] u H; discriminate.
  - simpl in Hc, Hs. cbn [rfold]. rewrite body_eq.
    destruct (initial_agent myopic_fraction n sampled i uid) as [agent|] eqn:Ea.
    2:{ exfalso. unfold initial_agent in Ea.
        destruct (nth_error (cost_distribution sampled) i) eqn:Ec.
        - destruct (nth_error (stake_distribution sampled) i) eqn:Es; [discriminate|].
          apply nth_error_None in Es. lia.
        - apply nth_error_None in Ec. lia. }
    cbn [rbind ok].
    assert (Hfresh : ~ In uid (dict_keys agents)).
    { intro Hin. apply NoDup_remove_2 in Hnd. apply Hnd. apply in_or_app. left. exact Hin. }
    rewrite (dict_set_fresh _ _ _ Hfresh).
    destruct (IH (S i) (agents ++ [(uid, agent)])) as [created [Heq [Hkeys Hnth]]].
    + unfold dict_keys. rewrite map_app. simpl. rewrite <- app_assoc. simpl. exact Hnd.
    + lia.
    + lia.
    + exists ((uid, agent) :: created). split; [|split].
      * rewrite Heq. rewrite <- app_assoc. simpl. f_equal. f_equal. lia.
      * simpl. f_equal. exact Hkeys.
      * intros [|j] u Hj; simpl in Hj.
        -- injection Hj as <-. exists agent. split; [|reflexivity].
           rewrite Nat.add_0_r. exact Ea.
        -- destruct (Hnth j u Hj) as [ag [Hi Hn]]. exists ag. split; [|exact Hn].
           replace (i + S j)%nat with (S i + j)%nat by lia. exact Hi.
Qed.

Lemma create_agents_loop_short (ids : list Z) :
  forall (i : nat) (agents : Dict Stakeholder.t),
    (List.length (cost_distribution sampled) < i + List.length ids
     \/ List.length (stake_distribution sampled) < i + List.length ids)%nat ->
    (i <= List.length (cost_distribution sampled))%nat ->
    (i <= List.length (stake_distribution sampled))%nat ->
    rfold body ids (i, agents) = raise IndexError.
Proof.
  induction ids as [|uid ids IH]; intros i agents Hshort Hc Hs.
  - simpl in Hshort. lia.
  - cbn [rfold]. rewrite body_eq.
    destruct (initial_agent myopic_fraction n sampled i uid) as [agent|] eqn:Ea;
      [|reflexivity].
    cbn [rbind ok]. unfold initial_agent in Ea.
    destruct (nth_error (cost_distribution sampled) i) eqn:Ec; [|discriminate].
    destruct (nth_error (stake_distribution sampled) i) eqn:Es; [|discriminate].
    assert (Hc' : (i < List.length (cost_distribution sampled))%nat).
    { apply nth_error_Some. congruence. }
    assert (Hs' : (i < List.length (stake_distribution sampled))%nat).
    { apply nth_error_Some. congruence. }
    apply IH; [simpl in Hshort; lia | lia | lia].
Qed.

End CreateAgents.


(** ** [find_operator_move] *)

Lemma dict_set_replace {V} (k : Z) (v old : V) (done todo : Dict V) :
  ~ In k (dict_keys done) ->
  dict_set k v (done ++ (k, old) :: todo) = done ++ (k, v) :: todo.
Proof.
  induction done as [|[k' v'] done IH]; simpl; intro Hnin.
  - rewrite Z.eqb_refl. reflexivity.
  - destruct (Z.eqb k k') eqn:E.
    + apply Z.eqb_eq in E. exfalso. apply Hnin. left. congruence.
    + f_equal. apply IH. intro Hin. apply Hnin. right. exact Hin.
Qed.

Section AdaptLoop.

Variables (env : Env) (self : Stakeholder.t) (model : Simulation.t).
Variables (pledges : list Q) (cost_per_pool pledge : Q).
Hypothesis equal_pledges : forall i y, nth_error pledges i = Some y -> y = pledge.

Lemma adapt_existing_pool_returns (i i' : nat) (margins margins' : list Q)
    (owned owned' : Dict Pool.t) (pool_id : Z) (pool : Pool.t) :
  adapt_existing_pool env self model pledges cost_per_pool (i, margins, owned) (pool_id, pool)
  = ok (i', margins', owned') ->
  (i < List.length pledges)%nat
  /\ i' = S i
  /\ exists pool',
       adapted_pool env model pledge cost_per_pool pool pool'
       /\ margins' = margins ++ [Pool.margin pool']
       /\ owned' = dict_set (Pool.id pool') pool' (dict_set pool_id pool' owned).
Proof.
  unfold adapt_existing_pool.
  destruct (nth_error pledges i) as [pledge_i|] eqn:En; [|discriminate].
  pose proof (equal_pledges i pledge_i En) as Hp. subst pledge_i.
  assert (Hi : (i < List.length pledges)%nat) by (apply nth_error_Some; congruence).
  cbn [Pool.is_private Pool.set_potential_profit_value set_potential_profit Pool.set_cost
       Pool.set_is_private Pool.set_pledge Pool.set_stake Pool.pledge Pool.margin Pool.id
       Pool.owner Pool.stake Pool.cost Pool.delegators Pool.potential_profit Pool.set_margin].
  destruct (Qle_bool (Simulation.beta model) pledge) eqn:Epriv.
  - cbn [rbind ok]. intro H. injection H as <- <- <-.
    split; [exact Hi|]. split; [reflexivity|].
    match goal with
    | |- exists pool', _ /\ _ /\ dict_set _ ?P _ = _ => exists P
    end.
    split; [|split; reflexivity].
    unfold adapted_pool. simpl. rewrite Epriv.
    repeat (split; [reflexivity|]).
    intros H0 H1. split; [lra | split; lra].
  - match goal with
    | |- context [calculate_margin_binary_search env self model ?q ?m] =>
        pose proof (margin_search_range env self model q m) as Hrange;
        destruct (calculate_margin_binary_search env self model q m) as [e|margin]
    end; [discriminate|].
    cbn [rbind ok]. intro H. injection H as <- <- <-.
    split; [exact Hi|]. split; [reflexivity|].
    match goal with
    | |- exists pool', _ /\ _ /\ dict_set _ ?P _ = _ => exists P
    end.
    split; [|split; reflexivity].
    unfold adapted_pool. simpl. rewrite Epriv.
    repeat (split; [reflexivity|]). split; [discriminate|].
    intros H0 H1. simpl in Hrange. apply Hrange; assumption.
Qed.

Lemma adapt_loop (todo : Dict Pool.t) :
  forall (done : Dict Pool.t) (i i' : nat) (margins margins' : list Q) (owned' : Dict Pool.t),
    NoDup (dict_keys (done ++ todo)) ->
    (forall k p, In (k, p) todo -> Pool.id p = k) ->
    (i <= List.length pledges)%nat ->
    rfold (adapt_existing_pool env self model pledges cost_per_pool) todo
          (i, margins, done ++ todo)
    = ok (i', margins', owned') ->
    (i + List.length todo <= List.length pledges)%nat
    /\ i' = (i + List.length todo)%nat
    /\ exists todo',
         owned' = done ++ todo'
         /\ dict_keys todo' = dict_keys todo
         /\ margins' = margins ++ map Pool.margin (dict_values todo')
         /\ Forall2 (fun kp kp' => adapted_pool env model pledge cost_per_pool (snd kp) (snd kp'))
                    todo todo'.
Proof.
  induction todo as [|[k p] todo IH]; intros done i i' margins margins' owned' Hnd Hid Hi H.
  - simpl in H. injection H as <- <- <-. split; [simpl; lia|]. split; [simpl; lia|].
    exists []. split; [reflexivity|]. split; [reflexivity|].
    split; [simpl; rewrite app_nil_r; reflexivity | constructor].
  - cbn [rfold] in H. unfold rbind in H.
    destruct (adapt_existing_pool env self model pledges cost_per_pool
                (i, margins, done ++ (k, p) :: todo) (k, p)) as [e|[[i1 margins1] owned1]] eqn:E;
      [discriminate|].
    apply adapt_existing_pool_returns in E.
    destruct E as [Hlen [-> [p' [Had [-> ->]]]]].
    assert (Hidp : Pool.id p' = k).
    { destruct Had as [Hidp' _]. rewrite Hidp'. apply Hid. left. reflexivity. }
    assert (Hfresh : ~ In k (dict_keys done)).
    { unfold dict_keys in Hnd. rewrite map_app in Hnd. simpl in Hnd.
      apply NoDup_remove_2 in Hnd. intro Hin. apply Hnd. apply in_or_app. left. exact Hin. }
    rewrite Hidp in H. rewrite (dict_set_replace k p' p done todo Hfresh) in H.
    rewrite (dict_set_replace k p' p' done todo Hfresh) in H.
    replace (done ++ (k, p') :: todo) with ((done ++ [(k, p')]) ++ todo) in H
      by (rewrite <- app_assoc; reflexivity).
    apply IH in H.
    + destruct H as [Hle [-> [todo' [-> [Hkeys [-> Hall]]]]]].
      split; [simpl; lia|]. split; [simpl; lia|].
      exists ((k, p') :: todo'). split; [rewrite <- app_assoc; reflexivity|].
      split; [simpl; f_equal; exact Hkeys|].
      split; [simpl; rewrite <- app_assoc; reflexivity|].
      constructor; [exact Had | exact Hall].
    + unfold dict_keys in *. rewrite !map_app in *. simpl in *.
      rewrite <- app_assoc. simpl. exact Hnd.
    + intros k0 p0 Hin. apply Hid. right. exact Hin.
    + lia.
Qed.

End AdaptLoop.

Lemma allocator_only_model (s s' : Simulation.t) :
  allocator_only s s' ->
  Simulation.beta s' = Simulation.beta s
  /\ Simulation.attr s' = Simulation.attr s
  /\ Simulation.pools s' = Simulation.pools s
  /\ Simulation.agents s' = Simulation.agents s
  /\ Simulation.k s' = Simulation.k s
  /\ Simulation.common_cost s' = Simulation.common_cost s
  /\ Simulation.total_stake s' = Simulation.total_stake s.
Proof.
  unfold allocator_only. intro H. rewrite H. destruct s. simpl. repeat split; reflexivity.
Qed.

Section OpenLoop.

Variables (env : Env) (self : Stakeholder.t).
Variables (pledges : list Q) (cost_per_pool pledge : Q).
Hypothesis equal_pledges : forall i y, nth_error pledges i = Some y -> y = pledge.

Lemma open_hypothetical_pool_returns (i : nat) (margins margins' : list Q)
    (owned owned' : Dict Pool.t) (s s' : Simulation.t) :
  open_hypothetical_pool env self pledges cost_per_pool (margins, owned) i s
  = (ok (margins', owned'), s') ->
  (i < List.length pledges)%nat
  /\ Simulation.id_seq s' = (Simulation.id_seq s + 1)%Z
  /\ allocator_only s s'
  /\ exists pool,
       opened_pool env self s pledge cost_per_pool (Simulation.id_seq s + 1) pool
       /\ margins' = margins ++ [Pool.margin pool]
       /\ owned' = dict_set (Simulation.id_seq s + 1) pool owned.
Proof.
  unfold open_hypothetical_pool, mbind, get_next_pool_id, modify, reading, mret.
  cbn [ok Simulation.id_seq Simulation.set_id_seq].
  destruct (nth_error pledges i) as [pledge_i|] eqn:En; [|discriminate].
  pose proof (equal_pledges i pledge_i En) as Hp. subst pledge_i.
  assert (Hi : (i < List.length pledges)%nat) by (apply nth_error_Some; congruence).
  unfold new_pool.
  cbn [Pool.is_private Pool.margin Pool.set_margin Pool.id Simulation.beta Simulation.attr
       Simulation.set_pool_owner_id_mapping Simulation.set_id_seq].
  destruct (Qle_bool (Simulation.beta s) pledge) eqn:Epriv.
  - cbn [rbind ok]. intro H. injection H as <- <- <-.
    split; [exact Hi|]. split; [destruct s; reflexivity|].
    split; [unfold allocator_only; destruct s; reflexivity|].
    match goal with
    | |- exists pool, _ /\ _ /\ dict_set _ ?P _ = _ => exists P
    end.
    split; [|split; reflexivity].
    unfold opened_pool. simpl. rewrite Epriv.
    repeat (split; [reflexivity|]). split; [lra | lra].
  - match goal with
    | |- context [calculate_margin_binary_search env self ?m ?q ?x] =>
        pose proof (margin_search_range env self m q x) as Hrange;
        destruct (calculate_margin_binary_search env self m q x) as [e|margin]
    end; [discriminate|].
    cbn [rbind ok]. intro H. injection H as <- <- <-.
    split; [exact Hi|]. split; [destruct s; reflexivity|].
    split; [unfold allocator_only; destruct s; reflexivity|].
    match goal with
    | |- exists pool, _ /\ _ /\ dict_set _ ?P _ = _ => exists P
    end.
    split; [|split; reflexivity].
    unfold opened_pool. simpl. rewrite Epriv.
    repeat (split; [reflexivity|]). split; [discriminate|].
    assert (H0 : 0 <= 1 # 4) by lra. assert (H1 : 1 # 4 <= 1) by lra.
    destruct (Hrange H0 H1) as [Ha [Hb _]]. split; lra.
Qed.

Lemma opened_pool_frame (s s1 : Simulation.t) (pool_id : Z) (p : Pool.t) :
  allocator_only s s1 ->
  opened_pool env self s1 pledge cost_per_pool pool_id p ->
  opened_pool env self s pledge cost_per_pool pool_id p.
Proof.
  intros Hframe. destruct (allocator_only_model s s1 Hframe) as [Hb [Ha _]].
  unfold opened_pool. rewrite Hb, Ha. tauto.
Qed.

Lemma open_loop (count : nat) :
  forall (first : nat) (margins margins' : list Q) (owned owned' : Dict Pool.t)
         (s s' : Simulation.t),
    mfold (open_hypothetical_pool env self pledges cost_per_pool) (seq first count)
          (margins, owned) s
    = (ok (margins', owned'), s') ->
    (forall k, In k (dict_keys owned) -> (k <= Simulation.id_seq s)%Z) ->
    (count = O \/ first + count <= List.length pledges)%nat
    /\ Simulation.id_seq s' = (Simulation.id_seq s + Z.of_nat count)%Z
    /\ allocator_only s s'
    /\ exists opened,
         owned' = owned ++ opened
         /\ dict_keys opened
            = map (fun j => (Simulation.id_seq s + 1 + Z.of_nat j)%Z) (seq 0 count)
         /\ margins' = margins ++ map Pool.margin (dict_values opened)
         /\ Forall (fun kp => opened_pool env self s pledge cost_per_pool (fst kp) (snd kp))
                   opened.
Proof.
  induction count as [|count IH]; intros first margins margins' owned owned' s s' H Hkeys.
  - simpl in H. unfold mret in H. injection H as <- <- <-.
    split; [left; reflexivity|]. split; [lia|]. split; [apply allocator_only_refl|].
    exists []. rewrite !app_nil_r. repeat split; constructor.
  - cbn [seq mfold] in H. apply mbind_returns in H.
    destruct H as [[margins1 owned1] [s1 [Hstep Hrest]]].
    apply open_hypothetical_pool_returns in Hstep.
    destruct Hstep as [Hlen [Hid1 [Hframe1 [pool [Hpool [-> ->]]]]]].
    assert (Hfresh : ~ In (Simulation.id_seq s + 1)%Z (dict_keys owned)).
    { intro Hin. apply Hkeys in Hin. lia. }
    rewrite (dict_set_fresh _ _ _ Hfresh) in Hrest.
    apply IH in Hrest.
    + destruct Hrest as [Hcount [Hid' [Hframe' [opened [-> [Hk [-> Hall]]]]]]].
      split; [right; lia|]. split; [lia|].
      split; [apply (allocator_only_trans _ s1); assumption|].
      exists ((Simulation.id_seq s + 1, pool)%Z :: opened).
      split; [rewrite <- app_assoc; reflexivity|]. split; [|split].
      * cbn [dict_keys map seq fst]. fold (dict_keys opened). rewrite Hk. f_equal; [lia|].
        rewrite <- seq_shift, map_map. apply map_ext. intro j. rewrite Hid1. lia.
      * simpl. rewrite <- app_assoc. reflexivity.
      * constructor; [exact Hpool|].
        apply Forall_forall. intros kp Hin.
        apply (opened_pool_frame s s1); [exact Hframe1|].
        apply (proj1 (Forall_forall _ _) Hall kp Hin).
    + intros k Hin. unfold dict_keys in Hin. rewrite map_app in Hin.
      apply in_app_or in Hin. destruct Hin as [Hin | [<- | []]].
      * apply Hkeys in Hin. lia.
      * simpl. lia.
Qed.

End OpenLoop.

Lemma calculate_pledges_returns (self : Stakeholder.t) (model : Simulation.t) (num_pools : Z)
    (pledges : list Q) :
  calculate_pledges self model num_pools = ok pledges ->
  (0 < num_pools)%Z
  /\ pledges = repeat (py_min (Stakeholder.stake self / inject_Z num_pools)
                              (Simulation.beta model))
                      (Z.to_nat num_pools).
Proof.
  unfold calculate_pledges.
  destruct (num_pools <=? 0)%Z eqn:E; [discriminate|].
  apply Z.leb_gt in E. intro H. injection H as <-. split; [exact E | reflexivity].
Qed.

Lemma repeat_nth_error {A} (x y : A) (n i : nat) :
  nth_error (repeat x n) i = Some y -> y = x.
Proof.
  intro H. apply nth_error_In in H. apply repeat_spec in H. exact H.
Qed.

(** The pools of the strategy that [find_operator_move] returns: the
    existing ones adapted in place, then the new ones under fresh ids. *)
Lemma find_operator_move_returns (env : Env) (self : Stakeholder.t) (num_pools : Z)
    (owned_pools : Dict Pool.t) (s s' : Simulation.t) (strategy : Strategy.t) :
  registry_wf owned_pools ->
  (forall k, In k (dict_keys owned_pools) -> (k <= Simulation.id_seq s)%Z) ->
  find_operator_move env self num_pools owned_pools s = (ok strategy, s') ->
  let pledge := py_min (Stakeholder.stake self / inject_Z num_pools) (Simulation.beta s) in
  let cost_per_pool :=
    if (1 <? num_pools)%Z
    then Simulation.common_cost s + Stakeholder.cost self / inject_Z num_pools
    else Stakeholder.cost self in
  let new_pools := (Z.to_nat num_pools - List.length owned_pools)%nat in
  (0 < num_pools)%Z
  /\ (List.length owned_pools <= Z.to_nat num_pools)%nat
  /\ Strategy.is_pool_operator strategy = true
  /\ Strategy.num_pools strategy = num_pools
  /\ Strategy.pledges strategy = repeat pledge (Z.to_nat num_pools)
  /\ Strategy.margins strategy = map Pool.margin (dict_values (Strategy.owned_pools strategy))
  /\ Simulation.id_seq s' = (Simulation.id_seq s + Z.of_nat new_pools)%Z
  /\ allocator_only s s'
  /\ exists adapted opened,
       Strategy.owned_pools strategy = adapted ++ opened
       /\ dict_keys adapted = dict_keys owned_pools
       /\ Forall2 (fun kp kp' => adapted_pool env s pledge cost_per_pool (snd kp) (snd kp'))
                  owned_pools adapted
       /\ dict_keys opened
          = map (fun j => (Simulation.id_seq s + 1 + Z.of_nat j)%Z) (seq 0 new_pools)
       /\ Forall (fun kp => opened_pool env self s pledge cost_per_pool (fst kp) (snd kp))
                 opened.
Proof.
  intros [Hnd Hid] Hkeys H pledge cost_per_pool new_pools.
  unfold find_operator_move in H.
  apply mbind_returns in H. destruct H as [pledges [s1 [Hp H]]].
  apply reading_returns in Hp. destruct Hp as [Hp ->].
  apply calculate_pledges_returns in Hp. destruct Hp as [Hpos Hpledges].
  fold pledge in Hpledges.
  assert (Hequal : forall i y, nth_error pledges i = Some y -> y = pledge).
  { intros i y Hy. rewrite Hpledges in Hy. apply (repeat_nth_error _ _ _ _ Hy). }
  assert (Hplen : List.length pledges = Z.to_nat num_pools).
  { rewrite Hpledges. apply repeat_length. }
  apply mbind_returns in H. destruct H as [cpp [s1 [Hc H]]].
  apply reading_returns in Hc. destruct Hc as [Hc ->].
  unfold ok in Hc. injection Hc as Hc. fold cost_per_pool in Hc. subst cpp.
  apply mbind_returns in H. destruct H as [[[i1 margins1] owned1] [s1 [Ha H]]].
  apply reading_returns in Ha. destruct Ha as [Ha ->].
  apply (adapt_loop env self s pledges cost_per_pool pledge Hequal owned_pools []) in Ha;
    [|exact Hnd | exact Hid | lia].
  destruct Ha as [Hle [-> [adapted [Ho1 [Hk1 [Hm1 Hall1]]]]]].
  simpl in Ho1, Hm1, Hle. subst owned1 margins1.
  apply mbind_returns in H. destruct H as [[margins2 owned2] [s2 [Hopen H]]].
  assert (Hlen1 : List.length adapted = List.length owned_pools).
  { apply Forall2_length in Hall1. symmetry. exact Hall1. }
  rewrite Hlen1 in Hopen.
  apply (open_loop env self pledges cost_per_pool pledge Hequal) in Hopen.
  2:{ intros k Hin. rewrite Hk1 in Hin. apply Hkeys. exact Hin. }
  destruct Hopen as [_ [Hid2 [Hframe [opened [-> [Hk2 [-> Hall2]]]]]]].
  apply mbind_returns in H. destruct H as [allocations [s3 [Hal H]]].
  apply reading_returns in Hal. destruct Hal as [_ ->].
  unfold mret, ok in H. injection H as <- <-. simpl.
  split; [exact Hpos|]. split; [lia|]. split; [reflexivity|]. split; [reflexivity|].
  split; [exact Hpledges|].
  split; [unfold dict_values; rewrite !map_app, map_map; reflexivity|].
  split; [exact Hid2|]. split; [exact Hframe|].
  exists adapted, opened. split; [reflexivity|]. split; [exact Hk1|].
  split; [exact Hall1|]. split; [exact Hk2 | exact Hall2].
Qed.


(** ** What a move commits of the agent's stake *)

Lemma dict_set_keys_NoDup {V} (k : Z) (v : V) (d : Dict V) :
  NoDup (dict_keys d) -> NoDup (dict_keys (dict_set k v d)).
Proof.
  intro Hnd. destruct (in_dec Z.eq_dec k (dict_keys d)) as [Hin | Hnin].
  - rewrite dict_keys_set_present; assumption.
  - rewrite (dict_set_fresh _ _ _ Hnin). unfold dict_keys. rewrite map_app. simpl.
    apply NoDup_app; [exact Hnd | constructor; [intros [] | constructor] |].
    intros x Hx [<- | []]. apply Hnin. exact Hx.
Qed.

Lemma desirabilities_n_stakes_NoDup (env : Env) (self : Stakeholder.t) (model : Simulation.t)
    (pools_list : list Pool.t) :
  NoDup (dict_keys (desirabilities_n_stakes env self model pools_list)).
Proof.
  unfold desirabilities_n_stakes.
  assert (H : forall (l : list Pool.t) (d : Dict (Q * Q)),
             NoDup (dict_keys d) ->
             NoDup (dict_keys
               (fold_left
                  (fun d pool =>
                     if negb (Z.eqb (Pool.owner pool) (Stakeholder.unique_id self))
                        && negb (Pool.is_private pool)
                     then dict_set (Pool.id pool)
                            (if Stakeholder.isMyopic self
                             then calculate_myopic_desirability env pool
                                    (Simulation.alpha (Simulation.attr model))
                                    (Simulation.beta model)
                             else calculate_desirability env pool,
                             Pool.stake pool) d
                     else d) l d))).
  { induction l as [|p l IH]; intros d Hd; simpl; [exact Hd|].
    apply IH. destruct (_ && _); [apply dict_set_keys_NoDup|]; exact Hd. }
  apply H. constructor.
Qed.

(** The greedy fill never allocates more than it was given. *)
Lemma delegation_move_sum (env : Env) (self : Stakeholder.t) (model : Simulation.t)
    (stake_to_delegate : option Q) (strategy : Strategy.t) :
  find_delegation_move_desirability env self model stake_to_delegate = ok strategy ->
  let to_delegate := match stake_to_delegate with
                     | None => Stakeholder.stake self
                     | Some x => x
                     end in
  Strategy.is_pool_operator strategy = false
  /\ (forall pool_id a, In (pool_id, a) (Strategy.stake_allocations strategy) -> 0 < a)
  /\ (0 <= to_delegate ->
      py_sum (dict_values (Strategy.stake_allocations strategy)) <= to_delegate)
  /\ (to_delegate == 0 -> Strategy.stake_allocations strategy = []).
Proof.
  unfold find_delegation_move_desirability. intro H.
  destruct (without_own_delegations self model) as [e|pools]; simpl in H; [discriminate|].
  injection H as <-. simpl.
  set (candidates := sorted_desc _ _).
  assert (Hnd : NoDup (dict_keys candidates)).
  { unfold candidates.
    apply (Permutation_NoDup (l := dict_keys (desirabilities_n_stakes env self model
                                                (dict_values pools)))).
    - apply Permutation_map. apply Permutation_sym. apply sorted_desc_perm.
    - apply desirabilities_n_stakes_NoDup. }
  rewrite (fill_pools_fill_list _ candidates _ [] Hnd) by (intros k _ []).
  simpl. split; [reflexivity|]. split; [|split].
  - intros pool_id a Hin. apply fill_list_entries in Hin.
    destruct Hin as [d [s0 [_ [_ [Hpos _]]]]]. exact Hpos.
  - apply fill_list_sum.
  - intro Hz. apply fill_list_exhausted. exact Hz.
Qed.

Lemma pledges_within_stake (self : Stakeholder.t) (model : Simulation.t) (num_pools : Z)
    (pledges : list Q) :
  calculate_pledges self model num_pools = ok pledges ->
  py_sum pledges <= Stakeholder.stake self.
Proof.
  intro H. apply calculate_pledges_returns in H. destruct H as [Hpos ->].
  rewrite py_sum_repeat, Z2Nat.id by lia.
  set (x := py_min _ _).
  assert (Hq : 0 < inject_Z num_pools).
  { change 0 with (inject_Z 0). rewrite <- Zlt_Qlt. exact Hpos. }
  destruct (py_min_spec (Stakeholder.stake self / inject_Z num_pools)
                        (Simulation.beta model)) as [Hshare _].
  fold x in Hshare.
  assert (H : inject_Z num_pools * x
              <= inject_Z num_pools * (Stakeholder.stake self / inject_Z num_pools)).
  { apply Qmult_le_l; assumption. }
  assert (E : inject_Z num_pools * (Stakeholder.stake self / inject_Z num_pools)
              == Stakeholder.stake self).
  { field. intro Hz. rewrite Hz in Hq. apply (Qlt_irrefl 0). exact Hq. }
  rewrite E in H. exact H.
Qed.

Lemma pledges_exhaust_stake (self : Stakeholder.t) (model : Simulation.t) (num_pools : Z)
    (pledges : list Q) :
  calculate_pledges self model num_pools = ok pledges ->
  Stakeholder.stake self <= inject_Z num_pools * Simulation.beta model ->
  py_sum pledges == Stakeholder.stake self.
Proof.
  intros H Hroom. apply calculate_pledges_returns in H. destruct H as [Hpos ->].
  rewrite py_sum_repeat, Z2Nat.id by lia.
  assert (Hq : 0 < inject_Z num_pools).
  { change 0 with (inject_Z 0). rewrite <- Zlt_Qlt. exact Hpos. }
  assert (Hle : Stakeholder.stake self / inject_Z num_pools <= Simulation.beta model).
  { apply Qle_shift_div_r; [exact Hq|]. rewrite Qmult_comm. exact Hroom. }
  destruct (py_min_cases (Stakeholder.stake self / inject_Z num_pools)
                         (Simulation.beta model)) as [[He Hlt] | [He _]].
  - exfalso. apply (Qlt_not_le _ _ Hlt). exact Hle.
  - rewrite He. field.
    intro Hz. rewrite Hz in Hq. apply (Qlt_irrefl 0). exact Hq.
Qed.

(** X11. An operator move never commits more than the agent's stake: the pledges
    add up to at most the stake, the delegations of the remainder are
    positive, pledges and delegations together stay within the stake, and
    nothing is delegated when the stake fits in the pools. *)
Theorem operator_move_within_stake (env : Env) (self : Stakeholder.t) (num_pools : Z)
    (owned_pools : Dict Pool.t) (s s' : Simulation.t) (strategy : Strategy.t) :
  find_operator_move env self num_pools owned_pools s = (ok strategy, s') ->
  py_sum (Strategy.pledges strategy) <= Stakeholder.stake self
  /\ (forall pool_id a, In (pool_id, a) (Strategy.stake_allocations strategy) -> 0 < a)
  /\ py_sum (Strategy.pledges strategy)
     + py_sum (dict_values (Strategy.stake_allocations strategy))
     <= Stakeholder.stake self
  /\ (Stakeholder.stake self <= inject_Z num_pools * Simulation.beta s ->
      Strategy.stake_allocations strategy = []).
Proof.
  intro H. unfold find_operator_move in H.
  apply mbind_returns in H. destruct H as [pledges [s1 [Hp H]]].
  apply reading_returns in Hp. destruct Hp as [Hp ->].
  apply mbind_returns in H. destruct H as [cpp [s1 [_ H]]].
  apply mbind_returns in H. destruct H as [[[i1 margins1] owned1] [s2 [_ H]]].
  apply mbind_returns in H. destruct H as [[margins2 owned2] [s3 [_ H]]].
  apply mbind_returns in H. destruct H as [allocations [s4 [Hal H]]].
  apply reading_returns in Hal. destruct Hal as [Hal ->].
  unfold mret, ok in H. injection H as <- <-. simpl.
  pose proof (pledges_within_stake self s num_pools pledges Hp) as Hsum.
  unfold find_delegation_move_for_operator in Hal.
  destruct (Qltb 0 (Stakeholder.stake self - py_sum pledges)) eqn:Erem.
  - destruct (find_delegation_move_desirability env self s3
                (Some (Stakeholder.stake self - py_sum pledges))) as [e|ds] eqn:Ed;
      simpl in Hal; [discriminate|].
    injection Hal as <-.
    apply delegation_move_sum in Ed. simpl in Ed.
    destruct Ed as [_ [Hpos [Hle Hzero]]].
    apply Qltb_lt in Erem.
    split; [exact Hsum|]. split; [exact Hpos|]. split.
    + assert (H0 : 0 <= Stakeholder.stake self - py_sum pledges) by lra.
      specialize (Hle H0). lra.
    + intro Hroom. exfalso.
      pose proof (pledges_exhaust_stake self s num_pools pledges Hp Hroom) as Hfull.
      rewrite Hfull in Erem. lra.
  - injection Hal as <-. apply Qltb_ge in Erem.
    split; [exact Hsum|]. split; [intros p a []|]. split.
    + unfold py_sum at 2. simpl. lra.
    + intros _. reflexivity.
Qed.

(** ** [calculate_operator_utility_by_pool] *)

(** X12. The operator utility of a pool is undefined (division by zero) exactly
    when the expected stake of the pool is zero.  Otherwise a loss
    [u_0 <= 0] is borne in full, and a profit is scaled by
    [m + (1 - m) q]: with a margin between 0 and 1 and a pledge within the
    expected stake the utility lies between 0 and the profit, and is
    positive for a positive margin. *)
Theorem operator_utility_scaled (env : Env) (self : Stakeholder.t) (model : Simulation.t)
    (pool : Pool.t) (all_pools : Dict Pool.t) :
  let pool_stake := calculate_pool_stake_NM env (Pool.id pool) all_pools
                      (Simulation.beta model) (Simulation.k model) in
  let u_0 := calculate_pool_reward env pool_stake (Pool.pledge pool)
               (Simulation.alpha (Simulation.attr model)) (Simulation.beta model)
             - Stakeholder.cost self in
  (pool_stake == 0 ->
   calculate_operator_utility_by_pool env self model pool all_pools = raise ZeroDivisionError)
  /\ (~ pool_stake == 0 ->
      exists u,
        calculate_operator_utility_by_pool env self model pool all_pools = ok u
        /\ (u_0 <= 0 -> u = u_0)
        /\ (0 < u_0 -> 0 <= Pool.margin pool -> Pool.margin pool <= 1 ->
            0 <= Pool.pledge pool -> Pool.pledge pool <= pool_stake ->
            0 <= u /\ u <= u_0 /\ (0 < Pool.margin pool -> 0 < u))).
Proof.
  intros pool_stake u_0. unfold calculate_operator_utility_by_pool.
  fold pool_stake. unfold py_div.
  destruct (Qeq_bool pool_stake 0) eqn:E; simpl.
  - split; [reflexivity|]. intro Hnz. exfalso. apply Hnz. apply Qeq_bool_iff. exact E.
  - split.
    { intro Hz. apply Qeq_bool_iff in Hz. congruence. }
    intros Hnz. eexists. split; [reflexivity|]. fold u_0.
    destruct (Qle_bool u_0 0) eqn:Eu.
    + split; [reflexivity|]. intro Hpos. apply Qle_bool_iff in Eu. lra.
    + split.
      { intro Hle. apply Qle_bool_iff in Hle. congruence. }
      intros Hpos Hm0 Hm1 Hp0 Hp1.
      assert (Hs : 0 < pool_stake).
      { destruct (Qlt_le_dec 0 pool_stake) as [H | H]; [exact H|].
        exfalso. apply Hnz. lra. }
      set (q := Pool.pledge pool / pool_stake).
      assert (Hq0 : 0 <= q).
      { unfold q. apply Qle_shift_div_l; [exact Hs | lra]. }
      assert (Hq1 : q <= 1).
      { unfold q. apply Qle_shift_div_r; [exact Hs | lra]. }
      set (m := Pool.margin pool) in *.
      assert (Hf0 : 0 <= m + (1 - m) * q) by nra.
      assert (Hf1 : m + (1 - m) * q <= 1) by nra.
      split; [nra|]. split; [nra|].
      intro Hmpos. assert (Hf : 0 < m + (1 - m) * q) by nra. nra.
Qed.

(** ** [find_delegation_move_desirability], whatever the registry *)

Lemma fill_list_nothing (sat : Q) (candidates : Dict (Q * Q)) (std : Q) :
  std <= 0 -> fill_list sat candidates std = [].
Proof.
  intro H. induction candidates as [|[pool_id [d st]] rest IH]; simpl; [reflexivity|].
  destruct (Qeq_bool std 0); [reflexivity|].
  destruct (Qltb st sat); [|exact IH].
  destruct (Qltb 0 (py_min std (sat - st))) eqn:E; [|exact IH].
  apply Qltb_lt in E. destruct (py_min_spec std (sat - st)) as [H1 _]. lra.
Qed.

(** X13. Whatever the registry holds, a delegation move that is returned operates
    no pool, allocates to distinct pools positive amounts of at most the
    stake to delegate, in total no more than that stake, and nothing at all
    when there is no stake to delegate.  The search fails only where the
    removal of the agent's own delegations fails. *)
Theorem delegation_move_bounds (env : Env) (self : Stakeholder.t) (model : Simulation.t)
    (stake_to_delegate : option Q) :
  let to_delegate := match stake_to_delegate with
                     | None => Stakeholder.stake self
                     | Some x => x
                     end in
  match find_delegation_move_desirability env self model stake_to_delegate with
  | inr strategy =>
      Strategy.is_pool_operator strategy = false
      /\ Strategy.owned_pools strategy = []
      /\ NoDup (dict_keys (Strategy.stake_allocations strategy))
      /\ (forall pool_id a, In (pool_id, a) (Strategy.stake_allocations strategy) ->
            0 < a /\ a <= to_delegate)
      /\ py_sum (dict_values (Strategy.stake_allocations strategy)) <= Qmax 0 to_delegate
      /\ (to_delegate <= 0 -> Strategy.stake_allocations strategy = [])
  | inl e =>
      without_own_delegations self model = raise e
  end.
Proof.
  intro to_delegate. unfold find_delegation_move_desirability.
  destruct (without_own_delegations self model) as [e|pools] eqn:Ew; simpl; [reflexivity|].
  fold to_delegate.
  set (candidates := sorted_desc _ _).
  assert (Hnd : NoDup (dict_keys candidates)).
  { unfold candidates.
    apply (Permutation_NoDup (l := dict_keys (desirabilities_n_stakes env self model
                                                (dict_values pools)))).
    - apply Permutation_map. apply Permutation_sym. apply sorted_desc_perm.
    - apply desirabilities_n_stakes_NoDup. }
  rewrite (fill_pools_fill_list _ candidates _ [] Hnd) by (intros k _ []).
  simpl. split; [reflexivity|]. split; [reflexivity|].
  split; [apply fill_list_NoDup; exact Hnd|]. split; [|split].
  - intros pool_id a Hin. apply fill_list_entries in Hin.
    destruct Hin as [d [s0 [_ [_ [Hpos [_ Hle]]]]]]. split; assumption.
  - destruct (Qlt_le_dec to_delegate 0) as [Hneg | Hnn].
    + rewrite fill_list_nothing by lra. unfold py_sum. simpl. apply Q.le_max_l.
    + apply Qle_trans with to_delegate; [apply fill_list_sum; exact Hnn | apply Q.le_max_r].
  - intro Hle. apply fill_list_nothing. exact Hle.
Qed.

(** ** The allocator across one decision *)

Lemma without_pools_wf (retired : list Z) (owned_pools : Dict Pool.t) :
  registry_wf owned_pools -> registry_wf (without_pools retired owned_pools).
Proof.
  intros [Hnd Hid]. unfold without_pools. split.
  - unfold dict_keys. clear Hid. induction owned_pools as [|[k p] d IH]; simpl; [constructor|].
    inversion Hnd as [|? ? Hnin Hnd']; subst.
    destruct (negb _); simpl; [|apply IH; exact Hnd'].
    constructor; [|apply IH; exact Hnd'].
    intro Hin. apply Hnin. apply in_map_iff in Hin. destruct Hin as [[k' p'] [Hk Hin]].
    simpl in Hk. subst k'. apply filter_In in Hin. destruct Hin as [Hin _].
    apply in_map_iff. exists (k, p'). split; [reflexivity | exact Hin].
  - intros k p Hin. apply filter_In in Hin. apply Hid. apply Hin.
Qed.

Lemma without_pools_keys (retired : list Z) (owned_pools : Dict Pool.t) :
  incl (dict_keys (without_pools retired owned_pools)) (dict_keys owned_pools).
Proof.
  intros k Hin. unfold without_pools, dict_keys in *.
  apply in_map_iff in Hin. destruct Hin as [[k' p] [Hk Hin]]. simpl in Hk. subst k'.
  apply filter_In in Hin. apply in_map_iff. exists (k, p). split; [reflexivity | apply Hin].
Qed.

Lemma determine_current_pools_consistent (env : Env) (self : Stakeholder.t) (c : Z) :
  let owned_pools := Strategy.owned_pools (Stakeholder.strategy self) in
  ranks_its_keys env ->
  registry_wf owned_pools ->
  Z.of_nat (List.length owned_pools) = Strategy.num_pools (Stakeholder.strategy self) ->
  (0 < c)%Z ->
  exists kept,
    determine_current_pools env self c = ok kept
    /\ registry_wf kept
    /\ incl (dict_keys kept) (dict_keys owned_pools)
    /\ Z.of_nat (List.length kept)
       = Z.min c (Strategy.num_pools (Stakeholder.strategy self)).
Proof.
  intros owned Hranked Hwf Hlen Hc. unfold determine_current_pools. fold owned.
  destruct (c <? Strategy.num_pools (Stakeholder.strategy self))%Z eqn:E.
  - apply Z.ltb_lt in E.
    destruct (retire_pools_enough env Hranked
                (Z.to_nat (Strategy.num_pools (Stakeholder.strategy self) - c)) owned)
      as [retired [Heq [Hl [Hndr [Hincl Hcount]]]]]; [apply Hwf | lia |].
    exists (without_pools retired owned). split; [exact Heq|].
    split; [apply without_pools_wf; exact Hwf|].
    split; [apply without_pools_keys | lia].
  - apply Z.ltb_ge in E. exists owned. split; [reflexivity|]. split; [exact Hwf|].
    split; [intros k Hk; exact Hk | lia].
Qed.

Lemma find_operator_move_positive (env : Env) (self : Stakeholder.t) (num_pools : Z)
    (owned_pools : Dict Pool.t) (s s' : Simulation.t) (strategy : Strategy.t) :
  find_operator_move env self num_pools owned_pools s = (ok strategy, s') ->
  (0 < num_pools)%Z.
Proof.
  intro H. unfold find_operator_move in H.
  apply mbind_returns in H. destruct H as [pledges [s1 [Hp _]]].
  apply reading_returns in Hp. destruct Hp as [Hp _].
  apply calculate_pledges_returns in Hp. apply Hp.
Qed.

Lemma keys_minus_new (adapted opened : Dict Pool.t) (owned_pools : Dict Pool.t) :
  incl (dict_keys adapted) (dict_keys owned_pools) ->
  (forall k, In k (dict_keys opened) -> ~ In k (dict_keys owned_pools)) ->
  keys_minus (adapted ++ opened) owned_pools = dict_keys opened.
Proof.
  intros Hold Hnew. unfold keys_minus, dict_keys. rewrite map_app, filter_app.
  fold (dict_keys adapted). fold (dict_keys opened). fold (dict_keys owned_pools).
  assert (H1 : filter (fun k => negb (dict_mem k owned_pools)) (dict_keys adapted) = []).
  { induction (dict_keys adapted) as [|k l IH]; simpl; [reflexivity|].
    assert (Hk : dict_mem k owned_pools = true).
    { apply dict_mem_in_keys. apply Hold. left. reflexivity. }
    rewrite Hk. simpl. apply IH. intros x Hx. apply Hold. right. exact Hx. }
  assert (H2 : filter (fun k => negb (dict_mem k owned_pools)) (dict_keys opened)
               = dict_keys opened).
  { induction (dict_keys opened) as [|k l IH]; simpl; [reflexivity|].
    assert (Hk : dict_mem k owned_pools = false).
    { destruct (dict_mem k owned_pools) eqn:E; [|reflexivity].
      exfalso. apply dict_mem_in_keys in E. apply (Hnew k); [left; reflexivity | exact E]. }
    rewrite Hk. simpl. f_equal. apply IH. intros x Hx. apply Hnew. right. exact Hx. }
  rewrite H1, H2. reflexivity.
Qed.

Section Candidates.

Variables (env : Env) (self : Stakeholder.t) (s0 : Simulation.t).
Hypothesis ranked : ranks_its_keys env.
Hypothesis consistent : consistent_operator self s0.

Lemma candidate_move (c : Z) (s s' : Simulation.t) (move : Strategy.t)
    (kept : Dict Pool.t) :
  (Simulation.id_seq s0 <= Simulation.id_seq s)%Z ->
  determine_current_pools env self c = ok kept ->
  find_operator_move env self c kept s = (ok move, s') ->
  Simulation.id_seq s'
  = (Simulation.id_seq s + Z.max 0 (c - Strategy.num_pools (Stakeholder.strategy self)))%Z
  /\ allocator_only s s'
  /\ candidate_entry self (c, move).
Proof.
  intros Hahead Hkept Hmove.
  destruct consistent as [Hwf [Hlen Hkeys]].
  pose proof (find_operator_move_positive _ _ _ _ _ _ _ Hmove) as Hc.
  destruct (determine_current_pools_consistent env self c ranked Hwf Hlen Hc)
    as [kept' [Hkept' [Hwfk [Hincl Hlenk]]]].
  rewrite Hkept in Hkept'. injection Hkept' as <-.
  assert (Hkeysk : forall k, In k (dict_keys kept) -> (k <= Simulation.id_seq s)%Z).
  { intros k Hk. apply Hincl in Hk. apply Hkeys in Hk. lia. }
  destruct (find_operator_move_returns env self c kept s s' move Hwfk Hkeysk Hmove)
    as [_ [Hle [_ [_ [_ [_ [Hid [Hframe [adapted [opened [Ho [Hka [_ [Hko _]]]]]]]]]]]]]].
  assert (Hnew : Z.of_nat (Z.to_nat c - List.length kept)
                 = Z.max 0 (c - Strategy.num_pools (Stakeholder.strategy self))) by lia.
  split; [rewrite Hid, Hnew; reflexivity|]. split; [exact Hframe|].
  unfold candidate_entry. simpl. rewrite Ho.
  rewrite keys_minus_new.
  - rewrite Hko, length_map, length_seq. exact Hnew.
  - rewrite Hka. exact Hincl.
  - intros k Hk Hin. rewrite Hko in Hk. apply in_map_iff in Hk.
    destruct Hk as [j [<- _]]. apply Hkeys in Hin. lia.
Qed.

Lemma candidates_loop (visit : list Z) :
  forall (moves moves' : Dict Strategy.t) (s s' : Simulation.t),
    (Simulation.id_seq s0 <= Simulation.id_seq s)%Z ->
    NoDup (dict_keys moves ++ visit) ->
    mfold (fun moves num_pools =>
             mbind (reading (fun _ => determine_current_pools env self num_pools))
               (fun owned_pools =>
                  mbind (find_operator_move env self num_pools owned_pools)
                    (fun move => mret (dict_set num_pools move moves))))
          visit moves s
    = (ok moves', s') ->
    Simulation.id_seq s'
    = (Simulation.id_seq s + ids_taken (Strategy.num_pools (Stakeholder.strategy self)) visit)%Z
    /\ allocator_only s s'
    /\ exists entries,
         moves' = moves ++ entries
         /\ dict_keys entries = visit
         /\ Forall (candidate_entry self) entries.
Proof.
  induction visit as [|c visit IH]; intros moves moves' s s' Hahead Hnd H.
  - simpl in H. unfold mret in H. injection H as <- <-.
    split; [simpl; lia|]. split; [apply allocator_only_refl|].
    exists []. rewrite app_nil_r. repeat split; constructor.
  - cbn [mfold] in H. apply mbind_returns in H. destruct H as [moves1 [s1 [Hstep Hrest]]].
    apply mbind_returns in Hstep. destruct Hstep as [kept [s2 [Hk Hstep]]].
    apply reading_returns in Hk. destruct Hk as [Hk ->].
    apply mbind_returns in Hstep. destruct Hstep as [move [s3 [Hmove Hret]]].
    unfold mret, ok in Hret. injection Hret as <- <-.
    destruct (candidate_move c s s3 move kept Hahead Hk Hmove) as [Hid [Hframe Hentry]].
    assert (Hfresh : ~ In c (dict_keys moves)).
    { apply NoDup_remove_2 in Hnd. intro Hin. apply Hnd. apply in_or_app. left. exact Hin. }
    rewrite (dict_set_fresh _ _ _ Hfresh) in Hrest.
    apply IH in Hrest.
    + destruct Hrest as [Hid' [Hframe' [entries [-> [Hkeys Hall]]]]].
      split; [simpl; lia|]. split; [apply (allocator_only_trans _ s3); assumption|].
      exists ((c, move) :: entries). split; [rewrite <- app_assoc; reflexivity|].
      split; [simpl; f_equal; exact Hkeys|]. constructor; assumption.
    + lia.
    + unfold dict_keys. rewrite map_app. simpl. rewrite <- app_assoc. simpl. exact Hnd.
Qed.

End Candidates.

Lemma ids_taken_app (n : Z) (a b : list Z) :
  ids_taken n (a ++ b) = (ids_taken n a + ids_taken n b)%Z.
Proof.
  induction a as [|c a IH]; simpl; [reflexivity | rewrite IH; lia].
Qed.

Lemma last_default_irrelevant {A} (l : list A) (d d' : A) :
  l <> [] -> last l d = last l d'.
Proof.
  induction l as [|x l IH]; intro H; [congruence|].
  destruct l as [|y l]; [reflexivity|].
  change (last (y :: l) d = last (y :: l) d'). apply IH. discriminate.
Qed.

Section LoopVariable.

Context {A B : Type}.
Variable body : A * option B -> B -> Result (A * option B).
Hypothesis body_last : forall acc x r, body acc x = ok r -> snd r = Some x.

(** After a [for] loop the loop variable holds the last item visited. *)
Lemma loop_variable (l : list B) :
  forall acc r, rfold body l acc = ok r -> snd r = last (map Some l) (snd acc).
Proof.
  induction l as [|x l IH]; intros acc r H.
  - simpl in H. injection H as <-. reflexivity.
  - cbn [rfold] in H. unfold rbind in H.
    destruct (body acc x) as [e|acc1] eqn:E; [discriminate|].
    apply IH in H. rewrite H. apply body_last in E. rewrite E.
    destruct l as [|y l]; [reflexivity|].
    change (map Some (x :: y :: l)) with (Some x :: map Some (y :: l)).
    change (last (Some x :: map Some (y :: l)) (snd acc))
      with (last (map Some (y :: l)) (snd acc)).
    apply last_default_irrelevant. discriminate.
Qed.

End LoopVariable.

Lemma best_operator_move_last (env : Env) (self : Stakeholder.t) (model : Simulation.t)
    (operator_strategies : list Strategy.t) (u : Q) (best last_visited : option Strategy.t) :
  best_operator_move env self model operator_strategies = ok (u, best, last_visited) ->
  last_visited = last (map Some operator_strategies) None.
Proof.
  unfold best_operator_move. intro H.
  match type of H with
  | rfold ?f _ _ = _ => pose proof (loop_variable f) as Hl
  end.
  specialize (Hl (fun acc x r => ltac:(
    destruct acc as [[mu ms] lv]; simpl;
    destruct (calculate_utility env self model x) as [e|ou]; simpl; [discriminate|];
    destruct (Qltb mu ou); intro Hr; injection Hr as <-; reflexivity))).
  apply Hl in H. exact H.
Qed.

Lemma find_operator_moves_returns (env : Env) (self : Stakeholder.t) (s s1 : Simulation.t)
    (options : list Z) (operator_strategies : Dict Strategy.t) :
  ranks_its_keys env ->
  consistent_operator self s ->
  num_pools_options self s = ok options ->
  NoDup (set_iteration env options) ->
  find_operator_moves env self s = (ok operator_strategies, s1) ->
  Simulation.id_seq s1
  = (Simulation.id_seq s
     + ids_taken (Strategy.num_pools (Stakeholder.strategy self))
                 (set_iteration env options))%Z
  /\ dict_keys operator_strategies = set_iteration env options
  /\ Forall (candidate_entry self) operator_strategies.
Proof.
  intros Hranked Hcons Hopt Hnd H. unfold find_operator_moves in H.
  apply mbind_returns in H. destruct H as [options' [s2 [Ho H]]].
  apply reading_returns in Ho. destruct Ho as [Ho ->].
  rewrite Hopt in Ho. injection Ho as <-.
  apply (candidates_loop env self s Hranked Hcons) in H; [|lia | exact Hnd].
  destruct H as [Hid [_ [entries [-> [Hkeys Hall]]]]].
  split; [exact Hid|]. split; [exact Hkeys | exact Hall].
Qed.


(** ** The operator branch *)

Section BestMove.

Variables (env : Env) (self : Stakeholder.t) (model : Simulation.t).

Lemma best_operator_loop (todo : list Strategy.t) :
  forall seen acc r,
    best_so_far env self model seen acc ->
    rfold (fun acc operator_strategy =>
             let '(max_operator_utility, max_operator_strategy, _) :=
               (acc : Q * option Strategy.t * option Strategy.t) in
             let? operator_utility := calculate_utility env self model operator_strategy in
             if Qltb max_operator_utility operator_utility
             then ok (operator_utility, Some operator_strategy, Some operator_strategy)
             else ok (max_operator_utility, max_operator_strategy, Some operator_strategy))
          todo acc = ok r ->
    best_so_far env self model (seen ++ todo) r.
Proof.
  induction todo as [|st todo IH]; intros seen acc r Hinv H.
  - simpl in H. injection H as <-. rewrite app_nil_r. exact Hinv.
  - cbn [rfold] in H. destruct acc as [[mu ms] lv]. unfold rbind in H at 1.
    destruct (calculate_utility env self model st) as [e|ou] eqn:Eu; simpl in H; [discriminate|].
    replace (seen ++ st :: todo) with ((seen ++ [st]) ++ todo)
      by (rewrite <- app_assoc; reflexivity).
    destruct Hinv as [H0 [Hall Hbest]].
    destruct (Qltb mu ou) eqn:Elt.
    + apply (IH (seen ++ [st])) in H; [exact H|]. apply Qltb_lt in Elt.
      split; [lra|]. split.
      * intros st' Hin. apply in_app_or in Hin. destruct Hin as [Hin | [<- | []]].
        -- destruct (Hall st' Hin) as [u [Hu Hle]]. exists u. split; [exact Hu | lra].
        -- exists ou. split; [exact Eu | lra].
      * split; [apply in_or_app; right; left; reflexivity|]. split; [lra | exact Eu].
    + apply (IH (seen ++ [st])) in H; [exact H|]. apply Qltb_ge in Elt.
      split; [exact H0|]. split.
      * intros st' Hin. apply in_app_or in Hin. destruct Hin as [Hin | [<- | []]].
        -- apply Hall. exact Hin.
        -- exists ou. split; [exact Eu | exact Elt].
      * destruct ms as [best|]; [|exact Hbest].
        destruct Hbest as [Hin Hrest]. split; [apply in_or_app; left; exact Hin | exact Hrest].
Qed.

End BestMove.

Lemma best_operator_move_spec (env : Env) (self : Stakeholder.t) (model : Simulation.t)
    (operator_strategies : list Strategy.t) (max_operator_utility : Q)
    (max_operator_strategy last_visited : option Strategy.t) :
  best_operator_move env self model operator_strategies
  = ok (max_operator_utility, max_operator_strategy, last_visited) ->
  0 <= max_operator_utility
  /\ (forall st, In st operator_strategies ->
        exists u, calculate_utility env self model st = ok u /\ u <= max_operator_utility)
  /\ (max_operator_strategy = None -> max_operator_utility = 0)
  /\ (forall st, max_operator_strategy = Some st ->
        In st operator_strategies /\ 0 < max_operator_utility
        /\ calculate_utility env self model st = ok max_operator_utility)
  /\ last_visited = last (map Some operator_strategies) None.
Proof.
  intro H. pose proof (best_operator_move_last _ _ _ _ _ _ _ H) as Hlast.
  unfold best_operator_move in H.
  apply (best_operator_loop env self model operator_strategies []) in H.
  - simpl in H. destruct H as [H0 [Hall Hbest]].
    split; [exact H0|]. split; [exact Hall|]. split; [|split; [|exact Hlast]].
    + intros ->. exact Hbest.
    + intros st ->. exact Hbest.
  - simpl. split; [lra|]. split; [intros st []| reflexivity].
Qed.

(** X15. The loop of [update_strategy] over the operator strategies returns a
    utility that is not negative and bounds the utility of every strategy;
    the strategy it keeps is one of them and attains this utility, which is
    then positive; it keeps none exactly when it reports the utility 0; and
    the loop variable is left at the strategy visited last. *)
Theorem best_operator_move_is_best (env : Env) (self : Stakeholder.t) (model : Simulation.t)
    (operator_strategies : list Strategy.t) (max_operator_utility : Q)
    (max_operator_strategy last_visited : option Strategy.t) :
  best_operator_move env self model operator_strategies
  = ok (max_operator_utility, max_operator_strategy, last_visited) ->
  0 <= max_operator_utility
  /\ (forall st, In st operator_strategies ->
        exists u, calculate_utility env self model st = ok u /\ u <= max_operator_utility)
  /\ (max_operator_strategy = None -> max_operator_utility = 0)
  /\ (forall st, max_operator_strategy = Some st ->
        In st operator_strategies /\ 0 < max_operator_utility
        /\ calculate_utility env self model st = ok max_operator_utility)
  /\ last_visited = last (map Some operator_strategies) None.
Proof.
  exact (best_operator_move_spec env self model operator_strategies max_operator_utility
           max_operator_strategy last_visited).
Qed.

(** ** The branches that [update_strategy] compares *)

(** X16. The moves that [update_strategy] compares, in this order: the current
    strategy always, the delegation move exactly when the cooldown is over,
    the operator move exactly when the agent operates pools or has potential
    for one.  The delegation move is the one found by
    [find_delegation_move_desirability] with its utility, which is not
    negative; the operator entry has a utility that is not negative, and
    carries a strategy exactly when that utility is positive. *)
Theorem possible_moves_branches (env : Env) (self : Stakeholder.t) (s s1 : Simulation.t)
    (moves : Moves) (last_visited : option Strategy.t) :
  possible_moves env self s = (ok (moves, last_visited), s1) ->
  map fst moves
  = current
    :: (if (Stakeholder.remaining_min_steps_to_keep_pool self =? 0)%Z then [delegator] else [])
    ++ (if Strategy.is_pool_operator (Stakeholder.strategy self)
           || has_potential_for_pool env self s
        then [operator] else [])
  /\ (forall u st, moves_get delegator moves = Some (u, st) ->
        exists strategy,
          st = Some strategy
          /\ find_delegation_move_desirability env self s None = ok strategy
          /\ calculate_utility env self s strategy = ok u
          /\ 0 <= u)
  /\ (forall u st, moves_get operator moves = Some (u, st) ->
        0 <= u /\ (st = None -> u = 0) /\ (forall strategy, st = Some strategy -> 0 < u)).
Proof.
  intro Hpm. unfold possible_moves in Hpm.
  apply mbind_returns in Hpm. destruct Hpm as [cu [s5 [Hcu Hpm]]].
  apply reading_returns in Hcu. destruct Hcu as [_ ->].
  apply mbind_returns in Hpm. destruct Hpm as [inertia [s5 [Hin Hpm]]].
  apply reading_returns in Hin. destruct Hin as [_ ->].
  apply mbind_returns in Hpm. destruct Hpm as [base [s5 [Hbase Hpm]]].
  assert (Hb : s5 = s
               /\ map fst base
                  = current :: (if (Stakeholder.remaining_min_steps_to_keep_pool self =? 0)%Z
                                then [delegator] else [])
               /\ moves_get operator base = None
               /\ (forall u st, moves_get delegator base = Some (u, st) ->
                     exists strategy,
                       st = Some strategy
                       /\ find_delegation_move_desirability env self s None = ok strategy
                       /\ calculate_utility env self s strategy = ok u
                       /\ 0 <= u)).
  { destruct (Stakeholder.remaining_min_steps_to_keep_pool self =? 0)%Z.
    - apply mbind_returns in Hbase. destruct Hbase as [ds [s6 [Hd Hbase]]].
      apply reading_returns in Hd. destruct Hd as [Hds ->].
      apply mbind_returns in Hbase. destruct Hbase as [du [s6 [Hd Hbase]]].
      apply reading_returns in Hd. destruct Hd as [Hdu ->].
      unfold mret, ok in Hbase. injection Hbase as <- <-.
      split; [reflexivity|]. split; [reflexivity|]. split; [reflexivity|].
      intros u st Hg. simpl in Hg. injection Hg as <- <-.
      exists ds. split; [reflexivity|]. split; [exact Hds|]. split; [exact Hdu|].
      apply delegation_move_sum in Hds. destruct Hds as [Hop _].
      pose proof (delegation_utility_outcome env self s ds Hop) as Hnn.
      rewrite Hdu in Hnn. exact Hnn.
    - unfold mret, ok in Hbase. injection Hbase as <- <-.
      split; [reflexivity|]. split; [reflexivity|]. split; [reflexivity|].
      intros u st Hg. simpl in Hg. discriminate. }
  destruct Hb as [-> [Hkeys [Hbase_op Hdel]]]. clear Hbase.
  apply mbind_returns in Hpm. destruct Hpm as [consider [s5 [Hc Hpm]]].
  apply reading_returns in Hc. destruct Hc as [Hc ->].
  unfold ok in Hc. injection Hc as Hc. rewrite Hc.
  assert (Hget_app : forall key tail,
             moves_get key (base ++ tail)
             = match moves_get key base with
               | Some v => Some v
               | None => moves_get key tail
               end).
  { intros key tail. clear. induction base as [|[key' v] base IH]; simpl; [reflexivity|].
    destruct (Move_eqb key key'); [reflexivity | exact IH]. }
  destruct consider.
  - apply mbind_returns in Hpm. destruct Hpm as [operator_strategies [s5 [Hfind Hpm]]].
    apply mbind_returns in Hpm. destruct Hpm as [[[mu ms] lv] [s6 [Hbest Hpm]]].
    apply reading_returns in Hbest. destruct Hbest as [Hbest ->].
    unfold mret, ok in Hpm. injection Hpm as <- <- <-.
    apply best_operator_move_spec in Hbest.
    destruct Hbest as [H0 [_ [Hnone [Hsome _]]]].
    split; [rewrite map_app, Hkeys; reflexivity|]. split.
    + intros u st Hg. rewrite Hget_app in Hg.
      destruct (moves_get delegator base) as [v|] eqn:Eg.
      * injection Hg as ->. apply Hdel. reflexivity.
      * simpl in Hg. discriminate.
    + intros u st Hg. rewrite Hget_app, Hbase_op in Hg. simpl in Hg. injection Hg as <- <-.
      split; [exact H0|]. split; [exact Hnone|]. intros strategy Hs. apply (Hsome _ Hs).
  - unfold mret, ok in Hpm. injection Hpm as <- <- <-.
    split; [rewrite Hkeys, app_nil_r; reflexivity|]. split.
    + exact Hdel.
    + intros u st Hg. rewrite Hbase_op in Hg. discriminate.
Qed.

(** ** The constructor *)

Lemma eras_of_max {A} (v : Setting A) (total_eras : nat) :
  eras_of v total_eras = Nat.max total_eras (era_count v).
Proof.
  destruct v as [a|l]; simpl; [lia|].
  destruct (Nat.ltb total_eras (List.length l)) eqn:E;
    [apply Nat.ltb_lt in E | apply Nat.ltb_ge in E]; lia.
Qed.

Lemma initial_value_returns {A} (v : Setting A) (a : A) :
  initial_value v = ok a -> v = Fixed a \/ exists l, v = PerEra (a :: l).
Proof.
  destruct v as [x|[|x l]]; simpl; intro H; try discriminate; injection H as <-.
  - left. reflexivity.
  - right. exists l. reflexivity.
Qed.

Lemma initial_value_count {A} (v : Setting A) (a : A) :
  initial_value v = ok a -> forall l, v = PerEra l -> (1 <= List.length l)%nat.
Proof.
  intros H l ->. destruct l; simpl in *; [discriminate | lia].
Qed.

Lemma initialize_agents_total (myopic_fraction : Q) (n : Z) (sampled : Sampled)
    (agents : Dict Stakeholder.t) (total_stake : Q) :
  initialize_agents myopic_fraction n sampled = ok (agents, total_stake) ->
  total_stake = py_sum (stake_distribution sampled).
Proof.
  unfold initialize_agents. intro H. step_binds H. injection H as _ <-. reflexivity.
Qed.

(** X17. What every constructed model starts with: era 0, running, no round
    played, an empty registry, the allocator at 0, the idle flag set, no
    equilibrium or pivot recorded, a belief revision every 10 rounds; a
    total stake that is the sum of the sampled stakes scaled by
    [1 / (1 - abstention_rate)] and positive, believed to be all active; a
    [k] other than 0, an abstention rate other than 1, and one of the known
    activation orders. *)
Theorem init_establishes (call file_args : Args.t) (input_from_file : bool)
    (sampled : Sampled) (common_cost : Q) (s : Simulation.t) :
  init call input_from_file file_args sampled common_cost = ok s ->
  let args := if input_from_file then file_args else call in
  Simulation.current_era s = O
  /\ Simulation.running s = true
  /\ Simulation.steps s = 0%Z
  /\ Simulation.pools s = []
  /\ Simulation.id_seq s = 0%Z
  /\ Simulation.current_step_idle s = true
  /\ Simulation.equilibrium_steps s = []
  /\ Simulation.pivot_steps s = []
  /\ Simulation.revision_frequency s = 10%Z
  /\ Simulation.total_stake s
     = py_sum (stake_distribution sampled) / (1 - Args.abstention_rate args)
  /\ 0 < Simulation.total_stake s
  /\ Simulation.perceived_active_stake s = Simulation.total_stake s
  /\ Simulation.k s <> 0%Z
  /\ ~ Args.abstention_rate args == 1
  /\ In (Simulation.agent_activation_order (Simulation.attr s)) agent_activation_orders.
Proof.
  intros H args. unfold init in H. fold args in H. step_binds H.
  injection H as <-. simpl.
  repeat match goal with
         | E : py_div _ _ = inr _ |- _ => apply py_div_returns in E; destruct E as [? ?]
         end.
  subst.
  repeat (split; [reflexivity|]).
  match goal with
  | E : initialize_agents _ _ _ = inr _ |- _ =>
      apply initialize_agents_total in E; subst
  end.
  split; [reflexivity|]. split.
  { apply Qnot_le_lt. intro Hle. apply Qle_bool_iff in Hle. congruence. }
  split; [reflexivity|]. split.
  { intro Hz. subst. match goal with Hk : ~ inject_Z 0 == 0 |- _ => apply Hk end.
    reflexivity. }
  split.
  { intro Hr. match goal with Hd : ~ 1 - _ == 0 |- _ => apply Hd end. rewrite Hr. ring. }
  match goal with
  | E : (if ?c then _ else _) = inr _ |- _ \/ _ =>
      destruct c eqn:Ec; [|discriminate]
  end.
  repeat match goal with
         | E : (_ || _) = true |- _ => apply orb_prop in E; destruct E as [E | E]
         end;
    try discriminate;
    apply String.eqb_eq in Ec; subst; simpl; tauto.
Qed.

Lemma fold_right_max_least (l : list nat) : (1 <= fold_right Nat.max 1%nat l)%nat.
Proof. induction l as [|x l IH]; simpl; lia. Qed.

Lemma fold_left_max (l : list nat) (t : nat) :
  (1 <= t)%nat -> fold_left Nat.max l t = Nat.max t (fold_right Nat.max 1%nat l).
Proof.
  revert t. induction l as [|c l IH]; intros t Ht; cbn [fold_left fold_right].
  - lia.
  - rewrite IH by lia. lia.
Qed.

Lemma fold_right_max_bound (l : list nat) (c : nat) :
  In c l -> (c <= fold_right Nat.max 1%nat l)%nat.
Proof.
  induction l as [|x l IH]; simpl; [contradiction|].
  intros [<- | Hin]; [lia|]. specialize (IH Hin). lia.
Qed.


(** X18. The constructor counts the eras as the longest list of per-era values
    among the fourteen adjustable settings, and at least one; every such
    list is recorded as adjustable, so no setting has more values than
    there are eras. *)
Theorem init_counts_eras (call file_args : Args.t) (input_from_file : bool)
    (sampled : Sampled) (common_cost : Q) (s : Simulation.t) :
  init call input_from_file file_args sampled common_cost = ok s ->
  let args := if input_from_file then file_args else call in
  Simulation.total_eras s = fold_right Nat.max 1%nat (per_era_counts args)
  /\ (forall c, In c (per_era_counts args) -> (c <= Simulation.total_eras s)%nat)
  /\ (1 <= Simulation.total_eras s)%nat
  /\ Simulation.adj_k (Simulation.adjustable_params s) = adjustable_values (Args.k args)
  /\ Simulation.adj_max_iterations (Simulation.adjustable_params s)
     = adjustable_values (Args.max_iterations args).
Proof.
  intros H args.
  assert (Htotal : Simulation.total_eras s = fold_right Nat.max 1%nat (per_era_counts args)).
  { unfold init in H. fold args in H. step_binds H.
    injection H as <-. cbn [Simulation.total_eras]. rewrite !eras_of_max.
    pose proof (fold_left_max (per_era_counts args) 1 (le_n 1)) as Hfold.
    rewrite Nat.max_r in Hfold by apply fold_right_max_least.
    rewrite <- Hfold. reflexivity. }
  split; [exact Htotal|]. rewrite Htotal.
  split; [intros c Hc; apply fold_right_max_bound; exact Hc|].
  split; [apply fold_right_max_least|].
  unfold init in H. fold args in H. step_binds H.
  injection H as <-. split; reflexivity.
Qed.

(** ** [adjust_params] *)

(** X19. [adjust_params] fails only with a division by zero, when the value of
    [k] for the new era truncates to 0.  Otherwise it moves to the next era;
    an era without any override changes nothing else, and an era with one
    records the current round as a pivot. *)
Theorem adjust_params_outcome (s : Simulation.t) :
  let era := S (Simulation.current_era s) in
  let adj := Simulation.adjustable_params s in
  match adjust_params s with
  | inl e =>
      e = ZeroDivisionError
      /\ exists v, era_value (Simulation.adj_k adj) era = Some v /\ py_int v = 0%Z
  | inr s' =>
      (forall v, era_value (Simulation.adj_k adj) era = Some v -> py_int v <> 0%Z)
      /\ Simulation.current_era s' = era
      /\ (quiet_era adj era -> s' = Simulation.set_current_era era s)
      /\ (~ quiet_era adj era ->
          Simulation.pivot_steps s' = Simulation.pivot_steps s ++ [Simulation.steps s])
  end.
Proof.
  intros era adj. unfold adjust_params, adjust_k. simpl. fold era. fold adj.
  destruct (era_value (Simulation.adj_k adj) era) as [v|] eqn:Ek; simpl.
  - unfold py_div.
    destruct (Qeq_bool (inject_Z (py_int v)) 0) eqn:Ez; simpl.
    + split; [reflexivity|]. exists v. split; [reflexivity|].
      apply Qeq_bool_iff in Ez. unfold Qeq in Ez. simpl in Ez. lia.
    + split.
      { intros v' Hv' Hz. injection Hv' as <-. rewrite Hz in Ez. discriminate. }
      split.
      { match goal with
        | |- context [if ?c then _ else _] => destruct c
        end; reflexivity. }
      split.
      { intros [_ [Hq _]]. congruence. }
      intros _. unfold overridden at 2. rewrite Ek. rewrite orb_true_r. simpl. reflexivity.
  - split; [intros v' Hv'; discriminate|].
    split.
    { match goal with
      | |- context [if ?c then _ else _] => destruct c
      end; reflexivity. }
    split.
    + intros [H1 [H2 [H3 [H4 [H5 [H6 [H7 [H8 [H9 [H10 [H11 [H12 [H13 H14]]]]]]]]]]]]].
      unfold overridden, override.
      rewrite H1, Ek, H3, H4, H5, H6, H7, H8, H9, H10, H11, H12, H13, H14. simpl.
      destruct s as [a]. destruct a. reflexivity.
    + intro Hnq.
      match goal with
      | |- context [if ?c then _ else _] => destruct c eqn:Ec
      end; [reflexivity|].
      exfalso. apply Hnq. unfold overridden in Ec.
      repeat match goal with
             | E : (_ || _) = false |- _ => apply orb_false_elim in E; destruct E as [? E]
             end.
      unfold quiet_era.
      repeat match goal with
             | E : match ?x with Some _ => true | None => false end = false |- _ =>
                 destruct x eqn:?; [discriminate|]; clear E
             end.
      repeat split; reflexivity.
Qed.

(** ** Rounds *)

Lemma revise_if_due_effect (s s' : Simulation.t) :
  revise_if_due s = ok s' ->
  s' = Simulation.set_k (Simulation.k s')
         (Simulation.set_perceived_active_stake (Simulation.perceived_active_stake s') s).
Proof.
  unfold revise_if_due.
  destruct (Simulation.revision_frequency s =? 0)%Z; [discriminate|].
  destruct ((Simulation.steps s mod Simulation.revision_frequency s =? 0)%Z
            && (0 <? Simulation.steps s)%Z).
  - unfold revise_beliefs. simpl.
    destruct (py_div (get_active_stake_pools s) (Simulation.beta s)); simpl; [discriminate|].
    intro H. injection H as <-. destruct s. reflexivity.
  - intro H. injection H as <-. destruct s. reflexivity.
Qed.

Lemma adjust_params_effect (s s' : Simulation.t) :
  adjust_params s = ok s' ->
  s' = Simulation.set_pivot_steps (Simulation.pivot_steps s')
         (Simulation.set_beta (Simulation.beta s')
            (Simulation.set_k (Simulation.k s')
               (Simulation.set_attr (Simulation.attr s')
                  (Simulation.set_current_era (S (Simulation.current_era s)) s)))).
Proof.
  unfold adjust_params, adjust_k. simpl.
  destruct (era_value (Simulation.adj_k (Simulation.adjustable_params s))
                      (S (Simulation.current_era s))) as [v|]; simpl.
  - destruct (py_div (Simulation.total_stake s) (inject_Z (py_int v))); simpl; [discriminate|].
    intro H. injection H as <-.
    match goal with
    | |- context [if ?c then _ else _] => destruct c
    end; destruct s; reflexivity.
  - intro H. injection H as <-.
    match goal with
    | |- context [if ?c then _ else _] => destruct c
    end; destruct s; reflexivity.
Qed.

Section Rounds.

Variable schedule_step : Simulation.t -> Result Activation.

Lemma step_effect (s s' : Simulation.t) :
  step schedule_step s = ok s' ->
  same_setup s s'
  /\ ((Simulation.max_iterations (Simulation.attr s) <= Simulation.steps s)%Z ->
      s' = wrap_up_execution s)
  /\ ((Simulation.steps s < Simulation.max_iterations (Simulation.attr s))%Z ->
      Simulation.steps s' = (Simulation.steps s + 1)%Z
      /\ era_kept_or_advanced s s').
Proof.
  unfold step.
  destruct (Simulation.max_iterations (Simulation.attr s) <=? Simulation.steps s)%Z eqn:Ecap.
  { apply Z.leb_le in Ecap. intro H. injection H as <-.
    split; [unfold same_setup; simpl; repeat split; reflexivity|].
    split; [reflexivity | lia]. }
  apply Z.leb_gt in Ecap.
  destruct (revise_if_due s) as [e|s0] eqn:Erev; simpl; [discriminate|].
  pose proof (revise_if_due_effect s s0 Erev) as Hs0.
  unfold activate.
  destruct (schedule_step s0) as [e|a]; simpl; [discriminate|].
  set (s1 := Simulation.set_pool_owner_id_mapping (act_pool_owner_id_mapping a)
               (Simulation.set_id_seq (act_id_seq a)
                  (Simulation.set_agents (act_agents a)
                     (Simulation.set_pools (act_pools a) s0)))).
  assert (H1 : Simulation.total_stake s1 = Simulation.total_stake s
               /\ Simulation.adjustable_params s1 = Simulation.adjustable_params s
               /\ Simulation.total_eras s1 = Simulation.total_eras s
               /\ Simulation.min_consecutive_idle_steps_for_convergence s1
                  = Simulation.min_consecutive_idle_steps_for_convergence s
               /\ Simulation.revision_frequency s1 = Simulation.revision_frequency s
               /\ Simulation.common_cost s1 = Simulation.common_cost s
               /\ Simulation.steps s1 = Simulation.steps s
               /\ Simulation.current_era s1 = Simulation.current_era s
               /\ Simulation.attr s1 = Simulation.attr s
               /\ Simulation.beta s1 = Simulation.beta s).
  { unfold s1. rewrite Hs0. simpl. repeat split; reflexivity. }
  clearbody s1. clear Hs0 Erev.
  destruct H1 as [Hts [Hadj [Hte [Hth [Hrf [Hcc [Hst [Hera [Hattr Hbeta]]]]]]]]].
  destruct (act_changed a); simpl.
  - intro H. injection H as <-. simpl.
    split; [unfold same_setup; simpl; repeat split; assumption|].
    split; [lia|]. intros _. split; [rewrite Hst; reflexivity|].
    left. simpl. repeat split; assumption.
  - destruct (Simulation.current_step_idle s1); simpl.
    + destruct (has_converged _); simpl.
      * destruct (Nat.ltb _ _); simpl.
        -- match goal with
           | |- context [adjust_params ?x] => set (s4 := x)
           end.
           destruct (adjust_params s4) as [e|s5] eqn:Eadj; simpl; [discriminate|].
           pose proof (adjust_params_spec s4 s5 Eadj) as Hspec.
           pose proof (adjust_params_effect s4 s5 Eadj) as Heff.
           intro H. injection H as <-.
           simpl in Hspec. destruct Hspec as [Hera5 [Hround5 [Hattr5 Hk5]]].
           unfold same_round_state in Hround5. simpl in Hround5.
           destruct Hround5 as [Hrun5 [Hte5 [Hts5 [_ [_ [Hth5 [_ Hadj5]]]]]]].
           split.
           { unfold same_setup. simpl. rewrite Heff. simpl.
             repeat split; assumption. }
           split; [lia|]. intros _. split.
           { simpl. rewrite Heff. simpl. rewrite Hst. reflexivity. }
           right. simpl. rewrite Hera5, Hattr5, Hadj, Hattr, Hera.
           split; [reflexivity|]. split; [reflexivity|].
           rewrite Hadj, Hera, Hts, Hbeta in Hk5.
           destruct (era_value _ _); [exact Hk5 | apply Hk5].
        -- intro H. injection H as <-.
           split; [unfold same_setup; simpl; repeat split; assumption|].
           split; [lia|]. intros _. split; [simpl; rewrite Hst; reflexivity|].
           left. simpl. repeat split; assumption.
      * intro H. injection H as <-.
        split; [unfold same_setup; simpl; repeat split; assumption|].
        split; [lia|]. intros _. split; [simpl; rewrite Hst; reflexivity|].
        left. simpl. repeat split; assumption.
    + intro H. injection H as <-.
      split; [unfold same_setup; simpl; repeat split; assumption|].
      split; [lia|]. intros _. split; [simpl; rewrite Hst; reflexivity|].
      left. simpl. repeat split; assumption.
Qed.

Lemma run_steps_stopped (fuel : nat) (s : Simulation.t) :
  keeps_running s = false -> run_steps schedule_step fuel s = ok s.
Proof.
  intro H. destruct fuel; simpl; [reflexivity|].
  unfold keeps_running in H. rewrite H. reflexivity.
Qed.

Lemma attrs_in_era_max_iterations (adj : Simulation.adjustable) (era : nat)
    (a : Simulation.attrs) :
  Simulation.adj_max_iterations adj = None ->
  Simulation.max_iterations (attrs_in_era adj era a) = Simulation.max_iterations a.
Proof.
  intro H. unfold attrs_in_era. simpl. unfold override, era_value. rewrite H. reflexivity.
Qed.

Lemma run_steps_bounded (fuel : nat) :
  forall s,
    Simulation.adj_max_iterations (Simulation.adjustable_params s) = None ->
    (Z.to_nat (Simulation.max_iterations (Simulation.attr s) - Simulation.steps s + 1)
     <= fuel)%nat ->
    match run_steps schedule_step fuel s with
    | inr s' =>
        keeps_running s' = false
        /\ Simulation.max_iterations (Simulation.attr s')
           = Simulation.max_iterations (Simulation.attr s)
        /\ ((Simulation.steps s <= Simulation.max_iterations (Simulation.attr s))%Z ->
            (Simulation.steps s' <= Simulation.max_iterations (Simulation.attr s))%Z)
    | inl _ => True
    end.
Proof.
  induction fuel as [|fuel IH]; intros s Hadj Hfuel.
  - simpl. split; [|split; [reflexivity | intro H; exact H]].
    unfold keeps_running.
    destruct (Simulation.steps s <=? Simulation.max_iterations (Simulation.attr s))%Z eqn:E;
      [apply Z.leb_le in E; lia | reflexivity].
  - simpl. fold (keeps_running s).
    destruct (keeps_running s) eqn:Eg.
    2:{ split; [exact Eg | split; [reflexivity | intro H; exact H]]. }
    unfold keeps_running in Eg. apply andb_prop in Eg. destruct Eg as [Ele Erun].
    apply Z.leb_le in Ele.
    destruct (step schedule_step s) as [e|s1] eqn:Estep; simpl; [exact I|].
    destruct (step_effect s s1 Estep) as [Hsetup [Hcap Hplayed]].
    destruct Hsetup as [_ [Hadj1 _]].
    destruct (Z.eq_dec (Simulation.steps s) (Simulation.max_iterations (Simulation.attr s)))
      as [Heq | Hneq].
    + assert (Hs1 : s1 = wrap_up_execution s) by (apply Hcap; lia).
      rewrite run_steps_stopped.
      * subst s1. split; [|split; [reflexivity | intros _; simpl; lia]].
        unfold keeps_running. simpl. apply andb_false_r.
      * subst s1. unfold keeps_running. simpl. apply andb_false_r.
    + assert (Hlt : (Simulation.steps s < Simulation.max_iterations (Simulation.attr s))%Z)
        by lia.
      destruct (Hplayed Hlt) as [Hsteps Hera].
      assert (Hmax : Simulation.max_iterations (Simulation.attr s1)
                     = Simulation.max_iterations (Simulation.attr s)).
      { destruct Hera as [[_ [Hattr _]] | [_ [Hattr _]]].
        - rewrite Hattr. reflexivity.
        - rewrite Hattr. apply attrs_in_era_max_iterations. exact Hadj. }
      assert (Hadj' : Simulation.adj_max_iterations (Simulation.adjustable_params s1) = None)
        by (rewrite Hadj1; exact Hadj).
      assert (Hfuel' : (Z.to_nat (Simulation.max_iterations (Simulation.attr s1)
                                  - Simulation.steps s1 + 1) <= fuel)%nat)
        by (rewrite Hmax, Hsteps; lia).
      specialize (IH s1 Hadj' Hfuel').
      destruct (run_steps schedule_step fuel s1) as [e|s']; [exact I|].
      destruct IH as [Hstop [Hmax' Hbound]].
      split; [exact Hstop|]. split; [congruence|].
      intros _. rewrite <- Hmax. apply Hbound. rewrite Hmax, Hsteps. lia.
Qed.

End Rounds.

(** X20. With a fixed iteration cap, [run_model] needs at most
    [max_iterations - steps + 1] rounds: when it returns, the loop guard is
    false, and a run that started within the cap has played at most
    [max_iterations] rounds. *)
Theorem run_model_stops (schedule_step : Simulation.t -> Result Activation) (fuel : nat)
    (s : Simulation.t) :
  Simulation.adj_max_iterations (Simulation.adjustable_params s) = None ->
  (Z.to_nat (Simulation.max_iterations (Simulation.attr s) - Simulation.steps s + 1)
   <= fuel)%nat ->
  match run_model schedule_step fuel s with
  | inr s' =>
      keeps_running s' = false
      /\ ((Simulation.steps s <= Simulation.max_iterations (Simulation.attr s))%Z ->
          (Simulation.steps s' <= Simulation.max_iterations (Simulation.attr s))%Z)
  | inl _ => True
  end.
Proof.
  intros Hadj Hfuel. unfold run_model.
  pose proof (run_steps_bounded schedule_step fuel (Simulation.set_id_seq 0 s)) as H.
  simpl in H. specialize (H Hadj Hfuel).
  destruct (run_steps schedule_step fuel (Simulation.set_id_seq 0 s)) as [e|s']; [exact I|].
  destruct H as [Hstop [_ Hbound]]. split; assumption.
Qed.

(** X21. A round never changes the total stake, and it changes [beta] only by an
    era transition that overrides [k], to [total_stake / k] for the new
    [k]. *)
Theorem step_keeps_stake_and_beta (schedule_step : Simulation.t -> Result Activation)
    (s s' : Simulation.t) :
  step schedule_step s = ok s' ->
  Simulation.total_stake s' = Simulation.total_stake s
  /\ (Simulation.beta s' = Simulation.beta s
      \/ exists v,
           Simulation.current_era s' = S (Simulation.current_era s)
           /\ era_value (Simulation.adj_k (Simulation.adjustable_params s))
                        (S (Simulation.current_era s)) = Some v
           /\ Simulation.k s' = py_int v
           /\ Simulation.beta s' = Simulation.total_stake s / inject_Z (py_int v)).
Proof.
  intro Hstep. destruct (step_effect schedule_step s s' Hstep) as [Hsetup [Hcap Hplayed]].
  destruct Hsetup as [Hts _]. split; [exact Hts|].
  destruct (Z_lt_le_dec (Simulation.steps s) (Simulation.max_iterations (Simulation.attr s)))
    as [Hlt | Hge].
  - destruct (Hplayed Hlt) as [_ [[_ [_ Hbeta]] | [Hera [_ Hk]]]]; [left; exact Hbeta|].
    destruct (era_value _ _) as [v|] eqn:Ev.
    + right. exists v. destruct Hk as [Hk Hb]. repeat split; assumption.
    + left. exact Hk.
  - rewrite (Hcap Hge). left. reflexivity.
Qed.

(** ** What acting on the model leaves alone *)

Lemma acts_only_refl (s : Simulation.t) : acts_only s s.
Proof. unfold acts_only. destruct s. reflexivity. Qed.

Lemma acts_only_trans (s1 s2 s3 : Simulation.t) :
  acts_only s1 s2 -> acts_only s2 s3 -> acts_only s1 s3.
Proof.
  unfold acts_only. intros H12 H23. rewrite H23 at 1. rewrite H12 at 1.
  destruct s1. reflexivity.
Qed.

Lemma acts_only_attr (s s' : Simulation.t) :
  acts_only s s' ->
  Simulation.attr s' = Simulation.attr s
  /\ Simulation.beta s' = Simulation.beta s
  /\ Simulation.id_seq s' = Simulation.id_seq s
  /\ Simulation.current_step_idle s' = Simulation.current_step_idle s
  /\ simultaneous s' = simultaneous s.
Proof.
  unfold acts_only, simultaneous. intro H. rewrite H. simpl. repeat split.
Qed.

Lemma same_shape_refl (st : Strategy.t) : same_shape st st.
Proof. repeat split. Qed.

Lemma same_shape_trans (a b c : Strategy.t) :
  same_shape a b -> same_shape b c -> same_shape a c.
Proof.
  unfold same_shape. intros [H1 [H2 [H3 [H4 H5]]]] [G1 [G2 [G3 [G4 G5]]]].
  repeat split; congruence.
Qed.

Lemma staged_kept_refl (staged : option Strategy.t) : staged_kept staged staged.
Proof. destruct staged as [[]|]; simpl; [reflexivity | exact I]. Qed.

Lemma staged_kept_trans (a b c : option Strategy.t) :
  staged_kept a b -> staged_kept b c -> staged_kept a c.
Proof.
  destruct a as [a|], b as [b|], c as [c|]; simpl; try contradiction; try (intros; exact I).
  intros H1 H2.
  remember (Strategy.stake_allocations b) as ab eqn:Eb.
  remember (Strategy.stake_allocations c) as ac eqn:Ec.
  clear Eb Ec. subst b. subst c. reflexivity.
Qed.

Lemma agent_kept_refl (sim : bool) (a : Stakeholder.t) : agent_kept sim a a.
Proof.
  unfold agent_kept. repeat (split; [reflexivity|]).
  split; [apply staged_kept_refl|]. split; [reflexivity | apply same_shape_refl].
Qed.

Lemma agent_kept_trans (sim : bool) (a b c : Stakeholder.t) :
  agent_kept sim a b -> agent_kept sim b c -> agent_kept sim a c.
Proof.
  unfold agent_kept.
  intros [H1 [H2 [H3 [H4 [H5 [H6 [H7 [H8 H9]]]]]]]] [G1 [G2 [G3 [G4 [G5 [G6 [G7 [G8 G9]]]]]]]].
  repeat (split; [congruence|]).
  split; [apply (staged_kept_trans _ _ _ H7 G7)|].
  split; [intro Hs; rewrite (G8 Hs); apply (H8 Hs) | apply (same_shape_trans _ _ _ H9 G9)].
Qed.

Section AgentsRelated.

Variable P : Stakeholder.t -> Stakeholder.t -> Prop.
Hypothesis P_refl : forall a, P a a.
Hypothesis P_trans : forall a b c, P a b -> P b c -> P a c.

Lemma agents_related_refl (s : Simulation.t) : agents_related P s s.
Proof.
  intro uid. destruct (dict_get uid (Simulation.agents s)); [apply P_refl | exact I].
Qed.

Lemma agents_related_trans (s1 s2 s3 : Simulation.t) :
  agents_related P s1 s2 -> agents_related P s2 s3 -> agents_related P s1 s3.
Proof.
  intros H12 H23 uid. specialize (H12 uid). specialize (H23 uid).
  destruct (dict_get uid (Simulation.agents s1)), (dict_get uid (Simulation.agents s2)),
    (dict_get uid (Simulation.agents s3)); try contradiction; try exact I.
  apply (P_trans _ _ _ H12 H23).
Qed.

Lemma agents_related_same (s s' : Simulation.t) :
  Simulation.agents s' = Simulation.agents s -> agents_related P s s'.
Proof.
  intros H uid. rewrite H.
  destruct (dict_get uid (Simulation.agents s)); [apply P_refl | exact I].
Qed.

(** Rebinding a registered agent to a related one. *)
Lemma agents_related_set (s s' : Simulation.t) (unique_id : Z) (a a' : Stakeholder.t) :
  dict_get unique_id (Simulation.agents s) = Some a ->
  P a a' ->
  Simulation.agents s' = dict_set unique_id a' (Simulation.agents s) ->
  agents_related P s s'.
Proof.
  intros Hget HP Hs uid. rewrite Hs.
  destruct (Z.eq_dec unique_id uid) as [<- | Hne].
  - rewrite Hget, dict_get_set_same. exact HP.
  - rewrite (dict_get_set_other _ _ _ _ Hne).
    destruct (dict_get uid (Simulation.agents s)); [apply P_refl | exact I].
Qed.

End AgentsRelated.

Lemma registry_write_refl (s : Simulation.t) : registry_write s s.
Proof.
  split; [apply acts_only_refl|]. split; [reflexivity|].
  apply agents_related_refl. apply agent_kept_refl.
Qed.

Lemma registry_write_trans (s1 s2 s3 : Simulation.t) :
  registry_write s1 s2 -> registry_write s2 s3 -> registry_write s1 s3.
Proof.
  intros [H1 [K1 A1]] [H2 [K2 A2]].
  split; [apply (acts_only_trans _ _ _ H1 H2)|]. split; [congruence|].
  apply (agents_related_trans _ (agent_kept_trans (simultaneous s1)) _ s2).
  - exact A1.
  - destruct (acts_only_attr _ _ H1) as [_ [_ [_ [_ Hsim]]]]. rewrite <- Hsim. exact A2.
Qed.

Lemma dict_keys_set_registered {V} (k : Z) (v v' : V) (d : Dict V) :
  dict_get k d = Some v -> dict_keys (dict_set k v' d) = dict_keys d.
Proof.
  intro H. apply dict_keys_set_present. apply dict_get_in_keys. exists v. exact H.
Qed.

Lemma dict_lookup_returns {V} (k : Z) (d : Dict V) (v : V) :
  dict_lookup k d = ok v -> dict_get k d = Some v.
Proof.
  unfold dict_lookup. destruct (dict_get k d); [|discriminate].
  intro H. injection H as <-. reflexivity.
Qed.

(** ** The registry methods *)

Lemma undelegate_frame (pool_id player_id : Z) :
  changes_only registry_write (undelegate pool_id player_id).
Proof.
  intros s r s' H. unfold undelegate in H.
  unfold mbind, reading, modify, mret in H.
  destruct (dict_lookup pool_id (Simulation.pools s)) as [e|pool] eqn:Epool;
    [injection H as _ <-; apply registry_write_refl|].
  destruct (dict_lookup player_id (Pool.delegators pool)) as [e|amount];
    [injection H as _ <-; apply registry_write_refl|].
  destruct (Pool.update_delegation pool (- amount) player_id) as [e|pool'];
    [injection H as _ <-; apply registry_write_refl|].
  simpl in H.
  set (s1 := Simulation.set_pools _ s) in H.
  assert (H1 : registry_write s s1).
  { split; [unfold acts_only, s1; destruct s; reflexivity|].
    split; [reflexivity|]. apply agents_related_same; [apply agent_kept_refl|].
    reflexivity. }
  destruct (dict_lookup player_id (Simulation.agents s)) as [e|player] eqn:Eplayer;
    [injection H as _ <-; exact H1|].
  destruct (dict_pop pool_id (Strategy.stake_allocations (Stakeholder.strategy player)))
    as [e|allocations]; [injection H as _ <-; exact H1|].
  simpl in H.
  set (player1 := Stakeholder.set_strategy _ player) in H.
  set (s2 := Simulation.set_agents _ s1) in H.
  apply dict_lookup_returns in Eplayer.
  assert (H2 : registry_write s1 s2).
  { split; [unfold acts_only, s2, s1; destruct s; reflexivity|].
    split.
    { unfold s2. simpl. apply (dict_keys_set_registered _ player). exact Eplayer. }
    apply (agents_related_set _ (agent_kept_refl (simultaneous s1)) s1 s2 player_id
             player player1).
    - exact Eplayer.
    - unfold player1, agent_kept, same_shape. simpl.
      repeat (split; [reflexivity|]). split; [apply staged_kept_refl|].
      repeat split.
    - reflexivity. }
  assert (H12 : registry_write s s2) by (apply (registry_write_trans _ s1); assumption).
  destruct (String.eqb (Simulation.agent_activation_order (Simulation.attr s))
                       "Simultaneous") eqn:Eorder.
  - destruct (Stakeholder.new_strategy player) as [new_strategy|] eqn:Enew;
      [|injection H as _ <-; exact H12].
    destruct (dict_pop pool_id (Strategy.stake_allocations new_strategy)) as [e|allocations'];
      [injection H as _ <-; exact H12|].
    simpl in H. injection H as _ <-.
    apply (registry_write_trans _ s2); [exact H12|].
    split; [unfold acts_only, s2, s1; destruct s; reflexivity|].
    assert (Hplayer1 : dict_get player_id (Simulation.agents s2) = Some player1).
    { unfold s2. simpl. apply dict_get_set_same. }
    split.
    { simpl. apply (dict_keys_set_registered _ player1). exact Hplayer1. }
    eapply (agents_related_set _ (agent_kept_refl (simultaneous s2)) s2 _ player_id player1);
      [exact Hplayer1 | | reflexivity].
    unfold agent_kept, same_shape. simpl.
    repeat (split; [reflexivity|]).
    split; [unfold player1; simpl; rewrite Enew; simpl; reflexivity|].
    split; [|repeat split].
    intro Hsim. unfold simultaneous, s2, s1 in Hsim. simpl in Hsim. congruence.
  - injection H as _ <-. exact H12.
Qed.

Lemma remove_delegations_frame (pool_id : Z) :
  changes_only registry_write (remove_delegations pool_id).
Proof.
  unfold remove_delegations.
  apply (changes_only_mbind registry_write registry_write_trans).
  - apply (changes_only_reading registry_write registry_write_refl).
  - intro pool.
    apply (changes_only_mfold registry_write registry_write_refl registry_write_trans).
    intros _ player_id. apply undelegate_frame.
Qed.

Lemma close_pool_frame (self : Stakeholder.t) (pool_id : Z) :
  changes_only registry_write (close_pool self pool_id).
Proof.
  unfold close_pool.
  apply (changes_only_mbind registry_write registry_write_trans).
  { apply (changes_only_reading registry_write registry_write_refl). }
  intros _. apply (changes_only_mbind registry_write registry_write_trans).
  { apply remove_delegations_frame. }
  intros _. apply (changes_only_mbind registry_write registry_write_trans).
  { apply (changes_only_reading registry_write registry_write_refl). }
  intro pools. apply (changes_only_modify registry_write).
  intro s. split; [unfold acts_only; destruct s; reflexivity|].
  split; [reflexivity|].
  apply agents_related_same; [apply agent_kept_refl | reflexivity].
Qed.

(** ** The world *)

Lemma wbind_returns {A B} (c : W A) (f : A -> W B) (w w' : World.t) (b : B) :
  wbind c f w = (ok b, w') ->
  exists a w1, c w = (ok a, w1) /\ f a w1 = (ok b, w').
Proof.
  unfold wbind. destruct (c w) as [[e|a] w1]; [discriminate|].
  intro H. exists a, w1. split; [reflexivity | exact H].
Qed.

Lemma wreading_returns {A} (f : World.t -> Result A) (w w' : World.t) (a : A) :
  wreading f w = (ok a, w') -> f w = ok a /\ w' = w.
Proof.
  unfold wreading. intro H. injection H as H1 H2. split; [exact H1 | symmetry; exact H2].
Qed.

Lemma wmodify_returns (f : World.t -> World.t) (w w' : World.t) (r : Result unit) :
  wmodify f w = (r, w') -> r = ok tt /\ w' = f w.
Proof.
  unfold wmodify. intro H. injection H as H1 H2. split; symmetry; assumption.
Qed.

Lemma agent_returns (unique_id : Z) (w w' : World.t) (self : Stakeholder.t) :
  agent unique_id w = (ok self, w') ->
  dict_get unique_id (Simulation.agents (World.model w)) = Some self /\ w' = w.
Proof.
  unfold agent. intro H. apply wreading_returns in H. destruct H as [H ->].
  split; [apply dict_lookup_returns; exact H | reflexivity].
Qed.

Section WChangesOnly.

Variable R : World.t -> World.t -> Prop.
Hypothesis R_refl : forall w, R w w.
Hypothesis R_trans : forall w1 w2 w3, R w1 w2 -> R w2 w3 -> R w1 w3.

Lemma wchanges_only_wret {A} (a : A) : wchanges_only R (wret a).
Proof. intros w r w' H. unfold wret in H. injection H as _ <-. apply R_refl. Qed.

Lemma wchanges_only_wraise {A} (e : Exn) : wchanges_only R (@wraise A e).
Proof. intros w r w' H. unfold wraise in H. injection H as _ <-. apply R_refl. Qed.

Lemma wchanges_only_wreading {A} (f : World.t -> Result A) : wchanges_only R (wreading f).
Proof. intros w r w' H. unfold wreading in H. injection H as _ <-. apply R_refl. Qed.

Lemma wchanges_only_wmodify (f : World.t -> World.t) :
  (forall w, R w (f w)) -> wchanges_only R (wmodify f).
Proof. intros Hf w r w' H. unfold wmodify in H. injection H as _ <-. apply Hf. Qed.

Lemma wchanges_only_wbind {A B} (c : W A) (f : A -> W B) :
  wchanges_only R c -> (forall a, wchanges_only R (f a)) -> wchanges_only R (wbind c f).
Proof.
  intros Hc Hf w r w' H. unfold wbind in H.
  destruct (c w) as [[e|a] w1] eqn:E.
  - injection H as _ <-. apply (Hc _ _ _ E).
  - apply (R_trans _ w1); [apply (Hc _ _ _ E) | apply (Hf _ _ _ _ H)].
Qed.

(** A step that depends on what was read before it. *)
Lemma wchanges_only_wbind_read {A B} (f : World.t -> Result A) (g : A -> W B) :
  (forall w a, f w = ok a -> forall r w', g a w = (r, w') -> R w w') ->
  wchanges_only R (wbind (wreading f) g).
Proof.
  intros Hg w r w' H. unfold wbind, wreading in H.
  destruct (f w) as [e|a] eqn:E.
  - injection H as _ <-. apply R_refl.
  - apply (Hg w a E r w' H).
Qed.

Lemma wchanges_only_wfold {A B} (f : A -> B -> W A) (l : list B) :
  (forall a b, wchanges_only R (f a b)) -> forall a, wchanges_only R (wfold f l a).
Proof.
  intro Hf. induction l as [|b l IH]; intro a; simpl.
  - apply wchanges_only_wret.
  - apply wchanges_only_wbind; [apply Hf | exact IH].
Qed.

End WChangesOnly.

(** ** What is seen through a shared pool *)

Lemma seen_through_keys (pools : Dict Pool.t) (shared : Dict Z) (unique_id : Z)
    (owned_pools : Dict Pool.t) :
  dict_keys (seen_through pools shared unique_id owned_pools) = dict_keys owned_pools.
Proof.
  unfold seen_through, dict_keys. rewrite map_map. apply map_ext.
  intros [k p]. simpl.
  destruct (dict_get k shared) as [holder|]; [|reflexivity].
  destruct (dict_get k pools) as [pool|]; [|reflexivity].
  destruct (Z.eqb holder unique_id); reflexivity.
Qed.

Lemma seen_through_get (pools : Dict Pool.t) (shared : Dict Z) (unique_id : Z)
    (owned_pools : Dict Pool.t) (pool_id : Z) :
  dict_get pool_id (seen_through pools shared unique_id owned_pools)
  = match dict_get pool_id owned_pools with
    | Some p =>
        Some match dict_get pool_id shared, dict_get pool_id pools with
             | Some holder, Some pool => if Z.eqb holder unique_id then pool else p
             | _, _ => p
             end
    | None => None
    end.
Proof.
  induction owned_pools as [|[k p] rest IH]; simpl; [reflexivity|].
  destruct (Z.eqb pool_id k) eqn:E.
  - apply Z.eqb_eq in E. subst k.
    destruct (dict_get pool_id shared) as [holder|]; simpl;
      [|rewrite Z.eqb_refl; reflexivity].
    destruct (dict_get pool_id pools) as [pool|]; simpl;
      [|rewrite Z.eqb_refl; reflexivity].
    destruct (Z.eqb holder unique_id); simpl; rewrite Z.eqb_refl; reflexivity.
  - rewrite <- IH.
    destruct (dict_get k shared) as [holder|]; simpl; [|rewrite E; reflexivity].
    destruct (dict_get k pools) as [pool|]; simpl; [|rewrite E; reflexivity].
    destruct (Z.eqb holder unique_id); simpl; rewrite E; reflexivity.
Qed.

Lemma dict_get_map_keyed {V} (g : Z -> V -> V) (d : Dict V) (k : Z) :
  dict_get k (map (fun item => (fst item, g (fst item) (snd item))) d)
  = option_map (g k) (dict_get k d).
Proof.
  induction d as [|[k' v] d IH]; simpl; [reflexivity|].
  destruct (Z.eqb k k') eqn:E; [|exact IH].
  apply Z.eqb_eq in E. subst k'. reflexivity.
Qed.

Lemma agent_pools_only_refl (a : Stakeholder.t) : agent_pools_only a a.
Proof. split; [destruct a as [? ? ? ? ? ? ? []]; reflexivity | reflexivity]. Qed.

Lemma agent_pools_only_trans (a b c : Stakeholder.t) :
  agent_pools_only a b -> agent_pools_only b c -> agent_pools_only a c.
Proof.
  intros [H1 K1] [H2 K2]. split; [|congruence].
  remember (Strategy.owned_pools (Stakeholder.strategy b)) as pb eqn:Eb.
  remember (Strategy.owned_pools (Stakeholder.strategy c)) as pc eqn:Ec.
  clear Eb Ec K1 K2. subst b. subst c. reflexivity.
Qed.

Lemma agent_pools_only_kept (sim : bool) (a a' : Stakeholder.t) :
  agent_pools_only a a' -> agent_kept sim a a'.
Proof.
  intros [H K]. unfold agent_kept, same_shape.
  rewrite H. simpl. repeat (split; [reflexivity|]).
  split; [apply staged_kept_refl|]. split; [reflexivity|].
  repeat (split; [reflexivity|]). rewrite H in K. simpl in K. exact K.
Qed.

Section ActsWithin.

Variable P : Stakeholder.t -> Stakeholder.t -> Prop.
Hypothesis P_refl : forall a, P a a.
Hypothesis P_trans : forall a b c, P a b -> P b c -> P a c.

Lemma acts_within_refl (w : World.t) : acts_within P w w.
Proof.
  split; [apply acts_only_refl|]. split; [reflexivity|].
  apply agents_related_refl. exact P_refl.
Qed.

Lemma acts_within_trans (w1 w2 w3 : World.t) :
  acts_within P w1 w2 -> acts_within P w2 w3 -> acts_within P w1 w3.
Proof.
  intros [H1 [K1 A1]] [H2 [K2 A2]].
  split; [apply (acts_only_trans _ _ _ H1 H2)|]. split; [congruence|].
  apply (agents_related_trans P P_trans _ (World.model w2)); assumption.
Qed.

End ActsWithin.

Lemma agents_related_weaken (P Q : Stakeholder.t -> Stakeholder.t -> Prop)
    (s s' : Simulation.t) :
  (forall a a', P a a' -> Q a a') -> agents_related P s s' -> agents_related Q s s'.
Proof.
  intros HPQ H uid. specialize (H uid).
  destruct (dict_get uid (Simulation.agents s)), (dict_get uid (Simulation.agents s'));
    try exact H. apply HPQ. exact H.
Qed.

Lemma acts_within_weaken (P Q : Stakeholder.t -> Stakeholder.t -> Prop) (w w' : World.t) :
  (forall a a', P a a' -> Q a a') -> acts_within P w w' -> acts_within Q w w'.
Proof.
  intros HPQ [H [K A]]. split; [exact H|]. split; [exact K|].
  apply (agents_related_weaken P Q); assumption.
Qed.

Lemma acts_within_registry_written (w w' : World.t) :
  acts_within agent_pools_only w w' -> registry_written w w'.
Proof.
  intros [H [K A]]. split; [exact H|]. split; [exact K|].
  apply (agents_related_weaken agent_pools_only (agent_kept _));
    [apply agent_pools_only_kept | exact A].
Qed.

Lemma registry_written_refl (w : World.t) : registry_written w w.
Proof. apply registry_write_refl. Qed.

Lemma registry_written_trans (w1 w2 w3 : World.t) :
  registry_written w1 w2 -> registry_written w2 w3 -> registry_written w1 w3.
Proof. apply registry_write_trans. Qed.

(** [settle] touches nothing but the contents of the agents' pools. *)
Lemma settle_pools (w : World.t) :
  Simulation.pools (World.model (settle w)) = Simulation.pools (World.model w).
Proof. reflexivity. Qed.

Lemma settle_frame (w : World.t) : acts_within agent_pools_only w (settle w).
Proof.
  split; [unfold acts_only, settle; simpl; destruct (World.model w); reflexivity|].
  split.
  { unfold settle. simpl. unfold dict_keys. rewrite map_map. reflexivity. }
  intro uid. unfold settle. simpl.
  rewrite (dict_get_map_keyed
             (fun key a =>
                Stakeholder.set_strategy
                  (set_owned_pools
                     (seen_through (Simulation.pools (World.model w))
                        (filter (fun e => dict_mem (fst e)
                                            (Simulation.pools (World.model w)))
                                (World.shared w))
                        key
                        (Strategy.owned_pools (Stakeholder.strategy a)))
                     (Stakeholder.strategy a))
                  a)).
  destruct (dict_get uid (Simulation.agents (World.model w))) as [a|]; simpl; [|exact I].
  split; [reflexivity|]. apply seen_through_keys.
Qed.

Lemma lift_frame {A} (R : Simulation.t -> Simulation.t -> Prop) (c : M A) :
  changes_only R c ->
  wchanges_only (fun w w' => R (World.model w) (World.model w')
                             /\ World.shared w' = World.shared w) (lift c).
Proof.
  intros Hc w r w' H. unfold lift in H.
  destruct (c (World.model w)) as [r0 s] eqn:E. injection H as _ <-.
  split; [apply (Hc _ _ _ E) | reflexivity].
Qed.

Lemma lift_registry_frame {A} (c : M A) :
  changes_only registry_write c -> wchanges_only registry_written (lift_registry c).
Proof.
  intros Hc w r w' H. unfold lift_registry in H.
  destruct (c (World.model w)) as [r0 s] eqn:E. injection H as _ <-.
  apply (registry_written_trans _ (World.make s (World.shared w))).
  - apply (Hc _ _ _ E).
  - apply acts_within_registry_written. apply settle_frame.
Qed.

Lemma set_registry_pool_frame (pool_id : Z) (pool : Pool.t) :
  wchanges_only (acts_within agent_pools_only) (set_registry_pool pool_id pool).
Proof.
  apply wchanges_only_wmodify. intro w.
  apply (acts_within_trans agent_pools_only agent_pools_only_trans _
           (World.make (Simulation.set_pools
                          (dict_set pool_id pool (Simulation.pools (World.model w)))
                          (World.model w))
                       (World.shared w))).
  - split; [unfold acts_only; simpl; destruct (World.model w); reflexivity|].
    split; [reflexivity|].
    apply agents_related_same; [apply agent_pools_only_refl | reflexivity].
  - apply settle_frame.
Qed.

(** ** Writes to one pool of the registry *)

Lemma pool_written_refl (pool_id : Z) (s : Simulation.t) : pool_written pool_id s s.
Proof. intros _. split; [reflexivity | intros; reflexivity]. Qed.

Lemma pool_written_trans (pool_id : Z) (s1 s2 s3 : Simulation.t) :
  pool_written pool_id s1 s2 -> pool_written pool_id s2 s3 -> pool_written pool_id s1 s3.
Proof.
  intros H12 H23 Hin. destruct (H12 Hin) as [K1 O1].
  destruct H23 as [K2 O2]; [rewrite K1; exact Hin|].
  split; [congruence|]. intros x Hx. rewrite (O2 x Hx). apply O1. exact Hx.
Qed.

Lemma pool_written_same (pool_id : Z) (s s' : Simulation.t) :
  Simulation.pools s' = Simulation.pools s -> pool_written pool_id s s'.
Proof. intros H _. rewrite H. split; [reflexivity | intros; reflexivity]. Qed.

Lemma pool_written_set (pool_id : Z) (pool : Pool.t) (s s' : Simulation.t) :
  Simulation.pools s' = dict_set pool_id pool (Simulation.pools s) ->
  pool_written pool_id s s'.
Proof.
  intros H Hin. rewrite H. split; [apply dict_keys_set_present; exact Hin|].
  intros x Hx. apply dict_get_set_other. congruence.
Qed.

Ltac pool_frame pool_id :=
  repeat first
    [ apply (changes_only_mret (pool_written pool_id) (pool_written_refl pool_id))
    | apply (changes_only_mraise (pool_written pool_id) (pool_written_refl pool_id))
    | apply (changes_only_reading (pool_written pool_id) (pool_written_refl pool_id))
    | apply (changes_only_mbind (pool_written pool_id) (pool_written_trans pool_id));
      [| intro]
    | apply (changes_only_mfold (pool_written pool_id) (pool_written_refl pool_id)
               (pool_written_trans pool_id)); intros ? ?
    | apply (changes_only_modify (pool_written pool_id)); intro;
      first [ apply pool_written_same; reflexivity
            | eapply pool_written_set; reflexivity ]
    | match goal with
      | |- changes_only _ (match ?x with _ => _ end) => destruct x
      | |- changes_only _ (if ?x then _ else _) => destruct x
      end ].

Lemma undelegate_registry (pool_id player_id : Z) :
  changes_only (pool_written pool_id) (undelegate pool_id player_id).
Proof. unfold undelegate. pool_frame pool_id. Qed.

Lemma remove_delegations_registry (pool_id : Z) :
  changes_only (pool_written pool_id) (remove_delegations pool_id).
Proof.
  unfold remove_delegations.
  apply (changes_only_mbind (pool_written pool_id) (pool_written_trans pool_id)).
  - apply (changes_only_reading (pool_written pool_id) (pool_written_refl pool_id)).
  - intro pool.
    apply (changes_only_mfold (pool_written pool_id) (pool_written_refl pool_id)
             (pool_written_trans pool_id)).
    intros _ player_id. apply undelegate_registry.
Qed.

(** [close_pool] returns only for a registered pool of the agent; it takes
    this pool out of the registry and leaves the others as they are. *)
Lemma close_pool_returns (self : Stakeholder.t) (pool_id : Z) (s s' : Simulation.t) :
  close_pool self pool_id s = (ok tt, s') ->
  (exists pool, dict_get pool_id (Simulation.pools s) = Some pool
                /\ Pool.owner pool = Stakeholder.unique_id self)
  /\ dict_get pool_id (Simulation.pools s') = None
  /\ forall x, x <> pool_id ->
       dict_get x (Simulation.pools s') = dict_get x (Simulation.pools s).
Proof.
  unfold close_pool. intro H.
  apply mbind_returns in H. destruct H as [[] [s1 [Hcheck H]]].
  apply reading_returns in Hcheck. destruct Hcheck as [Hcheck ->].
  apply mbind_returns in H. destruct H as [[] [s2 [Hremove H]]].
  apply mbind_returns in H. destruct H as [pools [s3 [Hpop H]]].
  apply reading_returns in Hpop. destruct Hpop as [Hpop ->].
  unfold modify in H. injection H as <-.
  unfold check_pool_owner, pool_owner_test, except_AttributeError in Hcheck.
  destruct (dict_lookup pool_id (Simulation.pools s)) as [e|pool] eqn:Elook.
  { simpl in Hcheck. apply dict_lookup_raises in Elook. subst e. discriminate. }
  simpl in Hcheck. apply dict_lookup_returns in Elook.
  destruct (Z.eqb (Pool.owner pool) (Stakeholder.unique_id self)) eqn:Eowner;
    [|simpl in Hcheck; discriminate].
  apply Z.eqb_eq in Eowner.
  assert (Hin : In pool_id (dict_keys (Simulation.pools s))).
  { apply dict_get_in_keys. exists pool. exact Elook. }
  destruct (remove_delegations_registry pool_id _ _ _ Hremove Hin) as [Hkeys Hothers].
  unfold dict_pop in Hpop. destruct (dict_mem pool_id (Simulation.pools s2)); [|discriminate].
  injection Hpop as <-. simpl.
  split; [exists pool; split; assumption|].
  split; [apply dict_get_remove_same|].
  intros x Hx. rewrite dict_get_remove_other by congruence. apply Hothers. exact Hx.
Qed.

Lemma pool_written_in_refl (pool_id : Z) (w : World.t) : pool_written_in pool_id w w.
Proof. apply pool_written_refl. Qed.

Lemma pool_written_in_trans (pool_id : Z) (w1 w2 w3 : World.t) :
  pool_written_in pool_id w1 w2 -> pool_written_in pool_id w2 w3 ->
  pool_written_in pool_id w1 w3.
Proof. apply pool_written_trans. Qed.

Lemma lift_registry_pool {A} (pool_id : Z) (c : M A) :
  changes_only (pool_written pool_id) c ->
  wchanges_only (pool_written_in pool_id) (lift_registry c).
Proof.
  intros Hc w r w' H. unfold lift_registry in H.
  destruct (c (World.model w)) as [r0 s] eqn:E. injection H as _ <-.
  unfold pool_written_in. intro Hin. exact (Hc _ _ _ E Hin).
Qed.

Lemma set_registry_pool_pool (pool_id : Z) (pool : Pool.t) :
  wchanges_only (pool_written_in pool_id) (set_registry_pool pool_id pool).
Proof.
  apply wchanges_only_wmodify. intro w. unfold pool_written_in.
  apply (pool_written_set pool_id pool). reflexivity.
Qed.

Lemma set_registry_pool_written (pool_id : Z) (pool : Pool.t) :
  wchanges_only registry_written (set_registry_pool pool_id pool).
Proof.
  intros w r w' H. apply acts_within_registry_written.
  apply (set_registry_pool_frame pool_id pool w r w' H).
Qed.

Ltac world_frame R R_refl R_trans leaf :=
  repeat first
    [ apply (wchanges_only_wret R R_refl)
    | apply (wchanges_only_wraise R R_refl)
    | apply (wchanges_only_wreading R R_refl)
    | apply (wchanges_only_wbind R R_trans); [| intro]
    | apply (wchanges_only_wfold R R_refl R_trans); intros ? ?
    | leaf
    | match goal with
      | |- wchanges_only _ (let (_, _) := ?x in _) => destruct x
      | |- wchanges_only _ (match ?x with _ => _ end) => destruct x
      | |- wchanges_only _ (if ?x then _ else _) => destruct x
      end ].

Section ActingOn.

Variable env : Env.

Lemma update_kept_pool_written (unique_id pool_id : Z) :
  wchanges_only registry_written (update_kept_pool env unique_id pool_id).
Proof.
  unfold update_kept_pool, agent, registry_pool.
  world_frame registry_written registry_written_refl registry_written_trans
    ltac:(first [ apply set_registry_pool_written
                | apply lift_registry_frame; apply remove_delegations_frame ]).
Qed.

Lemma update_kept_pool_pool (unique_id pool_id : Z) :
  wchanges_only (pool_written_in pool_id) (update_kept_pool env unique_id pool_id).
Proof.
  unfold update_kept_pool, agent, registry_pool.
  world_frame (pool_written_in pool_id) (pool_written_in_refl pool_id)
    (pool_written_in_trans pool_id)
    ltac:(first [ apply set_registry_pool_pool
                | apply lift_registry_pool; apply remove_delegations_registry ]).
Qed.

Lemma update_kept_pool_registered (unique_id pool_id : Z) (w w' : World.t) :
  update_kept_pool env unique_id pool_id w = (ok tt, w') ->
  In pool_id (dict_keys (Simulation.pools (World.model w))).
Proof.
  unfold update_kept_pool. intro H.
  apply wbind_returns in H. destruct H as [self [w1 [Hself H]]].
  apply agent_returns in Hself. destruct Hself as [_ ->].
  apply wbind_returns in H. destruct H as [staged [w1 [Hstaged H]]].
  apply wreading_returns in Hstaged. destruct Hstaged as [_ ->].
  apply wbind_returns in H. destruct H as [updated_pool [w1 [Hupdated H]]].
  apply wreading_returns in Hupdated. destruct Hupdated as [_ ->].
  apply wbind_returns in H. destruct H as [pool [w1 [Hpool _]]].
  apply wreading_returns in Hpool. destruct Hpool as [Hpool _].
  apply dict_lookup_returns in Hpool. apply dict_get_in_keys. exists pool. exact Hpool.
Qed.

Lemma apply_allocation_change_frame (unique_id : Z) (change : Z * Q) :
  wchanges_only (acts_within agent_pools_only) (apply_allocation_change unique_id change).
Proof.
  unfold apply_allocation_change, registry_pool. destruct change as [pool_id allocation_change].
  world_frame (acts_within agent_pools_only) (acts_within_refl agent_pools_only agent_pools_only_refl)
    (acts_within_trans agent_pools_only agent_pools_only_trans)
    ltac:(apply set_registry_pool_frame).
Qed.

Lemma apply_allocation_change_pool (unique_id : Z) (change : Z * Q) :
  wchanges_only (pool_written_in (fst change)) (apply_allocation_change unique_id change).
Proof.
  unfold apply_allocation_change, registry_pool. destruct change as [pool_id allocation_change].
  simpl.
  world_frame (pool_written_in pool_id) (pool_written_in_refl pool_id)
    (pool_written_in_trans pool_id)
    ltac:(apply set_registry_pool_pool).
Qed.

Lemma apply_allocation_change_registered (unique_id : Z) (change : Z * Q) (w w' : World.t) :
  apply_allocation_change unique_id change w = (ok tt, w') ->
  In (fst change) (dict_keys (Simulation.pools (World.model w))).
Proof.
  unfold apply_allocation_change. destruct change as [pool_id allocation_change]. intro H.
  apply wbind_returns in H. destruct H as [pool [w1 [Hpool _]]].
  apply wreading_returns in Hpool. destruct Hpool as [Hpool _].
  apply dict_lookup_returns in Hpool. apply dict_get_in_keys. exists pool. exact Hpool.
Qed.

Lemma lift_registry_returns {A} (c : M A) (w w' : World.t) (a : A) :
  lift_registry c w = (ok a, w') ->
  exists s, c (World.model w) = (ok a, s) /\ w' = settle (World.make s (World.shared w)).
Proof.
  unfold lift_registry. destruct (c (World.model w)) as [r s]. intro H.
  injection H as -> <-. exists s. split; reflexivity.
Qed.

(** The loop of [execute_strategy] that closes pools. *)
Lemma closing_loop (self : Stakeholder.t) (visit : list Z) :
  forall w w',
    wfold (fun _ pool_id => lift_registry (close_pool self pool_id)) visit tt w = (ok tt, w') ->
    registry_written w w'
    /\ (forall x, In x visit ->
          dict_get x (Simulation.pools (World.model w')) = None
          /\ exists pool, dict_get x (Simulation.pools (World.model w)) = Some pool
                          /\ Pool.owner pool = Stakeholder.unique_id self)
    /\ (forall x, ~ In x visit ->
          dict_get x (Simulation.pools (World.model w'))
          = dict_get x (Simulation.pools (World.model w))).
Proof.
  induction visit as [|pool_id visit IH]; intros w w' H.
  - simpl in H. unfold wret in H. injection H as <-.
    split; [apply registry_written_refl|]. split; [intros x []|]. intros; reflexivity.
  - cbn [wfold] in H. apply wbind_returns in H. destruct H as [[] [w1 [Hclose Hrest]]].
    pose proof (lift_registry_frame _ (close_pool_frame self pool_id) _ _ _ Hclose) as Hw.
    apply lift_registry_returns in Hclose. destruct Hclose as [s [Hclose ->]].
    apply close_pool_returns in Hclose. destruct Hclose as [Howned [Hgone Hothers]].
    destruct (IH _ _ Hrest) as [Hw' [Hclosed Hkept]].
    change (Simulation.pools (World.model (settle (World.make s (World.shared w)))))
      with (Simulation.pools s) in *.
    split; [apply (registry_written_trans _ _ _ Hw Hw')|]. split.
    + intros x [<- | Hin].
      * split; [|exact Howned].
        destruct (in_dec Z.eq_dec pool_id visit) as [Hin | Hnin];
          [apply (Hclosed _ Hin) | rewrite (Hkept _ Hnin); exact Hgone].
      * destruct (Hclosed x Hin) as [Hnone [pool [Hpool Howner]]].
        split; [exact Hnone|]. exists pool. split; [|exact Howner].
        rewrite <- Hothers; [exact Hpool|]. intros ->. congruence.
    + intros x Hnin. rewrite Hkept by (intro Hin; apply Hnin; right; exact Hin).
      apply Hothers. intros ->. apply Hnin. left. reflexivity.
Qed.

(** The loop of [execute_strategy] over the pools that are kept. *)
Lemma keeping_loop (unique_id : Z) (visit : list Z) :
  forall w w',
    wfold (fun _ pool_id => update_kept_pool env unique_id pool_id) visit tt w = (ok tt, w') ->
    registry_written w w'
    /\ dict_keys (Simulation.pools (World.model w'))
       = dict_keys (Simulation.pools (World.model w))
    /\ (forall x, In x visit -> In x (dict_keys (Simulation.pools (World.model w))))
    /\ (forall x, ~ In x visit ->
          dict_get x (Simulation.pools (World.model w'))
          = dict_get x (Simulation.pools (World.model w))).
Proof.
  induction visit as [|pool_id visit IH]; intros w w' H.
  - simpl in H. unfold wret in H. injection H as <-.
    split; [apply registry_written_refl|]. split; [reflexivity|].
    split; [intros x []|]. intros; reflexivity.
  - cbn [wfold] in H. apply wbind_returns in H. destruct H as [[] [w1 [Hupdate Hrest]]].
    pose proof (update_kept_pool_written _ _ _ _ _ Hupdate) as Hw.
    pose proof (update_kept_pool_registered _ _ _ _ Hupdate) as Hin.
    destruct (update_kept_pool_pool _ _ _ _ _ Hupdate Hin) as [Hkeys Hothers].
    destruct (IH _ _ Hrest) as [Hw' [Hkeys' [Hreg Hkept]]].
    split; [apply (registry_written_trans _ _ _ Hw Hw')|].
    split; [congruence|]. split.
    + intros x [<- | Hx]; [exact Hin|]. rewrite <- Hkeys. apply Hreg. exact Hx.
    + intros x Hnin. rewrite Hkept by (intro Hx; apply Hnin; right; exact Hx).
      apply Hothers. intros ->. apply Hnin. left. reflexivity.
Qed.

(** The last loop of [execute_strategy]. *)
Lemma delegating_loop (unique_id : Z) (changes : Dict Q) :
  forall w w',
    wfold (fun _ change => apply_allocation_change unique_id change) changes tt w
    = (ok tt, w') ->
    acts_within agent_pools_only w w'
    /\ dict_keys (Simulation.pools (World.model w'))
       = dict_keys (Simulation.pools (World.model w))
    /\ (forall x, In x (dict_keys changes) ->
          In x (dict_keys (Simulation.pools (World.model w))))
    /\ (forall x, ~ In x (dict_keys changes) ->
          dict_get x (Simulation.pools (World.model w'))
          = dict_get x (Simulation.pools (World.model w))).
Proof.
  induction changes as [|change changes IH]; intros w w' H.
  - simpl in H. unfold wret in H. injection H as <-.
    split; [apply acts_within_refl; apply agent_pools_only_refl|]. split; [reflexivity|].
    split; [intros x []|]. intros; reflexivity.
  - cbn [wfold] in H. apply wbind_returns in H. destruct H as [[] [w1 [Hchange Hrest]]].
    pose proof (apply_allocation_change_frame _ _ _ _ _ Hchange) as Hw.
    pose proof (apply_allocation_change_registered _ _ _ _ Hchange) as Hin.
    destruct (apply_allocation_change_pool _ _ _ _ _ Hchange Hin) as [Hkeys Hothers].
    destruct (IH _ _ Hrest) as [Hw' [Hkeys' [Hreg Hkept]]].
    split; [apply (acts_within_trans agent_pools_only agent_pools_only_trans _ _ _ Hw Hw')|].
    split; [congruence|]. split.
    + intros x [<- | Hx]; [exact Hin|]. rewrite <- Hkeys. apply Hreg. exact Hx.
    + intros x Hnin. rewrite Hkept by (intro Hx; apply Hnin; right; exact Hx).
      apply Hothers. intros ->. apply Hnin. left. reflexivity.
Qed.

Lemma open_pool_returns (unique_id pool_id : Z) (w w' : World.t) :
  open_pool unique_id pool_id w = (ok tt, w') ->
  exists self pool,
    dict_get unique_id (Simulation.agents (World.model w)) = Some self
    /\ dict_get pool_id (Strategy.owned_pools (Stakeholder.strategy self)) = Some pool
    /\ w' = World.make
              (Simulation.set_agents
                 (dict_set unique_id
                    (set_remaining_min_steps_to_keep_pool
                       (Simulation.min_steps_to_keep_pool (Simulation.attr (World.model w)))
                       self)
                    (Simulation.agents (World.model w)))
                 (Simulation.set_pools
                    (dict_set pool_id pool (Simulation.pools (World.model w)))
                    (World.model w)))
              (dict_set pool_id unique_id (World.shared w)).
Proof.
  unfold open_pool. intro H.
  apply wbind_returns in H. destruct H as [self [w1 [Hself H]]].
  apply agent_returns in Hself. destruct Hself as [Hself ->].
  apply wbind_returns in H. destruct H as [pool [w1 [Hpool H]]].
  apply wreading_returns in Hpool. destruct Hpool as [Hpool ->].
  apply dict_lookup_returns in Hpool.
  apply wbind_returns in H. destruct H as [[] [w1 [Hset H]]].
  apply wmodify_returns in Hset. destruct Hset as [_ ->].
  apply wbind_returns in H. destruct H as [min_steps [w1 [Hmin H]]].
  apply wreading_returns in Hmin. destruct Hmin as [Hmin ->].
  injection Hmin as <-.
  unfold set_agent in H. apply wmodify_returns in H. destruct H as [_ ->].
  exists self, pool. split; [exact Hself|]. split; [exact Hpool|]. reflexivity.
Qed.

(** The loop of [execute_strategy] that opens pools: each pool is
    registered as the agent's strategy holds it and is from then on shared
    with it; the agent's cooldown starts when there is a pool to open. *)
Lemma opening_loop (unique_id : Z) (visit : list Z) :
  forall w w' self,
    dict_get unique_id (Simulation.agents (World.model w)) = Some self ->
    wfold (fun _ pool_id => open_pool unique_id pool_id) visit tt w = (ok tt, w') ->
    let owned_pools := Strategy.owned_pools (Stakeholder.strategy self) in
    acts_only (World.model w) (World.model w')
    /\ dict_keys (Simulation.agents (World.model w'))
       = dict_keys (Simulation.agents (World.model w))
    /\ (forall other, other <> unique_id ->
          dict_get other (Simulation.agents (World.model w'))
          = dict_get other (Simulation.agents (World.model w)))
    /\ dict_get unique_id (Simulation.agents (World.model w'))
       = Some match visit with
              | [] => self
              | _ :: _ =>
                  set_remaining_min_steps_to_keep_pool
                    (Simulation.min_steps_to_keep_pool (Simulation.attr (World.model w)))
                    self
              end
    /\ (forall x, In x visit ->
          In x (dict_keys owned_pools)
          /\ dict_get x (Simulation.pools (World.model w')) = dict_get x owned_pools
          /\ dict_get x (World.shared w') = Some unique_id)
    /\ (forall x, ~ In x visit ->
          dict_get x (Simulation.pools (World.model w'))
          = dict_get x (Simulation.pools (World.model w))
          /\ dict_get x (World.shared w') = dict_get x (World.shared w)).
Proof.
  induction visit as [|pool_id visit IH]; intros w w' self Hself H owned_pools.
  - simpl in H. unfold wret in H. injection H as <-.
    split; [apply acts_only_refl|]. split; [reflexivity|].
    split; [intros; reflexivity|]. split; [exact Hself|].
    split; [intros x []|]. intros; split; reflexivity.
  - cbn [wfold] in H. apply wbind_returns in H. destruct H as [[] [w1 [Hopen Hrest]]].
    apply open_pool_returns in Hopen. destruct Hopen as [self0 [pool [Hself0 [Hpool ->]]]].
    rewrite Hself in Hself0. injection Hself0 as <-.
    set (min_steps := Simulation.min_steps_to_keep_pool (Simulation.attr (World.model w)))
      in *.
    set (self1 := set_remaining_min_steps_to_keep_pool min_steps self) in *.
    match type of Hrest with
    | wfold _ _ _ ?world = _ => set (w1 := world) in *
    end.
    assert (Hself1 : dict_get unique_id (Simulation.agents (World.model w1)) = Some self1).
    { simpl. apply dict_get_set_same. }
    destruct (IH w1 w' self1 Hself1 Hrest)
      as [Hacts [Hkeys [Hothers [Hagent [Hopened Hkept]]]]].
    clear IH Hrest. simpl in Hacts, Hkeys, Hothers, Hagent, Hopened, Hkept.
    split.
    { apply (acts_only_trans _ (World.model w1)); [|exact Hacts].
      unfold acts_only. simpl. destruct (World.model w). reflexivity. }
    split.
    { rewrite Hkeys. apply (dict_keys_set_registered _ self). exact Hself. }
    split.
    { intros other Hne. rewrite (Hothers other Hne). apply dict_get_set_other. congruence. }
    split.
    { rewrite Hagent. destruct visit; reflexivity. }
    split.
    + intros x Hx.
      destruct (in_dec Z.eq_dec x visit) as [Hin | Hnin]; [apply (Hopened x Hin)|].
      destruct Hx as [<- | Hx]; [|contradiction].
      destruct (Hkept pool_id Hnin) as [Hp Hs].
      split; [apply dict_get_in_keys; exists pool; exact Hpool|].
      split.
      * rewrite Hp, dict_get_set_same. symmetry. exact Hpool.
      * rewrite Hs. apply dict_get_set_same.
    + intros x Hnin.
      assert (Hne : pool_id <> x) by (intros ->; apply Hnin; left; reflexivity).
      destruct (Hkept x) as [Hp Hs]; [intro Hin; apply Hnin; right; exact Hin|].
      split.
      * rewrite Hp. apply dict_get_set_other. exact Hne.
      * rewrite Hs. apply dict_get_set_other. exact Hne.
Qed.

(** The stages of [execute_strategy]. *)
Lemma execute_strategy_stages (unique_id : Z) (w w' : World.t) :
  execute_strategy env unique_id w = (ok tt, w') ->
  exists self staged changes w1 w2 self2 staged2 w4,
    dict_get unique_id (Simulation.agents (World.model w)) = Some self
    /\ Stakeholder.new_strategy self = Some staged
    /\ allocation_changes env (Strategy.stake_allocations (Stakeholder.strategy self))
                          (Strategy.stake_allocations staged) = ok changes
    /\ wfold (fun _ pool_id => lift_registry (close_pool self pool_id))
             (set_iteration env
                (keys_minus (Strategy.owned_pools (Stakeholder.strategy self))
                            (Strategy.owned_pools staged)))
             tt w = (ok tt, w1)
    /\ wfold (fun _ pool_id => update_kept_pool env unique_id pool_id)
             (set_iteration env
                (keys_both (Strategy.owned_pools staged)
                           (Strategy.owned_pools (Stakeholder.strategy self))))
             tt w1 = (ok tt, w2)
    /\ dict_get unique_id (Simulation.agents (World.model w2)) = Some self2
    /\ Stakeholder.new_strategy self2 = Some staged2
    /\ wfold (fun _ pool_id => open_pool unique_id pool_id)
             (set_iteration env
                (keys_minus (Strategy.owned_pools staged)
                            (Strategy.owned_pools (Stakeholder.strategy self))))
             tt
             (World.make
                (Simulation.set_agents
                   (dict_set unique_id
                      (Stakeholder.set_new_strategy None
                         (Stakeholder.set_strategy staged2 self2))
                      (Simulation.agents (World.model w2)))
                   (World.model w2))
                (filter (fun e => negb (Z.eqb (snd e) unique_id)) (World.shared w2)))
       = (ok tt, w4)
    /\ wfold (fun _ change => apply_allocation_change unique_id change) changes tt w4
       = (ok tt, w').
Proof.
  unfold execute_strategy. intro H.
  apply wbind_returns in H. destruct H as [self [w0 [Hself H]]].
  apply agent_returns in Hself. destruct Hself as [Hself ->].
  apply wbind_returns in H. destruct H as [staged [w0 [Hstaged H]]].
  apply wreading_returns in Hstaged. destruct Hstaged as [Hstaged ->].
  apply wbind_returns in H. destruct H as [changes [w0 [Hchanges H]]].
  apply wreading_returns in Hchanges. destruct Hchanges as [Hchanges ->].
  apply wbind_returns in H. destruct H as [[] [w1 [Hclose H]]].
  apply wbind_returns in H. destruct H as [[] [w2 [Hkept H]]].
  apply wbind_returns in H. destruct H as [self2 [w0 [Hself2 H]]].
  apply agent_returns in Hself2. destruct Hself2 as [Hself2 ->].
  apply wbind_returns in H. destruct H as [staged2 [w0 [Hstaged2 H]]].
  apply wreading_returns in Hstaged2. destruct Hstaged2 as [Hstaged2 ->].
  apply wbind_returns in H. destruct H as [[] [w3 [Hunshare H]]].
  apply wmodify_returns in Hunshare. destruct Hunshare as [_ ->].
  apply wbind_returns in H. destruct H as [[] [w3 [Hcommit H]]].
  unfold set_agent in Hcommit. apply wmodify_returns in Hcommit. destruct Hcommit as [_ ->].
  apply wbind_returns in H. destruct H as [[] [w4 [Hopen H]]].
  unfold staged_strategy in Hstaged, Hstaged2.
  destruct (Stakeholder.new_strategy self) as [st|] eqn:E; [|discriminate].
  injection Hstaged as ->.
  destruct (Stakeholder.new_strategy self2) as [st2|] eqn:E2; [|discriminate].
  injection Hstaged2 as ->.
  exists self, staged, changes, w1, w2, self2, staged2, w4.
  repeat (split; [first [assumption | reflexivity]|]). exact H.
Qed.

(** ** The changes of the allocations *)

Lemma keys_minus_in {V U} (a : Dict V) (b : Dict U) (x : Z) :
  In x (keys_minus a b) <-> In x (dict_keys a) /\ ~ In x (dict_keys b).
Proof.
  unfold keys_minus. rewrite filter_In. rewrite <- (dict_mem_in_keys x b).
  destruct (dict_mem x b); simpl; split; intros [H1 H2];
    (split; [exact H1|]); try discriminate; try reflexivity.
  exfalso. apply H2. reflexivity.
Qed.

Lemma keys_both_in {V U} (a : Dict V) (b : Dict U) (x : Z) :
  In x (keys_both a b) <-> In x (dict_keys a) /\ In x (dict_keys b).
Proof.
  unfold keys_both. rewrite filter_In. rewrite <- (dict_mem_in_keys x b). reflexivity.
Qed.

Lemma rfold_ext {A B} (f g : A -> B -> Result A) (l : list B) (a : A) :
  (forall a b, f a b = g a b) -> rfold f l a = rfold g l a.
Proof.
  intro H. revert a. induction l as [|b l IH]; intro a; simpl; [reflexivity|].
  rewrite H. destruct (g a b); simpl; [reflexivity | apply IH].
Qed.

(** A loop that binds each visited key to a value. *)
Lemma binding_loop (value : Z -> Result Q) (known : Z -> Q) (visit : list Z) :
  (forall x, In x visit -> value x = ok (known x)) ->
  forall changes,
    exists changes',
      rfold (fun changes pool_id =>
               let? v := value pool_id in ok (dict_set pool_id v changes))
            visit changes = ok changes'
      /\ (NoDup (dict_keys changes) -> NoDup (dict_keys changes'))
      /\ (forall x, In x visit -> dict_get x changes' = Some (known x))
      /\ (forall x, ~ In x visit -> dict_get x changes' = dict_get x changes).
Proof.
  induction visit as [|pool_id visit IH]; intros Hvalue changes.
  - exists changes. split; [reflexivity|]. split; [intro H; exact H|].
    split; [intros x []|]. intros; reflexivity.
  - cbn [rfold]. rewrite (Hvalue pool_id) by (left; reflexivity). simpl.
    destruct (IH (fun x Hx => Hvalue x (or_intror Hx))
                 (dict_set pool_id (known pool_id) changes))
      as [changes' [Hfold [Hnd [Hin Hout]]]].
    exists changes'. split; [exact Hfold|]. split.
    + intro H. apply Hnd. apply dict_set_keys_NoDup. exact H.
    + split.
      * intros x Hx. destruct (in_dec Z.eq_dec x visit) as [Hv | Hnv]; [apply Hin; exact Hv|].
        destruct Hx as [<- | Hx]; [|contradiction].
        rewrite (Hout _ Hnv). apply dict_get_set_same.
      * intros x Hx. rewrite Hout by (intro Hv; apply Hx; right; exact Hv).
        apply dict_get_set_other. intros ->. apply Hx. left. reflexivity.
Qed.

Lemma allocation_changes_returns (old_allocations new_allocations : Dict Q) :
  visits_its_members env ->
  exists changes,
    allocation_changes env old_allocations new_allocations = ok changes
    /\ NoDup (dict_keys changes)
    /\ forall x, dict_get x changes = allocation_change old_allocations new_allocations x.
Proof.
  intro Hvisits. unfold allocation_changes.
  set (known := fun x => match allocation_change old_allocations new_allocations x with
                         | Some c => c
                         | None => 0
                         end).
  assert (Hold : forall x, ~ In x (dict_keys old_allocations) ->
                           dict_get x old_allocations = None).
  { intros x. apply dict_get_not_in. }
  assert (Hnew : forall x, ~ In x (dict_keys new_allocations) ->
                           dict_get x new_allocations = None).
  { intros x. apply dict_get_not_in. }
  destruct (binding_loop
              (fun pool_id => let? old := dict_lookup pool_id old_allocations in ok (- old))
              known
              (set_iteration env (keys_minus old_allocations new_allocations))) with (changes := @nil (Z * Q))
    as [c1 [H1 [N1 [G1 O1]]]].
  { intros x Hx. apply (proj1 (Hvisits _ _)) in Hx. apply keys_minus_in in Hx. destruct Hx as [Ho Hn].
    apply dict_get_in_keys in Ho. destruct Ho as [a Ha].
    unfold dict_lookup, known, allocation_change. rewrite Ha, (Hnew x Hn). reflexivity. }
  destruct (binding_loop
              (fun pool_id => let? new := dict_lookup pool_id new_allocations in
                              let? old := dict_lookup pool_id old_allocations in
                              ok (new - old))
              known
              (set_iteration env (keys_both old_allocations new_allocations))) with (changes := c1)
    as [c2 [H2 [N2 [G2 O2]]]].
  { intros x Hx. apply (proj1 (Hvisits _ _)) in Hx. apply keys_both_in in Hx. destruct Hx as [Ho Hn].
    apply dict_get_in_keys in Ho. destruct Ho as [a Ha].
    apply dict_get_in_keys in Hn. destruct Hn as [b Hb].
    unfold dict_lookup, known, allocation_change. rewrite Ha, Hb. reflexivity. }
  destruct (binding_loop
              (fun pool_id => let? new := dict_lookup pool_id new_allocations in ok new)
              known
              (set_iteration env (keys_minus new_allocations old_allocations))) with (changes := c2)
    as [c3 [H3 [N3 [G3 O3]]]].
  { intros x Hx. apply (proj1 (Hvisits _ _)) in Hx. apply keys_minus_in in Hx. destruct Hx as [Hn Ho].
    apply dict_get_in_keys in Hn. destruct Hn as [b Hb].
    unfold dict_lookup, known, allocation_change. rewrite Hb, (Hold x Ho). reflexivity. }
  exists c3.
  split.
  { rewrite (rfold_ext _
               (fun changes pool_id =>
                  let? v := let? old := dict_lookup pool_id old_allocations in ok (- old) in
                  ok (dict_set pool_id v changes)))
      by (intros c x; destruct (dict_lookup x old_allocations); reflexivity).
    rewrite H1. simpl.
    rewrite (rfold_ext _
               (fun changes pool_id =>
                  let? v := let? new := dict_lookup pool_id new_allocations in
                            let? old := dict_lookup pool_id old_allocations in
                            ok (new - old) in
                  ok (dict_set pool_id v changes)))
      by (intros c x; destruct (dict_lookup x new_allocations);
          [reflexivity | destruct (dict_lookup x old_allocations); reflexivity]).
    rewrite H2. simpl.
    rewrite (rfold_ext _
               (fun changes pool_id =>
                  let? v := let? new := dict_lookup pool_id new_allocations in ok new in
                  ok (dict_set pool_id v changes)))
      by (intros c x; destruct (dict_lookup x new_allocations); reflexivity).
    exact H3. }
  split; [apply N3, N2, N1; constructor|].
  intro x.
  assert (Hknown : forall c, allocation_change old_allocations new_allocations x = Some c ->
                             Some (known x) = Some c).
  { intros c Hc. unfold known. rewrite Hc. reflexivity. }
  destruct (in_dec Z.eq_dec x (set_iteration env (keys_minus new_allocations old_allocations)))
    as [I3 | I3].
  { rewrite (G3 x I3). apply (proj1 (Hvisits _ _)) in I3. apply keys_minus_in in I3. destruct I3 as [Hn Ho].
    apply dict_get_in_keys in Hn. destruct Hn as [b Hb].
    unfold known, allocation_change. rewrite Hb, (Hold x Ho). reflexivity. }
  rewrite (O3 x I3).
  destruct (in_dec Z.eq_dec x (set_iteration env (keys_both old_allocations new_allocations)))
    as [I2 | I2].
  { rewrite (G2 x I2). apply (proj1 (Hvisits _ _)) in I2. apply keys_both_in in I2. destruct I2 as [Ho Hn].
    apply dict_get_in_keys in Ho. destruct Ho as [a Ha].
    apply dict_get_in_keys in Hn. destruct Hn as [b Hb].
    unfold known, allocation_change. rewrite Ha, Hb. reflexivity. }
  rewrite (O2 x I2).
  destruct (in_dec Z.eq_dec x (set_iteration env (keys_minus old_allocations new_allocations)))
    as [I1 | I1].
  { rewrite (G1 x I1). apply (proj1 (Hvisits _ _)) in I1. apply keys_minus_in in I1. destruct I1 as [Ho Hn].
    apply dict_get_in_keys in Ho. destruct Ho as [a Ha].
    unfold known, allocation_change. rewrite Ha, (Hnew x Hn). reflexivity. }
  rewrite (O1 x I1). simpl. unfold allocation_change.
  destruct (dict_get x old_allocations) as [a|] eqn:Ea,
           (dict_get x new_allocations) as [b|] eqn:Eb; try reflexivity; exfalso.
  - apply I2. apply (proj2 (Hvisits _ _)). apply keys_both_in.
    split; apply dict_get_in_keys; eexists; eassumption.
  - apply I1. apply (proj2 (Hvisits _ _)). apply keys_minus_in. split.
    + apply dict_get_in_keys; eexists; eassumption.
    + intro Hin. apply dict_get_in_keys in Hin. destruct Hin as [b Hb]. congruence.
  - apply I3. apply (proj2 (Hvisits _ _)). apply keys_minus_in. split.
    + apply dict_get_in_keys; eexists; eassumption.
    + intro Hin. apply dict_get_in_keys in Hin. destruct Hin as [a Ha]. congruence.
Qed.

Lemma visits_nothing (members : list Z) :
  visits_its_members env ->
  match set_iteration env members, members with
  | [], [] | _ :: _, _ :: _ => True
  | _, _ => False
  end.
Proof.
  intro Hvisits. pose proof (Hvisits members) as H.
  destruct (set_iteration env members) as [|x l], members as [|y m]; try exact I.
  - apply (proj2 (H y)). left. reflexivity.
  - apply (proj1 (H x)). left. reflexivity.
Qed.

Lemma dict_get_filter_keys {V} (p : Z -> bool) (d : Dict V) (k : Z) :
  dict_get k (filter (fun e => p (fst e)) d) = if p k then dict_get k d else None.
Proof.
  induction d as [|[k' v] d IH]; simpl; [destruct (p k); reflexivity|].
  destruct (p k') eqn:Ep; simpl.
  - destruct (Z.eqb k k') eqn:E; [|exact IH].
    apply Z.eqb_eq in E. subst k'. rewrite Ep. reflexivity.
  - destruct (Z.eqb k k') eqn:E; [|exact IH].
    apply Z.eqb_eq in E. subst k'. rewrite IH, Ep. reflexivity.
Qed.

Lemma dict_get_filter_values {V} (p : V -> bool) (d : Dict V) (k : Z) (v : V) :
  dict_get k (filter (fun e => p (snd e)) d) = Some v -> p v = true.
Proof.
  intro H. apply dict_get_in in H. apply filter_In in H. apply H.
Qed.

(** A write to a registered pool is seen through the strategy that shares
    the pool. *)
Lemma set_registry_pool_shared (unique_id : Z) (opened : list Z) (staged_pools : Dict Pool.t)
    (pool_id : Z) (pool : Pool.t) (w w' : World.t) (r : Result unit) :
  In pool_id (dict_keys (Simulation.pools (World.model w))) ->
  opened_are_shared unique_id opened staged_pools w ->
  set_registry_pool pool_id pool w = (r, w') ->
  opened_are_shared unique_id opened staged_pools w'.
Proof.
  intros Hreg [a [Ha Hall]] H. unfold set_registry_pool in H.
  apply wmodify_returns in H. destruct H as [_ ->].
  set (pools' := dict_set pool_id pool (Simulation.pools (World.model w))).
  assert (Hkeys : dict_keys pools' = dict_keys (Simulation.pools (World.model w))).
  { apply dict_keys_set_present. exact Hreg. }
  set (shared' := filter (fun e => dict_mem (fst e) pools') (World.shared w)).
  assert (Hshared : forall x, dict_get x shared'
                              = if dict_mem x pools' then dict_get x (World.shared w)
                                else None).
  { intro x. apply (dict_get_filter_keys (fun k => dict_mem k pools')). }
  exists (Stakeholder.set_strategy
            (set_owned_pools
               (seen_through pools' shared' unique_id
                             (Strategy.owned_pools (Stakeholder.strategy a)))
               (Stakeholder.strategy a))
            a).
  split.
  { unfold settle. simpl. fold pools'. fold shared'.
    rewrite (dict_get_map_keyed
               (fun key a =>
                  Stakeholder.set_strategy
                    (set_owned_pools
                       (seen_through pools' shared' key
                                     (Strategy.owned_pools (Stakeholder.strategy a)))
                       (Stakeholder.strategy a))
                    a)).
    rewrite Ha. reflexivity. }
  intro x. destruct (Hall x) as [Hopened Hother]. simpl. fold pools'. fold shared'.
  rewrite seen_through_get, Hshared. split.
  - intro Hx. destruct (Hopened Hx) as [Hs [Hin Hsame]].
    assert (Hmem : dict_mem x pools' = true).
    { apply dict_mem_in_keys. rewrite Hkeys. exact Hin. }
    rewrite Hmem, Hs. split; [reflexivity|]. split; [rewrite Hkeys; exact Hin|].
    assert (Hnow : In x (dict_keys pools')) by (rewrite Hkeys; exact Hin).
    apply dict_get_in_keys in Hnow. destruct Hnow as [p' Hp'].
    apply dict_get_in_keys in Hin. destruct Hin as [p0 Hp0].
    rewrite Hsame, Hp0, Hp', Z.eqb_refl. reflexivity.
  - intro Hx. destruct (Hother Hx) as [Hs Hsame]. split.
    + destruct (dict_mem x pools'); [exact Hs | discriminate].
    + rewrite <- Hsame.
      destruct (dict_get x (Strategy.owned_pools (Stakeholder.strategy a))) as [p|];
        [|reflexivity].
      f_equal. destruct (dict_mem x pools'); [|reflexivity].
      destruct (dict_get x (World.shared w)) as [holder|]; [|reflexivity].
      destruct (dict_get x pools') as [p'|]; [|reflexivity].
      destruct (Z.eqb holder unique_id) eqn:E; [|reflexivity].
      apply Z.eqb_eq in E. subst holder. exfalso. apply Hs. reflexivity.
Qed.

Lemma delegating_loop_shared (unique_id : Z) (opened : list Z) (staged_pools : Dict Pool.t)
    (changes : Dict Q) :
  forall w w',
    opened_are_shared unique_id opened staged_pools w ->
    wfold (fun _ change => apply_allocation_change unique_id change) changes tt w
    = (ok tt, w') ->
    opened_are_shared unique_id opened staged_pools w'.
Proof.
  induction changes as [|[pool_id allocation_change] changes IH]; intros w w' Hw H.
  - simpl in H. unfold wret in H. injection H as <-. exact Hw.
  - cbn [wfold] in H. apply wbind_returns in H. destruct H as [[] [w1 [Hchange Hrest]]].
    apply (IH w1 w'); [|exact Hrest]. clear IH Hrest.
    pose proof (apply_allocation_change_registered _ _ _ _ Hchange) as Hreg. simpl in Hreg.
    unfold apply_allocation_change in Hchange.
    apply wbind_returns in Hchange. destruct Hchange as [pool [w0 [Hpool Hchange]]].
    apply wreading_returns in Hpool. destruct Hpool as [_ ->].
    destruct (negb (Qeq_bool allocation_change 0)).
    + apply wbind_returns in Hchange. destruct Hchange as [pool' [w0 [Hpool' Hchange]]].
      apply wreading_returns in Hpool'. destruct Hpool' as [_ ->].
      apply (set_registry_pool_shared _ _ _ _ _ _ _ _ Hreg Hw Hchange).
    + unfold wret in Hchange. injection Hchange as <-. exact Hw.
Qed.

Lemma execute_strategy_effect (unique_id : Z) (w w' : World.t) (self : Stakeholder.t)
    (staged : Strategy.t) :
  visits_its_members env ->
  dict_get unique_id (Simulation.agents (World.model w)) = Some self ->
  Stakeholder.new_strategy self = Some staged ->
  execute_strategy env unique_id w = (ok tt, w') ->
  let old_owned_pools := Strategy.owned_pools (Stakeholder.strategy self) in
  let new_owned_pools := Strategy.owned_pools staged in
  let closed := keys_minus old_owned_pools new_owned_pools in
  let opened := keys_minus new_owned_pools old_owned_pools in
  acts_only (World.model w) (World.model w')
  /\ dict_keys (Simulation.agents (World.model w'))
     = dict_keys (Simulation.agents (World.model w))
  /\ (forall other, other <> unique_id ->
        match dict_get other (Simulation.agents (World.model w)),
              dict_get other (Simulation.agents (World.model w')) with
        | Some a, Some a' => agent_kept (simultaneous (World.model w)) a a'
        | None, None => True
        | _, _ => False
        end)
  /\ (exists owned_pools allocations,
        dict_get unique_id (Simulation.agents (World.model w'))
        = Some (committed self (Strategy.set_stake_allocations allocations staged)
                  match opened with
                  | [] => Stakeholder.remaining_min_steps_to_keep_pool self
                  | _ :: _ =>
                      Simulation.min_steps_to_keep_pool (Simulation.attr (World.model w))
                  end
                  owned_pools)
        /\ dict_keys owned_pools = dict_keys new_owned_pools
        /\ (simultaneous (World.model w) = false ->
            allocations = Strategy.stake_allocations staged))
  /\ (forall x, In x closed ->
        exists pool, dict_get x (Simulation.pools (World.model w)) = Some pool
                     /\ Pool.owner pool = Stakeholder.unique_id self)
  /\ (forall x, In x (dict_keys (Simulation.pools (World.model w')))
                <-> (In x (dict_keys (Simulation.pools (World.model w))) /\ ~ In x closed)
                    \/ In x opened)
  /\ opened_are_shared unique_id opened new_owned_pools w'
  /\ (forall x, In x (dict_keys (Strategy.stake_allocations (Stakeholder.strategy self)))
                \/ In x (dict_keys (Strategy.stake_allocations staged)) ->
                In x (dict_keys (Simulation.pools (World.model w')))).
Proof.
  intros Hvisits Hself Hstaged H old_owned_pools new_owned_pools closed opened.
  apply execute_strategy_stages in H.
  destruct H as [self0 [staged0 [changes [w1 [w2 [self2 [staged2 [w4 H]]]]]]]].
  destruct H
    as [Hself0 [Hstaged0 [Hchanges [Hclose [Hkept [Hself2 [Hstaged2 [Hopen Hdelegate]]]]]]]].
  rewrite Hself in Hself0. injection Hself0 as <-.
  rewrite Hstaged in Hstaged0. injection Hstaged0 as <-.
  fold old_owned_pools new_owned_pools in Hclose, Hkept, Hopen.
  fold closed in Hclose. fold opened in Hopen.
  apply closing_loop in Hclose. destruct Hclose as [Hw1 [Hclosed Hunclosed]].
  apply keeping_loop in Hkept. destruct Hkept as [Hw2 [Hkeys2 [_ _]]].
  pose proof (registry_written_trans _ _ _ Hw1 Hw2) as Hw12.
  destruct Hw12 as [Hacts2 [Hagents2 Hrelated2]].
  pose proof (Hrelated2 unique_id) as Hkept_self. rewrite Hself, Hself2 in Hkept_self.
  destruct Hkept_self
    as [Hid [Hcost [Hstake [Hmyopic [Habstains [Hcooldown [Hstagedk [Hnew _]]]]]]]].
  rewrite Hstaged2, Hstaged in Hstagedk, Hnew. simpl in Hstagedk.
  remember (Strategy.stake_allocations staged2) as allocations eqn:Eallocations.
  clear Eallocations. subst staged2.
  set (staged2 := Strategy.set_stake_allocations allocations staged) in *.
  set (self3 := Stakeholder.set_new_strategy None (Stakeholder.set_strategy staged2 self2))
    in *.
  match type of Hopen with
  | wfold _ _ _ ?world = _ => set (w3 := world) in *
  end.
  assert (Hself3 : dict_get unique_id (Simulation.agents (World.model w3)) = Some self3).
  { simpl. apply dict_get_set_same. }
  destruct (opening_loop unique_id _ w3 w4 self3 Hself3 Hopen)
    as [Hacts4 [Hagents4 [Hothers4 [Hself4 [Hopened Hunopened]]]]].
  pose proof (delegating_loop _ _ _ _ Hdelegate) as Hloop.
  destruct Hloop as [[Hacts5 [Hagents5 Hrelated5]] [Hkeys5 [Hchanged _]]].
  assert (Hacts3 : acts_only (World.model w2) (World.model w3)).
  { unfold acts_only. simpl. destruct (World.model w2). reflexivity. }
  assert (Hacts : acts_only (World.model w) (World.model w')).
  { apply (acts_only_trans _ _ _ Hacts2). apply (acts_only_trans _ _ _ Hacts3).
    apply (acts_only_trans _ _ _ Hacts4). exact Hacts5. }
  split; [exact Hacts|].
  split.
  { rewrite Hagents5, Hagents4. simpl. rewrite <- Hagents2.
    apply (dict_keys_set_registered _ self2). exact Hself2. }
  split.
  { intros other Hne. specialize (Hrelated2 other). specialize (Hrelated5 other).
    rewrite (Hothers4 other Hne) in Hrelated5. simpl in Hrelated5.
    rewrite dict_get_set_other in Hrelated5 by congruence.
    destruct (dict_get other (Simulation.agents (World.model w))),
      (dict_get other (Simulation.agents (World.model w2))),
      (dict_get other (Simulation.agents (World.model w'))); try contradiction; try exact I.
    apply (agent_kept_trans _ _ _ _ Hrelated2). apply agent_pools_only_kept. exact Hrelated5. }
  split.
  { specialize (Hrelated5 unique_id). rewrite Hself4 in Hrelated5.
    destruct (dict_get unique_id (Simulation.agents (World.model w'))) as [self'|];
      [|contradiction].
    exists (Strategy.owned_pools (Stakeholder.strategy self')), allocations.
    destruct Hrelated5 as [Heq Hkeys]. split; [|split].
    - f_equal. rewrite Heq. unfold committed.
      pose proof (visits_nothing opened Hvisits) as Hnone.
      destruct (acts_only_attr _ _ Hacts2) as [Hattr2 _].
      destruct (set_iteration env opened), opened; try contradiction; simpl;
        rewrite <- ?Hid, <- ?Hcost, <- ?Hstake, <- ?Hmyopic, <- ?Habstains, <- ?Hcooldown,
          <- ?Hattr2; reflexivity.
    - rewrite Hkeys. destruct (set_iteration env opened); reflexivity.
    - intro Hseq. specialize (Hnew Hseq). injection Hnew as Hnew.
      apply (f_equal Strategy.stake_allocations) in Hnew. exact Hnew. }
  split.
  { intros x Hx. apply (Hclosed x). apply Hvisits. exact Hx. }
  assert (Hpools3 : Simulation.pools (World.model w3) = Simulation.pools (World.model w2))
    by reflexivity.
  split.
  { intro x. rewrite Hkeys5.
    destruct (in_dec Z.eq_dec x (set_iteration env opened)) as [Ho | Hno].
    - destruct (Hopened x Ho) as [Hin [Hp _]]. split.
      + intros _. right. apply Hvisits. exact Ho.
      + intros _. apply dict_get_in_keys. rewrite Hp. apply dict_get_in_keys. exact Hin.
    - destruct (Hunopened x Hno) as [Hp _].
      rewrite !dict_get_in_keys. rewrite Hp, Hpools3. rewrite <- !dict_get_in_keys.
      rewrite Hkeys2. rewrite !dict_get_in_keys.
      destruct (in_dec Z.eq_dec x (set_iteration env closed)) as [Hc | Hnc].
      + destruct (Hclosed x Hc) as [Hnone _]. rewrite Hnone. split.
        * intros [p Hp']. discriminate.
        * intros [[_ Hnot] | Hin]; [exfalso; apply Hnot; apply Hvisits; exact Hc|].
          exfalso. apply Hno. apply Hvisits. exact Hin.
      + rewrite (Hunclosed x Hnc). split.
        * intro Hreg. left. split; [exact Hreg|].
          intro Hin. apply Hnc. apply Hvisits. exact Hin.
        * intros [[Hreg _] | Hin]; [exact Hreg|].
          exfalso. apply Hno. apply Hvisits. exact Hin. }
  split.
  2:{ intros x Hx. rewrite Hkeys5. apply Hchanged. apply dict_get_in_keys.
      destruct (allocation_changes_returns
                  (Strategy.stake_allocations (Stakeholder.strategy self))
                  (Strategy.stake_allocations staged) Hvisits) as [changes0 [Hc0 [_ Hget]]].
      rewrite Hchanges in Hc0. injection Hc0 as <-. rewrite Hget.
      unfold allocation_change.
      destruct Hx as [Hx | Hx]; apply dict_get_in_keys in Hx; destruct Hx as [v Hv];
        rewrite Hv.
      - destruct (dict_get x (Strategy.stake_allocations staged)); eexists; reflexivity.
      - destruct (dict_get x (Strategy.stake_allocations (Stakeholder.strategy self)));
          eexists; reflexivity. }
  apply (delegating_loop_shared unique_id opened new_owned_pools changes w4 w');
    [|exact Hdelegate].
  eexists. split; [exact Hself4|].
  assert (Hstrategy : Strategy.owned_pools
                        (Stakeholder.strategy
                           match set_iteration env opened with
                           | [] => self3
                           | _ :: _ =>
                               set_remaining_min_steps_to_keep_pool
                                 (Simulation.min_steps_to_keep_pool
                                    (Simulation.attr (World.model w3)))
                                 self3
                           end)
                      = new_owned_pools).
  { destruct (set_iteration env opened); reflexivity. }
  rewrite Hstrategy. intro x. split.
  - intro Hx. apply Hvisits in Hx. destruct (Hopened x Hx) as [Hin [Hp Hs]].
    split; [exact Hs|]. split; [|symmetry; exact Hp].
    apply dict_get_in_keys. rewrite Hp. apply dict_get_in_keys. exact Hin.
  - intro Hx. assert (Hno : ~ In x (set_iteration env opened)).
    { intro Hin. apply Hx. apply Hvisits. exact Hin. }
    destruct (Hunopened x Hno) as [_ Hs]. split; [|reflexivity].
    rewrite Hs. simpl. intro Hshared.
    apply (dict_get_filter_values (fun holder => negb (Z.eqb holder unique_id))) in Hshared.
    rewrite Z.eqb_refl in Hshared. discriminate.
Qed.

End ActingOn.

(** ** Committing a strategy *)

(** X22. When [execute_strategy] returns, the staged strategy of the agent is its
    current one and nothing is staged.  The agent's other attributes are as
    before, but its cooldown is the model's [min_steps_to_keep_pool] when
    the staged strategy has a pool that the old one did not have.  Unless
    moves are simultaneous, the allocations are the staged ones.  Of the
    model only the registry and the agents change, and the other agents
    keep everything but allocations and the contents of their pools. *)
Theorem execute_strategy_commits (env : Env) (unique_id : Z) (w w' : World.t)
    (self : Stakeholder.t) (staged : Strategy.t) :
  visits_its_members env ->
  dict_get unique_id (Simulation.agents (World.model w)) = Some self ->
  Stakeholder.new_strategy self = Some staged ->
  execute_strategy env unique_id w = (ok tt, w') ->
  let opened := keys_minus (Strategy.owned_pools staged)
                           (Strategy.owned_pools (Stakeholder.strategy self)) in
  (exists owned_pools allocations,
     dict_get unique_id (Simulation.agents (World.model w'))
     = Some (committed self (Strategy.set_stake_allocations allocations staged)
               match opened with
               | [] => Stakeholder.remaining_min_steps_to_keep_pool self
               | _ :: _ => Simulation.min_steps_to_keep_pool (Simulation.attr (World.model w))
               end
               owned_pools)
     /\ dict_keys owned_pools = dict_keys (Strategy.owned_pools staged)
     /\ (simultaneous (World.model w) = false ->
         allocations = Strategy.stake_allocations staged))
  /\ acts_only (World.model w) (World.model w')
  /\ dict_keys (Simulation.agents (World.model w'))
     = dict_keys (Simulation.agents (World.model w))
  /\ (forall other, other <> unique_id ->
        match dict_get other (Simulation.agents (World.model w)),
              dict_get other (Simulation.agents (World.model w')) with
        | Some a, Some a' => agent_kept (simultaneous (World.model w)) a a'
        | None, None => True
        | _, _ => False
        end).
Proof.
  intros Hvisits Hself Hstaged H opened.
  destruct (execute_strategy_effect env unique_id w w' self staged Hvisits Hself Hstaged H)
    as [Hacts [Hkeys [Hothers [Hagent _]]]].
  split; [exact Hagent|]. split; [exact Hacts|]. split; [exact Hkeys | exact Hothers].
Qed.

(** X23. [execute_strategy] returns only if the pools that the staged strategy
    gives up are registered and owned by the agent.  The registry then
    holds the pools it held, less those, and the pools that the staged
    strategy adds; and every pool to which the agent allocated or now
    allocates stake is in it. *)
Theorem execute_strategy_registry (env : Env) (unique_id : Z) (w w' : World.t)
    (self : Stakeholder.t) (staged : Strategy.t) :
  visits_its_members env ->
  dict_get unique_id (Simulation.agents (World.model w)) = Some self ->
  Stakeholder.new_strategy self = Some staged ->
  execute_strategy env unique_id w = (ok tt, w') ->
  let old_owned_pools := Strategy.owned_pools (Stakeholder.strategy self) in
  let new_owned_pools := Strategy.owned_pools staged in
  let closed := keys_minus old_owned_pools new_owned_pools in
  let opened := keys_minus new_owned_pools old_owned_pools in
  (forall x, In x closed ->
     exists pool, dict_get x (Simulation.pools (World.model w)) = Some pool
                  /\ Pool.owner pool = Stakeholder.unique_id self)
  /\ (forall x, In x (dict_keys (Simulation.pools (World.model w')))
                <-> (In x (dict_keys (Simulation.pools (World.model w))) /\ ~ In x closed)
                    \/ In x opened)
  /\ (forall x, In x (dict_keys (Strategy.stake_allocations (Stakeholder.strategy self)))
                \/ In x (dict_keys (Strategy.stake_allocations staged)) ->
                In x (dict_keys (Simulation.pools (World.model w')))).
Proof.
  intros Hvisits Hself Hstaged H old_owned_pools new_owned_pools closed opened.
  destruct (execute_strategy_effect env unique_id w w' self staged Hvisits Hself Hstaged H)
    as [_ [_ [_ [_ [Hclosed [Hregistry [_ Hallocated]]]]]]].
  split; [exact Hclosed|]. split; [exact Hregistry | exact Hallocated].
Qed.

(** X24. After [execute_strategy] the pools that the agent has opened are in the
    registry as the very objects that its strategy holds: what the registry
    shows of them, delegations of this call included, the strategy shows
    too.  The other pools of the strategy are the staged copies, as they
    were staged, whatever the registry holds under their ids. *)
Theorem execute_strategy_shares_opened_pools (env : Env) (unique_id : Z) (w w' : World.t)
    (self : Stakeholder.t) (staged : Strategy.t) :
  visits_its_members env ->
  dict_get unique_id (Simulation.agents (World.model w)) = Some self ->
  Stakeholder.new_strategy self = Some staged ->
  execute_strategy env unique_id w = (ok tt, w') ->
  let opened := keys_minus (Strategy.owned_pools staged)
                           (Strategy.owned_pools (Stakeholder.strategy self)) in
  exists self',
    dict_get unique_id (Simulation.agents (World.model w')) = Some self'
    /\ (forall x, In x opened ->
          dict_get x (World.shared w') = Some unique_id
          /\ exists pool,
               dict_get x (Simulation.pools (World.model w')) = Some pool
               /\ dict_get x (Strategy.owned_pools (Stakeholder.strategy self')) = Some pool)
    /\ (forall x, ~ In x opened ->
          dict_get x (World.shared w') <> Some unique_id
          /\ dict_get x (Strategy.owned_pools (Stakeholder.strategy self'))
             = dict_get x (Strategy.owned_pools staged)).
Proof.
  intros Hvisits Hself Hstaged H opened.
  destruct (execute_strategy_effect env unique_id w w' self staged Hvisits Hself Hstaged H)
    as [_ [_ [_ [_ [_ [_ [[self' [Hself' Hshared]] _]]]]]]].
  exists self'. split; [exact Hself'|]. split.
  - intros x Hx. destruct (proj1 (Hshared x) Hx) as [Hs [Hin Hsame]].
    split; [exact Hs|]. apply dict_get_in_keys in Hin. destruct Hin as [pool Hpool].
    exists pool. split; [exact Hpool|]. rewrite Hsame. exact Hpool.
  - intros x Hx. apply (proj2 (Hshared x) Hx).
Qed.

(** X25. The dict [allocation_changes] of [execute_strategy] is built without
    error; it has one entry for every pool to which the old or the new
    strategy allocates stake, and no others: the new allocation less the
    old one where both allocate, the new one or minus the old one where
    only one does. *)
Theorem allocation_changes_between (env : Env) (old_allocations new_allocations : Dict Q) :
  visits_its_members env ->
  exists changes,
    allocation_changes env old_allocations new_allocations = ok changes
    /\ NoDup (dict_keys changes)
    /\ (forall x, In x (dict_keys changes)
                  <-> In x (dict_keys old_allocations) \/ In x (dict_keys new_allocations))
    /\ forall x, dict_get x changes = allocation_change old_allocations new_allocations x.
Proof.
  intro Hvisits.
  destruct (allocation_changes_returns env old_allocations new_allocations Hvisits)
    as [changes [Hchanges [Hnd Hget]]].
  exists changes. split; [exact Hchanges|]. split; [exact Hnd|]. split; [|exact Hget].
  intro x. rewrite !dict_get_in_keys. rewrite Hget. unfold allocation_change.
  destruct (dict_get x old_allocations) as [a|], (dict_get x new_allocations) as [b|].
  - split; [intros _; left; eexists; reflexivity | intros _; eexists; reflexivity].
  - split; [intros _; left; eexists; reflexivity | intros _; eexists; reflexivity].
  - split; [intros _; right; eexists; reflexivity | intros _; eexists; reflexivity].
  - split; [intros [c Hc]; discriminate | intros [[c Hc] | [c Hc]]; discriminate].
Qed.

(** ** One activation of an agent *)

Lemma lift_returns {A} (c : M A) (w w' : World.t) (a : A) :
  lift c w = (ok a, w') ->
  exists s, c (World.model w) = (ok a, s) /\ w' = World.make s (World.shared w).
Proof.
  unfold lift. destruct (c (World.model w)) as [r s]. intro H.
  injection H as -> <-. exists s. split; reflexivity.
Qed.

Lemma make_move_returns (env : Env) (unique_id : Z) (w w' : World.t) :
  make_move env unique_id w = (ok tt, w') ->
  exists self decided s1,
    dict_get unique_id (Simulation.agents (World.model w)) = Some self
    /\ update_strategy env self (World.model w) = (ok decided, s1)
    /\ w' = World.make
              (Simulation.set_agents (dict_set unique_id decided (Simulation.agents s1)) s1)
              (World.shared w).
Proof.
  unfold make_move. intro H.
  apply wbind_returns in H. destruct H as [self [w0 [Hself H]]].
  apply agent_returns in Hself. destruct Hself as [Hself ->].
  apply wbind_returns in H. destruct H as [decided [w1 [Hdecide H]]].
  apply lift_returns in Hdecide. destruct Hdecide as [s1 [Hdecide ->]].
  unfold set_agent in H. apply wmodify_returns in H. destruct H as [_ ->].
  exists self, decided, s1. split; [exact Hself|]. split; [exact Hdecide | reflexivity].
Qed.

Lemma dict_set_twice {V} (k : Z) (v v' : V) (d : Dict V) :
  dict_set k v (dict_set k v' d) = dict_set k v d.
Proof.
  induction d as [|[k0 v0] d IH]; simpl.
  - rewrite Z.eqb_refl. reflexivity.
  - destruct (Z.eqb k k0) eqn:E; simpl.
    + rewrite Z.eqb_refl. reflexivity.
    + rewrite E. f_equal. exact IH.
Qed.

Lemma not_simultaneous (s : Simulation.t) :
  py_in "simultaneous"
        (py_lower (Simulation.agent_activation_order (Simulation.attr s))) = false ->
  simultaneous s = false.
Proof.
  unfold simultaneous. intro H.
  destruct (String.eqb (Simulation.agent_activation_order (Simulation.attr s))
                       "Simultaneous") eqn:E; [|reflexivity].
  apply String.eqb_eq in E. rewrite E in H. vm_compute in H. discriminate.
Qed.

(** The countdown at the end of [Stakeholder.step]. *)
Lemma countdown_returns (unique_id : Z) (a : Stakeholder.t) (w w' : World.t) :
  dict_get unique_id (Simulation.agents (World.model w)) = Some a ->
  wbind (agent unique_id)
        (fun self =>
           if (0 <? Stakeholder.remaining_min_steps_to_keep_pool self)%Z
           then set_agent unique_id
                  (set_remaining_min_steps_to_keep_pool
                     (Stakeholder.remaining_min_steps_to_keep_pool self - 1) self)
           else wret tt) w = (ok tt, w') ->
  acts_only (World.model w) (World.model w')
  /\ Simulation.pools (World.model w') = Simulation.pools (World.model w)
  /\ World.shared w' = World.shared w
  /\ Simulation.agents (World.model w')
     = dict_set unique_id
         (set_remaining_min_steps_to_keep_pool
            (counted_down (Stakeholder.remaining_min_steps_to_keep_pool a)) a)
         (Simulation.agents (World.model w)).
Proof.
  intros Ha H. apply wbind_returns in H. destruct H as [self [w0 [Hself H]]].
  apply agent_returns in Hself. destruct Hself as [Hself ->].
  rewrite Ha in Hself. injection Hself as <-. unfold counted_down.
  destruct (0 <? Stakeholder.remaining_min_steps_to_keep_pool a)%Z.
  - unfold set_agent in H. apply wmodify_returns in H. destruct H as [_ ->]. simpl.
    split; [unfold acts_only; destruct (World.model w); reflexivity|].
    repeat split.
  - unfold wret in H. injection H as <-.
    split; [apply acts_only_refl|]. split; [reflexivity|]. split; [reflexivity|].
    assert (Hsame : set_remaining_min_steps_to_keep_pool
                      (Stakeholder.remaining_min_steps_to_keep_pool a) a = a)
      by (destruct a; reflexivity).
    rewrite Hsame. clear Hsame. revert Ha.
    generalize (Simulation.agents (World.model w)). intro d.
    induction d as [|[k v] d IH]; simpl; [discriminate|].
    destruct (Z.eqb unique_id k) eqn:E.
    + intro Hv. injection Hv as ->. apply Z.eqb_eq in E. subst k. reflexivity.
    + intro Hv. f_equal. apply IH. exact Hv.
Qed.


(** ** Closing a pool when moves are simultaneous *)

Lemma Qltb_cancel (a : Q) : Qltb (a + - a) 0 = false.
Proof.
  unfold Qltb. apply negb_false_iff. apply Qle_bool_iff. lra.
Qed.

Lemma Qeq_bool_cancel (a : Q) : Qeq_bool (a + - a) 0 = true.
Proof. apply Qeq_bool_iff. lra. Qed.

Lemma undelegate_stale_staged_strategy (pool_id player_id : Z) (s : Simulation.t)
    (pool : Pool.t) (amount : Q) (rest : Dict Q) (player : Stakeholder.t)
    (staged : Strategy.t) :
  Simulation.agent_activation_order (Simulation.attr s) = "Simultaneous"%string ->
  dict_get pool_id (Simulation.pools s) = Some pool ->
  Pool.delegators pool = (player_id, amount) :: rest ->
  dict_get player_id (Simulation.agents s) = Some player ->
  In pool_id (dict_keys (Strategy.stake_allocations (Stakeholder.strategy player))) ->
  Stakeholder.new_strategy player = Some staged ->
  ~ In pool_id (dict_keys (Strategy.stake_allocations staged)) ->
  undelegate pool_id player_id s
  = (raise (KeyError pool_id),
     Simulation.set_agents
       (dict_set player_id
          (Stakeholder.set_strategy
             (Strategy.set_stake_allocations
                (dict_remove pool_id
                   (Strategy.stake_allocations (Stakeholder.strategy player)))
                (Stakeholder.strategy player))
             player)
          (Simulation.agents s))
       (Simulation.set_pools
          (dict_set pool_id
             (Pool.set_delegators
                (dict_remove player_id (Pool.delegators pool))
                (Pool.set_stake (Pool.stake pool + - amount) pool))
             (Simulation.pools s))
          s)).
Proof.
  intros Horder Hpool Hdelegators Hplayer Hallocated Hstaged Hstale.
  assert (Hamount : dict_lookup player_id (Pool.delegators pool) = ok amount).
  { unfold dict_lookup. rewrite Hdelegators. simpl. rewrite Z.eqb_refl. reflexivity. }
  assert (Hupdate : Pool.update_delegation pool (- amount) player_id
                    = ok (Pool.set_delegators
                            (dict_remove player_id (Pool.delegators pool))
                            (Pool.set_stake (Pool.stake pool + - amount) pool))).
  { unfold Pool.update_delegation. unfold dict_lookup in Hamount.
    destruct (dict_get player_id (Pool.delegators pool)) as [a|]; [|discriminate].
    injection Hamount as ->. rewrite Qltb_cancel, Qeq_bool_cancel. reflexivity. }
  assert (Hpop : dict_pop pool_id (Strategy.stake_allocations (Stakeholder.strategy player))
                 = ok (dict_remove pool_id
                         (Strategy.stake_allocations (Stakeholder.strategy player)))).
  { unfold dict_pop. rewrite (proj2 (dict_mem_in_keys _ _) Hallocated). reflexivity. }
  assert (Hstale_pop : dict_pop pool_id (Strategy.stake_allocations staged)
                       = raise (KeyError pool_id)).
  { unfold dict_pop.
    destruct (dict_mem pool_id (Strategy.stake_allocations staged)) eqn:E; [|reflexivity].
    exfalso. apply Hstale. apply dict_mem_in_keys. exact E. }
  unfold undelegate, mbind, reading, modify.
  unfold dict_lookup at 1. rewrite Hpool. cbv beta iota delta [ok].
  rewrite Hamount. cbv beta iota delta [ok]. rewrite Hupdate. cbv beta iota delta [ok].
  cbn [Simulation.agents Simulation.set_pools].
  unfold dict_lookup at 1. rewrite Hplayer. cbv beta iota delta [ok]. rewrite Hpop. cbv beta iota delta [ok].
  cbn [Simulation.attr Simulation.set_agents Simulation.set_pools
       Stakeholder.new_strategy Stakeholder.set_strategy].
  rewrite Horder, String.eqb_refl, Hstaged. cbv beta iota delta [ok]. rewrite Hstale_pop. reflexivity.
Qed.


(** ** The properties at concrete inputs *)

Lemma ranks_from_keys (all seen rest : Dict Q) :
  dict_keys (ranks_from all seen rest) = dict_keys rest.
Proof.
  revert seen. induction rest as [|[key x] rest IH]; intro seen; [reflexivity|].
  simpl. unfold dict_keys in *. simpl. f_equal. apply IH.
Qed.

Lemma reference_env_ranks_its_keys : ranks_its_keys reference_env.
Proof.
  intros scores key. simpl. unfold ranks_of. rewrite ranks_from_keys. reflexivity.
Qed.

Lemma whale_pools_wf : registry_wf whale_pools.
Proof.
  split.
  - vm_compute. repeat constructor; simpl; intuition discriminate.
  - intros k p Hin. vm_compute in Hin.
    repeat (destruct Hin as [Hin | Hin]; [injection Hin as <- <-; reflexivity|]).
    contradiction.
Qed.

Lemma calculate_margin_binary_search_range_witness :
  exists m,
    calculate_margin_binary_search reference_env example_operator example_model
                                   example_pool (1 # 4) = ok m
    /\ 0 <= m /\ m <= 1 # 2.
Proof.
  pose proof (calculate_margin_binary_search_range reference_env example_operator
                example_model example_pool (1 # 4)) as H.
  destruct (calculate_margin_binary_search reference_env example_operator example_model
              example_pool (1 # 4)) as [e|m] eqn:E; [vm_compute in E; discriminate|].
  exists m. split; [reflexivity|].
  destruct H as [H0 [H2 _]]; [lra | lra |]. split; [exact H0 | lra].
Defined.

Lemma delegation_utility_not_negative_witness :
  exists u,
    calculate_utility reference_env example_delegator example_model
                      (Stakeholder.strategy example_delegator) = ok u
    /\ 0 <= u.
Proof.
  pose proof (delegation_utility_not_negative reference_env example_delegator example_model
                (Stakeholder.strategy example_delegator) eq_refl) as H.
  destruct (calculate_utility reference_env example_delegator example_model
              (Stakeholder.strategy example_delegator)) as [e|u] eqn:E;
    [vm_compute in E; discriminate|].
  exists u. split; [reflexivity | exact H].
Defined.

Lemma determine_current_pools_retires_witness :
  exists retired,
    determine_current_pools reference_env whale 5 = ok (without_pools retired whale_pools)
    /\ List.length retired = 2%nat
    /\ NoDup retired.
Proof.
  destruct (determine_current_pools_retires reference_env whale 5
              reference_env_ranks_its_keys (proj1 whale_pools_wf))
    as [_ [H _]].
  destruct H as [retired [Heq [Hlen [Hnd _]]]]; [vm_compute; split; [reflexivity | discriminate]|].
  exists retired. split; [exact Heq|]. split; [|exact Hnd].
  change (Strategy.num_pools (Stakeholder.strategy whale) - 5)%Z with 2%Z in Hlen. lia.
Defined.

Lemma run_model_stops_witness :
  exists s',
    run_model idle_schedule 1001 example_model = ok s'
    /\ keeps_running s' = false
    /\ (Simulation.steps s' <= 1000)%Z.
Proof.
  assert (Hfuel : (Z.to_nat (Simulation.max_iterations (Simulation.attr example_model)
                             - Simulation.steps example_model + 1) <= 1001)%nat)
    by (vm_compute; lia).
  pose proof (run_model_stops idle_schedule 1001 example_model eq_refl Hfuel) as H.
  destruct (run_model idle_schedule 1001 example_model) as [e|s'] eqn:E;
    [vm_compute in E; discriminate|].
  exists s'. split; [reflexivity|]. destruct H as [Hstop Hbound].
  split; [exact Hstop|]. apply Hbound. vm_compute. discriminate.
Defined.

Lemma step_keeps_stake_and_beta_witness :
  exists s',
    step idle_schedule example_model = ok s'
    /\ Simulation.total_stake s' = Simulation.total_stake example_model.
Proof.
  destruct (step idle_schedule example_model) as [e|s'] eqn:E;
    [vm_compute in E; discriminate|].
  exists s'. split; [reflexivity|].
  exact (proj1 (step_keeps_stake_and_beta idle_schedule example_model s' E)).
Defined.


Lemma init_establishes_witness :
  exists s,
    init example_args false example_args example_sampled 0 = ok s
    /\ Simulation.pools s = []
    /\ Simulation.total_stake s = py_sum [1 # 2; 1 # 2] / (1 - 0)
    /\ Simulation.running s = true.
Proof.
  destruct (init example_args false example_args example_sampled 0) as [e|s] eqn:E;
    [vm_compute in E; discriminate|].
  exists s. split; [reflexivity|].
  destruct (init_establishes example_args example_args false example_sampled 0 s E)
    as [_ [Hrun [_ [Hpools [_ [_ [_ [_ [_ [Htotal _]]]]]]]]]].
  split; [exact Hpools|]. split; [exact Htotal | exact Hrun].
Defined.

Lemma init_counts_eras_witness :
  exists s,
    init three_era_args false three_era_args example_sampled 0 = ok s
    /\ Simulation.total_eras s = 3%nat.
Proof.
  destruct (init three_era_args false three_era_args example_sampled 0) as [e|s] eqn:E;
    [vm_compute in E; discriminate|].
  exists s. split; [reflexivity|].
  exact (proj1 (init_counts_eras three_era_args three_era_args false example_sampled 0 s E)).
Defined.

Lemma whale_pools_below_id_seq :
  forall k, In k (dict_keys whale_pools) -> (k <= Simulation.id_seq whale_model)%Z.
Proof.
  intros k Hin. vm_compute in Hin.
  repeat (destruct Hin as [<- | Hin]; [vm_compute; discriminate|]). contradiction.
Qed.


Lemma operator_move_within_stake_witness :
  exists strategy s',
    find_operator_move reference_env example_newcomer 1 [] example_model = (ok strategy, s')
    /\ py_sum (Strategy.pledges strategy)
       + py_sum (dict_values (Strategy.stake_allocations strategy)) <= 3 # 5.
Proof.
  destruct (find_operator_move reference_env example_newcomer 1 [] example_model)
    as [[e|strategy] s'] eqn:E; [vm_compute in E; discriminate|].
  exists strategy, s'. split; [reflexivity|].
  destruct (operator_move_within_stake reference_env example_newcomer 1 [] example_model s'
              strategy E) as [_ [_ [H _]]].
  exact H.
Defined.

Lemma whale_consistent : consistent_operator whale whale_model.
Proof.
  split; [exact whale_pools_wf|]. split; [reflexivity | exact whale_pools_below_id_seq].
Qed.


Lemma best_operator_move_is_best_witness :
  exists strategies s1 max_operator_utility st last_visited,
    find_operator_moves reference_env example_newcomer example_model = (ok strategies, s1)
    /\ best_operator_move reference_env example_newcomer s1 (dict_values strategies)
       = ok (max_operator_utility, Some st, last_visited)
    /\ 0 < max_operator_utility
    /\ calculate_utility reference_env example_newcomer s1 st = ok max_operator_utility.
Proof.
  destruct (find_operator_moves reference_env example_newcomer example_model)
    as [[e|strategies] s1] eqn:E; [vm_compute in E; discriminate|].
  destruct (best_operator_move reference_env example_newcomer s1 (dict_values strategies))
    as [e|[[u [st|]] last_visited]] eqn:Eb.
  - vm_compute in E. injection E as <- <-. vm_compute in Eb. discriminate.
  - exists strategies, s1, u, st, last_visited. split; [reflexivity|].
    split; [exact Eb|].
    destruct (best_operator_move_is_best reference_env example_newcomer s1
                (dict_values strategies) u (Some st) last_visited Eb)
      as [_ [_ [_ [H _]]]].
    destruct (H st eq_refl) as [_ [Hpos Hu]]. split; [exact Hpos | exact Hu].
  - vm_compute in E. injection E as <- <-. vm_compute in Eb. discriminate.
Defined.

Lemma possible_moves_branches_witness :
  exists moves last_visited s1,
    possible_moves reference_env example_newcomer example_model
    = (ok (moves, last_visited), s1)
    /\ map fst moves = [current; delegator; operator].
Proof.
  destruct (possible_moves reference_env example_newcomer example_model)
    as [[e|[moves last_visited]] s1] eqn:E; [vm_compute in E; discriminate|].
  exists moves, last_visited, s1. split; [reflexivity|].
  destruct (possible_moves_branches reference_env example_newcomer example_model s1 moves
              last_visited E) as [H _].
  rewrite H.
  change (has_potential_for_pool reference_env example_newcomer example_model) with true.
  reflexivity.
Defined.

Lemma insert_ascending_in (x y : Z) (l : list Z) :
  In x (insert_ascending y l) <-> x = y \/ In x l.
Proof.
  induction l as [|z l IH]; simpl.
  - split; [intros [H | []]; left; congruence | intros [H | []]; left; congruence].
  - destruct (y <=? z)%Z; simpl.
    + split; [intros [H | H]; [left; congruence | right; exact H]
             | intros [H | H]; [left; congruence | right; exact H]].
    + rewrite IH. tauto.
Qed.

Lemma ascending_env_visits : visits_its_members ascending_env.
Proof.
  intros members x. simpl. unfold ascending_order.
  induction members as [|y members IH]; simpl; [reflexivity|].
  rewrite insert_ascending_in, IH. split; intros [H | H]; auto.
Qed.

Lemma execute_strategy_commits_witness :
  exists w1 w' a,
    make_move ascending_env 2 example_world = (ok tt, w1)
    /\ execute_strategy ascending_env 2 w1 = (ok tt, w')
    /\ dict_get 2%Z (Simulation.agents (World.model w')) = Some a
    /\ Stakeholder.new_strategy a = None
    /\ Stakeholder.remaining_min_steps_to_keep_pool a = 5%Z.
Proof.
  let r1 := eval vm_compute in (make_move ascending_env 2 example_world) in
  match r1 with
  | (inr tt, ?w1) =>
      let a := eval vm_compute in (dict_get 2%Z (Simulation.agents (World.model w1))) in
      match a with
      | Some ?self =>
          let st := eval vm_compute in (Stakeholder.new_strategy self) in
          match st with
          | Some ?staged =>
              let r2 := eval vm_compute in (execute_strategy ascending_env 2 w1) in
              match r2 with
              | (inr tt, ?w') =>
                  assert (E1 : make_move ascending_env 2 example_world = (ok tt, w1))
                    by (vm_compute; reflexivity);
                  assert (E2 : execute_strategy ascending_env 2 w1 = (ok tt, w'))
                    by (vm_compute; reflexivity);
                  destruct (execute_strategy_commits ascending_env 2 w1 w' self staged
                              ascending_env_visits eq_refl eq_refl E2)
                    as [[owned_pools [allocations [Hagent _]]] _];
                  exists w1, w'; eexists;
                  split; [exact E1|]; split; [exact E2|]; split; [exact Hagent|];
                  split; reflexivity
              end
          end
      end
  end.
Defined.

Lemma execute_strategy_registry_witness :
  exists w1 w',
    make_move ascending_env 2 example_world = (ok tt, w1)
    /\ execute_strategy ascending_env 2 w1 = (ok tt, w')
    /\ forall x, In x (dict_keys (Simulation.pools (World.model w'))) <-> x = 1%Z \/ x = 2%Z.
Proof.
  let r1 := eval vm_compute in (make_move ascending_env 2 example_world) in
  match r1 with
  | (inr tt, ?w1) =>
      let a := eval vm_compute in (dict_get 2%Z (Simulation.agents (World.model w1))) in
      match a with
      | Some ?self =>
          let st := eval vm_compute in (Stakeholder.new_strategy self) in
          match st with
          | Some ?staged =>
              let r2 := eval vm_compute in (execute_strategy ascending_env 2 w1) in
              match r2 with
              | (inr tt, ?w') =>
                  assert (E1 : make_move ascending_env 2 example_world = (ok tt, w1))
                    by (vm_compute; reflexivity);
                  assert (E2 : execute_strategy ascending_env 2 w1 = (ok tt, w'))
                    by (vm_compute; reflexivity);
                  destruct (execute_strategy_registry ascending_env 2 w1 w' self staged
                              ascending_env_visits eq_refl eq_refl E2)
                    as [_ [Hregistry _]];
                  exists w1, w'; split; [exact E1|]; split; [exact E2|];
                  intro x; rewrite (Hregistry x); simpl; intuition congruence
              end
          end
      end
  end.
Defined.

Lemma execute_strategy_shares_opened_pools_witness :
  exists w1 w' a pool,
    make_move ascending_env 2 example_world = (ok tt, w1)
    /\ execute_strategy ascending_env 2 w1 = (ok tt, w')
    /\ dict_get 2%Z (Simulation.agents (World.model w')) = Some a
    /\ dict_get 2%Z (Simulation.pools (World.model w')) = Some pool
    /\ dict_get 2%Z (Strategy.owned_pools (Stakeholder.strategy a)) = Some pool.
Proof.
  let r1 := eval vm_compute in (make_move ascending_env 2 example_world) in
  match r1 with
  | (inr tt, ?w1) =>
      let a := eval vm_compute in (dict_get 2%Z (Simulation.agents (World.model w1))) in
      match a with
      | Some ?self =>
          let st := eval vm_compute in (Stakeholder.new_strategy self) in
          match st with
          | Some ?staged =>
              let r2 := eval vm_compute in (execute_strategy ascending_env 2 w1) in
              match r2 with
              | (inr tt, ?w') =>
                  assert (E1 : make_move ascending_env 2 example_world = (ok tt, w1))
                    by (vm_compute; reflexivity);
                  assert (E2 : execute_strategy ascending_env 2 w1 = (ok tt, w'))
                    by (vm_compute; reflexivity);
                  destruct (execute_strategy_shares_opened_pools ascending_env 2 w1 w' self
                              staged ascending_env_visits eq_refl eq_refl E2)
                    as [self' [Hself' [Hopened _]]];
                  destruct (Hopened 2%Z) as [_ [pool [Hpool Hheld]]];
                    [vm_compute; left; reflexivity|];
                  exists w1, w', self', pool;
                  split; [exact E1|]; split; [exact E2|]; split; [exact Hself'|];
                  split; [exact Hpool | exact Hheld]
              end
          end
      end
  end.
Defined.

Lemma allocation_changes_between_witness :
  exists changes,
    allocation_changes ascending_env [(1%Z, 1 # 5); (3%Z, 1 # 10)] [(3%Z, 3 # 10); (2%Z, 1 # 2)]
    = ok changes
    /\ dict_get 1%Z changes = Some (- (1 # 5))
    /\ dict_get 3%Z changes = Some ((3 # 10) - (1 # 10))
    /\ dict_get 2%Z changes = Some (1 # 2).
Proof.
  destruct (allocation_changes_between ascending_env
              [(1%Z, 1 # 5); (3%Z, 1 # 10)] [(3%Z, 3 # 10); (2%Z, 1 # 2)] ascending_env_visits)
    as [changes [Hchanges [_ [_ Hget]]]].
  exists changes. split; [exact Hchanges|]. rewrite !Hget. repeat split.
Defined.


